(** * AMW: the indentation-structured markup parser (amw.c)

    A shallow embedding of the block parser: the line reader with its
    one-line push-back, the block reader [_amw_read_block_line], the scalar
    sub-parsers (quoted strings, escapes, numbers), the collection parsers
    and the driver [amw_parse], followed by the properties of the parser.

    Conventions.
    - A character is a [char32_t] code point, kept as a [Z]; a string of the
      UW library is the list of its code points.
    - Positions, indents and line numbers are C [unsigned]; lines are far
      shorter than [UINT_MAX], so they are kept as [nat].
    - The 64-bit accumulator of [parse_unsigned] is a [Z] reduced modulo
      [2^64] after every operation, as the C arithmetic does.
    - A [UwResult] is a [UwValue] that may be a status; statuses are therefore
      constructors of [UwValue] and [uw_error] tests for them.
    - Loops that read lines or walk a line take a [fuel] counter; [None]
      means that the counter ran out, never a result of the C code.
    - The markup is a string in memory and the calls of the UW library
      succeed: the line reader fails only at the end of the input and no
      allocation fails.  The returns by which the C code passes such a
      failure on have no counterpart here; a property that would not hold
      on those returns is stated for the other results only. *)

From Stdlib Require Import ZArith String Ascii List Bool Lia.
Import ListNotations.

Set Implicit Arguments.
Set Warnings "-register-all".

(** ** Characters and strings of the UW library *)

Definition char32_t := Z.
Definition ustring := list char32_t.

Definition chr (a : ascii) : char32_t := Z.of_nat (nat_of_ascii a).

Definition ustr (s : string) : ustring := map chr (list_ascii_of_string s).

Definition LF : char32_t := 10%Z.
Definition AMW_COMMENT : char32_t := chr "#".
Definition BACKSLASH : char32_t := 92%Z.
Definition DQUOTE : char32_t := 34%Z.
Definition SQUOTE : char32_t := 39%Z.

Definition AMW_MAX_RESURSION_DEPTH : nat := 100.

(** The text of a document given line by line, each line closed by LF. *)
Definition doc (lines : list string) : ustring :=
  concat (map (fun s => ustr s ++ [LF]) lines).

(** Modelled from the spec: the string primitives of the hosting UW value
    library (uw_strlen, uw_char_at, uw_isspace, uw_string_skip_spaces,
    uw_string_rtrim, uw_string_trim, uw_substr, uw_strchr,
    uw_substring_eq_cstr, uw_list_dedent, uw_list_join), which the parser
    calls and which live outside this repository.  [uw_char_at] yields 0
    beyond the end of the string. *)
Definition uw_strlen (s : ustring) : nat := length s.

Definition uw_string_index_valid (s : ustring) (position : nat) : bool :=
  position <? length s.

Definition uw_char_at (s : ustring) (position : nat) : char32_t :=
  nth position s 0%Z.

Definition uw_isspace (c : char32_t) : bool :=
  ((c =? 32) || ((9 <=? c) && (c <=? 13)))%Z.

Fixpoint leading_spaces (s : ustring) : nat :=
  match s with
  | [] => 0
  | c :: t => if uw_isspace c then S (leading_spaces t) else 0
  end.

Definition uw_string_skip_spaces (s : ustring) (position : nat) : nat :=
  position + leading_spaces (skipn position s).

Fixpoint uw_string_ltrim (s : ustring) : ustring :=
  match s with
  | [] => []
  | c :: t => if uw_isspace c then uw_string_ltrim t else s
  end.

Definition uw_string_rtrim (s : ustring) : ustring :=
  rev (uw_string_ltrim (rev s)).

Definition uw_string_trim (s : ustring) : ustring :=
  uw_string_rtrim (uw_string_ltrim s).

Definition uw_substr (s : ustring) (start_pos end_pos : nat) : ustring :=
  firstn (end_pos - start_pos) (skipn start_pos s).

Fixpoint index_of (c : char32_t) (s : ustring) : option nat :=
  match s with
  | [] => None
  | x :: t => if (x =? c)%Z then Some 0
              else match index_of c t with
                   | Some i => Some (S i)
                   | None => None
                   end
  end.

(** [uw_strchr s c start] is the position of the first [c] at or after
    [start], when there is one. *)
Definition uw_strchr (s : ustring) (c : char32_t) (start_pos : nat)
    : option nat :=
  match index_of c (skipn start_pos s) with
  | Some i => if start_pos <=? length s then Some (start_pos + i) else None
  | None => None
  end.

Fixpoint ustring_eqb (a b : ustring) : bool :=
  match a, b with
  | [], [] => true
  | x :: a', y :: b' => (x =? y)%Z && ustring_eqb a' b'
  | _, _ => false
  end.

Definition uw_substring_eq_cstr (s : ustring) (start_pos end_pos : nat)
    (cstr : string) : bool :=
  ustring_eqb (uw_substr s start_pos end_pos) (ustr cstr).

Fixpoint uw_list_join (sep : char32_t) (lines : list ustring) : ustring :=
  match lines with
  | [] => []
  | [l] => l
  | l :: rest => l ++ sep :: uw_list_join sep rest
  end.

(** Smallest leading-space indent over the non-empty lines. *)
Fixpoint min_indent (lines : list ustring) : option nat :=
  match lines with
  | [] => None
  | l :: rest =>
      match l, min_indent rest with
      | [], m => m
      | _, None => Some (leading_spaces l)
      | _, Some m => Some (Nat.min (leading_spaces l) m)
      end
  end.

Definition uw_list_dedent (lines : list ustring) : list ustring :=
  match min_indent lines with
  | None => lines
  | Some m => map (skipn m) lines
  end.

(** ** Values and statuses *)

Inductive StatusCode :=
| UW_SUCCESS
| UW_ERROR_EOF
| UW_ERROR_NOT_IMPLEMENTED
| UW_ERROR_INCOMPATIBLE_TYPE
| AMW_END_OF_BLOCK.

(** [AmwStatus] is the status subtype created by [_amw_parser_error]: its
    code is AMW_PARSE_ERROR and it carries [AmwStatusData] and the
    description.  The double of [UwFloat] is kept as the sign argument and
    the text handed to strtod. *)
Inductive UwValue :=
| UwNull
| UwBool (b : bool)
| UwSigned (n : Z)
| UwUnsigned (n : Z)
| UwFloat (sign : Z) (text : ustring)
| UwString (s : ustring)
| UwList (items : list UwValue)
| UwMap (entries : list (UwValue * UwValue))
| UwStatus (code : StatusCode)
| AmwStatus (line_number position : nat) (description : string).

Definition UwOK : UwValue := UwStatus UW_SUCCESS.

Definition uw_error (v : UwValue) : bool :=
  match v with
  | UwStatus UW_SUCCESS => false
  | UwStatus _ => true
  | AmwStatus _ _ _ => true
  | _ => false
  end.

Definition uw_eof (v : UwValue) : bool :=
  match v with
  | UwStatus UW_ERROR_EOF => true
  | _ => false
  end.

Definition _amw_end_of_block (status : UwValue) : bool :=
  match status with
  | UwStatus AMW_END_OF_BLOCK => true
  | _ => false
  end.

Definition uw_is_string (v : UwValue) : bool :=
  match v with
  | UwString _ => true
  | _ => false
  end.

Definition StatusCode_eqb (a b : StatusCode) : bool :=
  match a, b with
  | UW_SUCCESS, UW_SUCCESS
  | UW_ERROR_EOF, UW_ERROR_EOF
  | UW_ERROR_NOT_IMPLEMENTED, UW_ERROR_NOT_IMPLEMENTED
  | UW_ERROR_INCOMPATIBLE_TYPE, UW_ERROR_INCOMPATIBLE_TYPE
  | AMW_END_OF_BLOCK, AMW_END_OF_BLOCK => true
  | _, _ => false
  end.

(** Equality of values, used for the keys of a map. *)
Fixpoint uw_equal (a b : UwValue) {struct a} : bool :=
  let fix list_equal (xs ys : list UwValue) {struct xs} : bool :=
    match xs, ys with
    | [], [] => true
    | x :: xs', y :: ys' => uw_equal x y && list_equal xs' ys'
    | _, _ => false
    end in
  let fix entries_equal (xs ys : list (UwValue * UwValue)) {struct xs} : bool :=
    match xs, ys with
    | [], [] => true
    | (k, v) :: xs', (k', v') :: ys' =>
        uw_equal k k' && uw_equal v v' && entries_equal xs' ys'
    | _, _ => false
    end in
  match a, b with
  | UwNull, UwNull => true
  | UwBool x, UwBool y => Bool.eqb x y
  | UwSigned x, UwSigned y => (x =? y)%Z
  | UwUnsigned x, UwUnsigned y => (x =? y)%Z
  | UwSigned x, UwUnsigned y => (x =? y)%Z
  | UwUnsigned x, UwSigned y => (x =? y)%Z
  | UwFloat s t, UwFloat s' t' => (s =? s')%Z && ustring_eqb t t'
  | UwString x, UwString y => ustring_eqb x y
  | UwList xs, UwList ys => list_equal xs ys
  | UwMap xs, UwMap ys => entries_equal xs ys
  | UwStatus c, UwStatus c' => StatusCode_eqb c c'
  | _, _ => false
  end.

(** [uw_map_update]: the value of an existing key is overwritten in place,
    a new key is appended (maps keep insertion order). *)
Fixpoint map_update (entries : list (UwValue * UwValue)) (key value : UwValue)
    : list (UwValue * UwValue) :=
  match entries with
  | [] => [(key, value)]
  | (k, v) :: rest =>
      if uw_equal k key then (k, value) :: rest
      else (k, v) :: map_update rest key value
  end.

(** ** Parser state *)

(** Modelled from the spec: the line reader of the UW library
    (uw_start_read_lines, uw_read_line_inplace, uw_unread_line,
    uw_get_line_number) over the text of the markup.  [pending] holds the
    lines still to be delivered, a pushed-back line first; the parser never
    pushes back twice without reading in between, so the one-deep limit of
    the push-back is never met.  A line is delivered with its terminator. *)
Record Markup := mkMarkup {
  pending : list ustring;
  lineno : nat
}.

Fixpoint split_lines_from (text cur : ustring) : list ustring :=
  match text with
  | [] => match cur with
          | [] => []
          | _ => [rev cur]
          end
  | c :: t => if (c =? LF)%Z then rev (c :: cur) :: split_lines_from t []
              else split_lines_from t (c :: cur)
  end.

Definition uw_start_read_lines (text : ustring) : Markup :=
  mkMarkup (split_lines_from text []) 0.

Definition uw_unread_line (m : Markup) (line : ustring) : Markup :=
  mkMarkup (line :: pending m) (lineno m - 1).

(** The block parser functions a conversion specifier can name. *)
Inductive AmwBlockParserFunc :=
| Fn_value_parser_func
| Fn_parse_raw_value
| Fn_parse_literal_string
| Fn_parse_folded_string
| Fn_parse_isodate
| Fn_parse_timestamp
| Fn_amw_json_parser_func.

Record AmwParser := mkParser {
  markup : Markup;
  current_line : ustring;
  current_indent : nat;
  line_number : nat;
  block_indent : nat;
  blocklevel : nat;
  max_blocklevel : nat;
  skip_comments : bool;
  eof : bool;
  custom_parsers : list (ustring * AmwBlockParserFunc)
}.

Definition set_markup (m : Markup) (p : AmwParser) : AmwParser :=
  mkParser m (current_line p) (current_indent p) (line_number p)
    (block_indent p) (blocklevel p) (max_blocklevel p) (skip_comments p)
    (eof p) (custom_parsers p).

Definition set_current_line (l : ustring) (p : AmwParser) : AmwParser :=
  mkParser (markup p) l (current_indent p) (line_number p)
    (block_indent p) (blocklevel p) (max_blocklevel p) (skip_comments p)
    (eof p) (custom_parsers p).

Definition set_current_indent (n : nat) (p : AmwParser) : AmwParser :=
  mkParser (markup p) (current_line p) n (line_number p)
    (block_indent p) (blocklevel p) (max_blocklevel p) (skip_comments p)
    (eof p) (custom_parsers p).

Definition set_line_number (n : nat) (p : AmwParser) : AmwParser :=
  mkParser (markup p) (current_line p) (current_indent p) n
    (block_indent p) (blocklevel p) (max_blocklevel p) (skip_comments p)
    (eof p) (custom_parsers p).

Definition set_block_indent (n : nat) (p : AmwParser) : AmwParser :=
  mkParser (markup p) (current_line p) (current_indent p) (line_number p)
    n (blocklevel p) (max_blocklevel p) (skip_comments p)
    (eof p) (custom_parsers p).

Definition set_blocklevel (n : nat) (p : AmwParser) : AmwParser :=
  mkParser (markup p) (current_line p) (current_indent p) (line_number p)
    (block_indent p) n (max_blocklevel p) (skip_comments p)
    (eof p) (custom_parsers p).

Definition set_skip_comments (b : bool) (p : AmwParser) : AmwParser :=
  mkParser (markup p) (current_line p) (current_indent p) (line_number p)
    (block_indent p) (blocklevel p) (max_blocklevel p) b
    (eof p) (custom_parsers p).

Definition set_eof (b : bool) (p : AmwParser) : AmwParser :=
  mkParser (markup p) (current_line p) (current_indent p) (line_number p)
    (block_indent p) (blocklevel p) (max_blocklevel p) (skip_comments p)
    b (custom_parsers p).

Definition builtin_parsers : list (ustring * AmwBlockParserFunc) :=
  [ (ustr "raw", Fn_parse_raw_value);
    (ustr "literal", Fn_parse_literal_string);
    (ustr "folded", Fn_parse_folded_string);
    (ustr "isodate", Fn_parse_isodate);
    (ustr "timestamp", Fn_parse_timestamp);
    (ustr "json", Fn_amw_json_parser_func) ].

(** [amw_create_parser]: block level 1, comments skipped, the six built-in
    conversion specifiers; the line buffer starts empty. *)
Definition amw_create_parser (text : ustring) : AmwParser :=
  mkParser (uw_start_read_lines text) [] 0 0 0 1 AMW_MAX_RESURSION_DEPTH
    true false builtin_parsers.

Fixpoint lookup_parser (table : list (ustring * AmwBlockParserFunc))
    (convspec : ustring) : option AmwBlockParserFunc :=
  match table with
  | [] => None
  | (k, f) :: rest =>
      if ustring_eqb k convspec then Some f else lookup_parser rest convspec
  end.

(** [amw_set_custom_parser]: registers or overwrites a specifier. *)
Fixpoint update_parser (table : list (ustring * AmwBlockParserFunc))
    (convspec : ustring) (f : AmwBlockParserFunc)
    : list (ustring * AmwBlockParserFunc) :=
  match table with
  | [] => [(convspec, f)]
  | (k, g) :: rest =>
      if ustring_eqb k convspec then (k, f) :: rest
      else (k, g) :: update_parser rest convspec f
  end.

Definition amw_set_custom_parser (p : AmwParser) (convspec : string)
    (f : AmwBlockParserFunc) : AmwParser :=
  mkParser (markup p) (current_line p) (current_indent p) (line_number p)
    (block_indent p) (blocklevel p) (max_blocklevel p) (skip_comments p)
    (eof p) (update_parser (custom_parsers p) (ustr convspec) f).

Definition have_custom_parser (p : AmwParser) (convspec : ustring) : bool :=
  match lookup_parser (custom_parsers p) convspec with
  | Some _ => true
  | None => false
  end.

Definition _amw_parser_error (line_number pos : nat) (description : string)
    : UwValue :=
  AmwStatus line_number pos description.

Definition parser_error (p : AmwParser) (pos : nat) (description : string)
    : UwValue :=
  _amw_parser_error (line_number p) pos description.

Definition end_of_line (s : ustring) (position : nat) : bool :=
  negb (uw_string_index_valid s position).

Definition isspace_or_eol_at (s : ustring) (position : nat) : bool :=
  if end_of_line s position then true
  else uw_isspace (uw_char_at s position).

(** ** The block reader *)

(** The effect of a successful [read_line] that delivers [raw], [rest]
    being what stays pending: trailing spaces stripped, indent measured,
    line number taken from the reader. *)
Definition line_read (raw : ustring) (rest : list ustring) (p : AmwParser)
    : AmwParser :=
  let line := uw_string_rtrim raw in
  let n := S (lineno (markup p)) in
  set_line_number n
    (set_current_indent (uw_string_skip_spaces line 0)
       (set_current_line line (set_markup (mkMarkup rest n) p))).

Definition read_line (p : AmwParser) : UwValue * AmwParser :=
  match pending (markup p) with
  | [] => (UwStatus UW_ERROR_EOF, p)
  | raw :: rest => (UwOK, line_read raw rest p)
  end.

Definition is_comment_line (p : AmwParser) : bool :=
  (uw_char_at (current_line p) (current_indent p) =? AMW_COMMENT)%Z.

(** The for(;;) loop of [_amw_read_block_line]; [input] is the pending
    input of the reader, consumed one line per iteration.  At end of input
    the line buffer is destroyed, which leaves it without characters. *)
Fixpoint read_block_line_loop (input : list ustring) (p : AmwParser)
    {struct input} : UwValue * AmwParser :=
  match input with
  | [] =>
      (UwStatus AMW_END_OF_BLOCK, set_current_line [] (set_eof true p))
  | raw :: rest =>
      let p1 := line_read raw rest p in
      if skip_comments p1
         && ((uw_strlen (current_line p1) =? 0) || is_comment_line p1)
      then read_block_line_loop rest p1
      else
        let p2 := if skip_comments p1 then set_skip_comments false p1 else p1 in
        if uw_strlen (current_line p2) =? 0 then (UwOK, p2)
        else if block_indent p2 <=? current_indent p2 then (UwOK, p2)
        else if is_comment_line p2 then read_block_line_loop rest p2
        else
          (UwStatus AMW_END_OF_BLOCK,
           set_current_line []
             (set_markup (uw_unread_line (markup p2) (current_line p2)) p2))
  end.

Definition _amw_read_block_line (p : AmwParser) : UwValue * AmwParser :=
  if eof p then
    if 0 <? blocklevel p then (UwStatus AMW_END_OF_BLOCK, p)
    else (UwStatus UW_ERROR_EOF, p)
  else read_block_line_loop (pending (markup p)) p.

(** ** Fuel *)

Notation "'let*' x ':=' e 'in' k" :=
  (match e with
   | Some x => k
   | None => None
   end)
  (at level 10, x pattern, e at level 100, k at level 200, only parsing).

(** ** Block collector and the string conversions *)

Fixpoint read_block_loop (fuel : nat) (p : AmwParser) (lines : list ustring)
    : option ((UwValue + list ustring) * AmwParser) :=
  match fuel with
  | 0 => None
  | S fuel' =>
      let line := uw_substr (current_line p) (block_indent p)
                    (length (current_line p)) in
      let lines := lines ++ [line] in
      let '(status, p) := _amw_read_block_line p in
      if _amw_end_of_block status then Some (inr lines, p)
      else if uw_error status then Some (inl status, p)
      else read_block_loop fuel' p lines
  end.

Definition _amw_read_block (fuel : nat) (p : AmwParser)
    : option ((UwValue + list ustring) * AmwParser) :=
  read_block_loop fuel p [].

Definition parse_raw_value (fuel : nat) (p : AmwParser)
    : option (UwValue * AmwParser) :=
  let* (r, p) := _amw_read_block fuel p in
  match r with
  | inl status => Some (status, p)
  | inr lines =>
      let lines := if 1 <? length lines then lines ++ [[]] else lines in
      Some (UwString (uw_list_join LF lines), p)
  end.

(** The loop that deletes the empty lines at the end of the list. *)
Fixpoint drop_trailing_empty_rev (rlines : list ustring) : list ustring :=
  match rlines with
  | [] => []
  | l :: rest =>
      if negb (uw_strlen l =? 0) then rlines else drop_trailing_empty_rev rest
  end.

Definition drop_trailing_empty (lines : list ustring) : list ustring :=
  rev (drop_trailing_empty_rev (rev lines)).

Definition parse_literal_string (fuel : nat) (p : AmwParser)
    : option (UwValue * AmwParser) :=
  let* (r, p) := _amw_read_block fuel p in
  match r with
  | inl status => Some (status, p)
  | inr lines =>
      let lines := uw_list_dedent lines in
      let lines := drop_trailing_empty lines in
      let lines := if 1 <? length lines then lines ++ [[]] else lines in
      Some (UwString (uw_list_join LF lines), p)
  end.

Definition nonempty_line (l : ustring) : bool := negb (uw_strlen l =? 0).

Definition parse_folded_string (fuel : nat) (p : AmwParser)
    : option (UwValue * AmwParser) :=
  let* (r, p) := _amw_read_block fuel p in
  match r with
  | inl status => Some (status, p)
  | inr lines =>
      let lines := uw_list_dedent lines in
      let lines := filter nonempty_line lines in
      if length lines =? 0 then Some (UwString [], p)
      else Some (UwString (uw_list_join (chr " ") lines), p)
  end.

Definition parse_isodate (p : AmwParser) : UwValue * AmwParser :=
  (UwStatus UW_ERROR_NOT_IMPLEMENTED, p).

Definition parse_timestamp (p : AmwParser) : UwValue * AmwParser :=
  (UwStatus UW_ERROR_NOT_IMPLEMENTED, p).

Definition _amw_json_parser_func (p : AmwParser) : UwValue * AmwParser :=
  (UwStatus UW_ERROR_NOT_IMPLEMENTED, p).

(** ** Escape decoding *)

Definition wrap32 (v : Z) : Z := (v mod 2 ^ 32)%Z.

(** The for loop of the octal escape: [n] iterations are left and [i] are
    done; [pos] is advanced before each digit is read. *)
Fixpoint octal_loop (n i : nat) (line : ustring) (line_number pos : nat)
    (v : Z) : UwValue + (Z * nat) :=
  match n with
  | 0 => inr (v, pos)
  | S n' =>
      let pos := S pos in
      if end_of_line line pos then
        if i =? 0
        then inl (_amw_parser_error line_number pos "Incomplete octal value")
        else inr (v, pos)
      else
        let c := uw_char_at line pos in
        if ((chr "0" <=? c) && (c <=? chr "7"))%Z
        then octal_loop n' (S i) line line_number pos
               (wrap32 (wrap32 (Z.shiftl v 3) + (c - chr "0")))
        else inl (_amw_parser_error line_number pos "Bad octal value")
  end.

(** The for loop at label parse_hex_value, [n] digits being left. *)
Fixpoint hex_loop (n : nat) (line : ustring) (line_number pos : nat) (v : Z)
    : UwValue + (Z * nat) :=
  match n with
  | 0 => inr (v, pos)
  | S n' =>
      let pos := S pos in
      if end_of_line line pos then
        inl (_amw_parser_error line_number pos "Incomplete hexadecimal value")
      else
        let c := uw_char_at line pos in
        if ((chr "0" <=? c) && (c <=? chr "9"))%Z
        then hex_loop n' line line_number pos
               (wrap32 (wrap32 (Z.shiftl v 4) + (c - chr "0")))
        else if ((chr "a" <=? c) && (c <=? chr "f"))%Z
        then hex_loop n' line line_number pos
               (wrap32 (wrap32 (Z.shiftl v 4) + (c - chr "a" + 10)))
        else if ((chr "A" <=? c) && (c <=? chr "F"))%Z
        then hex_loop n' line line_number pos
               (wrap32 (wrap32 (Z.shiftl v 4) + (c - chr "A" + 10)))
        else inl (_amw_parser_error line_number pos "Bad hexadecimal value")
  end.

(** What the switch on the character after a backslash does. *)
Inductive escape_kind :=
| EscChar (c : char32_t)
| EscOctal
| EscHex (hexlen : nat)
| EscInvalid.

Definition classify_escape (c : char32_t) : escape_kind :=
  if ((c =? SQUOTE) || (c =? DQUOTE) || (c =? chr "?") || (c =? BACKSLASH))%Z
  then EscChar c
  else if (c =? chr "a")%Z then EscChar 7%Z
  else if (c =? chr "b")%Z then EscChar 8%Z
  else if (c =? chr "f")%Z then EscChar 12%Z
  else if (c =? chr "n")%Z then EscChar 10%Z
  else if (c =? chr "r")%Z then EscChar 13%Z
  else if (c =? chr "t")%Z then EscChar 9%Z
  else if (c =? chr "v")%Z then EscChar 11%Z
  else if (c =? chr "o")%Z then EscOctal
  else if (c =? chr "x")%Z then EscHex 2
  else if (c =? chr "u")%Z then EscHex 4
  else if (c =? chr "U")%Z then EscHex 8
  else EscInvalid.

(** The while loop of [_amw_unescape_line].  The second component is what is
    written through [end_pos], when something is.  A backslash that ends the
    line makes the function return the status UwOK(), not the string. *)
Fixpoint unescape_loop (fuel : nat) (line : ustring) (line_number : nat)
    (quote : char32_t) (len pos : nat) (result : ustring)
    : option (UwValue * option nat) :=
  match fuel with
  | 0 => None
  | S fuel' =>
      if pos <? len then
        let c := uw_char_at line pos in
        if (c =? quote)%Z then Some (UwString result, Some pos)
        else if negb (c =? BACKSLASH)%Z then
          unescape_loop fuel' line line_number quote len (S pos) (result ++ [c])
        else
          let pos := S pos in
          if end_of_line line pos then Some (UwOK, None)
          else
            let c := uw_char_at line pos in
            match classify_escape c with
            | EscChar x =>
                unescape_loop fuel' line line_number quote len (S pos)
                  (result ++ [x])
            | EscOctal =>
                match octal_loop 3 0 line line_number pos 0%Z with
                | inl err => Some (err, None)
                | inr (v, pos) =>
                    unescape_loop fuel' line line_number quote len (S pos)
                      (result ++ [v])
                end
            | EscHex hexlen =>
                match hex_loop hexlen line line_number pos 0%Z with
                | inl err => Some (err, None)
                | inr (v, pos) =>
                    unescape_loop fuel' line line_number quote len (S pos)
                      (result ++ [v])
                end
            | EscInvalid =>
                unescape_loop fuel' line line_number quote len (S pos)
                  (result ++ [BACKSLASH; c])
            end
      else Some (UwString result, Some pos)
  end.

Definition _amw_unescape_line (line : ustring) (line_number : nat)
    (quote : char32_t) (start_pos : nat) : option (UwValue * option nat) :=
  let len := uw_strlen line in
  if len <=? start_pos then Some (UwString [], Some start_pos)
  else unescape_loop (S (len - start_pos)) line line_number quote len
         start_pos [].

(** The loop of [find_closing_quote]: [Some (Some e)] when it returns true
    with [e] written to [end_pos], [Some None] when it returns false. *)
Fixpoint find_closing_quote_loop (fuel : nat) (line : ustring)
    (quote : char32_t) (start_pos : nat) : option (option nat) :=
  match fuel with
  | 0 => None
  | S fuel' =>
      match uw_strchr line quote start_pos with
      | None => Some None
      | Some end_pos =>
          if negb (end_pos =? 0)
             && (uw_char_at line (end_pos - 1) =? BACKSLASH)%Z
          then find_closing_quote_loop fuel' line quote (end_pos + 1)
          else Some (Some (S end_pos))
      end
  end.

Definition find_closing_quote (line : ustring) (quote : char32_t)
    (start_pos : nat) : option (option nat) :=
  find_closing_quote_loop (S (length line)) line quote start_pos.

(** ** Numbers *)

Definition wrap64 (v : Z) : Z := (v mod 2 ^ 64)%Z.
Definition UW_SIGNED_MAX : Z := (2 ^ 63 - 1)%Z.

(** The digit test of [parse_unsigned]: the value of [c] as a digit of
    [radix], or nothing when the conversion ends at [c]. *)
Definition digit_value (radix : Z) (c : char32_t) : option Z :=
  if (radix =? 16)%Z then
    if ((chr "a" <=? c) && (c <=? chr "f"))%Z then Some (c - (chr "a" - 10))%Z
    else if ((chr "A" <=? c) && (c <=? chr "F"))%Z
    then Some (c - (chr "A" - 10))%Z
    else if ((chr "0" <=? c) && (c <=? chr "9"))%Z then Some (c - chr "0")%Z
    else None
  else if ((chr "0" <=? c) && (c <? chr "0" + radix))%Z
  then Some (c - chr "0")%Z
  else None.

(** The for(;;) loop of [parse_unsigned].  [start] is the position the
    caller passed in [*pos]; the second component of the result is [*pos]
    after the call. *)
Fixpoint parse_unsigned_loop (fuel : nat) (p : AmwParser) (start : nat)
    (radix : Z) (pos : nat) (digit_seen separator_seen : bool) (result : Z)
    : option (UwValue * nat) :=
  match fuel with
  | 0 => None
  | S fuel' =>
      let c := uw_char_at (current_line p) pos in
      if ((c =? SQUOTE) || (c =? chr "_"))%Z then
        if separator_seen
        then Some (parser_error p pos "Duplicate separator in the number",
                   start)
        else if negb digit_seen
        then Some (parser_error p pos
                     "Separator is not allowed in the beginning of number",
                   start)
        else
          let pos := S pos in
          if end_of_line (current_line p) pos
          then Some (parser_error p pos "Bad number", start)
          else parse_unsigned_loop fuel' p start radix pos digit_seen true
                 result
      else
        match digit_value radix c with
        | None =>
            if negb digit_seen
            then Some (parser_error p pos "Bad number", start)
            else Some (UwUnsigned result, pos)
        | Some d =>
            let prev_value := result in
            let result := wrap64 (wrap64 (result * radix) + d) in
            if (result <? prev_value)%Z
            then Some (parser_error p start "Numeric overflow", start)
            else
              let pos := S pos in
              if end_of_line (current_line p) pos
              then Some (UwUnsigned result, pos)
              else parse_unsigned_loop fuel' p start radix pos true false
                     result
        end
  end.

Definition parse_unsigned (p : AmwParser) (pos : nat) (radix : Z)
    : option (UwValue * nat) :=
  parse_unsigned_loop (S (length (current_line p) - pos)) p pos radix pos
    false false 0%Z.

Definition is_digit (c : char32_t) : bool :=
  ((chr "0" <=? c) && (c <=? chr "9"))%Z.

Fixpoint leading_digits (s : ustring) : nat :=
  match s with
  | [] => 0
  | c :: t => if is_digit c then S (leading_digits t) else 0
  end.

Definition skip_digits (s : ustring) (pos : nat) : nat :=
  pos + leading_digits (skipn pos s).

(** Label done of [_amw_parse_number].  The range check of strtod is not
    part of the model. *)
Definition number_done (p : AmwParser) (start_pos : nat) (sign : Z)
    (is_float : bool) (base : Z) (pos : nat) : UwValue * nat :=
  if is_float then
    (UwFloat sign (uw_substr (current_line p) start_pos pos), pos)
  else if (UW_SIGNED_MAX <? base)%Z then
    if (sign <? 0)%Z then (parser_error p start_pos "Integer overflow", pos)
    else (UwUnsigned base, pos)
  else if ((sign <? 0) && negb (base =? 0))%Z
  then (UwSigned (- base), pos)
  else (UwSigned base, pos).

Definition decimal_float_only (p : AmwParser) (start_pos : nat) : UwValue :=
  parser_error p start_pos
    "Only decimal representation is supported for floating point numbers".

(** The part of [_amw_parse_number] after the magnitude: the exponent or the
    terminator, [c] being the character at [pos]. *)
Definition number_exponent (p : AmwParser) (start_pos : nat) (sign : Z)
    (radix : Z) (is_float : bool) (base : Z) (pos : nat) (c : char32_t)
    : UwValue * nat :=
  let line := current_line p in
  if ((c =? chr "e") || (c =? chr "E"))%Z then
    if negb (radix =? 10)%Z then (decimal_float_only p start_pos, pos)
    else
      let pos := S pos in
      if end_of_line line pos then number_done p start_pos sign true base pos
      else
        let c := uw_char_at line pos in
        let pos := if ((c =? chr "-") || (c =? chr "+"))%Z then S pos
                   else pos in
        let pos := skip_digits line pos in
        number_done p start_pos sign true base pos
  else if (negb (c =? AMW_COMMENT) && negb (c =? chr ":")
           && negb (uw_isspace c))%Z
  then (parser_error p start_pos "Bad number", pos)
  else number_done p start_pos sign is_float base pos.

(** The part after the radix prefix. *)
Definition number_magnitude (p : AmwParser) (start_pos : nat) (sign : Z)
    (radix : Z) (pos : nat) : option (UwValue * nat) :=
  let line := current_line p in
  let* (base, pos) := parse_unsigned p pos radix in
  match base with
  | UwUnsigned b =>
      if end_of_line line pos
      then Some (number_done p start_pos sign false b pos)
      else
        let c := uw_char_at line pos in
        if (c =? chr ".")%Z then
          if negb (radix =? 10)%Z
          then Some (decimal_float_only p start_pos, pos)
          else
            let pos := skip_digits line (pos + 1) in
            if end_of_line line pos
            then Some (number_done p start_pos sign true b pos)
            else Some (number_exponent p start_pos sign radix true b pos
                         (uw_char_at line pos))
        else Some (number_exponent p start_pos sign radix false b pos c)
  | _ => Some (base, pos)
  end.

(** [_amw_parse_number]: the value or the error, and what [end_pos] holds
    (it is written on success only). *)
Definition _amw_parse_number (p : AmwParser) (start_pos : nat) (sign : Z)
    : option (UwValue * nat) :=
  let line := current_line p in
  let pos := start_pos in
  let c := uw_char_at line pos in
  if (c =? chr "0")%Z then
    let pos := S pos in
    if end_of_line line pos
    then Some (number_done p start_pos sign false 0%Z pos)
    else
      let c := uw_char_at line pos in
      let '(radix, pos) :=
        if ((c =? chr "b") || (c =? chr "B"))%Z then (2%Z, S pos)
        else if ((c =? chr "o") || (c =? chr "O"))%Z then (8%Z, S pos)
        else if ((c =? chr "x") || (c =? chr "X"))%Z then (16%Z, S pos)
        else (10%Z, pos) in
      if end_of_line line pos
      then Some (parser_error p start_pos "Bad number", pos)
      else number_magnitude p start_pos sign radix pos
  else number_magnitude p start_pos sign 10%Z pos.

(** ** Positions, specifiers and separators *)

Definition comment_or_end_of_line (p : AmwParser) (position : nat) : bool :=
  let position := uw_string_skip_spaces (current_line p) position in
  end_of_line (current_line p) position
  || (uw_char_at (current_line p) position =? AMW_COMMENT)%Z.

Definition get_start_position (p : AmwParser) : nat :=
  if block_indent p <? current_indent p then current_indent p
  else uw_string_skip_spaces (current_line p) (block_indent p).

(** [parse_convspec]: the specifier as a string, or UwNull when there is
    none; the second component is what [end_pos] holds afterwards, with
    [end_pos0] its content before the call. *)
Definition parse_convspec (p : AmwParser) (opening_colon_pos : nat)
    (end_pos0 : nat) : UwValue * nat :=
  let start_pos := opening_colon_pos + 1 in
  match uw_strchr (current_line p) (chr ":") start_pos with
  | None => (UwNull, end_pos0)
  | Some end_pos =>
      if end_pos =? start_pos then (UwNull, end_pos)
      else if negb (isspace_or_eol_at (current_line p) (end_pos + 1))
      then (UwNull, end_pos)
      else
        let convspec :=
          uw_string_trim (uw_substr (current_line p) start_pos end_pos) in
        if negb (have_custom_parser p convspec) then (UwNull, end_pos)
        else (UwString convspec, end_pos)
  end.

(** [get_custom_parser]: the C code asserts that the table holds the
    specifier.  [parse_value] calls it only with a name that
    [parse_convspec] found in the table; the default below stands for the
    failed assertion and is never taken there. *)
Definition get_custom_parser (p : AmwParser) (convspec : ustring)
    : AmwBlockParserFunc :=
  match lookup_parser (custom_parsers p) convspec with
  | Some f => f
  | None => Fn_value_parser_func
  end.

Definition is_kv_separator (p : AmwParser) (colon_pos : nat) : UwValue :=
  if end_of_line (current_line p) (colon_pos + 1) then UwBool true
  else
    let c := uw_char_at (current_line p) (colon_pos + 1) in
    if uw_isspace c then UwBool true
    else if negb (c =? chr ":")%Z then UwBool false
    else
      let '(convspec, _) := parse_convspec p colon_pos 0 in
      if uw_error convspec then convspec
      else UwBool (uw_is_string convspec).

Definition bool_value (v : UwValue) : bool :=
  match v with
  | UwBool b => b
  | _ => false
  end.

(** ** Quoted strings and the value dispatcher *)

Section Parser.

(** The multi-line branch of [parse_quoted_string] takes the line number of
    each line from the list of lines, not from the list of line numbers: it
    reads the [unsigned_value] member of a value that holds a string.  What
    that member holds depends on the representation of strings in the UW
    library, so it is a parameter of the parser. *)
Variable string_as_unsigned : ustring -> nat.

(** [uw_list_join] over the unescaped lines; an item that is not a string
    (the status UwOK() of a line that ends in a backslash) makes the join
    fail. *)
Fixpoint strings_of (items : list UwValue) : option (list ustring) :=
  match items with
  | [] => Some []
  | UwString s :: rest =>
      match strings_of rest with
      | Some l => Some (s :: l)
      | None => None
      end
  | _ :: _ => None
  end.

Definition join_values (sep : char32_t) (items : list UwValue) : UwValue :=
  match strings_of items with
  | Some l => UwString (uw_list_join sep l)
  | None => UwStatus UW_ERROR_INCOMPATIBLE_TYPE
  end.

(** The loop that reads the lines of a multi-line string.  The result is
    [inl status] for an error return (the block indent is then left as it
    is), else the lines, their numbers, whether the closing quote was seen
    and the content of [end_pos]. *)
Fixpoint quoted_block_loop (fuel : nat) (p : AmwParser) (quote : char32_t)
    (opening_quote_pos : nat) (lines : list ustring) (line_numbers : list nat)
    (end_pos : nat)
    : option ((UwValue + (list ustring * list nat * bool * nat)) * AmwParser) :=
  match fuel with
  | 0 => None
  | S fuel' =>
      let line := uw_substr (current_line p) (block_indent p)
                    (length (current_line p)) in
      let line_numbers := line_numbers ++ [line_number p] in
      let* found :=
        find_closing_quote (current_line p) quote (opening_quote_pos + 1) in
      match found with
      | Some end_pos =>
          let final_line := uw_substr line 0 (end_pos - 1) in
          Some (inr (lines ++ [final_line], line_numbers, true, end_pos), p)
      | None =>
          let lines := lines ++ [line] in
          let '(status, p) := _amw_read_block_line p in
          if _amw_end_of_block status
          then Some (inr (lines, line_numbers, false, end_pos), p)
          else if uw_error status then Some (inl status, p)
          else quoted_block_loop fuel' p quote opening_quote_pos lines
                 line_numbers end_pos
      end
  end.

(** The loop that deletes the empty lines together with their numbers. *)
Fixpoint drop_empty_lines (lines : list ustring) (line_numbers : list nat)
    : list ustring * list nat :=
  match lines, line_numbers with
  | l :: ls, n :: ns =>
      let '(ls', ns') := drop_empty_lines ls ns in
      if uw_strlen l =? 0 then (ls', ns') else (l :: ls', n :: ns')
  | l :: ls, [] =>
      let '(ls', ns') := drop_empty_lines ls [] in
      if uw_strlen l =? 0 then (ls', ns') else (l :: ls', ns')
  | [], ns => ([], ns)
  end.

(** The loop that unescapes the lines: the line number handed to
    [_amw_unescape_line] is the [unsigned_value] of the line itself. *)
Fixpoint unescape_lines (quote : char32_t) (lines : list ustring)
    (done : list UwValue) : option UwValue :=
  match lines with
  | [] => Some (join_values (chr " ") done)
  | line :: rest =>
      let line_number := string_as_unsigned line in
      let* (unescaped, _) := _amw_unescape_line line line_number quote 0 in
      if uw_error unescaped then Some unescaped
      else unescape_lines quote rest (done ++ [unescaped])
  end.

(** [parse_quoted_string]: the string or the error, the content of
    [end_pos] ([end_pos0] before the call), and the parser. *)
Definition parse_quoted_string (fuel : nat) (p : AmwParser)
    (opening_quote_pos : nat) (end_pos0 : nat)
    : option (UwValue * nat * AmwParser) :=
  let quote := uw_char_at (current_line p) opening_quote_pos in
  let* found :=
    find_closing_quote (current_line p) quote (opening_quote_pos + 1) in
  match found with
  | Some end_pos =>
      let* (r, _) :=
        _amw_unescape_line (current_line p) (line_number p) quote
          (opening_quote_pos + 1) in
      Some (r, end_pos, p)
  | None =>
      let saved_block_indent := block_indent p in
      let p := set_block_indent (opening_quote_pos + 1) p in
      let* (r, p) :=
        quoted_block_loop fuel p quote opening_quote_pos [] [] end_pos0 in
      match r with
      | inl status => Some (status, end_pos0, p)
      | inr (lines, line_numbers, closing_quote_detected, end_pos) =>
          let p := set_block_indent saved_block_indent p in
          let no_quote :=
            negb closing_quote_detected
            && negb ((current_indent p =? opening_quote_pos)
                     && (uw_char_at (current_line p) (current_indent p)
                         =? quote)%Z) in
          if no_quote
          then Some (parser_error p (current_indent p)
                       "String contains no closing quote", end_pos, p)
          else
            let end_pos := if closing_quote_detected then end_pos
                           else opening_quote_pos + 1 in
            let lines := uw_list_dedent lines in
            let '(lines, line_numbers) := drop_empty_lines lines line_numbers in
            if length lines =? 0 then Some (UwString [], end_pos, p)
            else
              let* r := unescape_lines quote lines [] in
              Some (r, end_pos, p)
      end
  end.

(** The dispatcher and the collection parsers call each other.
    [nested_value_pos] is [Some v] for a pointer to a cell that holds [v]
    and [None] for nullptr; [parse_value] and [check_value_end] give back
    the content of the cell. *)
Fixpoint parse_value (fuel : nat) (p : AmwParser)
    (nested_value_pos : option nat) {struct fuel}
    : option (UwValue * option nat * AmwParser) :=
  match fuel with
  | 0 => None
  | S fuel' =>
      let start_pos := get_start_position p in
      let c := uw_char_at (current_line p) start_pos in
      if (c =? chr ":")%Z then
        match nested_value_pos with
        | Some _ =>
            Some (parser_error p start_pos
                    "Map key expected and it cannot start with colon",
                  nested_value_pos, p)
        | None =>
            let '(convspec, value_pos) := parse_convspec p start_pos 0 in
            if uw_error convspec then Some (convspec, None, p)
            else
              match convspec with
              | UwString name =>
                  let* (r, p) :=
                    if end_of_line (current_line p) value_pos
                    then parse_nested_block_from_next_line fuel' p
                           (get_custom_parser p name)
                    else parse_nested_block fuel' p value_pos
                           (get_custom_parser p name) in
                  Some (r, None, p)
              | _ =>
                  let* (r, p) := parse_literal_string fuel' p in
                  Some (r, None, p)
              end
        end
      else if (c =? chr "-")%Z then
        let next_pos := start_pos + 1 in
        let next_chr := uw_char_at (current_line p) next_pos in
        if is_digit next_chr then
          let* (number, end_pos) := _amw_parse_number p next_pos (-1)%Z in
          check_value_end fuel' p number end_pos nested_value_pos
        else if isspace_or_eol_at (current_line p) next_pos then
          match nested_value_pos with
          | Some _ =>
              Some (parser_error p start_pos
                      "Map key expected and it cannot be a list",
                    nested_value_pos, p)
          | None =>
              let* (r, p) := parse_list fuel' p in
              Some (r, None, p)
          end
        else
          let* (r, p) := parse_literal_string_or_map fuel' p in
          Some (r, nested_value_pos, p)
      else if ((c =? DQUOTE) || (c =? DQUOTE))%Z then
        let start_line := line_number p in
        let* (str, end_pos, p) := parse_quoted_string fuel' p start_pos 0 in
        if uw_error str then Some (str, nested_value_pos, p)
        else
          let end_line := line_number p in
          if end_line =? start_line
          then check_value_end fuel' p str end_pos nested_value_pos
          else if comment_or_end_of_line p end_pos
          then Some (str, nested_value_pos, p)
          else Some (parser_error p end_pos "Bad character after quoted string",
                     nested_value_pos, p)
      else if uw_substring_eq_cstr (current_line p) start_pos (start_pos + 4)
                "null"
      then check_value_end fuel' p UwNull (start_pos + 4) nested_value_pos
      else if uw_substring_eq_cstr (current_line p) start_pos (start_pos + 4)
                "true"
      then check_value_end fuel' p (UwBool true) (start_pos + 4)
             nested_value_pos
      else if uw_substring_eq_cstr (current_line p) start_pos (start_pos + 5)
                "false"
      then check_value_end fuel' p (UwBool false) (start_pos + 5)
             nested_value_pos
      else
        let next_chr := uw_char_at (current_line p) (start_pos + 1) in
        let '(start_pos, c) :=
          if (c =? chr "+")%Z && is_digit next_chr
          then (start_pos + 1, next_chr)
          else (start_pos, c) in
        if is_digit c then
          let* (number, end_pos) := _amw_parse_number p start_pos 1%Z in
          check_value_end fuel' p number end_pos nested_value_pos
        else
          let* (r, p) := parse_literal_string_or_map fuel' p in
          Some (r, nested_value_pos, p)
  end

with check_value_end (fuel : nat) (p : AmwParser) (value : UwValue)
    (end_pos : nat) (nested_value_pos : option nat) {struct fuel}
    : option (UwValue * option nat * AmwParser) :=
  match fuel with
  | 0 => None
  | S fuel' =>
      if uw_error value then Some (value, nested_value_pos, p)
      else
        let end_pos := uw_string_skip_spaces (current_line p) end_pos in
        if end_of_line (current_line p) end_pos then
          match nested_value_pos with
          | Some _ =>
              Some (parser_error p end_pos "Map key expected",
                    nested_value_pos, p)
          | None =>
              let '(status, p) := _amw_read_block_line p in
              if negb (_amw_end_of_block status) && uw_error status
              then Some (status, None, p)
              else Some (value, None, p)
          end
        else
          let c := uw_char_at (current_line p) end_pos in
          if (c =? chr ":")%Z then
            let kvs := is_kv_separator p end_pos in
            if uw_error kvs then Some (kvs, nested_value_pos, p)
            else if bool_value kvs then
              match nested_value_pos with
              | Some _ => Some (value, Some (end_pos + 1), p)
              | None =>
                  let* (r, p) := parse_map fuel' p value (end_pos + 2) in
                  Some (r, None, p)
              end
            else Some (parser_error p (end_pos + 1)
                         "Bad character encountered", nested_value_pos, p)
          else if negb (c =? AMW_COMMENT)%Z then
            Some (parser_error p end_pos "Bad character encountered",
                  nested_value_pos, p)
          else
            let '(status, p) := _amw_read_block_line p in
            if negb (_amw_end_of_block status) && uw_error status
            then Some (status, nested_value_pos, p)
            else Some (value, nested_value_pos, p)
  end

with parse_literal_string_or_map (fuel : nat) (p : AmwParser) {struct fuel}
    : option (UwValue * AmwParser) :=
  match fuel with
  | 0 => None
  | S fuel' =>
      let start_pos := get_start_position p in
      let as_map :=
        match uw_strchr (current_line p) (chr ":") start_pos with
        | Some colon_pos => Some (colon_pos, is_kv_separator p colon_pos)
        | None => None
        end in
      match as_map with
      | Some (colon_pos, kvs) =>
          if uw_error kvs then Some (kvs, p)
          else if bool_value kvs then
            let first_key :=
              uw_string_trim (uw_substr (current_line p) start_pos colon_pos) in
            parse_map fuel' p (UwString first_key) (colon_pos + 2)
          else parse_literal_string fuel' p
      | None => parse_literal_string fuel' p
      end
  end

with parse_nested_block (fuel : nat) (p : AmwParser) (block_pos : nat)
    (parser_func : AmwBlockParserFunc) {struct fuel}
    : option (UwValue * AmwParser) :=
  match fuel with
  | 0 => None
  | S fuel' =>
      if max_blocklevel p <=? blocklevel p
      then Some (parser_error p (current_indent p) "Too many nested blocks", p)
      else
        let p := set_blocklevel (blocklevel p + 1) p in
        let saved_block_indent := block_indent p in
        let p := set_block_indent block_pos p in
        let* (result, p) := call_parser_func fuel' parser_func p in
        let p := set_block_indent saved_block_indent p in
        let p := set_blocklevel (blocklevel p - 1) p in
        Some (result, p)
  end

with parse_nested_block_from_next_line (fuel : nat) (p : AmwParser)
    (parser_func : AmwBlockParserFunc) {struct fuel}
    : option (UwValue * AmwParser) :=
  match fuel with
  | 0 => None
  | S fuel' =>
      let p := set_block_indent (block_indent p + 1) p in
      let '(status, p) := _amw_read_block_line p in
      let p := set_block_indent (block_indent p - 1) p in
      if _amw_end_of_block status
      then Some (parser_error p (current_indent p) "Empty block", p)
      else if uw_error status then Some (status, p)
      else parse_nested_block fuel' p (block_indent p + 1) parser_func
  end

with call_parser_func (fuel : nat) (parser_func : AmwBlockParserFunc)
    (p : AmwParser) {struct fuel} : option (UwValue * AmwParser) :=
  match fuel with
  | 0 => None
  | S fuel' =>
      match parser_func with
      | Fn_value_parser_func =>
          let* (r, _, p) := parse_value fuel' p None in
          Some (r, p)
      | Fn_parse_raw_value => parse_raw_value fuel' p
      | Fn_parse_literal_string => parse_literal_string fuel' p
      | Fn_parse_folded_string => parse_folded_string fuel' p
      | Fn_parse_isodate => Some (parse_isodate p)
      | Fn_parse_timestamp => Some (parse_timestamp p)
      | Fn_amw_json_parser_func => Some (_amw_json_parser_func p)
      end
  end

with parse_list (fuel : nat) (p : AmwParser) {struct fuel}
    : option (UwValue * AmwParser) :=
  match fuel with
  | 0 => None
  | S fuel' => parse_list_loop fuel' p (get_start_position p) []
  end

(** One turn of the for(;;) of [parse_list]. *)
with parse_list_loop (fuel : nat) (p : AmwParser) (item_indent : nat)
    (result : list UwValue) {struct fuel} : option (UwValue * AmwParser) :=
  match fuel with
  | 0 => None
  | S fuel' =>
      let next_pos := item_indent + 1 in
      if negb (isspace_or_eol_at (current_line p) next_pos)
      then Some (parser_error p item_indent "Bad list item", p)
      else
        let* (item, p) :=
          if comment_or_end_of_line p next_pos
          then parse_nested_block_from_next_line fuel' p Fn_value_parser_func
          else parse_nested_block fuel' p (next_pos + 1) Fn_value_parser_func in
        if uw_error item then Some (item, p)
        else
          let result := result ++ [item] in
          let '(status, p) := _amw_read_block_line p in
          if _amw_end_of_block status then Some (UwList result, p)
          else if uw_error status then Some (status, p)
          else if negb (current_indent p =? item_indent)
          then Some (parser_error p (current_indent p)
                       "Bad indentation of list item", p)
          else parse_list_loop fuel' p item_indent result
  end

with parse_map (fuel : nat) (p : AmwParser) (first_key : UwValue)
    (value_pos : nat) {struct fuel} : option (UwValue * AmwParser) :=
  match fuel with
  | 0 => None
  | S fuel' =>
      parse_map_loop fuel' p (get_start_position p) [] first_key value_pos
  end

(** One turn of the for(;;) of [parse_map]. *)
with parse_map_loop (fuel : nat) (p : AmwParser) (key_indent : nat)
    (result : list (UwValue * UwValue)) (key : UwValue) (value_pos : nat)
    {struct fuel} : option (UwValue * AmwParser) :=
  match fuel with
  | 0 => None
  | S fuel' =>
      let* (value, p) :=
        if comment_or_end_of_line p value_pos
        then parse_nested_block_from_next_line fuel' p Fn_value_parser_func
        else parse_nested_block fuel' p value_pos Fn_value_parser_func in
      if uw_error value then Some (value, p)
      else
        let result := map_update result key value in
        let '(status, p) := _amw_read_block_line p in
        if _amw_end_of_block status then Some (UwMap result, p)
        else if uw_error status then Some (status, p)
        else if negb (current_indent p =? key_indent)
        then Some (parser_error p (current_indent p)
                     "Bad indentation of map key", p)
        else
          let* (key, nvp, p) := parse_value fuel' p (Some value_pos) in
          if uw_error key then Some (key, p)
          else
            let value_pos := match nvp with
                             | Some v => v
                             | None => value_pos
                             end in
            parse_map_loop fuel' p key_indent result key value_pos
  end.

Definition value_parser_func (fuel : nat) (p : AmwParser)
    : option (UwValue * AmwParser) :=
  let* (r, _, p) := parse_value fuel p None in
  Some (r, p).

(** [amw_parse]: the parser is created over the text of the markup and
    deleted on return, so the result is the value or the status alone. *)
Definition amw_parse (fuel : nat) (text : ustring) : option UwValue :=
  let p := amw_create_parser text in
  let '(status, p) := _amw_read_block_line p in
  if _amw_end_of_block status && eof p then Some (UwStatus UW_ERROR_EOF)
  else if uw_error status then Some status
  else
    let* (result, p) := value_parser_func fuel p in
    if uw_error result then Some result
    else
      let '(status, p) := _amw_read_block_line p in
      if eof p then Some result
      else if uw_error status then Some status
      else Some (parser_error p (current_indent p)
                   "Extra data after parsed value").

End Parser.

(** ** The JSON entry point (amw_json.c) *)

(** [amw_parse_json]: the first read, the JSON block parser, and the test
    that nothing follows the value. *)
Definition amw_parse_json (text : ustring) : UwValue :=
  let p := amw_create_parser text in
  let '(status, p) := _amw_read_block_line p in
  if uw_error status then status
  else
    let '(result, p) := _amw_json_parser_func p in
    if uw_error result then result
    else
      let '(status, p) := _amw_read_block_line p in
      if eof p then result
      else parser_error p (current_indent p) "Extra data after parsed value".

(** * Vocabulary of the properties *)

(** ** Documents *)

(** The text of a document given as lines joined by LF, the last line
    without terminator. *)
Definition text_of (lines : list ustring) : ustring := uw_list_join LF lines.

(** The characters [s] between double quotes. *)
Definition quoted (s : ustring) : ustring := DQUOTE :: s ++ [DQUOTE].

(** The text of comment lines, each closed by LF. *)
Definition comment_lines (comments : list ustring) : ustring :=
  concat (map (fun c => c ++ [LF]) comments).

(** [c] holds no line feed. *)
Definition one_line (c : ustring) : Prop :=
  Forall (fun x => (x =? LF)%Z = false) c.

(** A view of strings as unsigned numbers that is constantly 0, for the
    documents in which [unsigned_value] of a string plays no part. *)
Definition zero_view : ustring -> nat := fun _ => 0.

(** ** The block reader and comment lines *)

(** One turn of the loop of the reader after the test of [skip_comments]. *)
Definition after_skip (rest : list ustring) (p2 : AmwParser)
    : UwValue * AmwParser :=
  if uw_strlen (current_line p2) =? 0 then (UwOK, p2)
  else if block_indent p2 <=? current_indent p2 then (UwOK, p2)
  else if is_comment_line p2 then read_block_line_loop rest p2
  else
    (UwStatus AMW_END_OF_BLOCK,
     set_current_line []
       (set_markup (uw_unread_line (markup p2) (current_line p2)) p2)).

(** The indent [read_line] measures on the raw line [raw]. *)
Definition indent_of (raw : ustring) : nat :=
  uw_string_skip_spaces (uw_string_rtrim raw) 0.

(** [raw] is a comment line: its first non-space character is #. *)
Definition comment_text (raw : ustring) : bool :=
  (uw_char_at (uw_string_rtrim raw) (indent_of raw) =? AMW_COMMENT)%Z.

(** The comment lines the reader of [p] passes over: any comment line while
    [skip_comments] is set, and afterwards those that start left of the
    block indent. *)
Definition skipped_comment (p : AmwParser) (raw : ustring) : bool :=
  comment_text raw && (skip_comments p || (indent_of raw <? block_indent p)).

(** The parser of [p] placed before [input], the reader having delivered
    [n] lines. *)
Definition at_input (input : list ustring) (n : nat) (p : AmwParser)
    : AmwParser :=
  set_markup (mkMarkup input n) p.

(** What a caller of the reader can see when no line was delivered: all of
    the parser but the indent and the number of the line that was read
    last. *)
Definition reader_view (p : AmwParser) :=
  (markup p, current_line p, block_indent p, blocklevel p, max_blocklevel p,
   skip_comments p, eof p, custom_parsers p).

(** Two reads with the same status and the same view of the parser. *)
Definition same_read (a b : UwValue * AmwParser) : Prop :=
  fst a = fst b /\ reader_view (snd a) = reader_view (snd b).

(** A fresh parser inside a block of indent 2, before four lines. *)
Definition indented_block_parser : AmwParser :=
  set_block_indent 2
    (amw_create_parser (doc ["  # note"; ""; "    b"; "c"]%string)).

(** A parser inside the value block of a map key, past the leading lines. *)
Definition map_value_parser : AmwParser :=
  set_skip_comments false
    (set_block_indent 3 (amw_create_parser [])).

(** What [amw_parse] does once the first line is read. *)
Definition parse_after_first_read (f : ustring -> nat) (fuel : nat)
    (status : UwValue) (p : AmwParser) : option UwValue :=
  if _amw_end_of_block status && eof p then Some (UwStatus UW_ERROR_EOF)
  else if uw_error status then Some status
  else
    match value_parser_func f fuel p with
    | Some (result, p) =>
        if uw_error result then Some result
        else
          let '(status, p) := _amw_read_block_line p in
          if eof p then Some result
          else if uw_error status then Some status
          else Some (parser_error p (current_indent p)
                       "Extra data after parsed value")
    | None => None
    end.

(** ** Keywords *)

(** Letters and digits. *)
Definition is_alnum (c : char32_t) : bool :=
  is_digit c
  || ((chr "a" <=? c) && (c <=? chr "z"))%Z
  || ((chr "A" <=? c) && (c <=? chr "Z"))%Z.

Definition reserved_keywords : list string := ["null"; "true"; "false"]%string.

(** ** Numerals *)

(** The character of the digit [d]: 0 to 9, then a to f. *)
Definition digit_char (d : Z) : char32_t :=
  if (d <? 10)%Z then (chr "0" + d)%Z else (chr "a" + (d - 10))%Z.

(** The digits of [n] in [radix], most significant first. *)
Fixpoint digits_of (fuel : nat) (radix n : Z) : list Z :=
  match fuel with
  | 0 => []
  | S fuel' =>
      if (n <? radix)%Z then [n]
      else digits_of fuel' radix (n / radix) ++ [(n mod radix)%Z]
  end.

(** [n] written in [radix] without leading zeros; the number of binary
    digits of [n] bounds the number of its digits in any radix. *)
Definition numeral (radix n : Z) : ustring :=
  map digit_char (digits_of (S (Z.to_nat (Z.log2 n))) radix n).

Definition decimal (n : Z) : ustring := numeral 10 n.
Definition binary (n : Z) : ustring := ustr "0b" ++ numeral 2 n.
Definition octal (n : Z) : ustring := ustr "0o" ++ numeral 8 n.
Definition hexadecimal (n : Z) : ustring := ustr "0x" ++ numeral 16 n.

(** The number a list of digits stands for. *)
Definition value_of (radix : Z) (ds : list Z) : Z :=
  fold_left (fun a d => (a * radix + d)%Z) ds 0%Z.

Definition is_digit_of (radix d : Z) : Prop := (0 <= d < radix)%Z.

Definition supported_radix (radix : Z) : Prop :=
  radix = 2%Z \/ radix = 8%Z \/ radix = 10%Z \/ radix = 16%Z.

(** A line of letters and digits only. *)
Definition plain (line : ustring) : Prop :=
  Forall (fun c => is_alnum c = true) line.

(** The parser after the first line of a one-line document was read. *)
Definition first_line_parser (line : ustring) : AmwParser :=
  mkParser (mkMarkup [] 1) line 0 1 0 1 AMW_MAX_RESURSION_DEPTH false false
    builtin_parsers.

(** ** Line numbers *)

(** The parser [p] with [k] more lines counted. *)
Definition shift (k : nat) (p : AmwParser) : AmwParser :=
  mkParser (mkMarkup (pending (markup p)) (lineno (markup p) + k))
    (current_line p) (current_indent p) (line_number p + k)
    (block_indent p) (blocklevel p) (max_blocklevel p) (skip_comments p)
    (eof p) (custom_parsers p).

(** A parse error with [k] more lines counted. *)
Definition reline (k : nat) (v : UwValue) : UwValue :=
  match v with
  | AmwStatus l pos d => AmwStatus (l + k) pos d
  | _ => v
  end.

(** Equal values, or parse errors that differ in the line number only. *)
Definition same_value (v v' : UwValue) : Prop :=
  v = v'
  \/ exists l l' pos d, v = AmwStatus l pos d /\ v' = AmwStatus l' pos d.

(** The maps of [shift] and [reline] over the results of the functions. *)
Definition lift (A : Type) (k : nat) (r : option (A * AmwParser))
    : option (A * AmwParser) :=
  match r with
  | Some (a, q) => Some (a, shift k q)
  | None => None
  end.

Definition reline_at (k : nat) (r : option (UwValue * nat))
    : option (UwValue * nat) :=
  match r with
  | Some x => Some (reline k (fst x), snd x)
  | None => None
  end.

Definition reline_sum (A : Type) (k : nat) (r : UwValue + A) : UwValue + A :=
  match r with
  | inl e => inl (reline k e)
  | inr x => inr x
  end.

Definition reline_fst (A : Type) (k : nat) (r : option (UwValue * A))
    : option (UwValue * A) :=
  match r with
  | Some x => Some (reline k (fst x), snd x)
  | None => None
  end.

(** Results of the line loop of a multi-line string that differ in the
    recorded line numbers only. *)
Definition same_block (k : nat)
    (r r' : option ((UwValue + (list ustring * list nat * bool * nat))
                    * AmwParser)) : Prop :=
  match r, r' with
  | Some (inl s, q), Some (inl s', q') => s = s' /\ q' = shift k q
  | Some (inr (ls, _, c, e), q), Some (inr (ls', _, c', e'), q') =>
      ls = ls' /\ c = c' /\ e = e' /\ q' = shift k q
  | None, None => True
  | _, _ => False
  end.

(** Results on [p] and on [shift k p] that agree: the same value or parse
    errors that differ in the line number only, and the shifted parser. *)
Definition same_quoted (k : nat)
    (r r' : option (UwValue * nat * AmwParser)) : Prop :=
  match r, r' with
  | Some (v, e, q), Some (v', e', q') =>
      same_value v v' /\ e = e' /\ q' = shift k q
  | None, None => True
  | _, _ => False
  end.

Definition same_result (k : nat) (r r' : option (UwValue * AmwParser)) : Prop :=
  match r, r' with
  | Some (v, q), Some (v', q') => same_value v v' /\ q' = shift k q
  | None, None => True
  | _, _ => False
  end.

Definition same_result3 (k : nat)
    (r r' : option (UwValue * option nat * AmwParser)) : Prop :=
  match r, r' with
  | Some (v, n, q), Some (v', n', q') =>
      same_value v v' /\ n' = n /\ q' = shift k q
  | None, None => True
  | _, _ => False
  end.

(** The parser commutes with [shift]: all the functions of the recursion at
    once. *)
Definition shift_invariant (f : ustring -> nat) (k : nat) (fuel : nat)
    : Prop :=
  (forall p nvp,
      same_result3 k (parse_value f fuel p nvp)
        (parse_value f fuel (shift k p) nvp))
  /\ (forall p v v' e nvp, same_value v v' ->
        same_result3 k (check_value_end f fuel p v e nvp)
          (check_value_end f fuel (shift k p) v' e nvp))
  /\ (forall p,
        same_result k (parse_literal_string_or_map f fuel p)
          (parse_literal_string_or_map f fuel (shift k p)))
  /\ (forall p pos fn,
        same_result k (parse_nested_block f fuel p pos fn)
          (parse_nested_block f fuel (shift k p) pos fn))
  /\ (forall p fn,
        same_result k (parse_nested_block_from_next_line f fuel p fn)
          (parse_nested_block_from_next_line f fuel (shift k p) fn))
  /\ (forall fn p,
        same_result k (call_parser_func f fuel fn p)
          (call_parser_func f fuel fn (shift k p)))
  /\ (forall p,
        same_result k (parse_list f fuel p) (parse_list f fuel (shift k p)))
  /\ (forall p ind res,
        same_result k (parse_list_loop f fuel p ind res)
          (parse_list_loop f fuel (shift k p) ind res))
  /\ (forall p key vp,
        same_result k (parse_map f fuel p key vp)
          (parse_map f fuel (shift k p) key vp))
  /\ (forall p ind res key vp,
        same_result k (parse_map_loop f fuel p ind res key vp)
          (parse_map_loop f fuel (shift k p) ind res key vp)).

(** ** Fuel *)

(** [r'] is [r] when [r] is a result. *)
Definition keeps (A : Type) (r r' : option A) : Prop :=
  forall x, r = Some x -> r' = Some x.

(** One more unit of fuel keeps every result: all the functions of the
    recursion at once. *)
Definition more_fuel_keeps (f : ustring -> nat) (fuel : nat) : Prop :=
  (forall p nvp,
      keeps (parse_value f fuel p nvp) (parse_value f (S fuel) p nvp))
  /\ (forall p v e nvp,
        keeps (check_value_end f fuel p v e nvp)
          (check_value_end f (S fuel) p v e nvp))
  /\ (forall p,
        keeps (parse_literal_string_or_map f fuel p)
          (parse_literal_string_or_map f (S fuel) p))
  /\ (forall p pos fn,
        keeps (parse_nested_block f fuel p pos fn)
          (parse_nested_block f (S fuel) p pos fn))
  /\ (forall p fn,
        keeps (parse_nested_block_from_next_line f fuel p fn)
          (parse_nested_block_from_next_line f (S fuel) p fn))
  /\ (forall fn p,
        keeps (call_parser_func f fuel fn p)
          (call_parser_func f (S fuel) fn p))
  /\ (forall p, keeps (parse_list f fuel p) (parse_list f (S fuel) p))
  /\ (forall p ind res,
        keeps (parse_list_loop f fuel p ind res)
          (parse_list_loop f (S fuel) p ind res))
  /\ (forall p key vp,
        keeps (parse_map f fuel p key vp) (parse_map f (S fuel) p key vp))
  /\ (forall p ind res key vp,
        keeps (parse_map_loop f fuel p ind res key vp)
          (parse_map_loop f (S fuel) p ind res key vp)).

(** ** Lines without content *)

(** [raw] holds nothing to parse: it is blank or a comment line. *)
Definition no_content (raw : ustring) : bool :=
  (uw_strlen (uw_string_rtrim raw) =? 0) || comment_text raw.

(** The lines of the text of a document, as the line reader delivers
    them. *)
Definition lines_of (text : ustring) : list ustring :=
  split_lines_from text [].

(** ** The push-back of the block reader *)



(** ** The frame of a block *)

(** [p'] has the block indent, the nesting level, the limit of the nesting
    level and the conversion specifiers of [p]. *)
Definition same_frame (p p' : AmwParser) : Prop :=
  block_indent p' = block_indent p
  /\ blocklevel p' = blocklevel p
  /\ max_blocklevel p' = max_blocklevel p
  /\ custom_parsers p' = custom_parsers p.

(** A call on [p] that returns leaves the frame of [p]. *)
Definition framed (A : Type) (p : AmwParser) (r : option (A * AmwParser))
    : Prop :=
  forall x p', r = Some (x, p') -> same_frame p p'.

(** All the functions of the recursion at once. *)
Definition keeps_frame (f : ustring -> nat) (fuel : nat) : Prop :=
  (forall p nvp, 0 < blocklevel p -> framed p (parse_value f fuel p nvp))
  /\ (forall p v e nvp, 0 < blocklevel p ->
        framed p (check_value_end f fuel p v e nvp))
  /\ (forall p, 0 < blocklevel p ->
        framed p (parse_literal_string_or_map f fuel p))
  /\ (forall p pos fn, 0 < blocklevel p ->
        framed p (parse_nested_block f fuel p pos fn))
  /\ (forall p fn, 0 < blocklevel p ->
        framed p (parse_nested_block_from_next_line f fuel p fn))
  /\ (forall fn p, 0 < blocklevel p ->
        framed p (call_parser_func f fuel fn p))
  /\ (forall p, 0 < blocklevel p -> framed p (parse_list f fuel p))
  /\ (forall p ind res, 0 < blocklevel p ->
        framed p (parse_list_loop f fuel p ind res))
  /\ (forall p key vp, 0 < blocklevel p ->
        framed p (parse_map f fuel p key vp))
  /\ (forall p ind res key vp, 0 < blocklevel p ->
        framed p (parse_map_loop f fuel p ind res key vp)).

(** [r] is a value or a parse error, not a bare status.  A bare status is
    how the parser reports the end of a block or of the input and a parser
    that is not implemented; in the C code it is also how a failure of the
    UW library is passed on. *)
Definition value_or_parse_error (r : UwValue) : bool :=
  match r with
  | UwStatus _ => false
  | _ => true
  end.

(** ** Escapes *)

(** The two quote characters of quoted strings. *)
Definition is_quote (c : char32_t) : Prop := c = DQUOTE \/ c = SQUOTE.

(** One character written so that [_amw_unescape_line] gives it back: the
    backslash, the quote and the control characters 7 to 13 as simple
    escape sequences, any other character as it is. *)
Definition escape_char (quote c : char32_t) : ustring :=
  if (c =? BACKSLASH)%Z then [BACKSLASH; BACKSLASH]
  else if (c =? quote)%Z then [BACKSLASH; quote]
  else if (c =? 7)%Z then [BACKSLASH; chr "a"]
  else if (c =? 8)%Z then [BACKSLASH; chr "b"]
  else if (c =? 9)%Z then [BACKSLASH; chr "t"]
  else if (c =? 10)%Z then [BACKSLASH; chr "n"]
  else if (c =? 11)%Z then [BACKSLASH; chr "v"]
  else if (c =? 12)%Z then [BACKSLASH; chr "f"]
  else if (c =? 13)%Z then [BACKSLASH; chr "r"]
  else [c].

Definition escape (quote : char32_t) (s : ustring) : ustring :=
  concat (map (escape_char quote) s).

(** What follows the escaped text on its line: nothing, or the closing
    quote and the rest of the line. *)
Definition closes (quote : char32_t) (tail : ustring) : Prop :=
  tail = [] \/ exists rest, tail = quote :: rest.

(** The quote at [i] counts as escaped for [find_closing_quote]: it is not
    the first character of the line and a backslash stands before it. *)
Definition escaped_at (line : ustring) (i : nat) : bool :=
  negb (i =? 0) && (uw_char_at line (i - 1) =? BACKSLASH)%Z.

(** Every [quote] of [line] from [first] up to [last] (excluded) counts as
    escaped. *)
Definition quotes_escaped (line : ustring) (quote : char32_t)
    (first last : nat) : Prop :=
  forall j, first <= j < last -> uw_char_at line j = quote ->
    escaped_at line j = true.

(** The digit [d] as an upper-case character: 0 to 9, then A to F. *)
Definition upper_digit_char (d : Z) : char32_t :=
  if (d <? 10)%Z then (chr "0" + d)%Z else (chr "A" + (d - 10))%Z.

(** [c] is the hexadecimal digit [d], in either case. *)
Definition hex_digit (c : char32_t) (d : Z) : Prop :=
  (0 <= d < 16)%Z /\ (c = digit_char d \/ c = upper_digit_char d).

(** The letter of a numeric escape sequence and the number of hexadecimal
    digits it takes. *)
Definition hex_escape (letter : char32_t) (hexlen : nat) : Prop :=
  (letter = chr "x" /\ hexlen = 2) \/ (letter = chr "u" /\ hexlen = 4)
  \/ (letter = chr "U" /\ hexlen = 8).

(** The number that the digits [ds] stand for when they follow digits that
    stand for [v]. *)
Definition value_after (radix v : Z) (ds : list Z) : Z :=
  fold_left (fun a d => (a * radix + d)%Z) ds v.

(** ** Integer literals *)

(** A numeral as [parse_unsigned] reads it: digits, and separators that
    stand between two digits. *)
Inductive numeral_item :=
| Digit (d : Z)
| Separator (c : char32_t).

Definition item_char (i : numeral_item) : char32_t :=
  match i with
  | Digit d => digit_char d
  | Separator c => c
  end.

Definition literal_of (items : list numeral_item) : ustring :=
  map item_char items.

Fixpoint item_digits (items : list numeral_item) : list Z :=
  match items with
  | [] => []
  | Digit d :: rest => d :: item_digits rest
  | Separator _ :: rest => item_digits rest
  end.

Definition is_separator (c : char32_t) : bool :=
  ((c =? SQUOTE) || (c =? chr "_"))%Z.

(** Every separator is a quote or an underscore and stands between two
    digits; [prev_digit] tells whether a digit stands before [items]. *)
Fixpoint separated (prev_digit : bool) (items : list numeral_item) : bool :=
  match items with
  | [] => prev_digit
  | Digit _ :: rest => separated true rest
  | Separator c :: rest =>
      prev_digit && is_separator c && separated false rest
  end.

(** The characters that may follow a number on its line. *)
Definition number_end (c : char32_t) : bool :=
  ((c =? AMW_COMMENT) || (c =? chr ":"))%Z || uw_isspace c.

Definition ends_number (tail : ustring) : Prop :=
  match tail with
  | [] => True
  | t :: _ => number_end t = true
  end.

(** The radix a prefix selects.  Without prefix a decimal numeral starts
    with a digit other than 0; after a single 0 the decimal digits that
    follow are read on their own. *)
Definition radix_prefix (pre : ustring) (radix : Z)
    (items : list numeral_item) : Prop :=
  (pre = [] /\ radix = 10%Z
   /\ exists d rest, items = Digit d :: rest /\ d <> 0%Z)
  \/ (pre = [chr "0"] /\ radix = 10%Z)
  \/ (exists x, pre = [chr "0"; x]
        /\ (((x = chr "b" \/ x = chr "B") /\ radix = 2%Z)
            \/ ((x = chr "o" \/ x = chr "O") /\ radix = 8%Z)
            \/ ((x = chr "x" \/ x = chr "X") /\ radix = 16%Z))).

(** The integer value [_amw_parse_number] makes of the magnitude [n]; the
    error is located at the first digit, at [pos] of line [line]. *)
Definition integer_value (sign n : Z) (line pos : nat) : UwValue :=
  if (UW_SIGNED_MAX <? n)%Z then
    if (sign <? 0)%Z then AmwStatus line pos "Integer overflow"
    else UwUnsigned n
  else UwSigned (if (sign <? 0)%Z then - n else n).

(** ** What may follow a value on its line *)

(** Spaces, then nothing or a comment, then the line terminator or the end
    of the text. *)
Definition trailer (t : ustring) : Prop :=
  exists spaces comment eol,
    t = spaces ++ comment ++ eol
    /\ Forall (fun c => uw_isspace c = true /\ (c =? LF)%Z = false) spaces
    /\ (comment = [] \/ exists c, comment = AMW_COMMENT :: c)
    /\ one_line comment
    /\ (eol = [] \/ eol = [LF]).

(** The sign characters of a number and the sign they stand for. *)
Definition sign_prefix (sgn : ustring) (sign : Z) : Prop :=
  (sgn = [] /\ sign = 1%Z) \/ (sgn = [chr "+"] /\ sign = 1%Z)
  \/ (sgn = [chr "-"] /\ sign = (-1)%Z).

(** The reserved keywords and their values. *)
Definition keyword_values : list (string * UwValue) :=
  [("null", UwNull); ("true", UwBool true); ("false", UwBool false)]%string.

(** The characters of a number: letters and digits, the two signs and the
    two separators. *)
Definition token_char (c : char32_t) : Prop :=
  is_alnum c = true \/ c = chr "+" \/ c = chr "-" \/ is_separator c = true.

(** ** Conversion specifiers *)

(** The built-in conversion specifiers whose parser is not implemented. *)
Definition unimplemented_specifiers : list string :=
  ["isodate"; "timestamp"; "json"]%string.

(** [rest] is empty or starts with a space. *)
Definition starts_with_space (rest : ustring) : Prop :=
  match rest with
  | [] => True
  | c :: _ => uw_isspace c = true
  end.

(** The characters of the name of a conversion specifier: no colon and no
    space. *)
Definition name_char (c : char32_t) : Prop :=
  c <> chr ":" /\ uw_isspace c = false /\ (c =? LF)%Z = false.

(** The block parsers that only report that they are not implemented. *)
Definition is_stub (fn : AmwBlockParserFunc) : Prop :=
  fn = Fn_parse_isodate \/ fn = Fn_parse_timestamp
  \/ fn = Fn_amw_json_parser_func.

(** ** Collections of integers *)

(** The text of lines, each closed by LF. *)
Definition lines_text (lines : list ustring) : ustring :=
  comment_lines lines.

(** The line of a list item that holds the integer [n]. *)
Definition integer_item (n : Z) : ustring := ustr "- " ++ decimal n.

(** The line of a map entry with the key [k] and the value [v]. *)
Definition integer_entry (kv : Z * Z) : ustring :=
  decimal (fst kv) ++ ustr ": " ++ decimal (snd kv).

(** A line without spaces at its ends that is no comment line. *)
Definition solid (line : ustring) : Prop :=
  one_line line
  /\ uw_isspace (hd 32%Z line) = false
  /\ uw_isspace (last line 32%Z) = false
  /\ hd 0%Z line <> AMW_COMMENT.

(** The parser at the line [line], number [k], of the root block, with
    [pending] ahead. *)
Definition at_line (pending : list ustring) (k : nat) (line : ustring)
    : AmwParser :=
  mkParser (mkMarkup pending k) line 0 k 0 1 AMW_MAX_RESURSION_DEPTH false
    false builtin_parsers.

(** The parser of the root block after a nested block was left: at the end
    of the input, or before the line that ended the block. *)
Definition after_block (pending : list ustring) (k : nat) : AmwParser :=
  match pending with
  | [] =>
      mkParser (mkMarkup [] k) [] 0 k 0 1 AMW_MAX_RESURSION_DEPTH false true
        builtin_parsers
  | raw :: rest =>
      mkParser (mkMarkup (uw_string_rtrim raw :: rest) k) [] 0 (S k) 0 1
        AMW_MAX_RESURSION_DEPTH false false builtin_parsers
  end.

(** The map that the entries build: a key that occurs again takes the
    later value and keeps its place. *)
Definition integer_map (kvs : list (Z * Z)) : list (UwValue * UwValue) :=
  fold_left
    (fun m kv => map_update m (UwSigned (fst kv)) (UwSigned (snd kv)))
    kvs [].

(** ** Literal text *)

(** A letter other than n, t and f, the first letters of the keywords. *)
Definition opens_text (c : char32_t) : bool :=
  (((65 <=? c) && (c <=? 90)) || ((97 <=? c) && (c <=? 122)))%Z
  && negb ((c =? chr "n") || (c =? chr "t") || (c =? chr "f"))%Z.

(** The value of a block of literal text: the line itself when it is
    alone, otherwise the lines, each closed by LF. *)
Definition literal_text (lines : list ustring) : ustring :=
  match lines with
  | [l] => l
  | _ => lines_text lines
  end.

(** ** Nested blocks *)

(** [d] list markers on one line. *)
Definition dashes (d : nat) : ustring := concat (repeat (ustr "- ") d).

(** The value [v] inside [d] lists of one item. *)
Fixpoint nested_list (d : nat) (v : UwValue) : UwValue :=
  match d with
  | 0 => v
  | S d' => UwList [nested_list d' v]
  end.

(** The parser on the only line of a document, inside the block of indent
    [indent] at level [level]; and the same parser once the end of the
    input was met. *)
Definition in_block (line : ustring) (indent level : nat) : AmwParser :=
  mkParser (mkMarkup [] 1) line 0 1 indent level AMW_MAX_RESURSION_DEPTH
    false false builtin_parsers.

Definition at_end_in_block (indent level : nat) : AmwParser :=
  mkParser (mkMarkup [] 1) [] 0 1 indent level AMW_MAX_RESURSION_DEPTH
    false true builtin_parsers.

(** ** Blocks of the string specifiers *)

(** The built-in conversion specifiers that give a string. *)
Definition string_specifiers : list string :=
  ["raw"; "literal"; "folded"]%string.

(** The line [l] behind [b] spaces. *)
Definition indented (b : nat) (l : ustring) : ustring :=
  repeat (chr " ") b ++ l.

(** The string that a string specifier makes of the lines of its block:
    folded joins the lines that are not empty with single spaces, raw and
    literal keep the lines. *)
Definition specifier_value (name : string) (lines : list ustring)
    : ustring :=
  if String.eqb name "folded"
  then uw_list_join (chr " ") (filter nonempty_line lines)
  else literal_text lines.

(** * Properties *)

(** ** The block reader *)

Lemma strlen_zero (s : ustring) : (uw_strlen s =? 0) = true -> s = [].
Proof.
  destruct s; simpl; [reflexivity | discriminate].
Qed.

Lemma read_block_line_loop_cons (raw : ustring) (rest : list ustring)
    (p : AmwParser) :
  read_block_line_loop (raw :: rest) p =
  let p1 := line_read raw rest p in
  if skip_comments p1
     && ((uw_strlen (current_line p1) =? 0) || is_comment_line p1)
  then read_block_line_loop rest p1
  else after_skip rest
         (if skip_comments p1 then set_skip_comments false p1 else p1).
Proof. reflexivity. Qed.

Lemma read_block_line_loop_indent (input : list ustring) :
  forall p status p',
    read_block_line_loop input p = (status, p') ->
    uw_error status = false ->
    block_indent p' <= current_indent p' \/ current_line p' = [].
Proof.
  induction input as [| raw rest IH]; intros p status p' Hrun Hok.
  - simpl in Hrun. inversion Hrun; subst. discriminate Hok.
  - rewrite read_block_line_loop_cons in Hrun. cbv zeta in Hrun.
    destruct (skip_comments (line_read raw rest p)
              && ((uw_strlen (current_line (line_read raw rest p)) =? 0)
                  || is_comment_line (line_read raw rest p))).
    + eapply IH; eassumption.
    + unfold after_skip in Hrun.
      set (p2 := if skip_comments (line_read raw rest p)
                 then set_skip_comments false (line_read raw rest p)
                 else line_read raw rest p) in *.
      destruct (uw_strlen (current_line p2) =? 0) eqn:Hlen.
      * inversion Hrun; subst. right. now apply strlen_zero.
      * destruct (block_indent p2 <=? current_indent p2) eqn:Hind.
        -- inversion Hrun; subst. left. now apply Nat.leb_le.
        -- destruct (is_comment_line p2).
           ++ eapply IH; eassumption.
           ++ inversion Hrun; subst. discriminate Hok.
Qed.

(** C6. After every call of [_amw_read_block_line] that returns success
    (neither END-OF-BLOCK nor an error), the indent of the current line is
    at least the block indent, or the current line is empty. *)
Theorem read_block_line_indent_invariant (p : AmwParser) :
  forall status p',
    _amw_read_block_line p = (status, p') ->
    uw_error status = false ->
    block_indent p' <= current_indent p' \/ current_line p' = [].
Proof.
  intros status p' Hrun Hok. unfold _amw_read_block_line in Hrun.
  destruct (eof p).
  - destruct (0 <? blocklevel p); inversion Hrun; subst; discriminate Hok.
  - eapply read_block_line_loop_indent; eassumption.
Qed.

Lemma read_block_line_indent_invariant_witness :
  block_indent (snd (_amw_read_block_line indented_block_parser))
  <= current_indent (snd (_amw_read_block_line indented_block_parser))
  \/ current_line (snd (_amw_read_block_line indented_block_parser)) = [].
Proof.
  apply (@read_block_line_indent_invariant indented_block_parser
           (fst (_amw_read_block_line indented_block_parser))
           (snd (_amw_read_block_line indented_block_parser))).
  - vm_compute. reflexivity.
  - vm_compute. reflexivity.
Defined.

(** The reader clears [skip_comments] and never sets it. *)
Lemma read_block_line_loop_skip_comments (input : list ustring) :
  forall p, skip_comments p = false ->
    skip_comments (snd (read_block_line_loop input p)) = false.
Proof.
  induction input as [| raw rest IH]; intros p Hoff.
  - exact Hoff.
  - rewrite read_block_line_loop_cons. cbv zeta.
    assert (H1 : skip_comments (line_read raw rest p) = false) by exact Hoff.
    rewrite H1. cbn [andb]. unfold after_skip.
    destruct (uw_strlen (current_line (line_read raw rest p)) =? 0);
      [exact H1 |].
    destruct (block_indent (line_read raw rest p)
              <=? current_indent (line_read raw rest p)); [exact H1 |].
    destruct (is_comment_line (line_read raw rest p)).
    + now apply IH.
    + exact H1.
Qed.

Lemma read_block_line_skip_comments (p : AmwParser) :
  skip_comments p = false ->
  skip_comments (snd (_amw_read_block_line p)) = false.
Proof.
  intros Hoff. unfold _amw_read_block_line.
  destruct (eof p).
  - now destruct (0 <? blocklevel p).
  - now apply read_block_line_loop_skip_comments.
Qed.

(** ** More fuel keeps a result *)

Lemma keeps_refl (A : Type) (r : option A) : keeps r r.
Proof. intros x H. exact H. Qed.

Lemma keeps_none (A : Type) (r' : option A) : keeps None r'.
Proof. intros x H. discriminate H. Qed.

Lemma read_block_loop_more (fuel : nat) :
  forall p lines,
    keeps (read_block_loop fuel p lines) (read_block_loop (S fuel) p lines).
Proof.
  induction fuel as [| fuel IH]; intros p lines; [apply keeps_none |].
  cbn [read_block_loop] in *.
  destruct (_amw_read_block_line p) as [status q].
  destruct (_amw_end_of_block status); [apply keeps_refl |].
  destruct (uw_error status); [apply keeps_refl |].
  apply IH.
Qed.

Lemma parse_raw_value_more (fuel : nat) (p : AmwParser) :
  keeps (parse_raw_value fuel p) (parse_raw_value (S fuel) p).
Proof.
  unfold parse_raw_value, _amw_read_block.
  pose proof (@read_block_loop_more fuel p []) as H.
  destruct (read_block_loop fuel p []) as [r |]; [| apply keeps_none].
  rewrite (H r eq_refl). apply keeps_refl.
Qed.

Lemma parse_literal_string_more (fuel : nat) (p : AmwParser) :
  keeps (parse_literal_string fuel p) (parse_literal_string (S fuel) p).
Proof.
  unfold parse_literal_string, _amw_read_block.
  pose proof (@read_block_loop_more fuel p []) as H.
  destruct (read_block_loop fuel p []) as [r |]; [| apply keeps_none].
  rewrite (H r eq_refl). apply keeps_refl.
Qed.

Lemma parse_folded_string_more (fuel : nat) (p : AmwParser) :
  keeps (parse_folded_string fuel p) (parse_folded_string (S fuel) p).
Proof.
  unfold parse_folded_string, _amw_read_block.
  pose proof (@read_block_loop_more fuel p []) as H.
  destruct (read_block_loop fuel p []) as [r |]; [| apply keeps_none].
  rewrite (H r eq_refl). apply keeps_refl.
Qed.

Lemma quoted_block_loop_more (quote : char32_t) (opening_quote_pos : nat)
    (fuel : nat) :
  forall p lines ns end_pos,
    keeps (quoted_block_loop fuel p quote opening_quote_pos lines ns end_pos)
      (quoted_block_loop (S fuel) p quote opening_quote_pos lines ns end_pos).
Proof.
  induction fuel as [| fuel IH]; intros; [apply keeps_none |].
  cbn [quoted_block_loop] in *.
  destruct (find_closing_quote (current_line p) quote (opening_quote_pos + 1))
    as [[e |] |]; try apply keeps_refl.
  destruct (_amw_read_block_line p) as [status q].
  destruct (_amw_end_of_block status); [apply keeps_refl |].
  destruct (uw_error status); [apply keeps_refl |].
  apply IH.
Qed.

Lemma parse_quoted_string_more (f : ustring -> nat) (fuel : nat)
    (p : AmwParser) (opening_quote_pos end_pos0 : nat) :
  keeps (parse_quoted_string f fuel p opening_quote_pos end_pos0)
    (parse_quoted_string f (S fuel) p opening_quote_pos end_pos0).
Proof.
  unfold parse_quoted_string. cbv zeta.
  destruct (find_closing_quote (current_line p)
              (uw_char_at (current_line p) opening_quote_pos)
              (opening_quote_pos + 1)) as [[e |] |]; try apply keeps_refl.
  match goal with
  | |- keeps (match ?a with _ => _ end) (match ?b with _ => _ end) =>
      assert (H : keeps a b) by apply quoted_block_loop_more;
      destruct a as [r |]; [rewrite (H r eq_refl) | apply keeps_none]
  end.
  apply keeps_refl.
Qed.

Section MoreFuel.

Variable f : ustring -> nat.

(** The test or the call at the head of the left-hand side is resolved: a
    call that takes fuel gives the same result with one more unit. *)
Ltac by_more :=
  first [ apply parse_literal_string_more
        | apply parse_raw_value_more
        | apply parse_folded_string_more
        | apply parse_quoted_string_more
        | match goal with IH : _ |- _ => apply IH end ].

Ltac call_more x :=
  let K := fresh "K" in
  assert (K : keeps x _) by by_more;
  destruct x as [? |]; [rewrite (K _ eq_refl); clear K | apply keeps_none].

Ltac more_on x :=
  lazymatch x with
  | match ?y with _ => _ end => more_on y
  | _ => first [call_more x | destruct x]
  end.

Ltac more_step :=
  lazymatch goal with
  | |- keeps (Some _) _ => apply keeps_refl
  | |- keeps None _ => apply keeps_none
  | |- keeps (match ?x with _ => _ end) _ => more_on x
  | |- keeps _ _ => by_more
  end; cbv beta iota.

Lemma more_fuel_keeps_all (fuel : nat) : more_fuel_keeps f fuel.
Proof.
  induction fuel as [| fuel IH].
  - repeat split; intros; apply keeps_none.
  - destruct IH as (H1 & H2 & H3 & H4 & H5 & H6 & H7 & H8 & H9 & H10).
    unfold more_fuel_keeps. repeat apply conj; intros;
      [ cbn [parse_value] | cbn [check_value_end]
      | cbn [parse_literal_string_or_map] | cbn [parse_nested_block]
      | cbn [parse_nested_block_from_next_line] | cbn [call_parser_func]
      | cbn [parse_list] | cbn [parse_list_loop] | cbn [parse_map]
      | cbn [parse_map_loop] ];
      cbv beta iota; repeat more_step.
Qed.

Lemma amw_parse_more_fuel (fuel : nat) (text : ustring) :
  keeps (amw_parse f fuel text) (amw_parse f (S fuel) text).
Proof.
  unfold amw_parse, value_parser_func.
  destruct (_amw_read_block_line (amw_create_parser text)) as [status p].
  destruct (_amw_end_of_block status && eof p); [apply keeps_refl |].
  destruct (uw_error status); [apply keeps_refl |].
  destruct (more_fuel_keeps_all fuel) as (Hpv & _).
  specialize (Hpv p None).
  destruct (parse_value f fuel p None) as [r |]; [| apply keeps_none].
  rewrite (Hpv r eq_refl). apply keeps_refl.
Qed.

(** A result of [amw_parse] does not depend on the fuel that was enough to
    reach it. *)
Lemma amw_parse_fuel (fuel more : nat) (text : ustring) (v : UwValue) :
  amw_parse f fuel text = Some v ->
  amw_parse f (more + fuel) text = Some v.
Proof.
  intros H. induction more as [| more IH]; [exact H |].
  now apply amw_parse_more_fuel.
Qed.

End MoreFuel.

(** ** Behaviour on concrete documents *)

(** The documents below are parsed with any amount of fuel from 20 on. *)

Section Documents.

Variable string_as_unsigned : ustring -> nat.
Variable fuel : nat.

Local Abbreviation run := (amw_parse string_as_unsigned (fuel + 20)).

Ltac run_document := apply amw_parse_fuel; vm_compute; reflexivity.

(** C2. [skip_comments] is set by [amw_create_parser] only: it is already
    false when the first nested block is entered, so the comment line above
    the content of the nested block of key a is not skipped; it becomes the
    first line of the value. *)
Theorem nested_block_keeps_leading_comment :
  skip_comments
    (snd (_amw_read_block_line
            (amw_create_parser (doc ["a:"; "  # c"; "  1"]%string)))) = false
  /\ run (doc ["a:"; "  # c"; "  1"]%string)
     = Some (UwMap [(UwString (ustr "a"),
                     UwString (text_of [ustr "# c"; ustr "1"; []]))])
  /\ run (doc ["a:"; "  1"]%string)
     = Some (UwMap [(UwString (ustr "a"), UwSigned 1)]).
Proof.
  split; [vm_compute; reflexivity |]. split; run_document.
Qed.

(** C3. A one-line quoted string whose content ends in an escaped
    backslash: [find_closing_quote] takes the closing quote for an escaped
    one and the parse fails. *)
Theorem escaped_backslash_hides_closing_quote :
  run (quoted (ustr "a\\"))
  = Some (AmwStatus 1 0 "String contains no closing quote")
  /\ run (quoted (ustr "a\\ ")) = Some (UwString (ustr "a\ ")).
Proof. split; run_document. Qed.

(** C4. The dispatcher tests for the double quote twice and never for the
    single quote: a value that opens with a single quote is a literal
    string that keeps its quotes. *)
Theorem single_quote_is_not_a_string_opener :
  run (ustr "'abc'") = Some (UwString (ustr "'abc'"))
  /\ run (quoted (ustr "abc")) = Some (UwString (ustr "abc")).
Proof. split; run_document. Qed.

(** C7. The overflow test of [parse_unsigned] compares the wrapped result
    with the previous value only: 34587645138205409280 exceeds 2^64 - 1 and
    is returned as 16140901064495857664. *)
Theorem unsigned_overflow_wraps_silently :
  run (ustr "34587645138205409280") = Some (UwUnsigned 16140901064495857664)
  /\ (2 ^ 64 - 1 < 34587645138205409280)%Z
  /\ run (ustr "0x1f000000000000000") = Some (UwUnsigned 17293822569102704640)
  /\ run (ustr "18446744073709551616")
     = Some (AmwStatus 1 0 "Numeric overflow").
Proof.
  split; [run_document |]. split; [vm_compute; reflexivity |].
  split; run_document.
Qed.

(** C8. A separator that is followed by a terminator is accepted: the
    conversion ends at the terminator; only the end of the line after a
    separator is an error. *)
Theorem separator_before_terminator_accepted :
  run (ustr "1_ # one") = Some (UwSigned 1)
  /\ run (ustr "1_: 2") = Some (UwMap [(UwSigned 1, UwSigned 2)])
  /\ run (ustr "1_") = Some (AmwStatus 1 2 "Bad number").
Proof. split; [| split]; run_document. Qed.

(** C10. The bad escape is on line 2 of the first document and on line 3 of
    the second; both errors carry the same number, the [unsigned_value] of
    the line itself. *)
Theorem escape_error_line_is_not_the_source_line :
  run (text_of [DQUOTE :: ustr "a"; ustr " \xZZ" ++ [DQUOTE]])
  = Some (AmwStatus (string_as_unsigned (ustr "\xZZ" ++ [DQUOTE])) 2
            "Bad hexadecimal value")
  /\ run (text_of [ustr "# c"; DQUOTE :: ustr "a"; ustr " \xZZ" ++ [DQUOTE]])
     = Some (AmwStatus (string_as_unsigned (ustr "\xZZ" ++ [DQUOTE])) 2
               "Bad hexadecimal value")
  /\ run (quoted (ustr "\xZZ"))
     = Some (AmwStatus 1 3 "Bad hexadecimal value").
Proof. split; [| split]; run_document. Qed.

End Documents.

(** ** Reserved keywords followed by letters or digits *)

Lemma ustring_eqb_eq (a : ustring) : forall b, ustring_eqb a b = true -> a = b.
Proof.
  induction a as [| x a IH]; intros [| y b] H; simpl in H;
    try discriminate; [reflexivity |].
  apply andb_prop in H. destruct H as [Hx Hr].
  apply Z.eqb_eq in Hx. subst. f_equal. now apply IH.
Qed.

Lemma uw_substr_add (s : ustring) (a n : nat) :
  uw_substr s a (a + n) = firstn n (skipn a s).
Proof.
  unfold uw_substr. now replace (a + n - a) with n by lia.
Qed.

Lemma substr_char_at (s : ustring) (a n i : nat) :
  i < n -> uw_char_at s (a + i) = nth i (uw_substr s a (a + n)) 0%Z.
Proof.
  intros Hi. rewrite uw_substr_add, nth_firstn.
  apply Nat.ltb_lt in Hi. rewrite Hi. now rewrite nth_skipn.
Qed.

Lemma substr_shorter (s : ustring) (a n m : nat) :
  n <= m -> uw_substr s a (a + n) = firstn n (uw_substr s a (a + m)).
Proof.
  intros Hle. rewrite !uw_substr_add, firstn_firstn.
  now replace (Nat.min n m) with n by lia.
Qed.

Lemma alnum_index_valid (s : ustring) (k : nat) :
  is_alnum (uw_char_at s k) = true -> k < length s.
Proof.
  intros H. destruct (Nat.lt_ge_cases k (length s)) as [Hlt | Hge];
    [exact Hlt |].
  unfold uw_char_at in H. rewrite nth_overflow in H by exact Hge.
  discriminate H.
Qed.

Lemma alnum_not_space (c : char32_t) :
  is_alnum c = true -> uw_isspace c = false.
Proof.
  unfold is_alnum, is_digit, uw_isspace, chr. simpl. lia.
Qed.

Lemma alnum_not_colon (c : char32_t) :
  is_alnum c = true -> (c =? chr ":")%Z = false.
Proof.
  unfold is_alnum, is_digit, chr. simpl. lia.
Qed.

Lemma alnum_not_comment (c : char32_t) :
  is_alnum c = true -> (c =? AMW_COMMENT)%Z = false.
Proof.
  unfold is_alnum, is_digit, AMW_COMMENT, chr. simpl. lia.
Qed.

Lemma skip_spaces_at_nonspace (s : ustring) (k : nat) :
  k < length s -> uw_isspace (uw_char_at s k) = false ->
  uw_string_skip_spaces s k = k.
Proof.
  intros Hk Hc. unfold uw_string_skip_spaces.
  destruct (skipn k s) as [| c t] eqn:Hs.
  - apply (f_equal (@length _)) in Hs. rewrite length_skipn in Hs.
    simpl in Hs. lia.
  - assert (Hn : uw_char_at s k = c).
    { unfold uw_char_at. rewrite <- (Nat.add_0_r k), <- nth_skipn, Hs.
      reflexivity. }
    simpl. rewrite <- Hn, Hc. lia.
Qed.

(** What [check_value_end] does when a letter or a digit follows the
    value. *)
Lemma check_value_end_alnum (f : ustring -> nat) (fuel : nat) (p : AmwParser)
    (value : UwValue) (end_pos : nat) (nvp : option nat) :
  uw_error value = false ->
  is_alnum (uw_char_at (current_line p) end_pos) = true ->
  check_value_end f (S fuel) p value end_pos nvp
  = Some (parser_error p end_pos "Bad character encountered", nvp, p).
Proof.
  intros Hv Hc. cbn [check_value_end]. rewrite Hv.
  pose proof (alnum_index_valid _ _ Hc) as Hk.
  rewrite (skip_spaces_at_nonspace _ Hk (alnum_not_space _ Hc)).
  unfold end_of_line, uw_string_index_valid.
  apply Nat.ltb_lt in Hk. rewrite Hk. cbn [negb].
  rewrite (alnum_not_colon _ Hc), (alnum_not_comment _ Hc). reflexivity.
Qed.

(** C5, as the code has it.  When the value starts with a reserved keyword
    that is immediately followed by a letter or a digit, [parse_value]
    matches the keyword and the end-of-value check rejects the line: the
    result is the parse error "Bad character encountered" at the position
    right after the keyword, and no line is read. *)
Theorem keyword_prefix_is_rejected (f : ustring -> nat) (fuel : nat)
    (p : AmwParser) (nvp : option nat) (kw : string) :
  In kw reserved_keywords ->
  uw_substring_eq_cstr (current_line p) (get_start_position p)
    (get_start_position p + String.length kw) kw = true ->
  is_alnum (uw_char_at (current_line p)
              (get_start_position p + String.length kw)) = true ->
  parse_value f (S (S fuel)) p nvp
  = Some (parser_error p (get_start_position p + String.length kw)
            "Bad character encountered", nvp, p).
Proof.
  intros Hkw Hsub Hnext.
  unfold uw_substring_eq_cstr in Hsub. apply ustring_eqb_eq in Hsub.
  assert (Hc0 : uw_char_at (current_line p) (get_start_position p)
                = nth 0 (ustr kw) 0%Z).
  { rewrite <- Hsub, <- (Nat.add_0_r (get_start_position p)) at 1.
    apply substr_char_at.
    destruct Hkw as [<- | [<- | [<- | []]]]; simpl; lia. }
  assert (Hnull : uw_substr (current_line p) (get_start_position p)
                    (get_start_position p + 4) = firstn 4 (ustr kw)).
  { rewrite <- Hsub. apply substr_shorter.
    destruct Hkw as [<- | [<- | [<- | []]]]; simpl; lia. }
  cbn [parse_value]. unfold uw_substring_eq_cstr.
  rewrite Hc0, Hnull.
  destruct Hkw as [<- | [<- | [<- | []]]].
  - change (String.length "null") with 4 in *.
    change (ustring_eqb (firstn 4 (ustr "null")) (ustr "null")) with true.
    cbv iota. cbn [nth ustr list_ascii_of_string map].
    change ((chr "n" =? chr ":")%Z) with false.
    change ((chr "n" =? chr "-")%Z) with false.
    change ((chr "n" =? DQUOTE)%Z) with false.
    cbn [orb]. cbv iota.
    now apply check_value_end_alnum.
  - change (String.length "true") with 4 in *.
    change (ustring_eqb (firstn 4 (ustr "true")) (ustr "null")) with false.
    change (ustring_eqb (firstn 4 (ustr "true")) (ustr "true")) with true.
    cbv iota. cbn [nth ustr list_ascii_of_string map].
    change ((chr "t" =? chr ":")%Z) with false.
    change ((chr "t" =? chr "-")%Z) with false.
    change ((chr "t" =? DQUOTE)%Z) with false.
    cbn [orb]. cbv iota.
    now apply check_value_end_alnum.
  - change (String.length "false") with 5 in *.
    change (ustring_eqb (firstn 4 (ustr "false")) (ustr "null")) with false.
    change (ustring_eqb (firstn 4 (ustr "false")) (ustr "true")) with false.
    rewrite Hsub.
    change (ustring_eqb (ustr "false") (ustr "false")) with true.
    cbv iota. cbn [nth ustr list_ascii_of_string map].
    change ((chr "f" =? chr ":")%Z) with false.
    change ((chr "f" =? chr "-")%Z) with false.
    change ((chr "f" =? DQUOTE)%Z) with false.
    cbn [orb]. cbv iota.
    now apply check_value_end_alnum.
Qed.

Lemma keyword_prefix_is_rejected_witness :
  let p :=
    snd (_amw_read_block_line (amw_create_parser (ustr "falsehood: 1"))) in
  In "false"%string reserved_keywords
  /\ uw_substring_eq_cstr (current_line p) (get_start_position p)
       (get_start_position p + String.length "false") "false" = true
  /\ is_alnum (uw_char_at (current_line p)
                 (get_start_position p + String.length "false")) = true
  /\ parse_value zero_view 2 p None
     = Some (parser_error p (get_start_position p + String.length "false")
               "Bad character encountered", None, p).
Proof.
  intros p.
  assert (H1 : In "false"%string reserved_keywords) by (simpl; auto).
  assert (H2 : uw_substring_eq_cstr (current_line p) (get_start_position p)
                 (get_start_position p + String.length "false") "false" = true)
    by (vm_compute; reflexivity).
  assert (H3 : is_alnum (uw_char_at (current_line p)
                 (get_start_position p + String.length "false")) = true)
    by (vm_compute; reflexivity).
  split; [exact H1 |]. split; [exact H2 |]. split; [exact H3 |].
  exact (@keyword_prefix_is_rejected zero_view 0 p None "false" H1 H2 H3).
Defined.

(** C5 fails as stated: neither line is taken as a literal string or a map
    key, both are rejected. *)
Lemma keyword_prefix_not_literal :
  amw_parse zero_view 20 (ustr "nullable: 1")
  = Some (AmwStatus 1 4 "Bad character encountered")
  /\ amw_parse zero_view 20 (ustr "truex")
     = Some (AmwStatus 1 4 "Bad character encountered").
Proof. split; vm_compute; reflexivity. Qed.

(** ** Comment lines *)

Lemma comment_text_nonempty (raw : ustring) :
  comment_text raw = true -> (uw_strlen (uw_string_rtrim raw) =? 0) = false.
Proof.
  unfold comment_text, uw_char_at. intros H.
  destruct (uw_string_rtrim raw) as [| c t] eqn:Hr; [| reflexivity].
  destruct (indent_of raw); discriminate H.
Qed.

Lemma skipped_comment_step (p : AmwParser) (raw : ustring)
    (rest : list ustring) :
  skipped_comment p raw = true ->
  read_block_line_loop (raw :: rest) p
  = read_block_line_loop rest (line_read raw rest p).
Proof.
  unfold skipped_comment. intros H. apply andb_prop in H.
  destruct H as [Hc Hs]. rewrite read_block_line_loop_cons. cbv zeta.
  assert (Hcl : is_comment_line (line_read raw rest p) = true) by exact Hc.
  assert (Hsk : skip_comments (line_read raw rest p) = skip_comments p)
    by reflexivity.
  rewrite Hsk, Hcl. destruct (skip_comments p) eqn:Hp.
  - now rewrite orb_true_r.
  - cbn [andb]. unfold after_skip. simpl in Hs.
    assert (Hlen : (uw_strlen (current_line (line_read raw rest p)) =? 0)
                   = false) by (apply comment_text_nonempty; exact Hc).
    rewrite Hlen, Hcl.
    assert (Hind : (block_indent (line_read raw rest p)
                    <=? current_indent (line_read raw rest p)) = false).
    { apply Nat.leb_gt. apply Nat.ltb_lt in Hs. exact Hs. }
    now rewrite Hind.
Qed.

(** A read that delivers a line forgets the line that was current. *)
Lemma read_block_line_loop_overwrites (rest : list ustring) (n : nat)
    (p : AmwParser) (l : ustring) (i k : nat) :
  rest <> [] ->
  read_block_line_loop rest
    (set_line_number k (set_current_indent i (set_current_line l
       (at_input rest n p))))
  = read_block_line_loop rest (at_input rest n p).
Proof.
  destruct rest as [| raw rest]; [congruence | intros _].
  rewrite !read_block_line_loop_cons. reflexivity.
Qed.

Lemma same_read_refl (a : UwValue * AmwParser) : same_read a a.
Proof. split; reflexivity. Qed.

Lemma read_block_line_loop_stale (rest : list ustring) (n : nat)
    (p : AmwParser) (l : ustring) (i k : nat) :
  same_read
    (read_block_line_loop rest
       (set_line_number k (set_current_indent i (set_current_line l
          (at_input rest n p)))))
    (read_block_line_loop rest (at_input rest n p)).
Proof.
  destruct rest as [| raw rest].
  - split; reflexivity.
  - rewrite read_block_line_loop_overwrites by discriminate.
    apply same_read_refl.
Qed.

Lemma skipped_comments_loop (comments : list ustring) :
  forall (rest : list ustring) (n : nat) (p : AmwParser),
    Forall (fun c => skipped_comment p c = true) comments ->
    same_read
      (read_block_line_loop (comments ++ rest)
         (at_input (comments ++ rest) n p))
      (read_block_line_loop rest (at_input rest (length comments + n) p))
    /\ (rest <> [] ->
        read_block_line_loop (comments ++ rest)
          (at_input (comments ++ rest) n p)
        = read_block_line_loop rest (at_input rest (length comments + n) p)).
Proof.
  induction comments as [| c comments IH]; intros rest n p Hall.
  - simpl. split; [apply same_read_refl | intros _; reflexivity].
  - inversion Hall as [| c' cs Hc Hcs]; subst.
    cbn [app length].
    rewrite (@skipped_comment_step (at_input (c :: comments ++ rest) n p) c
               (comments ++ rest) Hc).
    change (line_read c (comments ++ rest)
              (at_input (c :: comments ++ rest) n p))
      with (set_line_number (S n)
              (set_current_indent (indent_of c)
                 (set_current_line (uw_string_rtrim c)
                    (at_input (comments ++ rest) (S n) p)))).
    replace (S (length comments) + n) with (length comments + S n) by lia.
    destruct (IH rest (S n) p Hcs) as [IH1 IH2].
    destruct comments as [| c2 comments'].
    + cbn [app length Nat.add] in *. split.
      * apply read_block_line_loop_stale.
      * intros Hne. now rewrite read_block_line_loop_overwrites.
    + rewrite read_block_line_loop_overwrites by discriminate.
      split; [exact IH1 | exact IH2].
Qed.

(** Comment lines in front of the input of the block reader are invisible
    when the reader passes over them: the read returns the same status and
    leaves the same parser as a read of the input without them, the reader
    having counted them.  When no line follows them, only the indent and
    the number of the last line read differ. *)
Lemma skipped_comments_read (p : AmwParser)
    (comments rest : list ustring) (n : nat) :
  eof p = false ->
  Forall (fun c => skipped_comment p c = true) comments ->
  same_read
    (_amw_read_block_line (at_input (comments ++ rest) n p))
    (_amw_read_block_line (at_input rest (length comments + n) p))
  /\ (rest <> [] ->
      _amw_read_block_line (at_input (comments ++ rest) n p)
      = _amw_read_block_line (at_input rest (length comments + n) p)).
Proof.
  intros Heof Hall. unfold _amw_read_block_line.
  change (eof (at_input (comments ++ rest) n p)) with (eof p).
  change (eof (at_input rest (length comments + n) p)) with (eof p).
  rewrite Heof. now apply skipped_comments_loop.
Qed.

(** C1 fails in the code: the test of [amw_parse] that nothing follows the
    top-level value takes comment lines for data.  Two comment lines
    appended after a top-level scalar make the parse fail with Extra data
    after parsed value, and so do two blank lines.  The test sees the
    lines only from the second one after a scalar, since [check_value_end]
    reads one line past the value without looking at it: one comment line
    is accepted, and so is a line of data.  After a top-level list or map
    the same comment lines are passed over, as the claim has it. *)
Lemma trailing_comment_lines_rejected :
  amw_parse zero_view 20 (doc ["42"]%string) = Some (UwSigned 42)
  /\ amw_parse zero_view 20 (doc ["42"; "# a"; "# b"]%string)
     = Some (AmwStatus 3 0 "Extra data after parsed value")
  /\ amw_parse zero_view 20 (doc ["42"; "# a"]%string) = Some (UwSigned 42)
  /\ amw_parse zero_view 20 (doc ["42"; " "; " "]%string)
     = Some (AmwStatus 3 0 "Extra data after parsed value")
  /\ amw_parse zero_view 20 (doc ["42"; "foo bar"]%string)
     = Some (UwSigned 42)
  /\ amw_parse zero_view 20 (doc ["- 1"; "# a"; "# b"]%string)
     = Some (UwList [UwSigned 1])
  /\ amw_parse zero_view 20 (doc ["1: 2"; "# a"; "# b"]%string)
     = Some (UwMap [(UwSigned 1, UwSigned 2)]).
Proof. repeat split; vm_compute; reflexivity. Qed.

(** ** Numbers written in the four radices *)

Lemma value_of_snoc (radix : Z) (ds : list Z) (d : Z) :
  value_of radix (ds ++ [d]) = (value_of radix ds * radix + d)%Z.
Proof. unfold value_of. now rewrite fold_left_app. Qed.

Lemma value_of_nonneg (radix : Z) (ds : list Z) :
  (0 <= radix)%Z -> Forall (is_digit_of radix) ds ->
  (0 <= value_of radix ds)%Z.
Proof.
  intros Hr. induction ds as [| d ds IH] using rev_ind; intros Hall.
  - unfold value_of. simpl. lia.
  - apply Forall_app in Hall. destruct Hall as [Hds Hd].
    inversion Hd; subst. unfold is_digit_of in *.
    rewrite value_of_snoc. specialize (IH Hds). nia.
Qed.

Lemma value_of_prefix (radix : Z) (ds rest : list Z) :
  (1 <= radix)%Z -> Forall (is_digit_of radix) (ds ++ rest) ->
  (value_of radix ds <= value_of radix (ds ++ rest))%Z.
Proof.
  intros Hr. induction rest as [| d rest IH] using rev_ind; intros Hall.
  - rewrite app_nil_r. lia.
  - rewrite app_assoc in Hall |- *.
    apply Forall_app in Hall. destruct Hall as [Hpre Hd].
    inversion Hd; subst. unfold is_digit_of in *.
    rewrite value_of_snoc. specialize (IH Hpre).
    assert (0 <= value_of radix (ds ++ rest))%Z
      by (apply value_of_nonneg; [lia | exact Hpre]).
    nia.
Qed.

Lemma digits_of_range (radix : Z) (fuel : nat) :
  forall n, (2 <= radix)%Z -> (0 <= n)%Z ->
    Forall (is_digit_of radix) (digits_of fuel radix n).
Proof.
  induction fuel as [| fuel IH]; intros n Hr Hn; simpl.
  - constructor.
  - destruct (n <? radix)%Z eqn:Hlt.
    + apply Z.ltb_lt in Hlt. constructor; [split; lia | constructor].
    + apply Forall_app. split.
      * apply IH; [lia |]. apply Z.div_pos; lia.
      * constructor; [| constructor]. unfold is_digit_of.
        apply Z.mod_pos_bound. lia.
Qed.

Lemma digits_of_value (radix : Z) (fuel : nat) :
  forall n, (2 <= radix)%Z -> (0 <= n < 2 ^ Z.of_nat fuel)%Z ->
    value_of radix (digits_of fuel radix n) = n.
Proof.
  induction fuel as [| fuel IH]; intros n Hr Hn.
  - simpl in *. unfold value_of. simpl. lia.
  - cbn [digits_of]. destruct (n <? radix)%Z eqn:Hlt.
    + unfold value_of. simpl. lia.
    + apply Z.ltb_ge in Hlt. rewrite value_of_snoc, IH.
      * pose proof (Z.div_mod n radix). lia.
      * lia.
      * split; [apply Z.div_pos; lia |].
        apply Z.div_lt_upper_bound; [lia |].
        rewrite Nat2Z.inj_succ, Z.pow_succ_r in Hn by lia.
        assert (0 < 2 ^ Z.of_nat fuel)%Z by (apply Z.pow_pos_nonneg; lia).
        nia.
Qed.

Lemma digits_of_nonempty (radix : Z) (fuel : nat) (n : Z) :
  digits_of (S fuel) radix n <> [].
Proof.
  cbn [digits_of]. destruct (n <? radix)%Z; [discriminate |].
  intros H. apply app_eq_nil in H. destruct H as [_ H]. discriminate H.
Qed.

Lemma numeral_fuel (n : Z) :
  (0 <= n)%Z -> (n < 2 ^ Z.of_nat (S (Z.to_nat (Z.log2 n))))%Z.
Proof.
  intros Hn. rewrite Nat2Z.inj_succ, Z2Nat.id by apply Z.log2_nonneg.
  destruct (Z.eq_dec n 0) as [-> | Hne].
  - simpl. lia.
  - apply Z.log2_spec. lia.
Qed.

Lemma small_digit_cases (d : Z) :
  (0 <= d < 16)%Z ->
  In d [0; 1; 2; 3; 4; 5; 6; 7; 8; 9; 10; 11; 12; 13; 14; 15]%Z.
Proof.
  intros Hd. simpl.
  assert (d = 0 \/ d = 1 \/ d = 2 \/ d = 3 \/ d = 4 \/ d = 5 \/ d = 6
          \/ d = 7 \/ d = 8 \/ d = 9 \/ d = 10 \/ d = 11 \/ d = 12
          \/ d = 13 \/ d = 14 \/ d = 15)%Z as H by lia.
  intuition auto.
Qed.

Lemma digit_value_digit_char (radix d : Z) :
  supported_radix radix -> is_digit_of radix d ->
  digit_value radix (digit_char d) = Some d.
Proof.
  unfold supported_radix, is_digit_of. intros Hr Hd.
  assert (Hin : (0 <= d < 16)%Z) by lia.
  apply small_digit_cases in Hin. simpl in Hin.
  destruct Hr as [-> | [-> | [-> | ->]]];
    repeat (destruct Hin as [<- | Hin]; [try lia; reflexivity |]);
    contradiction.
Qed.

Lemma digit_char_alnum (d : Z) :
  (0 <= d < 16)%Z -> is_alnum (digit_char d) = true.
Proof.
  intros Hd. apply small_digit_cases in Hd. simpl in Hd.
  repeat (destruct Hd as [<- | Hd]; [reflexivity |]). contradiction.
Qed.

Lemma alnum_not_separator (c : char32_t) :
  is_alnum c = true -> ((c =? SQUOTE) || (c =? chr "_"))%Z = false.
Proof.
  unfold is_alnum, is_digit, SQUOTE, chr. simpl. lia.
Qed.

Lemma supported_radix_bounds (radix : Z) :
  supported_radix radix -> (2 <= radix <= 16)%Z.
Proof. unfold supported_radix. lia. Qed.

(** The loop of [parse_unsigned] over a run of digits that ends the line:
    [done] are the digits already read, [ds] those still ahead. *)
Lemma parse_unsigned_loop_digits (radix : Z) (p : AmwParser)
    (pre : ustring) (start : nat) :
  supported_radix radix ->
  forall (ds done : list Z) (fuel : nat) (digit_seen separator_seen : bool),
    current_line p = pre ++ map digit_char (done ++ ds) ->
    ds <> [] ->
    length ds <= fuel ->
    Forall (is_digit_of radix) (done ++ ds) ->
    (value_of radix (done ++ ds) < 2 ^ 64)%Z ->
    parse_unsigned_loop fuel p start radix (length pre + length done)
      digit_seen separator_seen (value_of radix done)
    = Some (UwUnsigned (value_of radix (done ++ ds)),
            length (current_line p)).
Proof.
  intros Hr. pose proof (supported_radix_bounds Hr) as Hrb.
  induction ds as [| d ds IH];
    intros done fuel digit_seen separator_seen Hline Hne Hfuel Hall Hmax;
    [congruence |].
  destruct fuel as [| fuel]; [simpl in Hfuel; lia |].
  assert (Hd : is_digit_of radix d).
  { apply Forall_app in Hall. destruct Hall as [_ Hall].
    now inversion Hall. }
  assert (Hdone : Forall (is_digit_of radix) done).
  { apply Forall_app in Hall. tauto. }
  assert (Hc : uw_char_at (current_line p) (length pre + length done)
               = digit_char d).
  { rewrite Hline. unfold uw_char_at.
    rewrite app_nth2_plus, map_app, <- (length_map digit_char done).
    cbn [map]. apply nth_middle. }
  assert (Halnum : is_alnum (digit_char d) = true).
  { apply digit_char_alnum. unfold is_digit_of in Hd. lia. }
  assert (Hlen : length (current_line p)
                 = S (length pre + length done) + length ds).
  { rewrite Hline. rewrite length_app, length_map, length_app. simpl. lia. }
  assert (Hstep : value_of radix (done ++ [d])
                  = (value_of radix done * radix + d)%Z)
    by apply value_of_snoc.
  assert (Hpre : (value_of radix (done ++ [d])
                  <= value_of radix (done ++ d :: ds))%Z).
  { replace (done ++ d :: ds) with ((done ++ [d]) ++ ds)
      by (rewrite <- app_assoc; reflexivity).
    apply value_of_prefix; [lia |].
    rewrite <- app_assoc. exact Hall. }
  assert (Hnn : (0 <= value_of radix done)%Z)
    by (apply value_of_nonneg; [lia | exact Hdone]).
  unfold is_digit_of in Hd.
  assert (Hwrap : wrap64 (wrap64 (value_of radix done * radix) + d)
                  = value_of radix (done ++ [d])).
  { unfold wrap64. rewrite (Z.mod_small (value_of radix done * radix));
      [rewrite Z.mod_small |]; nia. }
  cbn [parse_unsigned_loop]. rewrite Hc, (alnum_not_separator _ Halnum).
  rewrite (digit_value_digit_char Hr Hd). cbv zeta. rewrite Hwrap.
  assert (Hge : (value_of radix (done ++ [d]) <? value_of radix done)%Z
                = false) by (apply Z.ltb_ge; nia).
  rewrite Hge. unfold end_of_line, uw_string_index_valid. rewrite Hlen.
  destruct ds as [| d' ds'].
  - cbn [length]. rewrite Nat.add_0_r, Nat.ltb_irrefl. reflexivity.
  - assert (Hlt : (S (length pre + length done)
                   <? S (length pre + length done) + length (d' :: ds'))
                  = true) by (apply Nat.ltb_lt; simpl; lia).
    rewrite Hlt. cbn [negb].
    replace (S (length pre + length done))
      with (length pre + length (done ++ [d]))
      by (rewrite length_app; simpl; lia).
    replace (done ++ d :: d' :: ds') with ((done ++ [d]) ++ d' :: ds')
      by (rewrite <- app_assoc; reflexivity).
    replace (length pre + length (done ++ [d]) + length (d' :: ds'))
      with (length (current_line p))
      by (rewrite Hlen, length_app; simpl; lia).
    apply IH.
    + rewrite <- app_assoc. exact Hline.
    + discriminate.
    + simpl in Hfuel |- *. lia.
    + rewrite <- app_assoc. exact Hall.
    + rewrite <- app_assoc. exact Hmax.
Qed.

Lemma number_magnitude_digits (radix : Z) (p : AmwParser) (pre : ustring)
    (start : nat) (ds : list Z) :
  supported_radix radix ->
  current_line p = pre ++ map digit_char ds ->
  ds <> [] ->
  Forall (is_digit_of radix) ds ->
  (value_of radix ds <= UW_SIGNED_MAX)%Z ->
  number_magnitude p start 1 radix (length pre)
  = Some (UwSigned (value_of radix ds), length (current_line p)).
Proof.
  intros Hr Hline Hne Hall Hmax. unfold number_magnitude, parse_unsigned.
  assert (Hloop :
    parse_unsigned_loop (S (length (current_line p) - length pre)) p
      (length pre) radix (length pre + length (@nil Z)) false false
      (value_of radix [])
    = Some (UwUnsigned (value_of radix ([] ++ ds)), length (current_line p))).
  { apply parse_unsigned_loop_digits; try assumption.
    - rewrite Hline, length_app, length_map. lia.
    - unfold UW_SIGNED_MAX in Hmax. simpl. lia. }
  cbn [length app] in Hloop. rewrite Nat.add_0_r in Hloop.
  change (value_of radix []) with 0%Z in Hloop. rewrite Hloop.
  unfold end_of_line, uw_string_index_valid.
  rewrite Nat.ltb_irrefl. cbn [negb]. unfold number_done.
  apply Z.ltb_ge in Hmax. rewrite Hmax. reflexivity.
Qed.

Lemma decimal_digit_is_no_prefix (d : Z) (pos : nat) :
  (0 <= d < 10)%Z ->
  (if (((digit_char d =? chr "b") || (digit_char d =? chr "B"))%Z : bool)
   then (2%Z, S pos)
   else if ((digit_char d =? chr "o") || (digit_char d =? chr "O"))%Z
   then (8%Z, S pos)
   else if ((digit_char d =? chr "x") || (digit_char d =? chr "X"))%Z
   then (16%Z, S pos)
   else (10%Z, pos)) = (10%Z, pos).
Proof.
  intros Hd. assert (Hin : (0 <= d < 16)%Z) by lia.
  apply small_digit_cases in Hin. simpl in Hin.
  repeat (destruct Hin as [<- | Hin]; [try lia; reflexivity |]).
  contradiction.
Qed.

(** [_amw_parse_number] on a line that is a run of decimal digits. *)
Lemma parse_number_decimal (p : AmwParser) (ds : list Z) :
  current_line p = map digit_char ds ->
  ds <> [] ->
  Forall (is_digit_of 10) ds ->
  (value_of 10 ds <= UW_SIGNED_MAX)%Z ->
  _amw_parse_number p 0 1
  = Some (UwSigned (value_of 10 ds), length (current_line p)).
Proof.
  intros Hline Hne Hall Hmax.
  assert (Hr : supported_radix 10) by (unfold supported_radix; auto).
  destruct ds as [| d ds]; [congruence |].
  assert (Hd : is_digit_of 10 d) by now inversion Hall.
  assert (Hds : Forall (is_digit_of 10) ds) by now inversion Hall.
  unfold _amw_parse_number.
  assert (Hc : uw_char_at (current_line p) 0 = digit_char d)
    by (rewrite Hline; reflexivity).
  rewrite Hc. destruct (Z.eq_dec d 0) as [-> | Hnz].
  - change ((digit_char 0 =? chr "0")%Z) with true. cbv iota.
    destruct ds as [| d' ds'].
    + unfold end_of_line, uw_string_index_valid. rewrite Hline. reflexivity.
    + assert (He1 : end_of_line (current_line p) 1 = false)
        by (rewrite Hline; reflexivity).
      assert (Hc1 : uw_char_at (current_line p) 1 = digit_char d')
        by (rewrite Hline; reflexivity).
      assert (Hd' : is_digit_of 10 d') by now inversion Hds.
      rewrite He1, Hc1, (decimal_digit_is_no_prefix 1 Hd'), He1.
      assert (Hv : value_of 10 (0%Z :: d' :: ds') = value_of 10 (d' :: ds'))
        by reflexivity.
      rewrite Hv in *.
      apply (@number_magnitude_digits 10 p [digit_char 0] 0 (d' :: ds'));
        try assumption; discriminate.
  - assert (Hne0 : (digit_char d =? chr "0")%Z = false).
    { unfold is_digit_of in Hd. assert (Hin : (0 <= d < 16)%Z) by lia.
      apply small_digit_cases in Hin. simpl in Hin.
      repeat (destruct Hin as [<- | Hin]; [try lia; try reflexivity |]).
      contradiction. }
    rewrite Hne0.
    change 0 with (length (@nil char32_t)) at 2.
    apply number_magnitude_digits; try assumption; discriminate.
Qed.

(** [_amw_parse_number] on a radix prefix followed by a run of digits. *)
Lemma parse_number_prefixed (p : AmwParser) (radix : Z) (x : char32_t)
    (ds : list Z) :
  (x = chr "b" /\ radix = 2%Z) \/ (x = chr "o" /\ radix = 8%Z)
  \/ (x = chr "x" /\ radix = 16%Z) ->
  current_line p = chr "0" :: x :: map digit_char ds ->
  ds <> [] ->
  Forall (is_digit_of radix) ds ->
  (value_of radix ds <= UW_SIGNED_MAX)%Z ->
  _amw_parse_number p 0 1
  = Some (UwSigned (value_of radix ds), length (current_line p)).
Proof.
  intros Hx Hline Hne Hall Hmax.
  assert (Hr : supported_radix radix) by (unfold supported_radix; tauto).
  assert (Hgo : number_magnitude p 0 1 radix (length [chr "0"; x])
                = Some (UwSigned (value_of radix ds),
                        length (current_line p)))
    by (apply number_magnitude_digits; assumption).
  unfold _amw_parse_number.
  assert (Hc0 : uw_char_at (current_line p) 0 = chr "0")
    by (rewrite Hline; reflexivity).
  assert (Hc1 : uw_char_at (current_line p) 1 = x)
    by (rewrite Hline; reflexivity).
  assert (He1 : end_of_line (current_line p) 1 = false)
    by (rewrite Hline; reflexivity).
  assert (He2 : end_of_line (current_line p) 2 = false).
  { rewrite Hline. destruct ds; [congruence | reflexivity]. }
  rewrite Hc0, Z.eqb_refl, He1, Hc1.
  destruct Hx as [[-> ->] | [[-> ->] | [-> ->]]].
  - change ((chr "b" =? chr "b")%Z) with true. cbn [orb]. cbv beta iota.
    rewrite He2. exact Hgo.
  - change ((chr "o" =? chr "b")%Z) with false.
    change ((chr "o" =? chr "B")%Z) with false.
    change ((chr "o" =? chr "o")%Z) with true. cbn [orb]. cbv beta iota.
    rewrite He2. exact Hgo.
  - change ((chr "x" =? chr "b")%Z) with false.
    change ((chr "x" =? chr "B")%Z) with false.
    change ((chr "x" =? chr "o")%Z) with false.
    change ((chr "x" =? chr "O")%Z) with false.
    change ((chr "x" =? chr "x")%Z) with true. cbn [orb]. cbv beta iota.
    rewrite He2. exact Hgo.
Qed.

(** *** A document that is one line of letters and digits *)

Lemma split_lines_single (text : ustring) :
  forall cur,
    Forall (fun c => (c =? LF)%Z = false) text ->
    cur <> [] \/ text <> [] ->
    split_lines_from text cur = [rev cur ++ text].
Proof.
  induction text as [| c text IH]; intros cur Hall Hne.
  - destruct cur as [| x cur]; [destruct Hne; congruence |].
    simpl. now rewrite app_nil_r.
  - inversion Hall as [| c' t Hc Ht]; subst.
    cbn [split_lines_from]. rewrite Hc, IH.
    + simpl. now rewrite <- app_assoc.
    + exact Ht.
    + left. discriminate.
Qed.

Lemma alnum_not_LF (c : char32_t) : is_alnum c = true -> (c =? LF)%Z = false.
Proof.
  unfold is_alnum, is_digit, LF, chr. simpl. lia.
Qed.

Lemma plain_ltrim (line : ustring) : plain line -> uw_string_ltrim line = line.
Proof.
  intros H. destruct line as [| c t]; [reflexivity |].
  inversion H; subst. simpl. now rewrite alnum_not_space.
Qed.

Lemma plain_rtrim (line : ustring) : plain line -> uw_string_rtrim line = line.
Proof.
  intros H. unfold uw_string_rtrim. rewrite plain_ltrim.
  - apply rev_involutive.
  - now apply Forall_rev.
Qed.

Lemma plain_leading_spaces (line : ustring) :
  plain line -> leading_spaces line = 0.
Proof.
  intros H. destruct line as [| c t]; [reflexivity |].
  inversion H; subst. simpl. now rewrite alnum_not_space.
Qed.

Lemma create_single (line : ustring) :
  plain line -> line <> [] ->
  amw_create_parser line
  = mkParser (mkMarkup [line] 0) [] 0 0 0 1 AMW_MAX_RESURSION_DEPTH true false
      builtin_parsers.
Proof.
  intros Hp Hne. unfold amw_create_parser, uw_start_read_lines.
  rewrite split_lines_single.
  - reflexivity.
  - eapply Forall_impl; [| exact Hp]. intros c Hc. now apply alnum_not_LF.
  - now right.
Qed.

Lemma skip_spaces_plain (line : ustring) :
  plain line -> uw_string_skip_spaces line 0 = 0.
Proof.
  intros Hp. unfold uw_string_skip_spaces. cbn [skipn].
  now rewrite (plain_leading_spaces Hp).
Qed.

Lemma read_first_plain_line (line : ustring) :
  plain line -> line <> [] ->
  _amw_read_block_line (amw_create_parser line)
  = (UwOK, first_line_parser line).
Proof.
  intros Hp Hne. rewrite (@create_single line Hp Hne).
  unfold _amw_read_block_line. cbn [eof markup pending].
  rewrite read_block_line_loop_cons.
  change (line_read line []
            (mkParser (mkMarkup [line] 0) [] 0 0 0 1 AMW_MAX_RESURSION_DEPTH
               true false builtin_parsers))
    with (mkParser (mkMarkup [] 1) (uw_string_rtrim line)
            (uw_string_skip_spaces (uw_string_rtrim line) 0) 1 0 1
            AMW_MAX_RESURSION_DEPTH true false builtin_parsers).
  rewrite (plain_rtrim Hp), (@skip_spaces_plain line Hp).
  cbv zeta. cbn [skip_comments current_line andb].
  unfold is_comment_line. cbn [current_line current_indent].
  destruct line as [| c t]; [congruence |].
  inversion Hp; subst.
  change (uw_char_at (c :: t) 0) with c.
  rewrite (alnum_not_comment c) by assumption.
  cbn [uw_strlen length Nat.eqb orb].
  unfold after_skip, set_skip_comments.
  cbn [skip_comments current_line current_indent block_indent markup
       line_number blocklevel max_blocklevel eof custom_parsers uw_strlen
       length Nat.eqb Nat.leb].
  reflexivity.
Qed.

Lemma skip_spaces_at_end (s : ustring) :
  uw_string_skip_spaces s (length s) = length s.
Proof.
  unfold uw_string_skip_spaces. rewrite skipn_all. simpl. lia.
Qed.

(** [check_value_end] at the end of the last line of the document. *)
Lemma check_value_end_last_line (f : ustring -> nat) (fuel : nat)
    (p : AmwParser) (value : UwValue) :
  uw_error value = false -> eof p = false -> pending (markup p) = [] ->
  check_value_end f (S fuel) p value (length (current_line p)) None
  = Some (value, None, set_current_line [] (set_eof true p)).
Proof.
  intros Hv Heof Hpend. cbn [check_value_end]. rewrite Hv.
  rewrite skip_spaces_at_end. unfold end_of_line, uw_string_index_valid.
  rewrite Nat.ltb_irrefl. cbn [negb]. unfold _amw_read_block_line.
  rewrite Heof, Hpend. reflexivity.
Qed.

Lemma digit_is_no_keyword (s : ustring) (n : nat) (kw : string) :
  is_digit (uw_char_at s 0) = true ->
  In kw reserved_keywords ->
  uw_substring_eq_cstr s 0 (0 + S n) kw = false.
Proof.
  intros Hd Hkw. unfold uw_substring_eq_cstr. rewrite uw_substr_add.
  destruct s as [| c t]; [discriminate Hd |].
  change (uw_char_at (c :: t) 0) with c in Hd.
  cbn [skipn firstn].
  assert (Hn : ((c =? chr "n") || (c =? chr "t") || (c =? chr "f"))%Z = false).
  { revert Hd. unfold is_digit, chr. simpl. lia. }
  apply orb_false_elim in Hn. destruct Hn as [Hn Hf].
  apply orb_false_elim in Hn. destruct Hn as [Hn Ht].
  destruct Hkw as [<- | [<- | [<- | []]]]; cbn [ustr list_ascii_of_string map
    ustring_eqb]; [rewrite Hn | rewrite Ht | rewrite Hf]; reflexivity.
Qed.

Lemma digit_tests (c : char32_t) :
  is_digit c = true ->
  (c =? chr ":")%Z = false /\ (c =? chr "-")%Z = false
  /\ (c =? DQUOTE)%Z = false /\ (c =? chr "+")%Z = false.
Proof.
  unfold is_digit, DQUOTE, chr. simpl. lia.
Qed.

(** [parse_value] on the only line of a document when the line is a
    number. *)
Lemma parse_value_number_line (f : ustring -> nat) (fuel : nat)
    (p : AmwParser) (n : Z) :
  get_start_position p = 0 ->
  is_digit (uw_char_at (current_line p) 0) = true ->
  _amw_parse_number p 0 1 = Some (UwSigned n, length (current_line p)) ->
  eof p = false -> pending (markup p) = [] ->
  parse_value f (S (S fuel)) p None
  = Some (UwSigned n, None, set_current_line [] (set_eof true p)).
Proof.
  intros Hsp Hd Hnum Heof Hpend. cbn [parse_value]. rewrite Hsp.
  destruct (digit_tests _ Hd) as (H1 & H2 & H3 & H4).
  rewrite H1, H2, H3, H4. cbn [orb andb].
  rewrite !(digit_is_no_keyword _ _ Hd) by (simpl; auto).
  rewrite Hd, Hnum.
  now apply check_value_end_last_line.
Qed.

Lemma amw_parse_number_line (f : ustring -> nat) (fuel : nat)
    (line : ustring) (n : Z) :
  plain line -> line <> [] ->
  is_digit (uw_char_at line 0) = true ->
  _amw_parse_number (first_line_parser line) 0 1
  = Some (UwSigned n, length line) ->
  amw_parse f (S (S fuel)) line = Some (UwSigned n).
Proof.
  intros Hp Hne Hd Hnum. unfold amw_parse.
  rewrite (read_first_plain_line Hp Hne).
  cbn [_amw_end_of_block UwOK uw_error andb]. unfold value_parser_func.
  assert (Hsp : get_start_position (first_line_parser line) = 0).
  { unfold get_start_position, first_line_parser.
    cbn [block_indent current_indent current_line Nat.ltb Nat.leb].
    now apply skip_spaces_plain. }
  rewrite (@parse_value_number_line f fuel (first_line_parser line) n
             Hsp Hd Hnum eq_refl eq_refl).
  reflexivity.
Qed.

Lemma plain_digits (radix : Z) (ds : list Z) :
  (radix <= 16)%Z -> Forall (is_digit_of radix) ds ->
  plain (map digit_char ds).
Proof.
  intros Hr Hall. unfold plain. apply Forall_map.
  eapply Forall_impl; [| exact Hall].
  intros d Hd. apply digit_char_alnum. unfold is_digit_of in Hd. lia.
Qed.

Lemma decimal_digit_char (d : Z) :
  is_digit_of 10 d -> is_digit (digit_char d) = true.
Proof.
  unfold is_digit_of. intros Hd. assert (Hin : (0 <= d < 16)%Z) by lia.
  apply small_digit_cases in Hin. simpl in Hin.
  repeat (destruct Hin as [<- | Hin]; [try lia; reflexivity |]).
  contradiction.
Qed.

Lemma amw_parse_decimal (f : ustring -> nat) (fuel : nat) (n : Z) :
  (0 <= n <= UW_SIGNED_MAX)%Z ->
  amw_parse f (S (S fuel)) (decimal n) = Some (UwSigned n).
Proof.
  intros Hn. unfold decimal, numeral.
  set (ds := digits_of (S (Z.to_nat (Z.log2 n))) 10 n).
  assert (Hall : Forall (is_digit_of 10) ds)
    by (apply digits_of_range; lia).
  assert (Hne : ds <> []) by apply digits_of_nonempty.
  assert (Hval : value_of 10 ds = n).
  { apply digits_of_value; [lia |]. split; [lia |]. apply numeral_fuel. lia. }
  apply amw_parse_number_line.
  - apply (@plain_digits 10); [lia | exact Hall].
  - destruct ds; [congruence | discriminate].
  - destruct ds as [| d ds']; [congruence |].
    apply decimal_digit_char. now inversion Hall.
  - rewrite <- Hval at 1.
    apply (@parse_number_decimal (first_line_parser (map digit_char ds)) ds);
      try assumption; try reflexivity.
    rewrite Hval. lia.
Qed.

Lemma amw_parse_prefixed (f : ustring -> nat) (fuel : nat) (radix : Z)
    (x : char32_t) (n : Z) :
  (x = chr "b" /\ radix = 2%Z) \/ (x = chr "o" /\ radix = 8%Z)
  \/ (x = chr "x" /\ radix = 16%Z) ->
  (0 <= n <= UW_SIGNED_MAX)%Z ->
  amw_parse f (S (S fuel)) (chr "0" :: x :: numeral radix n)
  = Some (UwSigned n).
Proof.
  intros Hx Hn. unfold numeral.
  assert (Hr : (2 <= radix <= 16)%Z) by lia.
  set (ds := digits_of (S (Z.to_nat (Z.log2 n))) radix n).
  assert (Hall : Forall (is_digit_of radix) ds)
    by (apply digits_of_range; lia).
  assert (Hne : ds <> []) by apply digits_of_nonempty.
  assert (Hval : value_of radix ds = n).
  { apply digits_of_value; [lia |]. split; [lia |]. apply numeral_fuel. lia. }
  apply amw_parse_number_line.
  - constructor; [reflexivity |]. constructor.
    + destruct Hx as [[-> _] | [[-> _] | [-> _]]]; reflexivity.
    + apply (@plain_digits radix); [lia | exact Hall].
  - discriminate.
  - reflexivity.
  - rewrite <- Hval at 1.
    apply (@parse_number_prefixed
             (first_line_parser (chr "0" :: x :: map digit_char ds))
             radix x ds); try assumption; try reflexivity.
    rewrite Hval. lia.
Qed.

(** C9. For every integer n from 0 to 2^31, the documents that hold n in
    decimal, as 0b and its binary digits, as 0o and its octal digits, and
    as 0x and its hexadecimal digits all parse, and all to the signed
    integer n. *)
Theorem radix_equivalence (f : ustring -> nat) (fuel : nat) (n : Z) :
  (0 <= n <= 2 ^ 31)%Z ->
  amw_parse f (S (S fuel)) (decimal n) = Some (UwSigned n)
  /\ amw_parse f (S (S fuel)) (binary n) = Some (UwSigned n)
  /\ amw_parse f (S (S fuel)) (octal n) = Some (UwSigned n)
  /\ amw_parse f (S (S fuel)) (hexadecimal n) = Some (UwSigned n).
Proof.
  intros Hn.
  assert (Hmax : (0 <= n <= UW_SIGNED_MAX)%Z)
    by (unfold UW_SIGNED_MAX; lia).
  split; [now apply amw_parse_decimal |].
  split; [apply (@amw_parse_prefixed f fuel 2 (chr "b") n); tauto |].
  split; [apply (@amw_parse_prefixed f fuel 8 (chr "o") n); tauto |].
  apply (@amw_parse_prefixed f fuel 16 (chr "x") n); tauto.
Qed.

Lemma radix_equivalence_witness :
  (0 <= 48879 <= 2 ^ 31)%Z
  /\ amw_parse zero_view 2 (decimal 48879) = Some (UwSigned 48879)
  /\ amw_parse zero_view 2 (binary 48879) = Some (UwSigned 48879)
  /\ amw_parse zero_view 2 (octal 48879) = Some (UwSigned 48879)
  /\ amw_parse zero_view 2 (hexadecimal 48879) = Some (UwSigned 48879).
Proof.
  assert (H : (0 <= 48879 <= 2 ^ 31)%Z) by (split; vm_compute; discriminate).
  split; [exact H |].
  exact (@radix_equivalence zero_view 0 48879%Z H).
Defined.

Example numerals_of_48879 :
  decimal 48879 = ustr "48879"
  /\ binary 48879 = ustr "0b1011111011101111"
  /\ octal 48879 = ustr "0o137357"
  /\ hexadecimal 48879 = ustr "0xbeef".
Proof. repeat split; vm_compute; reflexivity. Qed.

(** ** Line numbers do not steer the parser *)

Lemma same_value_refl (v : UwValue) : same_value v v.
Proof. now left. Qed.

Lemma same_value_reline (k : nat) (v : UwValue) : same_value v (reline k v).
Proof.
  destruct v as [| b | n | n | s t | s | l | l | c | l pos d];
    try (now left).
  right. now exists l, (l + k), pos, d.
Qed.

Lemma same_value_error (v v' : UwValue) :
  same_value v v' -> uw_error v' = uw_error v.
Proof.
  intros [-> | (l & l' & pos & d & -> & ->)]; reflexivity.
Qed.

Lemma same_value_ok (v v' : UwValue) :
  same_value v v' -> uw_error v = false -> v' = v.
Proof.
  intros [-> | (l & l' & pos & d & -> & ->)] H; [reflexivity | discriminate H].
Qed.

Lemma line_read_shift (k : nat) (raw : ustring) (rest : list ustring)
    (p : AmwParser) :
  line_read raw rest (shift k p) = shift k (line_read raw rest p).
Proof. reflexivity. Qed.

Lemma read_block_line_loop_shift (k : nat) (input : list ustring) :
  forall p,
    read_block_line_loop input (shift k p)
    = (fst (read_block_line_loop input p),
       shift k (snd (read_block_line_loop input p))).
Proof.
  induction input as [| raw rest IH]; intros p.
  - reflexivity.
  - rewrite !read_block_line_loop_cons. cbv zeta. rewrite line_read_shift.
    set (p1 := line_read raw rest p).
    change (skip_comments (shift k p1)) with (skip_comments p1).
    change (current_line (shift k p1)) with (current_line p1).
    change (is_comment_line (shift k p1)) with (is_comment_line p1).
    destruct (skip_comments p1
              && ((uw_strlen (current_line p1) =? 0) || is_comment_line p1)).
    + apply IH.
    + assert (Hp2 : (if skip_comments p1
                     then set_skip_comments false (shift k p1)
                     else shift k p1)
                    = shift k (if skip_comments p1
                               then set_skip_comments false p1 else p1))
        by (destruct (skip_comments p1); reflexivity).
      rewrite Hp2.
      set (p2 := if skip_comments p1 then set_skip_comments false p1 else p1).
      assert (Hl : 1 <= lineno (markup p2)).
      { unfold p2, p1.
        destruct (skip_comments (line_read raw rest p)); simpl; lia. }
      clearbody p2. unfold after_skip.
      change (current_line (shift k p2)) with (current_line p2).
      change (block_indent (shift k p2)) with (block_indent p2).
      change (current_indent (shift k p2)) with (current_indent p2).
      change (is_comment_line (shift k p2)) with (is_comment_line p2).
      destruct (uw_strlen (current_line p2) =? 0); [reflexivity |].
      destruct (block_indent p2 <=? current_indent p2); [reflexivity |].
      destruct (is_comment_line p2); [apply IH |].
      cbn [fst snd]. f_equal.
      unfold shift, set_current_line, set_markup, uw_unread_line.
      cbn [markup pending lineno current_line current_indent line_number
           block_indent blocklevel max_blocklevel skip_comments eof
           custom_parsers].
      f_equal. f_equal. lia.
Qed.

Lemma read_block_line_shift (k : nat) (p : AmwParser) :
  _amw_read_block_line (shift k p)
  = (fst (_amw_read_block_line p), shift k (snd (_amw_read_block_line p))).
Proof.
  unfold _amw_read_block_line.
  change (eof (shift k p)) with (eof p).
  change (blocklevel (shift k p)) with (blocklevel p).
  change (pending (markup (shift k p))) with (pending (markup p)).
  destruct (eof p).
  - destruct (0 <? blocklevel p); reflexivity.
  - apply read_block_line_loop_shift.
Qed.

(** *** Functions that do not create parse errors *)

Lemma read_block_loop_shift (k : nat) (fuel : nat) :
  forall p lines,
    read_block_loop fuel (shift k p) lines
    = lift k (read_block_loop fuel p lines).
Proof.
  induction fuel as [| fuel IH]; intros p lines; [reflexivity |].
  cbn [read_block_loop]. rewrite read_block_line_shift.
  change (current_line (shift k p)) with (current_line p).
  change (block_indent (shift k p)) with (block_indent p).
  destruct (_amw_read_block_line p) as [status q]. cbn [fst snd].
  destruct (_amw_end_of_block status); [reflexivity |].
  destruct (uw_error status); [reflexivity |].
  apply IH.
Qed.

Lemma parse_raw_value_shift (k fuel : nat) (p : AmwParser) :
  parse_raw_value fuel (shift k p) = lift k (parse_raw_value fuel p).
Proof.
  unfold parse_raw_value, _amw_read_block. rewrite read_block_loop_shift.
  destruct (read_block_loop fuel p []) as [[[s | ls] q] |]; reflexivity.
Qed.

Lemma parse_literal_string_shift (k fuel : nat) (p : AmwParser) :
  parse_literal_string fuel (shift k p) = lift k (parse_literal_string fuel p).
Proof.
  unfold parse_literal_string, _amw_read_block. rewrite read_block_loop_shift.
  destruct (read_block_loop fuel p []) as [[[s | ls] q] |]; reflexivity.
Qed.

Lemma parse_folded_string_shift (k fuel : nat) (p : AmwParser) :
  parse_folded_string fuel (shift k p) = lift k (parse_folded_string fuel p).
Proof.
  unfold parse_folded_string, _amw_read_block. rewrite read_block_loop_shift.
  destruct (read_block_loop fuel p []) as [[[s | ls] q] |]; try reflexivity.
  cbn [lift]. destruct (length (filter nonempty_line (uw_list_dedent ls)) =? 0);
    reflexivity.
Qed.

(** *** Numbers *)

Lemma parse_unsigned_loop_shift (k : nat) (fuel : nat) :
  forall p start radix pos digit_seen separator_seen result,
    parse_unsigned_loop fuel (shift k p) start radix pos digit_seen
      separator_seen result
    = reline_at k (parse_unsigned_loop fuel p start radix pos digit_seen
                     separator_seen result).
Proof.
  induction fuel as [| fuel IH]; intros; [reflexivity |].
  cbn [parse_unsigned_loop].
  change (current_line (shift k p)) with (current_line p).
  repeat match goal with
         | |- context [if ?b then _ else _] => destruct b
         | |- context [match digit_value ?r ?c with _ => _ end] =>
             destruct (digit_value r c)
         end; try reflexivity; apply IH.
Qed.

Lemma number_done_shift (k : nat) (p : AmwParser) (start_pos : nat)
    (sign : Z) (is_float : bool) (base : Z) (pos : nat) :
  number_done (shift k p) start_pos sign is_float base pos
  = (reline k (fst (number_done p start_pos sign is_float base pos)),
     snd (number_done p start_pos sign is_float base pos)).
Proof.
  unfold number_done.
  change (current_line (shift k p)) with (current_line p).
  repeat match goal with
         | |- context [if ?b then _ else _] => destruct b
         end; reflexivity.
Qed.

Lemma number_exponent_shift (k : nat) (p : AmwParser) (start_pos : nat)
    (sign radix : Z) (is_float : bool) (base : Z) (pos : nat) (c : char32_t) :
  number_exponent (shift k p) start_pos sign radix is_float base pos c
  = (reline k
       (fst (number_exponent p start_pos sign radix is_float base pos c)),
     snd (number_exponent p start_pos sign radix is_float base pos c)).
Proof.
  unfold number_exponent. cbv zeta.
  change (current_line (shift k p)) with (current_line p).
  repeat match goal with
         | |- context [number_done (shift k p) ?a ?b ?c ?d ?e] =>
             rewrite (number_done_shift k p a b c d e)
         | |- context [if ?b then _ else _] => destruct b
         end; reflexivity.
Qed.

Lemma number_magnitude_shift (k : nat) (p : AmwParser) (start_pos : nat)
    (sign radix : Z) (pos : nat) :
  number_magnitude (shift k p) start_pos sign radix pos
  = reline_at k (number_magnitude p start_pos sign radix pos).
Proof.
  unfold number_magnitude, parse_unsigned. cbv zeta.
  change (current_line (shift k p)) with (current_line p).
  rewrite parse_unsigned_loop_shift.
  destruct (parse_unsigned_loop _ p pos radix pos false false 0)
    as [[base pos'] |]; [| reflexivity].
  destruct base; cbn [reline_at reline fst snd]; try reflexivity.
  repeat match goal with
         | |- context [number_done (shift k p) ?a ?b ?c ?d ?e] =>
             rewrite (number_done_shift k p a b c d e)
         | |- context [number_exponent (shift k p) ?a ?b ?c ?d ?e ?g ?h] =>
             rewrite (number_exponent_shift k p a b c d e g h)
         | |- context [if ?b then _ else _] => destruct b
         end; reflexivity.
Qed.

Lemma amw_parse_number_shift (k : nat) (p : AmwParser) (start_pos : nat)
    (sign : Z) :
  _amw_parse_number (shift k p) start_pos sign
  = reline_at k (_amw_parse_number p start_pos sign).
Proof.
  unfold _amw_parse_number. cbv zeta.
  change (current_line (shift k p)) with (current_line p).
  destruct (uw_char_at (current_line p) start_pos =? chr "0")%Z.
  - destruct (end_of_line (current_line p) (S start_pos)).
    + rewrite number_done_shift. reflexivity.
    + match goal with
      | |- context [let '(radix, pos) := ?sel in _] =>
          destruct sel as [radix pos]
      end.
      destruct (end_of_line (current_line p) pos); [reflexivity |].
      apply number_magnitude_shift.
  - apply number_magnitude_shift.
Qed.

(** *** Quoted strings *)

Lemma octal_loop_shift (k : nat) (line : ustring) (l : nat) (n : nat) :
  forall i pos v,
    octal_loop n i line (l + k) pos v
    = reline_sum k (octal_loop n i line l pos v).
Proof.
  induction n as [| n IH]; intros; [reflexivity |].
  cbn [octal_loop].
  repeat match goal with
         | |- context [if ?b then _ else _] => destruct b
         end; try reflexivity; apply IH.
Qed.

Lemma hex_loop_shift (k : nat) (line : ustring) (l : nat) (n : nat) :
  forall pos v,
    hex_loop n line (l + k) pos v = reline_sum k (hex_loop n line l pos v).
Proof.
  induction n as [| n IH]; intros; [reflexivity |].
  cbn [hex_loop].
  repeat match goal with
         | |- context [if ?b then _ else _] => destruct b
         end; try reflexivity; apply IH.
Qed.

Lemma unescape_loop_shift (k : nat) (line : ustring) (l : nat)
    (quote : char32_t) (len : nat) (fuel : nat) :
  forall pos result,
    unescape_loop fuel line (l + k) quote len pos result
    = reline_fst k (unescape_loop fuel line l quote len pos result).
Proof.
  induction fuel as [| fuel IH]; intros; [reflexivity |].
  cbn [unescape_loop].
  destruct (pos <? len); [| reflexivity].
  destruct (uw_char_at line pos =? quote)%Z; [reflexivity |].
  destruct (negb (uw_char_at line pos =? BACKSLASH)%Z); [apply IH |].
  destruct (end_of_line line (S pos)); [reflexivity |].
  destruct (classify_escape (uw_char_at line (S pos))).
  - apply IH.
  - rewrite octal_loop_shift.
    destruct (octal_loop 3 0 line l (S pos) 0) as [e | [v pos']];
      [reflexivity | apply IH].
  - rewrite hex_loop_shift.
    destruct (hex_loop hexlen line l (S pos) 0) as [e | [v pos']];
      [reflexivity | apply IH].
  - apply IH.
Qed.

Lemma unescape_line_shift (k : nat) (line : ustring) (l : nat)
    (quote : char32_t) (start_pos : nat) :
  _amw_unescape_line line (l + k) quote start_pos
  = reline_fst k (_amw_unescape_line line l quote start_pos).
Proof.
  unfold _amw_unescape_line. cbv zeta.
  destruct (uw_strlen line <=? start_pos); [reflexivity |].
  apply unescape_loop_shift.
Qed.

Lemma drop_empty_lines_fst (lines : list ustring) :
  forall ns, fst (drop_empty_lines lines ns) = filter nonempty_line lines.
Proof.
  induction lines as [| l ls IH]; intros ns.
  - now destruct ns.
  - destruct ns as [| n ns]; cbn [drop_empty_lines filter].
    + specialize (IH []). destruct (drop_empty_lines ls []) as [ls' ns'].
      cbn [fst] in IH. subst ls'. unfold nonempty_line.
      destruct (uw_strlen l =? 0); reflexivity.
    + specialize (IH ns). destruct (drop_empty_lines ls ns) as [ls' ns'].
      cbn [fst] in IH. subst ls'. unfold nonempty_line.
      destruct (uw_strlen l =? 0); reflexivity.
Qed.

Lemma quoted_block_loop_shift (k : nat) (quote : char32_t)
    (opening_quote_pos : nat) (fuel : nat) :
  forall p lines ns ns' end_pos,
    same_block k
      (quoted_block_loop fuel p quote opening_quote_pos lines ns end_pos)
      (quoted_block_loop fuel (shift k p) quote opening_quote_pos lines ns'
         end_pos).
Proof.
  induction fuel as [| fuel IH]; intros; [exact I |].
  cbn [quoted_block_loop].
  change (current_line (shift k p)) with (current_line p).
  change (block_indent (shift k p)) with (block_indent p).
  destruct (find_closing_quote (current_line p) quote (opening_quote_pos + 1))
    as [[e |] |]; cbn [same_block]; auto.
  rewrite read_block_line_shift.
  destruct (_amw_read_block_line p) as [status q]. cbn [fst snd].
  destruct (_amw_end_of_block status); cbn [same_block]; auto.
  destruct (uw_error status); cbn [same_block]; auto.
Qed.

Lemma parse_quoted_string_shift (f : ustring -> nat) (k fuel : nat)
    (p : AmwParser) (opening_quote_pos end_pos0 : nat) :
  same_quoted k
    (parse_quoted_string f fuel p opening_quote_pos end_pos0)
    (parse_quoted_string f fuel (shift k p) opening_quote_pos end_pos0).
Proof.
  unfold parse_quoted_string. cbv zeta.
  change (current_line (shift k p)) with (current_line p).
  change (line_number (shift k p)) with (line_number p + k).
  change (block_indent (shift k p)) with (block_indent p).
  destruct (find_closing_quote (current_line p)
              (uw_char_at (current_line p) opening_quote_pos)
              (opening_quote_pos + 1)) as [[e |] |]; [| | exact I].
  - rewrite unescape_line_shift.
    destruct (_amw_unescape_line (current_line p) (line_number p)
                (uw_char_at (current_line p) opening_quote_pos)
                (opening_quote_pos + 1)) as [[r w] |]; [| exact I].
    cbn [reline_fst fst snd same_quoted].
    split; [apply same_value_reline | split; reflexivity].
  - change (set_block_indent (opening_quote_pos + 1) (shift k p))
      with (shift k (set_block_indent (opening_quote_pos + 1) p)).
    pose proof (@quoted_block_loop_shift k
                  (uw_char_at (current_line p) opening_quote_pos)
                  opening_quote_pos fuel
                  (set_block_indent (opening_quote_pos + 1) p) [] [] []
                  end_pos0) as H.
    destruct (quoted_block_loop fuel
                (set_block_indent (opening_quote_pos + 1) p) _ _ [] []
                end_pos0) as [[[s | [[[ls ns] c] e]] q] |];
      destruct (quoted_block_loop fuel
                  (shift k (set_block_indent (opening_quote_pos + 1) p))
                  _ _ [] [] end_pos0) as [[[s' | [[[ls' ns'] c'] e']] q'] |];
      cbn [same_block] in H; try contradiction; [| | exact I].
    + destruct H as [-> ->]. cbn [same_quoted].
      split; [apply same_value_refl | split; reflexivity].
    + destruct H as (-> & -> & -> & ->).
      change (set_block_indent (block_indent p) (shift k q))
        with (shift k (set_block_indent (block_indent p) q)).
      set (q1 := set_block_indent (block_indent p) q).
      change (current_indent (shift k q1)) with (current_indent q1).
      change (current_line (shift k q1)) with (current_line q1).
      destruct (negb c'
                && negb ((current_indent q1 =? opening_quote_pos)
                         && (uw_char_at (current_line q1) (current_indent q1)
                             =? uw_char_at (current_line p)
                                  opening_quote_pos)%Z)).
      * cbn [same_quoted].
        split; [apply (same_value_reline k) | split; reflexivity].
      * pose proof (drop_empty_lines_fst (uw_list_dedent ls') ns) as H1.
        pose proof (drop_empty_lines_fst (uw_list_dedent ls') ns') as H2.
        destruct (drop_empty_lines (uw_list_dedent ls') ns) as [l1 n1].
        destruct (drop_empty_lines (uw_list_dedent ls') ns') as [l2 n2].
        cbn [fst] in H1, H2. subst l1 l2.
        destruct (length (filter nonempty_line (uw_list_dedent ls')) =? 0).
        -- cbn [same_quoted].
           split; [apply same_value_refl | split; reflexivity].
        -- destruct (unescape_lines f _ _ []) as [r |]; [| exact I].
           cbn [same_quoted].
           split; [apply same_value_refl | split; reflexivity].
Qed.

(** *** The dispatcher and the collections *)

Section Shift.

Variable f : ustring -> nat.
Variable k : nat.

Lemma current_line_shift p : current_line (shift k p) = current_line p.
Proof. reflexivity. Qed.
Lemma current_indent_shift p : current_indent (shift k p) = current_indent p.
Proof. reflexivity. Qed.
Lemma block_indent_shift p : block_indent (shift k p) = block_indent p.
Proof. reflexivity. Qed.
Lemma blocklevel_shift p : blocklevel (shift k p) = blocklevel p.
Proof. reflexivity. Qed.
Lemma max_blocklevel_shift p : max_blocklevel (shift k p) = max_blocklevel p.
Proof. reflexivity. Qed.
Lemma line_number_shift p : line_number (shift k p) = line_number p + k.
Proof. reflexivity. Qed.
Lemma eqb_shift a b : (a + k =? b + k) = (a =? b).
Proof.
  destruct (Nat.eqb_spec a b) as [-> | Hne].
  - apply Nat.eqb_refl.
  - apply Nat.eqb_neq. lia.
Qed.
Lemma eof_shift p : eof (shift k p) = eof p.
Proof. reflexivity. Qed.
Lemma get_start_position_shift p :
  get_start_position (shift k p) = get_start_position p.
Proof. reflexivity. Qed.
Lemma comment_or_end_of_line_shift p n :
  comment_or_end_of_line (shift k p) n = comment_or_end_of_line p n.
Proof. reflexivity. Qed.
Lemma parse_convspec_shift p a b :
  parse_convspec (shift k p) a b = parse_convspec p a b.
Proof. reflexivity. Qed.
Lemma is_kv_separator_shift p n :
  is_kv_separator (shift k p) n = is_kv_separator p n.
Proof. reflexivity. Qed.
Lemma get_custom_parser_shift p s :
  get_custom_parser (shift k p) s = get_custom_parser p s.
Proof. reflexivity. Qed.
Lemma parser_error_shift p pos d :
  parser_error (shift k p) pos d = reline k (parser_error p pos d).
Proof. reflexivity. Qed.
Lemma set_block_indent_shift n p :
  set_block_indent n (shift k p) = shift k (set_block_indent n p).
Proof. reflexivity. Qed.
Lemma set_blocklevel_shift n p :
  set_blocklevel n (shift k p) = shift k (set_blocklevel n p).
Proof. reflexivity. Qed.

Ltac same_value_tac :=
  first [ apply same_value_refl
        | apply same_value_reline
        | assumption
        | right; do 4 eexists; split; reflexivity ].

Ltac fin :=
  cbn [same_result same_result3 lift reline_at fst snd];
  first [ exact I
        | split; [same_value_tac | first [reflexivity | split; reflexivity]] ].

Ltac use3 H :=
  match type of H with
  | same_result3 _ ?a ?b =>
      destruct a as [[[? ?] ?] |]; destruct b as [[[? ?] ?] |];
      cbn [same_result3] in H; try contradiction;
      [destruct H as (? & -> & ->) | clear H]
  end.

Ltac use2 H :=
  match type of H with
  | same_result _ ?a ?b =>
      destruct a as [[? ?] |]; destruct b as [[? ?] |];
      cbn [same_result] in H; try contradiction;
      [destruct H as (? & ->) | clear H]
  end.

(** One step of a proof that runs the code on [p] and on [shift k p] side
    by side: the test or the call at the head of the left-hand side is
    resolved on both sides. *)
Ltac by_shift := match goal with IH : _ |- _ => apply IH end.

Ltac shift_rewrite :=
  rewrite ?current_line_shift, ?current_indent_shift, ?block_indent_shift,
    ?blocklevel_shift, ?max_blocklevel_shift, ?line_number_shift, ?eof_shift,
    ?get_start_position_shift, ?comment_or_end_of_line_shift,
    ?parse_convspec_shift, ?is_kv_separator_shift, ?get_custom_parser_shift,
    ?parser_error_shift, ?set_block_indent_shift, ?set_blocklevel_shift,
    ?eqb_shift.

Ltac call_shift x :=
  let H := fresh "H" in
  first [ assert (H : same_result3 k x _) by by_shift; use3 H
        | assert (H : same_result k x _) by by_shift; use2 H ].

Ltac head_on x :=
  lazymatch x with
  | match ?y with _ => _ end => head_on y
  | _amw_read_block_line ?p =>
      rewrite ?(read_block_line_shift k p);
      destruct (_amw_read_block_line p) as [? ?]; cbn [fst snd]
  | parse_literal_string ?fu ?p =>
      rewrite ?(parse_literal_string_shift k fu p);
      destruct (parse_literal_string fu p) as [[? ?] |]; cbn [lift]
  | parse_raw_value ?fu ?p =>
      rewrite ?(parse_raw_value_shift k fu p);
      destruct (parse_raw_value fu p) as [[? ?] |]; cbn [lift]
  | parse_folded_string ?fu ?p =>
      rewrite ?(parse_folded_string_shift k fu p);
      destruct (parse_folded_string fu p) as [[? ?] |]; cbn [lift]
  | _amw_parse_number ?p ?a ?b =>
      rewrite ?(amw_parse_number_shift k p a b);
      destruct (_amw_parse_number p a b) as [[? ?] |];
      cbn [reline_at fst snd]
  | parse_quoted_string f ?fu ?p ?a ?b =>
      let H := fresh "H" in
      pose proof (parse_quoted_string_shift f k fu p a b) as H;
      destruct (parse_quoted_string f fu p a b) as [[[? ?] ?] |];
      destruct (parse_quoted_string f fu (shift k p) a b) as [[[? ?] ?] |];
      cbn [same_quoted] in H; try contradiction;
      [destruct H as (? & -> & ->) | clear H]
  | check_value_end f ?fu ?p ?v ?e ?n =>
      match goal with
      | |- context [check_value_end f fu (shift k p) ?v' e n] =>
          let H := fresh "H" in
          assert (H : same_result3 k x
                        (check_value_end f fu (shift k p) v' e n))
            by (by_shift; same_value_tac);
          use3 H
      end
  | _ => first [call_shift x | destruct x]
  end.

Ltac step :=
  lazymatch goal with
  | H : same_value _ _ |- _ =>
      destruct H as [<- | (? & ? & ? & ? & -> & ->)]
  | |- same_result _ (Some _) (Some _) => fin
  | |- same_result3 _ (Some _) (Some _) => fin
  | |- same_result _ None None => exact I
  | |- same_result3 _ None None => exact I
  | |- same_result _ (match ?x with _ => _ end) _ => head_on x
  | |- same_result3 _ (match ?x with _ => _ end) _ => head_on x
  | |- same_result _ ?x _ => head_on x
  | |- same_result3 _ ?x _ => head_on x
  end;
  cbv beta iota; shift_rewrite;
  cbn [uw_error uw_is_string bool_value _amw_end_of_block].

Lemma shift_invariant_all (fuel : nat) : shift_invariant f k fuel.
Proof.
  induction fuel as [| fuel IH].
  - repeat split; intros; exact I.
  - destruct IH as (H1 & H2 & H3 & H4 & H5 & H6 & H7 & H8 & H9 & H10).
    unfold shift_invariant. repeat apply conj; intros;
      [ cbn [parse_value] | cbn [check_value_end]
      | cbn [parse_literal_string_or_map] | cbn [parse_nested_block]
      | cbn [parse_nested_block_from_next_line] | cbn [call_parser_func]
      | cbn [parse_list] | cbn [parse_list_loop] | cbn [parse_map]
      | cbn [parse_map_loop] ];
      cbv beta iota; shift_rewrite; repeat step.
Qed.

Lemma amw_parse_after_first_read (fuel : nat) (text : ustring) :
  amw_parse f fuel text
  = parse_after_first_read f fuel
      (fst (_amw_read_block_line (amw_create_parser text)))
      (snd (_amw_read_block_line (amw_create_parser text))).
Proof.
  unfold amw_parse, parse_after_first_read.
  now destruct (_amw_read_block_line (amw_create_parser text)).
Qed.

Lemma parse_after_first_read_shift (fuel : nat) (status : UwValue)
    (p : AmwParser) (v : UwValue) :
  parse_after_first_read f fuel status p = Some v ->
  uw_error v = false ->
  parse_after_first_read f fuel status (shift k p) = Some v.
Proof.
  unfold parse_after_first_read, value_parser_func.
  rewrite eof_shift. intros Hrun Hok.
  destruct (_amw_end_of_block status && eof p); [exact Hrun |].
  destruct (uw_error status); [exact Hrun |].
  destruct (shift_invariant_all fuel) as (Hpv & _).
  specialize (Hpv p None).
  destruct (parse_value f fuel p None) as [[[r n] q] |]; [| discriminate Hrun].
  destruct (parse_value f fuel (shift k p) None) as [[[r' n'] q'] |];
    cbn [same_result3] in Hpv; [| contradiction].
  destruct Hpv as (Hs & -> & ->).
  destruct (uw_error r) eqn:Hr.
  - inversion Hrun; subst. congruence.
  - rewrite (same_value_ok Hs Hr), Hr, read_block_line_shift.
    destruct (_amw_read_block_line q) as [status2 q2]. cbn [fst snd].
    rewrite eof_shift. destruct (eof q2); [exact Hrun |].
    destruct (uw_error status2) eqn:Hs2; inversion Hrun; subst;
      [congruence | discriminate Hok].
Qed.

End Shift.

(** *** Comment lines before the first line of the document *)

Lemma split_lines_line (c : ustring) :
  forall rest cur,
    one_line c ->
    split_lines_from (c ++ LF :: rest) cur
    = (rev cur ++ c ++ [LF]) :: split_lines_from rest [].
Proof.
  induction c as [| x c IH]; intros rest cur Hc.
  - cbn [app split_lines_from]. rewrite Z.eqb_refl. reflexivity.
  - inversion Hc as [| x' c' Hx Hc']; subst.
    cbn [app split_lines_from]. rewrite Hx, IH by exact Hc'.
    cbn [rev]. now rewrite <- app_assoc.
Qed.

Lemma split_comment_lines (comments : list ustring) (text : ustring) :
  Forall one_line comments ->
  split_lines_from (comment_lines comments ++ text) []
  = map (fun c => c ++ [LF]) comments ++ split_lines_from text [].
Proof.
  induction comments as [| c comments IH]; intros Hall; [reflexivity |].
  inversion Hall as [| c' cs Hc Hcs]; subst.
  unfold comment_lines. cbn [map concat].
  rewrite <- !app_assoc. cbn [app].
  rewrite split_lines_line by exact Hc.
  cbn [rev app]. f_equal. now apply IH.
Qed.

Lemma rtrim_LF (c : ustring) :
  uw_string_rtrim (c ++ [LF]) = uw_string_rtrim c.
Proof.
  unfold uw_string_rtrim. now rewrite rev_app_distr.
Qed.

Lemma comment_text_LF (c : ustring) :
  comment_text (c ++ [LF]) = comment_text c.
Proof.
  unfold comment_text, indent_of. now rewrite rtrim_LF.
Qed.

Lemma amw_create_parser_at_input (text : ustring) :
  amw_create_parser text
  = at_input (split_lines_from text []) 0 (amw_create_parser []).
Proof. reflexivity. Qed.

Lemma leading_comments_invisible (f : ustring -> nat) (fuel : nat)
    (comments : list ustring) (text : ustring) (v : UwValue) :
  Forall (fun c => one_line c /\ comment_text c = true) comments ->
  amw_parse f fuel text = Some v ->
  uw_error v = false ->
  amw_parse f fuel (comment_lines comments ++ text) = Some v.
Proof.
  intros Hall Hrun Hok.
  assert (Hone : Forall one_line comments)
    by (eapply Forall_impl; [| exact Hall]; intros c Hc; apply Hc).
  set (raw := map (fun c => c ++ [LF]) comments).
  set (input := split_lines_from text []).
  set (p0 := amw_create_parser []).
  assert (Hskip : Forall (fun c => skipped_comment p0 c = true) raw).
  { unfold raw. apply Forall_map. eapply Forall_impl; [| exact Hall].
    intros c [_ Hc]. unfold skipped_comment.
    now rewrite comment_text_LF, Hc. }
  assert (Hne : input <> []).
  { intros Hnil. rewrite amw_parse_after_first_read in Hrun.
    rewrite amw_create_parser_at_input in Hrun. fold input in Hrun.
    rewrite Hnil in Hrun. cbv in Hrun. inversion Hrun; subst.
    discriminate Hok. }
  rewrite amw_parse_after_first_read in Hrun |- *.
  rewrite amw_create_parser_at_input, split_comment_lines by exact Hone.
  rewrite amw_create_parser_at_input in Hrun.
  fold raw input p0 in Hrun |- *.
  assert (Hread : _amw_read_block_line (at_input (raw ++ input) 0 p0)
                  = (fst (_amw_read_block_line (at_input input 0 p0)),
                     shift (length raw)
                       (snd (_amw_read_block_line (at_input input 0 p0))))).
  { transitivity
      (_amw_read_block_line (shift (length raw) (at_input input 0 p0)));
      [| apply read_block_line_shift].
    assert (Hl : read_block_line_loop (raw ++ input)
                   (at_input (raw ++ input) 0 p0)
                 = read_block_line_loop input
                     (at_input input (length raw) p0)).
    { rewrite <- (Nat.add_0_r (length raw)).
      exact (proj2 (@skipped_comments_loop raw input 0 p0 Hskip) Hne). }
    assert (Hr : read_block_line_loop input
                   (shift (length raw) (at_input input 0 p0))
                 = read_block_line_loop input
                     (at_input input (length raw) p0))
      by exact (@read_block_line_loop_overwrites input (length raw) p0 [] 0
                  (length raw) Hne).
    unfold _amw_read_block_line at 1.
    change (eof (at_input (raw ++ input) 0 p0)) with false. cbv iota.
    change (pending (markup (at_input (raw ++ input) 0 p0)))
      with (raw ++ input).
    rewrite Hl, <- Hr. reflexivity. }
  rewrite Hread. cbn [fst snd].
  now apply parse_after_first_read_shift.
Qed.

(** X24. Comment lines are invisible where the block reader passes over
    them.  (1) Comment lines placed before the first line of a document
    that parses to a value do not change the value.
    (2) At any point of a parse, comment lines in front of the input of the
    reader that it meets while [skip_comments] is set, or that start left
    of the block indent, leave the result of the read unchanged: same
    status, same parser, the reader having counted them (when no line
    follows them, only the indent and the number of the last line read
    differ). *)
Theorem comment_invariance (f : ustring -> nat) :
  (forall (fuel : nat) (comments : list ustring) (text : ustring)
          (v : UwValue),
      Forall (fun c => one_line c /\ comment_text c = true) comments ->
      amw_parse f fuel text = Some v ->
      uw_error v = false ->
      amw_parse f fuel (comment_lines comments ++ text) = Some v)
  /\ (forall (p : AmwParser) (comments rest : list ustring) (n : nat),
         eof p = false ->
         Forall (fun c => skipped_comment p c = true) comments ->
         same_read
           (_amw_read_block_line (at_input (comments ++ rest) n p))
           (_amw_read_block_line (at_input rest (length comments + n) p))
         /\ (rest <> [] ->
             _amw_read_block_line (at_input (comments ++ rest) n p)
             = _amw_read_block_line
                 (at_input rest (length comments + n) p))).
Proof.
  split.
  - intros fuel comments text v. apply leading_comments_invisible.
  - intros p comments rest n. apply skipped_comments_read.
Qed.

Lemma comment_invariance_witness :
  (Forall (fun c => one_line c /\ comment_text c = true)
     [ustr "# a"; ustr "   # b"]
   /\ amw_parse zero_view 20 (doc ["- 1"; "- x"]%string)
      = Some (UwList [UwSigned 1; UwString (ustr "x")])
   /\ uw_error (UwList [UwSigned 1; UwString (ustr "x")]) = false
   /\ amw_parse zero_view 20
        (comment_lines [ustr "# a"; ustr "   # b"]
         ++ doc ["- 1"; "- x"]%string)
      = Some (UwList [UwSigned 1; UwString (ustr "x")]))
  /\ (eof map_value_parser = false
      /\ Forall (fun c => skipped_comment map_value_parser c = true)
           [ustr "# a"; ustr " # b"]
      /\ _amw_read_block_line
           (at_input ([ustr "# a"; ustr " # b"] ++ [ustr "b: 2"]) 1
              map_value_parser)
         = _amw_read_block_line
             (at_input [ustr "b: 2"]
                (length [ustr "# a"; ustr " # b"] + 1) map_value_parser)).
Proof.
  assert (H1 : Forall (fun c => one_line c /\ comment_text c = true)
                 [ustr "# a"; ustr "   # b"])
    by (repeat constructor).
  assert (H2 : amw_parse zero_view 20 (doc ["- 1"; "- x"]%string)
               = Some (UwList [UwSigned 1; UwString (ustr "x")]))
    by (vm_compute; reflexivity).
  assert (H3 : uw_error (UwList [UwSigned 1; UwString (ustr "x")]) = false)
    by reflexivity.
  assert (H4 : eof map_value_parser = false) by reflexivity.
  assert (H5 : Forall (fun c => skipped_comment map_value_parser c = true)
                 [ustr "# a"; ustr " # b"])
    by (repeat constructor).
  assert (H6 : [ustr "b: 2"] <> []) by discriminate.
  split.
  - split; [exact H1 |]. split; [exact H2 |]. split; [exact H3 |].
    exact (proj1 (comment_invariance zero_view) 20
             [ustr "# a"; ustr "   # b"] (doc ["- 1"; "- x"]%string)
             (UwList [UwSigned 1; UwString (ustr "x")]) H1 H2 H3).
  - split; [exact H4 |]. split; [exact H5 |].
    exact (proj2 (proj2 (comment_invariance zero_view) map_value_parser
                    [ustr "# a"; ustr " # b"] [ustr "b: 2"] 1 H4 H5) H6).
Defined.

(** ** Documents without content *)

Lemma no_content_step (p : AmwParser) (raw : ustring) (rest : list ustring) :
  skip_comments p = true -> no_content raw = true ->
  read_block_line_loop (raw :: rest) p
  = read_block_line_loop rest (line_read raw rest p).
Proof.
  intros Hs Hn. rewrite read_block_line_loop_cons. cbv zeta.
  assert (H1 : skip_comments (line_read raw rest p) = true) by exact Hs.
  assert (H2 : (uw_strlen (current_line (line_read raw rest p)) =? 0)
               || is_comment_line (line_read raw rest p) = true)
    by exact Hn.
  now rewrite H1, H2.
Qed.

Lemma content_step (p : AmwParser) (raw : ustring) (rest : list ustring) :
  skip_comments p = true -> block_indent p = 0 -> no_content raw = false ->
  read_block_line_loop (raw :: rest) p
  = (UwOK, set_skip_comments false (line_read raw rest p)).
Proof.
  intros Hs Hb Hn. rewrite read_block_line_loop_cons. cbv zeta.
  assert (H1 : skip_comments (line_read raw rest p) = true) by exact Hs.
  assert (H2 : (uw_strlen (current_line (line_read raw rest p)) =? 0)
               || is_comment_line (line_read raw rest p) = false)
    by exact Hn.
  rewrite H1, H2. cbn [andb]. unfold after_skip.
  apply orb_false_elim in H2. destruct H2 as [H2 _].
  assert (H3 : (uw_strlen (current_line
                  (set_skip_comments false (line_read raw rest p))) =? 0)
               = false) by exact H2.
  rewrite H3.
  assert (H4 : block_indent (set_skip_comments false (line_read raw rest p))
               = 0) by exact Hb.
  rewrite H4. reflexivity.
Qed.

(** The first read of a parse: leading lines without content are passed
    over; the read ends the input when there is no other line. *)
Lemma first_read_loop (input : list ustring) :
  forall p, skip_comments p = true -> block_indent p = 0 ->
    fst (read_block_line_loop input p)
    = (if forallb no_content input then UwStatus AMW_END_OF_BLOCK else UwOK)
    /\ eof (snd (read_block_line_loop input p))
       = forallb no_content input || eof p.
Proof.
  induction input as [| raw rest IH]; intros p Hs Hb.
  - split; reflexivity.
  - cbn [forallb]. destruct (no_content raw) eqn:Hn.
    + rewrite no_content_step by assumption. cbn [andb].
      exact (IH (line_read raw rest p) Hs Hb).
    + rewrite content_step by assumption. cbn [andb fst snd]. split;
        reflexivity.
Qed.

Lemma first_read (text : ustring) :
  fst (_amw_read_block_line (amw_create_parser text))
  = (if forallb no_content (lines_of text) then UwStatus AMW_END_OF_BLOCK
     else UwOK)
  /\ eof (snd (_amw_read_block_line (amw_create_parser text)))
     = forallb no_content (lines_of text).
Proof.
  change (_amw_read_block_line (amw_create_parser text))
    with (read_block_line_loop (lines_of text) (amw_create_parser text)).
  destruct (@first_read_loop (lines_of text) (amw_create_parser text)
              eq_refl eq_refl) as [H1 H2].
  change (eof (amw_create_parser text)) with false in H2.
  rewrite orb_false_r in H2. split; assumption.
Qed.

(** X1. A document that holds only blank lines and comment lines (the empty
    document included) is reported as the end of input: [amw_parse] returns
    the status UW_ERROR_EOF, whatever the fuel. *)
Theorem document_without_content_is_eof (f : ustring -> nat) (fuel : nat)
    (text : ustring) :
  forallb no_content (lines_of text) = true ->
  amw_parse f fuel text = Some (UwStatus UW_ERROR_EOF).
Proof.
  intros H. unfold amw_parse. destruct (first_read text) as [H1 H2].
  destruct (_amw_read_block_line (amw_create_parser text)) as [status p].
  cbn [fst snd] in H1, H2. rewrite H in H1, H2. subst status.
  rewrite H2. reflexivity.
Qed.

Lemma document_without_content_is_eof_witness :
  forallb no_content (lines_of (doc ["# note"; ""; "   "; "  # more"]%string))
  = true
  /\ amw_parse zero_view 0 (doc ["# note"; ""; "   "; "  # more"]%string)
     = Some (UwStatus UW_ERROR_EOF).
Proof.
  assert (H : forallb no_content
                (lines_of (doc ["# note"; ""; "   "; "  # more"]%string))
              = true) by (vm_compute; reflexivity).
  split; [exact H |].
  exact (@document_without_content_is_eof zero_view 0 _ H).
Defined.

(** X2. [amw_parse_json] never returns a value: the JSON block parser is
    not implemented, so the result is UW_ERROR_NOT_IMPLEMENTED for every
    document that holds a line with content, and the status END_OF_BLOCK of
    the first read for a document without content. *)
Theorem amw_parse_json_not_implemented (text : ustring) :
  amw_parse_json text
  = UwStatus (if forallb no_content (lines_of text) then AMW_END_OF_BLOCK
              else UW_ERROR_NOT_IMPLEMENTED).
Proof.
  unfold amw_parse_json. destruct (first_read text) as [H1 _].
  destruct (_amw_read_block_line (amw_create_parser text)) as [status p].
  cbn [fst] in H1. subst status.
  destruct (forallb no_content (lines_of text)); reflexivity.
Qed.

(** ** The line that ends a block is read again *)



(** The parser the reader leaves when a line left of the block indent ends
    the block: the line is pushed back, stripped, and the line buffer is
    empty; the indent and the number of the line stay in the parser. *)
Lemma line_read_mk (raw : ustring) (rest : list ustring) (m : Markup)
    (cl : ustring) (ci ln bi bl mbl : nat) (sc e : bool)
    (cp : list (ustring * AmwBlockParserFunc)) :
  line_read raw rest (mkParser m cl ci ln bi bl mbl sc e cp)
  = mkParser (mkMarkup rest (S (lineno m))) (uw_string_rtrim raw)
      (indent_of raw) (S (lineno m)) bi bl mbl sc e cp.
Proof. reflexivity. Qed.





(** ** Every parser function leaves the frame of its block *)

Lemma same_frame_refl (p : AmwParser) : same_frame p p.
Proof. repeat split. Qed.

Lemma same_frame_trans (p q r : AmwParser) :
  same_frame p q -> same_frame q r -> same_frame p r.
Proof.
  unfold same_frame. intros (A1 & A2 & A3 & A4) (B1 & B2 & B3 & B4).
  repeat split; congruence.
Qed.

Lemma framed_none (A : Type) (p : AmwParser) : framed p (@None (A * AmwParser)).
Proof. intros x p' H. discriminate H. Qed.

Lemma framed_some (A : Type) (p q : AmwParser) (x : A) :
  same_frame p q -> framed p (Some (x, q)).
Proof. intros H y p' E. inversion E; subst. exact H. Qed.

Lemma framed_from (A : Type) (p q : AmwParser) (r : option (A * AmwParser)) :
  same_frame p q -> framed q r -> framed p r.
Proof.
  intros H K x p' E. eapply same_frame_trans; [exact H | exact (K x p' E)].
Qed.

Lemma block_indent_set_block_indent n p :
  block_indent (set_block_indent n p) = n.
Proof. reflexivity. Qed.
Lemma blocklevel_set_block_indent n p :
  blocklevel (set_block_indent n p) = blocklevel p.
Proof. reflexivity. Qed.
Lemma max_blocklevel_set_block_indent n p :
  max_blocklevel (set_block_indent n p) = max_blocklevel p.
Proof. reflexivity. Qed.
Lemma custom_parsers_set_block_indent n p :
  custom_parsers (set_block_indent n p) = custom_parsers p.
Proof. reflexivity. Qed.
Lemma block_indent_set_blocklevel n p :
  block_indent (set_blocklevel n p) = block_indent p.
Proof. reflexivity. Qed.
Lemma blocklevel_set_blocklevel n p :
  blocklevel (set_blocklevel n p) = n.
Proof. reflexivity. Qed.
Lemma max_blocklevel_set_blocklevel n p :
  max_blocklevel (set_blocklevel n p) = max_blocklevel p.
Proof. reflexivity. Qed.
Lemma custom_parsers_set_blocklevel n p :
  custom_parsers (set_blocklevel n p) = custom_parsers p.
Proof. reflexivity. Qed.

Create Rewrite HintDb frame.

#[local] Hint Rewrite block_indent_set_block_indent
  blocklevel_set_block_indent max_blocklevel_set_block_indent
  custom_parsers_set_block_indent block_indent_set_blocklevel
  blocklevel_set_blocklevel max_blocklevel_set_blocklevel
  custom_parsers_set_blocklevel : frame.

(** The reader touches the input, the line and the two flags only, and at a
    nesting level above 0 its status is success or END_OF_BLOCK. *)
Lemma read_block_line_loop_frame (input : list ustring) :
  forall p status p',
    read_block_line_loop input p = (status, p') ->
    same_frame p p'
    /\ (_amw_end_of_block status = false -> uw_error status = false).
Proof.
  induction input as [| raw rest IH]; intros p status p' Hrun.
  - cbn [read_block_line_loop] in Hrun. inversion Hrun; subst.
    split; [repeat split | discriminate].
  - rewrite read_block_line_loop_cons in Hrun. cbv zeta in Hrun.
    destruct p as [m cl ci ln bi bl mbl sc e cp].
    rewrite line_read_mk in Hrun.
    cbn [skip_comments current_line] in Hrun.
    match type of Hrun with
    | (if ?c then _ else _) = _ => destruct c
    end.
    { exact (IH _ status p' Hrun). }
    unfold after_skip in Hrun.
    destruct sc; cbn [set_skip_comments current_line block_indent
      current_indent markup line_number blocklevel max_blocklevel eof
      custom_parsers] in Hrun;
      repeat match type of Hrun with
             | (if ?c then _ else _) = _ => destruct c
             end;
      try (inversion Hrun; subst; split;
           [repeat split | intros; try reflexivity; discriminate]);
      exact (IH _ status p' Hrun).
Qed.

Lemma read_block_line_frame (p : AmwParser) (status : UwValue)
    (p' : AmwParser) :
  _amw_read_block_line p = (status, p') ->
  same_frame p p'
  /\ (0 < blocklevel p -> _amw_end_of_block status = false ->
      uw_error status = false).
Proof.
  unfold _amw_read_block_line. intros Hrun. destruct (eof p).
  - destruct (0 <? blocklevel p) eqn:Hl; inversion Hrun; subst;
      (split; [apply same_frame_refl |]).
    + discriminate.
    + intros H. apply Nat.ltb_ge in Hl. lia.
  - destruct (read_block_line_loop_frame _ _ Hrun) as [H1 H2].
    split; [exact H1 | intros _; exact H2].
Qed.

Lemma read_block_loop_frame (fuel : nat) :
  forall p lines, framed p (read_block_loop fuel p lines).
Proof.
  induction fuel as [| fuel IH]; intros p lines; [apply framed_none |].
  cbn [read_block_loop].
  destruct (_amw_read_block_line p) as [status q] eqn:Hr.
  destruct (read_block_line_frame _ Hr) as [Hf _].
  destruct (_amw_end_of_block status); [now apply framed_some |].
  destruct (uw_error status); [now apply framed_some |].
  eapply framed_from; [exact Hf | apply IH].
Qed.

Lemma parse_raw_value_frame (fuel : nat) (p : AmwParser) :
  framed p (parse_raw_value fuel p).
Proof.
  unfold parse_raw_value, _amw_read_block.
  pose proof (@read_block_loop_frame fuel p []) as H.
  destruct (read_block_loop fuel p []) as [[r q] |]; [| apply framed_none].
  specialize (H _ _ eq_refl). destruct r; now apply framed_some.
Qed.

Lemma parse_literal_string_frame (fuel : nat) (p : AmwParser) :
  framed p (parse_literal_string fuel p).
Proof.
  unfold parse_literal_string, _amw_read_block.
  pose proof (@read_block_loop_frame fuel p []) as H.
  destruct (read_block_loop fuel p []) as [[r q] |]; [| apply framed_none].
  specialize (H _ _ eq_refl). destruct r; now apply framed_some.
Qed.

Lemma parse_folded_string_frame (fuel : nat) (p : AmwParser) :
  framed p (parse_folded_string fuel p).
Proof.
  unfold parse_folded_string, _amw_read_block.
  pose proof (@read_block_loop_frame fuel p []) as H.
  destruct (read_block_loop fuel p []) as [[r q] |]; [| apply framed_none].
  specialize (H _ _ eq_refl). destruct r; [now apply framed_some |].
  destruct (length _ =? 0); now apply framed_some.
Qed.

(** The line loop of a multi-line string at a nesting level above 0 never
    returns early, so the block indent is restored after it. *)
Lemma quoted_block_loop_frame (quote : char32_t) (opening_quote_pos : nat)
    (fuel : nat) :
  forall p lines ns end_pos r p',
    0 < blocklevel p ->
    quoted_block_loop fuel p quote opening_quote_pos lines ns end_pos
    = Some (r, p') ->
    same_frame p p' /\ exists x, r = inr x.
Proof.
  induction fuel as [| fuel IH]; intros p lines ns end_pos r p' Hl Hrun;
    [discriminate Hrun |].
  cbn [quoted_block_loop] in Hrun.
  destruct (find_closing_quote (current_line p) quote (opening_quote_pos + 1))
    as [[e |] |]; [| | discriminate Hrun].
  - inversion Hrun; subst. split; [apply same_frame_refl | eauto].
  - destruct (_amw_read_block_line p) as [status q] eqn:Hr.
    destruct (read_block_line_frame _ Hr) as [Hf Hs].
    destruct (_amw_end_of_block status) eqn:He.
    + inversion Hrun; subst. split; [exact Hf | eauto].
    + rewrite (Hs Hl eq_refl) in Hrun.
      assert (Hl' : 0 < blocklevel q)
        by (destruct Hf as (_ & -> & _); exact Hl).
      destruct (IH _ _ _ _ _ _ Hl' Hrun) as [Hf' Hx].
      split; [eapply same_frame_trans; eassumption | exact Hx].
Qed.

Lemma parse_quoted_string_frame (f : ustring -> nat) (fuel : nat)
    (p : AmwParser) (opening_quote_pos end_pos0 : nat) :
  0 < blocklevel p ->
  framed p (parse_quoted_string f fuel p opening_quote_pos end_pos0).
Proof.
  intros Hl x p' Hrun. unfold parse_quoted_string in Hrun. cbv zeta in Hrun.
  destruct (find_closing_quote (current_line p)
              (uw_char_at (current_line p) opening_quote_pos)
              (opening_quote_pos + 1)) as [[e |] |]; [| | discriminate Hrun].
  - destruct (_amw_unescape_line _ _ _ _) as [[r o] |];
      [| discriminate Hrun].
    inversion Hrun; subst. apply same_frame_refl.
  - destruct (quoted_block_loop _ _ _ _ _ _ _) as [[r q] |] eqn:Hq;
      [| discriminate Hrun].
    apply quoted_block_loop_frame in Hq; [| exact Hl].
    destruct Hq as [Hf [[[[ls ns] c] e] ->]].
    assert (Hback : same_frame p (set_block_indent (block_indent p) q)).
    { unfold same_frame in *. autorewrite with frame in *.
      destruct Hf as (_ & A & B & C). repeat split; assumption. }
    repeat match type of Hrun with
           | (if ?c then _ else _) = _ => destruct c
           | (let '(_, _) := ?c in _) = _ => destruct c
           | match ?c with Some _ => _ | None => _ end = _ => destruct c
           end;
      try discriminate Hrun; inversion Hrun; subst; exact Hback.
Qed.

Section Frame.

Variable f : ustring -> nat.

Ltac frame_facts :=
  unfold same_frame in *;
  repeat match goal with
         | H : _ /\ _ |- _ => destruct H
         end;
  autorewrite with frame in *.

Ltac frame_solve :=
  frame_facts; repeat split; first [lia | congruence].

Ltac by_frame :=
  first [ apply parse_literal_string_frame
        | apply parse_raw_value_frame
        | apply parse_folded_string_frame
        | apply parse_quoted_string_frame; frame_solve
        | match goal with IH : _ |- _ => apply IH; frame_solve end ].

Ltac call_frame x :=
  let K := fresh "K" in
  eassert (K : framed _ x) by by_frame;
  destruct x as [[? ?] |];
  [specialize (K _ _ eq_refl) | apply framed_none].

Ltac read_frame q :=
  let st := fresh "st" in
  let q' := fresh "q" in
  let Hr := fresh "Hr" in
  let Hf := fresh "Hf" in
  destruct (_amw_read_block_line q) as [st q'] eqn:Hr;
  apply read_block_line_frame in Hr; destruct Hr as [Hf _].

Ltac frame_on x :=
  lazymatch x with
  | match ?y with _ => _ end => frame_on y
  | _amw_read_block_line ?q => read_frame q
  | _ => first [call_frame x | destruct x]
  end.

Ltac frame_step :=
  lazymatch goal with
  | |- framed _ (Some _) => apply framed_some; frame_solve
  | |- framed _ None => apply framed_none
  | |- framed _ (match ?x with _ => _ end) => frame_on x
  | |- framed _ _ => eapply framed_from; [| by_frame]; frame_solve
  end; cbv beta iota.

Lemma keeps_frame_all (fuel : nat) : keeps_frame f fuel.
Proof.
  induction fuel as [| fuel IH].
  - unfold keeps_frame. repeat apply conj; intros; apply framed_none.
  - destruct IH as (H1 & H2 & H3 & H4 & H5 & H6 & H7 & H8 & H9 & H10).
    unfold keeps_frame. repeat apply conj; intros;
      [ cbn [parse_value] | cbn [check_value_end]
      | cbn [parse_literal_string_or_map] | cbn [parse_nested_block]
      | cbn [parse_nested_block_from_next_line] | cbn [call_parser_func]
      | cbn [parse_list] | cbn [parse_list_loop] | cbn [parse_map]
      | cbn [parse_map_loop] ];
      cbv beta iota zeta; repeat frame_step.
Qed.

End Frame.

(** X4. Blocks are balanced.  At a nesting level above 0, every parser
    function that returns a value or a parse error leaves the block indent,
    the nesting level, the limit of the nesting level and the table of
    conversion specifiers as they were when it was called: what
    [parse_nested_block] and [parse_quoted_string] change for a nested
    block is undone when the block ends.  A result that is a bare status is
    left out: [parse_quoted_string] passes the failure of a read or of an
    allocation on before it restores the block indent. *)
Theorem blocks_are_balanced (f : ustring -> nat) (fuel : nat)
    (p : AmwParser) :
  0 < blocklevel p ->
  (forall nvp r nvp' p',
      parse_value f fuel p nvp = Some (r, nvp', p') ->
      value_or_parse_error r = true -> same_frame p p')
  /\ (forall block_pos fn r p',
         parse_nested_block f fuel p block_pos fn = Some (r, p') ->
         value_or_parse_error r = true -> same_frame p p')
  /\ (forall fn r p',
         parse_nested_block_from_next_line f fuel p fn = Some (r, p') ->
         value_or_parse_error r = true -> same_frame p p')
  /\ (forall r p',
         parse_list f fuel p = Some (r, p') ->
         value_or_parse_error r = true -> same_frame p p')
  /\ (forall key value_pos r p',
         parse_map f fuel p key value_pos = Some (r, p') ->
         value_or_parse_error r = true -> same_frame p p')
  /\ (forall r p',
         parse_literal_string_or_map f fuel p = Some (r, p') ->
         value_or_parse_error r = true -> same_frame p p')
  /\ (forall pos end_pos0 r e p',
         parse_quoted_string f fuel p pos end_pos0 = Some (r, e, p') ->
         value_or_parse_error r = true -> same_frame p p').
Proof.
  intros Hl.
  destruct (keeps_frame_all f fuel)
    as (H1 & _ & H3 & H4 & H5 & _ & H7 & _ & H9 & _).
  repeat apply conj; intros.
  - eapply H1; eassumption.
  - eapply H4; eassumption.
  - eapply H5; eassumption.
  - eapply H7; eassumption.
  - eapply H9; eassumption.
  - eapply H3; eassumption.
  - eapply parse_quoted_string_frame; eassumption.
Qed.

Lemma blocks_are_balanced_witness :
  0 < blocklevel (first_line_parser (ustr "- - 7"))
  /\ exists p',
       parse_value zero_view 20 (first_line_parser (ustr "- - 7")) None
       = Some (UwList [UwList [UwSigned 7]], None, p')
       /\ value_or_parse_error (UwList [UwList [UwSigned 7]]) = true
       /\ same_frame (first_line_parser (ustr "- - 7")) p'.
Proof.
  assert (H : 0 < blocklevel (first_line_parser (ustr "- - 7")))
    by (cbn; lia).
  split; [exact H |].
  destruct (parse_value zero_view 20 (first_line_parser (ustr "- - 7")) None)
    as [[[r n] q] |] eqn:E; [| vm_compute in E; discriminate E].
  assert (Er : r = UwList [UwList [UwSigned 7]] /\ n = None)
    by (vm_compute in E; split; congruence).
  destruct Er as [Er En]. rewrite Er, En in *.
  exists q. split; [reflexivity |]. split; [reflexivity |].
  exact (proj1 (@blocks_are_balanced zero_view 20 _ H) None _ None q E
           eq_refl).
Defined.

(** ** Escape sequences *)

Lemma char_at_app (pre : ustring) (c : char32_t) (tail : ustring) :
  uw_char_at (pre ++ c :: tail) (length pre) = c.
Proof. unfold uw_char_at. apply nth_middle. Qed.

Lemma char_at_app_S (pre : ustring) (c d : char32_t) (tail : ustring) :
  uw_char_at (pre ++ c :: d :: tail) (S (length pre)) = d.
Proof.
  replace (pre ++ c :: d :: tail) with ((pre ++ [c]) ++ d :: tail)
    by (now rewrite <- app_assoc).
  replace (S (length pre)) with (length (pre ++ [c]))
    by (rewrite length_app; simpl; lia).
  apply char_at_app.
Qed.

Lemma ltb_app (pre : ustring) (c : char32_t) (tail : ustring) :
  (length pre <? length (pre ++ c :: tail)) = true.
Proof. apply Nat.ltb_lt. rewrite length_app. simpl. lia. Qed.

Lemma not_eol_app_S (pre : ustring) (c d : char32_t) (tail : ustring) :
  end_of_line (pre ++ c :: d :: tail) (S (length pre)) = false.
Proof.
  unfold end_of_line, uw_string_index_valid.
  apply negb_false_iff, Nat.ltb_lt. rewrite length_app. simpl. lia.
Qed.

(** One turn of the loop on a character that is neither the quote nor a
    backslash. *)
Lemma unescape_loop_plain (fuel : nat) (pre : ustring) (c : char32_t)
    (tail : ustring) (n : nat) (quote : char32_t) (acc : ustring) :
  (c =? quote)%Z = false -> (c =? BACKSLASH)%Z = false ->
  unescape_loop (S fuel) (pre ++ c :: tail) n quote
    (length (pre ++ c :: tail)) (length pre) acc
  = unescape_loop fuel (pre ++ c :: tail) n quote
      (length (pre ++ c :: tail)) (S (length pre)) (acc ++ [c]).
Proof.
  intros Hq Hb. cbn [unescape_loop].
  now rewrite ltb_app, char_at_app, Hq, Hb.
Qed.

(** One turn of the loop on a simple escape sequence. *)
Lemma unescape_loop_simple (fuel : nat) (pre : ustring) (x y : char32_t)
    (tail : ustring) (n : nat) (quote : char32_t) (acc : ustring) :
  is_quote quote -> classify_escape x = EscChar y ->
  unescape_loop (S fuel) (pre ++ BACKSLASH :: x :: tail) n quote
    (length (pre ++ BACKSLASH :: x :: tail)) (length pre) acc
  = unescape_loop fuel (pre ++ BACKSLASH :: x :: tail) n quote
      (length (pre ++ BACKSLASH :: x :: tail)) (S (S (length pre)))
      (acc ++ [y]).
Proof.
  intros Hq Hx. cbn [unescape_loop].
  rewrite ltb_app, char_at_app, not_eol_app_S, char_at_app_S, Hx.
  assert (H : (BACKSLASH =? quote)%Z = false)
    by (destruct Hq as [-> | ->]; reflexivity).
  rewrite H. reflexivity.
Qed.

Lemma escape_char_cases (quote c : char32_t) :
  is_quote quote ->
  (escape_char quote c = [c]
   /\ (c =? quote)%Z = false /\ (c =? BACKSLASH)%Z = false)
  \/ exists x, escape_char quote c = [BACKSLASH; x]
               /\ classify_escape x = EscChar c.
Proof.
  intros Hq. unfold escape_char.
  destruct (c =? BACKSLASH)%Z eqn:H0.
  { right. exists BACKSLASH. apply Z.eqb_eq in H0. subst c.
    split; reflexivity. }
  destruct (c =? quote)%Z eqn:H1.
  { right. exists quote. apply Z.eqb_eq in H1. subst c.
    split; [reflexivity |]. destruct Hq as [-> | ->]; reflexivity. }
  repeat match goal with
         | |- context [(c =? ?k)%Z] =>
             let H := fresh "H" in
             destruct (c =? k)%Z eqn:H;
             [ right; apply Z.eqb_eq in H; subst c;
               eexists; split; reflexivity |]
         end.
  left. repeat split.
Qed.

Lemma escape_char_length (quote c : char32_t) :
  1 <= length (escape_char quote c).
Proof.
  unfold escape_char.
  repeat match goal with
         | |- context [if ?b then _ else _] => destruct b
         end; simpl; lia.
Qed.

(** The loop over escaped text gives the text back and stops where the
    escaped text ends. *)
Lemma unescape_loop_escape (quote : char32_t) (n : nat) (tail : ustring) :
  is_quote quote -> closes quote tail ->
  forall (s pre acc : ustring) (fuel pos : nat),
    pos = length pre ->
    length s < fuel ->
    unescape_loop fuel (pre ++ escape quote s ++ tail) n quote
      (length (pre ++ escape quote s ++ tail)) pos acc
    = Some (UwString (acc ++ s), Some (pos + length (escape quote s))).
Proof.
  intros Hq Ht. induction s as [| c s IH]; intros pre acc fuel pos -> Hf.
  - destruct fuel as [| fuel]; [lia |]. cbn [escape map concat app length].
    rewrite app_nil_r, Nat.add_0_r. cbn [unescape_loop].
    destruct Ht as [-> | [rest ->]].
    + rewrite app_nil_r, Nat.ltb_irrefl. reflexivity.
    + now rewrite ltb_app, char_at_app, Z.eqb_refl.
  - destruct fuel as [| fuel]; [simpl in Hf; lia |].
    assert (Hf' : length s < fuel) by (simpl in Hf; lia).
    unfold escape. cbn [map concat]. fold (escape quote s).
    destruct (escape_char_cases c Hq) as [(-> & H1 & H2) | (x & -> & Hx)].
    + cbn [app length]. rewrite unescape_loop_plain by assumption.
      replace (pre ++ c :: escape quote s ++ tail)
        with ((pre ++ [c]) ++ escape quote s ++ tail)
        by (now rewrite <- app_assoc).
      rewrite (IH (pre ++ [c]) (acc ++ [c]) fuel (S (length pre)));
        [| rewrite length_app; simpl; lia | exact Hf'].
      rewrite <- app_assoc. cbn [app]. do 3 f_equal. lia.
    + cbn [app length].
      rewrite unescape_loop_simple with (y := c) by assumption.
      replace (pre ++ BACKSLASH :: x :: escape quote s ++ tail)
        with ((pre ++ [BACKSLASH; x]) ++ escape quote s ++ tail)
        by (now rewrite <- app_assoc).
      rewrite (IH (pre ++ [BACKSLASH; x]) (acc ++ [c]) fuel
                 (S (S (length pre))));
        [| rewrite length_app; simpl; lia | exact Hf'].
      rewrite <- app_assoc. cbn [app]. do 3 f_equal. lia.
Qed.

Lemma escape_length (quote : char32_t) (s : ustring) :
  length s <= length (escape quote s).
Proof.
  induction s as [| c s IH]; [apply Nat.le_refl |].
  unfold escape. cbn [map concat]. fold (escape quote s).
  rewrite length_app. pose proof (escape_char_length quote c). simpl. lia.
Qed.

Lemma unescape_line_escape (quote : char32_t) (pre s tail : ustring)
    (n : nat) :
  is_quote quote -> closes quote tail ->
  _amw_unescape_line (pre ++ escape quote s ++ tail) n quote (length pre)
  = Some (UwString s, Some (length pre + length (escape quote s))).
Proof.
  intros Hq Ht. unfold _amw_unescape_line, uw_strlen.
  destruct (length (pre ++ escape quote s ++ tail) <=? length pre) eqn:Hle.
  - apply Nat.leb_le in Hle. rewrite !length_app in Hle.
    pose proof (escape_length quote s) as Hs.
    assert (Hs0 : length s = 0) by lia.
    assert (He0 : length (escape quote s) = 0) by lia.
    apply length_zero_iff_nil in Hs0. subst s.
    rewrite He0, Nat.add_0_r. reflexivity.
  - apply Nat.leb_gt in Hle.
    rewrite (unescape_loop_escape n Hq Ht s pre [] eq_refl).
    + reflexivity.
    + rewrite !length_app in *. pose proof (escape_length quote s). lia.
Qed.

(** X5. Round trip of escaped text.  For every text [s] and either quote
    character, the text written with [escape] and followed by the end of
    the line or by the closing quote is decoded by [_amw_unescape_line] to
    [s], and the conversion stops right after the escaped text. *)
Theorem unescape_line_inverts_escape (quote : char32_t)
    (pre s tail : ustring) (n : nat) :
  is_quote quote -> closes quote tail ->
  _amw_unescape_line (pre ++ escape quote s ++ tail) n quote (length pre)
  = Some (UwString s, Some (length pre + length (escape quote s))).
Proof. apply unescape_line_escape. Qed.

Lemma unescape_line_inverts_escape_witness :
  (is_quote DQUOTE /\ closes DQUOTE (DQUOTE :: ustr " # rest"))
  /\ _amw_unescape_line
       ((ustr "k: " ++ [DQUOTE])
        ++ escape DQUOTE (ustr "a\b" ++ [DQUOTE; 9%Z; 10%Z])
        ++ DQUOTE :: ustr " # rest") 1 DQUOTE
       (length (ustr "k: " ++ [DQUOTE]))
     = Some (UwString (ustr "a\b" ++ [DQUOTE; 9%Z; 10%Z]),
             Some (length (ustr "k: " ++ [DQUOTE])
                   + length (escape DQUOTE
                               (ustr "a\b" ++ [DQUOTE; 9%Z; 10%Z])))).
Proof.
  assert (H1 : is_quote DQUOTE) by (left; reflexivity).
  assert (H2 : closes DQUOTE (DQUOTE :: ustr " # rest"))
    by (right; eexists; reflexivity).
  split; [split; assumption |].
  exact (@unescape_line_inverts_escape DQUOTE (ustr "k: " ++ [DQUOTE])
           (ustr "a\b" ++ [DQUOTE; 9%Z; 10%Z]) (DQUOTE :: ustr " # rest") 1
           H1 H2).
Defined.

(** ** The closing quote *)

Lemma index_of_spec (c : char32_t) (s : ustring) :
  match index_of c s with
  | Some i => i < length s /\ nth i s 0%Z = c
              /\ forall j, j < i -> nth j s 0%Z <> c
  | None => forall j, j < length s -> nth j s 0%Z <> c
  end.
Proof.
  induction s as [| x t IH]; cbn [index_of].
  - intros j Hj. simpl in Hj. lia.
  - destruct (x =? c)%Z eqn:Hx.
    + apply Z.eqb_eq in Hx. repeat split; [simpl; lia | exact Hx | lia].
    + apply Z.eqb_neq in Hx. destruct (index_of c t) as [i |].
      * destruct IH as (H1 & H2 & H3). repeat split; [simpl; lia | exact H2 |].
        intros [| j] Hj; [exact Hx | apply H3; lia].
      * intros [| j] Hj; [exact Hx | apply IH; simpl in Hj; lia].
Qed.

(** [uw_strchr] finds the first occurrence at or after the start. *)
Lemma uw_strchr_spec (s : ustring) (c : char32_t) (start : nat) :
  match uw_strchr s c start with
  | Some i => start <= i < length s /\ uw_char_at s i = c
              /\ forall j, start <= j < i -> uw_char_at s j <> c
  | None => forall j, start <= j < length s -> uw_char_at s j <> c
  end.
Proof.
  unfold uw_strchr, uw_char_at.
  pose proof (index_of_spec c (skipn start s)) as H.
  destruct (index_of c (skipn start s)) as [i |].
  - destruct H as (H1 & H2 & H3). rewrite length_skipn in H1.
    assert (Hle : (start <=? length s) = true) by (apply Nat.leb_le; lia).
    rewrite Hle. rewrite nth_skipn in H2.
    repeat split; [lia | lia | exact H2 |].
    intros j Hj. specialize (H3 (j - start)). rewrite nth_skipn in H3.
    replace (start + (j - start)) with j in H3 by lia. apply H3. lia.
  - intros j Hj. specialize (H (j - start)). rewrite nth_skipn in H.
    replace (start + (j - start)) with j in H by lia. apply H.
    rewrite length_skipn. lia.
Qed.

Lemma find_closing_quote_loop_spec (line : ustring) (quote : char32_t)
    (start0 : nat) (fuel : nat) :
  forall start,
    0 < fuel -> (start <= length line -> length line < fuel + start) ->
    start0 <= start ->
    quotes_escaped line quote start0 start ->
    match find_closing_quote_loop fuel line quote start with
    | Some (Some e) =>
        exists i, e = S i /\ start0 <= i < length line
                  /\ uw_char_at line i = quote
                  /\ escaped_at line i = false
                  /\ quotes_escaped line quote start0 i
    | Some None => quotes_escaped line quote start0 (length line)
    | None => False
    end.
Proof.
  induction fuel as [| fuel IH]; intros start Hpos Hf Hs Hq; [lia |].
  cbn [find_closing_quote_loop].
  pose proof (uw_strchr_spec line quote start) as Hc.
  destruct (uw_strchr line quote start) as [e |].
  - destruct Hc as (He & Hat & Hfirst).
    assert (Hq' : quotes_escaped line quote start0 e).
    { intros j Hj Hj'. destruct (Nat.lt_ge_cases j start) as [Hlt | Hge].
      - apply Hq; [lia | exact Hj'].
      - exfalso. apply (Hfirst j); [lia | exact Hj']. }
    fold (escaped_at line e). destruct (escaped_at line e) eqn:Hesc.
    + apply IH; try lia.
      intros j Hj Hj'. destruct (Nat.eq_dec j e) as [-> | Hne];
        [exact Hesc | apply Hq'; [lia | exact Hj']].
    + exists e. repeat split; try lia; assumption.
  - intros j Hj Hj'. destruct (Nat.lt_ge_cases j start) as [Hlt | Hge].
    + apply Hq; [lia | exact Hj'].
    + exfalso. apply (Hc j); [lia | exact Hj'].
Qed.

(** X6. [find_closing_quote] always returns, and it finds the first quote
    at or after the start that does not count as escaped: when it returns
    true, [end_pos] is the position after such a quote and every quote
    before it counts as escaped; when it returns false, every quote of the
    line from the start on counts as escaped.  A quote counts as escaped
    when a backslash stands before it, whatever stands before the
    backslash. *)
Theorem find_closing_quote_first_unescaped (line : ustring)
    (quote : char32_t) (start : nat) :
  match find_closing_quote line quote start with
  | Some (Some end_pos) =>
      exists i, end_pos = S i /\ start <= i < length line
                /\ uw_char_at line i = quote
                /\ escaped_at line i = false
                /\ quotes_escaped line quote start i
  | Some None => quotes_escaped line quote start (length line)
  | None => False
  end.
Proof.
  unfold find_closing_quote.
  apply find_closing_quote_loop_spec; try lia.
  intros j Hj. lia.
Qed.

(** ** Numeric escape sequences *)

Lemma unescape_loop_stop (fuel : nat) (pre tail : ustring) (n : nat)
    (quote : char32_t) (acc : ustring) :
  closes quote tail ->
  unescape_loop (S fuel) (pre ++ tail) n quote (length (pre ++ tail))
    (length pre) acc
  = Some (UwString acc, Some (length pre)).
Proof.
  intros Ht. cbn [unescape_loop]. destruct Ht as [-> | [rest ->]].
  - rewrite app_nil_r, Nat.ltb_irrefl. reflexivity.
  - now rewrite ltb_app, char_at_app, Z.eqb_refl.
Qed.

Lemma hex_digit_tests (c : char32_t) (d : Z) :
  hex_digit c d ->
  (((chr "0" <=? c) && (c <=? chr "9"))%Z = true /\ (c - chr "0")%Z = d)
  \/ (((chr "0" <=? c) && (c <=? chr "9"))%Z = false
      /\ ((chr "a" <=? c) && (c <=? chr "f"))%Z = true
      /\ (c - chr "a" + 10)%Z = d)
  \/ (((chr "0" <=? c) && (c <=? chr "9"))%Z = false
      /\ ((chr "a" <=? c) && (c <=? chr "f"))%Z = false
      /\ ((chr "A" <=? c) && (c <=? chr "F"))%Z = true
      /\ (c - chr "A" + 10)%Z = d).
Proof.
  intros [Hd Hc]. apply small_digit_cases in Hd. simpl in Hd.
  repeat (destruct Hd as [<- | Hd];
          [destruct Hc as [-> | ->];
           first [ left; split; reflexivity
                 | right; left; repeat split; reflexivity
                 | right; right; repeat split; reflexivity ] |]).
  contradiction.
Qed.

(** One turn of the loop at label parse_hex_value on a digit. *)
Lemma hex_loop_step (n : nat) (line : ustring) (ln pos : nat) (v : Z)
    (c : char32_t) (d : Z) :
  end_of_line line (S pos) = false ->
  uw_char_at line (S pos) = c ->
  hex_digit c d ->
  hex_loop (S n) line ln pos v
  = hex_loop n line ln (S pos) (wrap32 (wrap32 (Z.shiftl v 4) + d)).
Proof.
  intros He Hc Hd. cbn [hex_loop]. rewrite He, Hc.
  destruct (hex_digit_tests Hd)
    as [(T1 & <-) | [(T1 & T2 & <-) | (T1 & T2 & T3 & <-)]].
  - now rewrite T1.
  - now rewrite T1, T2.
  - now rewrite T1, T2, T3.
Qed.

(** The number that [ds] stands for after the digits of [v]. *)
Lemma value_from_bounds (ds : list Z) :
  forall v, (0 <= v)%Z -> Forall (is_digit_of 16) ds ->
    (v <= value_after 16 v ds
     < (v + 1) * 16 ^ Z.of_nat (length ds))%Z.
Proof.
  induction ds as [| d ds IH]; intros v Hv Hall.
  - unfold value_after. cbn [fold_left length]. simpl. lia.
  - inversion Hall as [| d' ds' Hd Hds]; subst. unfold is_digit_of in Hd.
    unfold value_after in *. cbn [fold_left].
    specialize (IH (v * 16 + d)%Z ltac:(lia) Hds).
    rewrite length_cons, Nat2Z.inj_succ, Z.pow_succ_r by lia. nia.
Qed.

Lemma hex_loop_digits (line : ustring) (ln : nat) :
  forall (cs : ustring) (ds : list Z) (pre tail : ustring) (pos : nat)
         (v : Z),
    Forall2 hex_digit cs ds ->
    line = pre ++ cs ++ tail -> S pos = length pre ->
    (0 <= v)%Z ->
    (value_after 16 v ds < 2 ^ 32)%Z ->
    hex_loop (length cs) line ln pos v
    = inr (value_after 16 v ds, pos + length cs).
Proof.
  induction cs as [| c cs IH]; intros ds pre tail pos v Hall Hline Hpos Hv Hmax.
  - inversion Hall; subst. unfold value_after.
    cbn [hex_loop length fold_left].
    now rewrite Nat.add_0_r.
  - inversion Hall as [| c' d cs' ds' Hd Hds]; subst ds.
    assert (Hdig : Forall (is_digit_of 16) ds').
    { clear -Hds. induction Hds as [| x y xs ys [Hxy _] _ IHf];
        constructor; [exact Hxy | exact IHf]. }
    assert (Hd16 : (0 <= d < 16)%Z) by apply Hd.
    unfold value_after in Hmax |- *. cbn [fold_left] in Hmax |- *.
    fold (value_after 16 (v * 16 + d) ds') in Hmax |- *.
    pose proof (@value_from_bounds ds' (v * 16 + d)%Z ltac:(lia) Hdig) as Hb.
    cbn [length]. rewrite hex_loop_step with (c := c) (d := d).
    + assert (Hw : wrap32 (wrap32 (Z.shiftl v 4) + d) = (v * 16 + d)%Z).
      { unfold wrap32. rewrite Z.shiftl_mul_pow2 by lia.
        change (2 ^ 4)%Z with 16%Z.
        rewrite (Z.mod_small (v * 16)) by lia. apply Z.mod_small. lia. }
      rewrite Hw.
      rewrite (IH ds' (pre ++ [c]) tail (S pos) (v * 16 + d)%Z);
        try assumption; try lia.
      * f_equal. f_equal. lia.
      * subst line. now rewrite <- app_assoc.
      * rewrite length_app. simpl. lia.
    + subst line. rewrite Hpos. unfold end_of_line, uw_string_index_valid.
      apply negb_false_iff, Nat.ltb_lt. rewrite length_app. simpl. lia.
    + subst line. rewrite Hpos. apply char_at_app.
    + exact Hd.
Qed.

Lemma hex_digits_value (cs : ustring) (ds : list Z) :
  Forall2 hex_digit cs ds -> length cs <= 8 ->
  (value_after 16 0 ds < 2 ^ 32)%Z.
Proof.
  intros Hall Hlen.
  assert (Hdig : Forall (is_digit_of 16) ds).
  { clear -Hall. induction Hall as [| x y xs ys [Hxy _] _ IHf];
      constructor; [exact Hxy | exact IHf]. }
  assert (Hl : length ds = length cs)
    by (symmetry; eapply Forall2_length; exact Hall).
  pose proof (@value_from_bounds ds 0%Z ltac:(lia) Hdig) as [_ Hb].
  assert (Hp : (16 ^ Z.of_nat (length ds) <= 16 ^ 8)%Z)
    by (apply Z.pow_le_mono_r; lia).
  change (16 ^ 8)%Z with (2 ^ 32)%Z in Hp. lia.
Qed.

(** One turn of the loop on a numeric escape sequence. *)
Lemma unescape_loop_numeric (fuel : nat) (line : ustring) (n : nat)
    (quote letter : char32_t) (hexlen pos pos' : nat) (acc : ustring)
    (v : Z) :
  (pos <? length line) = true ->
  uw_char_at line pos = BACKSLASH -> quote <> BACKSLASH ->
  end_of_line line (S pos) = false ->
  uw_char_at line (S pos) = letter ->
  classify_escape letter = EscHex hexlen ->
  hex_loop hexlen line n (S pos) 0 = inr (v, pos') ->
  unescape_loop (S fuel) line n quote (length line) pos acc
  = unescape_loop fuel line n quote (length line) (S pos') (acc ++ [v]).
Proof.
  intros Hlt Hc0 Hq He1 Hc1 Hcls Hhex. cbn [unescape_loop].
  assert (Hbq : (BACKSLASH =? quote)%Z = false)
    by (apply Z.eqb_neq; congruence).
  rewrite Hlt, Hc0, Hbq, Z.eqb_refl, He1, Hc1, Hcls, Hhex. reflexivity.
Qed.

(** X7. Numeric escape sequences.  A backslash, the letter x, u or U and
    exactly 2, 4 or 8 hexadecimal digits, in either case, are decoded to
    the one character whose code the digits give; the conversion goes on
    after the last digit. *)
Theorem numeric_escape_decodes (quote letter : char32_t) (hexlen : nat)
    (cs : ustring) (ds : list Z) (pre tail : ustring) (n : nat) :
  quote <> BACKSLASH ->
  hex_escape letter hexlen ->
  Forall2 hex_digit cs ds -> length cs = hexlen ->
  closes quote tail ->
  _amw_unescape_line (pre ++ BACKSLASH :: letter :: cs ++ tail) n quote
    (length pre)
  = Some (UwString [value_of 16 ds], Some (length pre + 2 + hexlen)).
Proof.
  intros Hq Hesc Hall Hlen Ht.
  assert (Hcls : classify_escape letter = EscHex hexlen)
    by (destruct Hesc as [[-> ->] | [[-> ->] | [-> ->]]]; reflexivity).
  assert (H8 : length cs <= 8)
    by (destruct Hesc as [[_ E] | [[_ E] | [_ E]]]; lia).
  set (line := pre ++ BACKSLASH :: letter :: cs ++ tail).
  assert (Hll : length line = length pre + 2 + length cs + length tail)
    by (unfold line; rewrite length_app; cbn [length];
        rewrite length_app; lia).
  unfold _amw_unescape_line, uw_strlen.
  assert (Hle : (length line <=? length pre) = false)
    by (apply Nat.leb_gt; lia).
  rewrite Hle.
  assert (Hhex : hex_loop hexlen line n (S (length pre)) 0
                 = inr (value_of 16 ds, S (length pre) + length cs)).
  { rewrite <- Hlen.
    apply (@hex_loop_digits line n cs ds (pre ++ [BACKSLASH; letter]) tail
             (S (length pre)) 0%Z Hall).
    - unfold line. rewrite <- app_assoc. reflexivity.
    - rewrite length_app. cbn [length]. lia.
    - lia.
    - now apply (@hex_digits_value cs). }
  rewrite (@unescape_loop_numeric (length line - length pre) line n quote
             letter hexlen (length pre) _ [] _
             ltac:(apply Nat.ltb_lt; lia) (char_at_app _ _ _) Hq
             (not_eol_app_S _ _ _ _) (char_at_app_S _ _ _ _) Hcls Hhex).
  assert (Hline : line = (pre ++ BACKSLASH :: letter :: cs) ++ tail)
    by (unfold line; rewrite <- app_assoc; reflexivity).
  assert (Hpos : S (S (length pre) + length cs)
                 = length (pre ++ BACKSLASH :: letter :: cs))
    by (rewrite length_app; cbn [length]; lia).
  replace (length line - length pre)
    with (S (S (length cs + length tail))) by lia.
  rewrite Hline, Hpos, (unescape_loop_stop _ _ n _ Ht).
  rewrite <- Hpos. cbn [app]. do 3 f_equal. lia.
Qed.

Lemma numeric_escape_decodes_witness :
  (DQUOTE <> BACKSLASH
   /\ hex_escape (chr "u") 4
   /\ Forall2 hex_digit (ustr "20aC") [2; 0; 10; 12]%Z
   /\ length (ustr "20aC") = 4
   /\ closes DQUOTE [DQUOTE])
  /\ _amw_unescape_line
       ([DQUOTE] ++ BACKSLASH :: chr "u" :: ustr "20aC" ++ [DQUOTE]) 1
       DQUOTE (length [DQUOTE])
     = Some (UwString [value_of 16 [2; 0; 10; 12]%Z],
             Some (length [DQUOTE] + 2 + 4)).
Proof.
  assert (H1 : DQUOTE <> BACKSLASH) by discriminate.
  assert (H2 : hex_escape (chr "u") 4) by (right; left; split; reflexivity).
  assert (H3 : Forall2 hex_digit (ustr "20aC") [2; 0; 10; 12]%Z).
  { repeat constructor; try lia;
      first [left; reflexivity | right; reflexivity]. }
  assert (H4 : length (ustr "20aC") = 4) by reflexivity.
  assert (H5 : closes DQUOTE [DQUOTE]) by (right; eexists; reflexivity).
  split; [repeat split; assumption |].
  exact (@numeric_escape_decodes DQUOTE (chr "u") 4 (ustr "20aC")
           [2; 0; 10; 12]%Z [DQUOTE] [DQUOTE] 1 H1 H2 H3 H4 H5).
Defined.

(** ** Integer literals *)

Lemma digit_value_number_end (radix : Z) (t : char32_t) :
  supported_radix radix -> number_end t = true ->
  digit_value radix t = None /\ is_separator t = false
  /\ (t =? chr ".")%Z = false
  /\ ((t =? chr "e") || (t =? chr "E"))%Z = false.
Proof.
  unfold number_end, uw_isspace, digit_value, is_separator, AMW_COMMENT,
    SQUOTE, chr, supported_radix.
  simpl. intros [-> | [-> | [-> | ->]]] H; simpl;
    repeat match goal with
           | |- context [if ?b then _ else _] => destruct b eqn:?
           end; repeat split; lia.
Qed.

Lemma item_digits_app (a b : list numeral_item) :
  item_digits (a ++ b) = item_digits a ++ item_digits b.
Proof.
  induction a as [| [d | c] a IH]; cbn [app item_digits]; [reflexivity | |].
  - now rewrite IH.
  - exact IH.
Qed.

Lemma literal_char_at (pre tail : ustring) (seen items : list numeral_item)
    (i : numeral_item) :
  uw_char_at (pre ++ literal_of (seen ++ i :: items) ++ tail)
    (length pre + length seen)
  = item_char i.
Proof.
  unfold uw_char_at, literal_of. rewrite app_nth2_plus, map_app.
  rewrite <- (length_map item_char seen), <- app_assoc.
  cbn [map app]. apply nth_middle.
Qed.

Lemma literal_length (pre tail : ustring) (items : list numeral_item) :
  length (pre ++ literal_of items ++ tail)
  = length pre + length items + length tail.
Proof.
  unfold literal_of. rewrite !length_app, length_map. lia.
Qed.

(** The loop of [parse_unsigned] over a numeral with separators that is
    followed by the end of the line or by a character that ends a number:
    [seen] are the items already read, [items] those ahead. *)
Lemma parse_unsigned_loop_items (radix : Z) (p : AmwParser)
    (pre tail : ustring) (start : nat) :
  supported_radix radix -> ends_number tail ->
  forall (items seen : list numeral_item) (fuel : nat)
         (digit_seen separator_seen : bool),
    current_line p = pre ++ literal_of (seen ++ items) ++ tail ->
    items <> [] \/ tail <> [] ->
    length items < fuel ->
    separated (digit_seen && negb separator_seen) items = true ->
    Forall (is_digit_of radix) (item_digits (seen ++ items)) ->
    (value_of radix (item_digits (seen ++ items)) < 2 ^ 64)%Z ->
    parse_unsigned_loop fuel p start radix (length pre + length seen)
      digit_seen separator_seen (value_of radix (item_digits seen))
    = Some (UwUnsigned (value_of radix (item_digits (seen ++ items))),
            length pre + length (seen ++ items)).
Proof.
  intros Hr Htail. pose proof (supported_radix_bounds Hr) as Hrb.
  induction items as [| i items IH];
    intros seen fuel digit_seen separator_seen Hline Hne Hfuel Hsep Hall Hmax;
    (destruct fuel as [| fuel]; [simpl in Hfuel; lia |]).
  - destruct Hne as [Hne | Hne]; [congruence |].
    destruct tail as [| t tl]; [congruence |].
    cbn [separated] in Hsep. apply andb_prop in Hsep.
    destruct Hsep as [-> Hss]. apply negb_true_iff in Hss. subst.
    rewrite app_nil_r in *.
    assert (Hc : uw_char_at (current_line p) (length pre + length seen) = t).
    { rewrite Hline. unfold uw_char_at, literal_of.
      rewrite app_nth2_plus, <- (length_map item_char seen).
      apply nth_middle. }
    destruct (@digit_value_number_end radix t Hr Htail) as (Hdv & Hns & _).
    cbn [parse_unsigned_loop]. rewrite Hc. fold (is_separator t).
    rewrite Hns, Hdv. reflexivity.
  - assert (Hc : uw_char_at (current_line p) (length pre + length seen)
                 = item_char i)
      by (rewrite Hline; apply literal_char_at).
    assert (Hlen : length (current_line p)
                   = S (length pre + length seen) + length items
                     + length tail).
    { rewrite Hline, literal_length, length_app. simpl. lia. }
    assert (Hnext : seen ++ i :: items = (seen ++ [i]) ++ items)
      by (rewrite <- app_assoc; reflexivity).
    assert (Hpos : S (length pre + length seen)
                   = length pre + length (seen ++ [i]))
      by (rewrite length_app; simpl; lia).
    destruct i as [d | c]; cbn [separated item_char] in *.
    + assert (Hdig : item_digits (seen ++ [Digit d]) = item_digits seen ++ [d])
        by (rewrite item_digits_app; reflexivity).
      assert (Hd : is_digit_of radix d).
      { rewrite item_digits_app in Hall. apply Forall_app in Hall.
        destruct Hall as [_ Hall]. now inversion Hall. }
      assert (Hdone : Forall (is_digit_of radix) (item_digits seen)).
      { rewrite item_digits_app in Hall. apply Forall_app in Hall. tauto. }
      assert (Halnum : is_alnum (digit_char d) = true).
      { apply digit_char_alnum. unfold is_digit_of in Hd. lia. }
      assert (Hstep : value_of radix (item_digits seen ++ [d])
                      = (value_of radix (item_digits seen) * radix + d)%Z)
        by apply value_of_snoc.
      assert (Hpre : (value_of radix (item_digits seen ++ [d])
                      <= value_of radix
                           (item_digits (seen ++ Digit d :: items)))%Z).
      { rewrite Hnext, item_digits_app, Hdig.
        apply value_of_prefix; [lia |].
        rewrite <- Hdig, <- item_digits_app, <- Hnext. exact Hall. }
      assert (Hnn : (0 <= value_of radix (item_digits seen))%Z)
        by (apply value_of_nonneg; [lia | exact Hdone]).
      unfold is_digit_of in Hd.
      assert (Hwrap : wrap64 (wrap64 (value_of radix (item_digits seen)
                                      * radix) + d)
                      = value_of radix (item_digits (seen ++ [Digit d]))).
      { rewrite Hdig. unfold wrap64.
        rewrite (Z.mod_small (value_of radix (item_digits seen) * radix));
          [rewrite Z.mod_small |]; nia. }
      cbn [parse_unsigned_loop].
      rewrite Hc, (alnum_not_separator _ Halnum).
      rewrite (digit_value_digit_char Hr Hd). cbv zeta. rewrite Hwrap.
      assert (Hge : (value_of radix (item_digits (seen ++ [Digit d]))
                     <? value_of radix (item_digits seen))%Z = false)
        by (apply Z.ltb_ge; rewrite Hdig; nia).
      rewrite Hge. unfold end_of_line, uw_string_index_valid. rewrite Hlen.
      destruct (S (length pre + length seen)
                <? S (length pre + length seen) + length items + length tail)
        eqn:Hlt; cbn [negb].
      * rewrite Hpos, Hnext. apply IH.
        -- rewrite <- Hnext. exact Hline.
        -- apply Nat.ltb_lt in Hlt.
           destruct items; [| left; discriminate].
           destruct tail; [simpl in Hlt; lia | right; discriminate].
        -- simpl in Hfuel. lia.
        -- exact Hsep.
        -- rewrite <- Hnext. exact Hall.
        -- rewrite <- Hnext. exact Hmax.
      * apply Nat.ltb_ge in Hlt.
        assert (Hi0 : length items = 0) by lia.
        apply length_zero_iff_nil in Hi0. subst items.
        rewrite Hpos. reflexivity.
    + apply andb_prop in Hsep. destruct Hsep as [Hsep Hrest].
      apply andb_prop in Hsep. destruct Hsep as [Hprev Hc'].
      apply andb_prop in Hprev. destruct Hprev as [-> Hss].
      apply negb_true_iff in Hss. subst separator_seen.
      assert (Hdig : item_digits (seen ++ [Separator c]) = item_digits seen)
        by (rewrite item_digits_app; cbn [item_digits]; apply app_nil_r).
      assert (Hine : items <> [])
        by (intros ->; discriminate Hrest).
      cbn [parse_unsigned_loop]. rewrite Hc. fold (is_separator c).
      rewrite Hc'. cbn [negb]. unfold end_of_line, uw_string_index_valid.
      rewrite Hlen.
      assert (Hlt : (S (length pre + length seen)
                     <? S (length pre + length seen) + length items
                        + length tail) = true).
      { apply Nat.ltb_lt. destruct items; [congruence | simpl; lia]. }
      rewrite Hlt. cbn [negb]. rewrite <- Hdig, Hpos, Hnext. apply IH.
      * rewrite <- Hnext. exact Hline.
      * now left.
      * simpl in Hfuel. lia.
      * exact Hrest.
      * rewrite <- Hnext. exact Hall.
      * rewrite <- Hnext. exact Hmax.
Qed.

Lemma separated_nonempty (items : list numeral_item) :
  separated false items = true ->
  exists d rest, items = Digit d :: rest.
Proof.
  destruct items as [| [d | c] rest]; cbn [separated andb]; try discriminate.
  intros _. now exists d, rest.
Qed.

Lemma number_done_integer (p : AmwParser) (start : nat) (sign n : Z)
    (pos : nat) :
  number_done p start sign false n pos
  = (integer_value sign n (line_number p) start, pos).
Proof.
  unfold number_done, integer_value.
  destruct (UW_SIGNED_MAX <? n)%Z; [destruct (sign <? 0)%Z; reflexivity |].
  destruct (sign <? 0)%Z; [| reflexivity]. cbn [andb].
  destruct (n =? 0)%Z eqn:Hn; [| reflexivity].
  apply Z.eqb_eq in Hn. subst n. reflexivity.
Qed.

(** [number_magnitude] on a numeral that ends the line or is followed by a
    character that ends a number. *)
Lemma number_magnitude_items (radix : Z) (p : AmwParser)
    (pre tail : ustring) (start : nat) (sign : Z)
    (items : list numeral_item) :
  supported_radix radix -> ends_number tail ->
  current_line p = pre ++ literal_of items ++ tail ->
  separated false items = true ->
  Forall (is_digit_of radix) (item_digits items) ->
  (value_of radix (item_digits items) < 2 ^ 64)%Z ->
  number_magnitude p start sign radix (length pre)
  = Some (integer_value sign (value_of radix (item_digits items))
            (line_number p) start,
          length pre + length items).
Proof.
  intros Hr Htail Hline Hsep Hall Hmax.
  unfold number_magnitude, parse_unsigned.
  destruct (separated_nonempty _ Hsep) as (d0 & rest0 & Hitems).
  assert (Hloop :
    parse_unsigned_loop (S (length (current_line p) - length pre)) p
      (length pre) radix (length pre + length (@nil numeral_item)) false
      false (value_of radix (item_digits []))
    = Some (UwUnsigned (value_of radix (item_digits ([] ++ items))),
            length pre + length ([] ++ items))).
  { apply parse_unsigned_loop_items with (tail := tail); try assumption.
    - left. rewrite Hitems. discriminate.
    - rewrite Hline, literal_length. lia. }
  cbn [length app] in Hloop. rewrite Nat.add_0_r in Hloop.
  change (value_of radix (item_digits [])) with 0%Z in Hloop.
  rewrite Hloop. unfold end_of_line, uw_string_index_valid.
  rewrite Hline at 1. rewrite literal_length.
  destruct tail as [| t tl].
  - cbn [length]. rewrite Nat.add_0_r, Nat.ltb_irrefl. cbn [negb].
    now rewrite number_done_integer.
  - assert (Hlt : (length pre + length items
                   <? length pre + length items + length (t :: tl)) = true)
      by (apply Nat.ltb_lt; simpl; lia).
    rewrite Hlt. cbn [negb].
    assert (Hc : uw_char_at (current_line p) (length pre + length items) = t).
    { rewrite Hline. unfold uw_char_at, literal_of.
      rewrite app_nth2_plus, <- (length_map item_char items).
      apply nth_middle. }
    rewrite Hc.
    destruct (@digit_value_number_end radix t Hr Htail)
      as (_ & _ & Hdot & Hexp).
    rewrite Hdot. unfold number_exponent. rewrite Hexp.
    cbn [ends_number] in Htail. unfold number_end in Htail.
    assert (Hend : (negb (t =? AMW_COMMENT)%Z && negb (t =? chr ":")%Z
                    && negb (uw_isspace t)) = false).
    { destruct (t =? AMW_COMMENT)%Z; [reflexivity |].
      destruct (t =? chr ":")%Z; [reflexivity |].
      cbn [orb] in Htail. now rewrite Htail. }
    rewrite Hend. now rewrite number_done_integer.
Qed.

Lemma prefix_letter_radix (x : char32_t) (radix : Z) (pos : nat) :
  ((x = chr "b" \/ x = chr "B") /\ radix = 2%Z)
  \/ ((x = chr "o" \/ x = chr "O") /\ radix = 8%Z)
  \/ ((x = chr "x" \/ x = chr "X") /\ radix = 16%Z) ->
  (if (((x =? chr "b") || (x =? chr "B"))%Z : bool) then (2%Z, S pos)
   else if ((x =? chr "o") || (x =? chr "O"))%Z then (8%Z, S pos)
   else if ((x =? chr "x") || (x =? chr "X"))%Z then (16%Z, S pos)
   else (10%Z, pos)) = (radix, S pos).
Proof.
  intros [[[-> | ->] ->] | [[[-> | ->] ->] | [[-> | ->] ->]]]; reflexivity.
Qed.

Lemma nonzero_digit_char (d : Z) :
  (0 <= d < 16)%Z -> d <> 0%Z -> (digit_char d =? chr "0")%Z = false.
Proof.
  intros Hd Hnz. apply small_digit_cases in Hd. simpl in Hd.
  repeat (destruct Hd as [<- | Hd]; [try congruence; reflexivity |]).
  contradiction.
Qed.

(** [_amw_parse_number] on an integer literal: an optional radix prefix
    and a numeral with separators, read from the position after [sgn]. *)
Lemma parse_number_items (p : AmwParser) (sgn pre tail : ustring)
    (radix sign : Z) (items : list numeral_item) :
  radix_prefix pre radix items -> ends_number tail ->
  current_line p = sgn ++ pre ++ literal_of items ++ tail ->
  separated false items = true ->
  Forall (is_digit_of radix) (item_digits items) ->
  (value_of radix (item_digits items) < 2 ^ 64)%Z ->
  _amw_parse_number p (length sgn) sign
  = Some (integer_value sign (value_of radix (item_digits items))
            (line_number p) (length sgn),
          length sgn + length pre + length items).
Proof.
  intros Hpre Htail Hline Hsep Hall Hmax.
  destruct (separated_nonempty _ Hsep) as (d0 & rest0 & Hitems).
  assert (Hd0 : is_digit_of radix d0)
    by (rewrite Hitems in Hall; now inversion Hall).
  unfold _amw_parse_number.
  destruct Hpre as [(-> & -> & d & rest & Hi & Hnz)
                   | [(-> & ->) | (x & -> & Hx)]].
  - rewrite Hi in Hitems. inversion Hitems; subst d0 rest0.
    cbn [app] in Hline.
    assert (Hc : uw_char_at (current_line p) (length sgn) = digit_char d).
    { rewrite Hline, Hi. unfold literal_of. cbn [map item_char app].
      apply char_at_app. }
    rewrite Hc, nonzero_digit_char;
      [| unfold is_digit_of in Hd0; lia | exact Hnz].
    cbn [length]. rewrite Nat.add_0_r.
    apply number_magnitude_items with (tail := tail); try assumption.
    unfold supported_radix. auto.
  - assert (Hline' : current_line p
                     = (sgn ++ [chr "0"]) ++ literal_of items ++ tail)
      by (rewrite Hline, <- app_assoc; reflexivity).
    assert (Hc : uw_char_at (current_line p) (length sgn) = chr "0")
      by (rewrite Hline; apply char_at_app).
    assert (Hlen : length (current_line p)
                   = S (length sgn) + length items + length tail).
    { rewrite Hline', literal_length, length_app. simpl. lia. }
    assert (He : end_of_line (current_line p) (S (length sgn)) = false).
    { unfold end_of_line, uw_string_index_valid. rewrite Hlen, Hitems.
      apply negb_false_iff, Nat.ltb_lt. simpl. lia. }
    assert (Hc1 : uw_char_at (current_line p) (S (length sgn))
                  = digit_char d0).
    { rewrite Hline', Hitems.
      replace (S (length sgn)) with (length (sgn ++ [chr "0"]))
        by (rewrite length_app; simpl; lia).
      unfold literal_of. cbn [map item_char app]. apply char_at_app. }
    rewrite Hc, Z.eqb_refl, He, Hc1.
    rewrite decimal_digit_is_no_prefix by exact Hd0. rewrite He.
    replace (S (length sgn)) with (length (sgn ++ [chr "0"]))
      by (rewrite length_app; simpl; lia).
    replace (length sgn + length [chr "0"] + length items)
      with (length (sgn ++ [chr "0"]) + length items)
      by (rewrite length_app; lia).
    apply number_magnitude_items with (tail := tail); try assumption.
    unfold supported_radix. auto.
  - assert (Hline' : current_line p
                     = (sgn ++ [chr "0"; x]) ++ literal_of items ++ tail)
      by (rewrite Hline, <- app_assoc; reflexivity).
    assert (Hc : uw_char_at (current_line p) (length sgn) = chr "0")
      by (rewrite Hline; apply char_at_app).
    assert (Hlen : length (current_line p)
                   = S (S (length sgn)) + length items + length tail).
    { rewrite Hline', literal_length, length_app. simpl. lia. }
    assert (He : end_of_line (current_line p) (S (length sgn)) = false).
    { unfold end_of_line, uw_string_index_valid. rewrite Hlen.
      apply negb_false_iff, Nat.ltb_lt. lia. }
    assert (He2 : end_of_line (current_line p) (S (S (length sgn))) = false).
    { unfold end_of_line, uw_string_index_valid. rewrite Hlen, Hitems.
      apply negb_false_iff, Nat.ltb_lt. simpl. lia. }
    assert (Hc1 : uw_char_at (current_line p) (S (length sgn)) = x)
      by (rewrite Hline; apply char_at_app_S).
    assert (Hr : supported_radix radix)
      by (unfold supported_radix;
          destruct Hx as [[_ ->] | [[_ ->] | [_ ->]]]; auto).
    rewrite Hc, Z.eqb_refl, He, Hc1.
    rewrite (prefix_letter_radix (S (length sgn)) Hx). rewrite He2.
    replace (S (S (length sgn))) with (length (sgn ++ [chr "0"; x]))
      by (rewrite length_app; simpl; lia).
    replace (length sgn + length [chr "0"; x] + length items)
      with (length (sgn ++ [chr "0"; x]) + length items)
      by (rewrite length_app; lia).
    apply number_magnitude_items with (tail := tail); assumption.
Qed.

(** ** One-line documents *)

Lemma ltrim_app (x y : ustring) :
  uw_string_ltrim (x ++ y)
  = match uw_string_ltrim x with
    | [] => uw_string_ltrim y
    | l => l ++ y
    end.
Proof.
  induction x as [| c x IH]; cbn [app uw_string_ltrim].
  - now destruct (uw_string_ltrim y).
  - destruct (uw_isspace c); [exact IH | reflexivity].
Qed.

Lemma ltrim_nonspace (c : char32_t) (t : ustring) :
  uw_isspace c = false -> uw_string_ltrim (c :: t) = c :: t.
Proof. intros H. cbn [uw_string_ltrim]. now rewrite H. Qed.

(** Stripping keeps what stands before a character that is no space. *)
Lemma rtrim_app (a : ustring) (c : char32_t) (b : ustring) :
  uw_isspace c = false ->
  uw_string_rtrim (a ++ c :: b) = a ++ c :: uw_string_rtrim b.
Proof.
  intros Hc. unfold uw_string_rtrim.
  replace (a ++ c :: b) with ((a ++ [c]) ++ b)
    by (now rewrite <- app_assoc).
  rewrite rev_app_distr, ltrim_app.
  destruct (uw_string_ltrim (rev b)) as [| x l] eqn:Hb.
  - rewrite rev_unit, ltrim_nonspace by exact Hc.
    cbn [rev]. now rewrite rev_involutive.
  - rewrite rev_app_distr, rev_involutive, <- app_assoc. reflexivity.
Qed.

Lemma ltrim_spaces (s : ustring) :
  Forall (fun c => uw_isspace c = true) s -> uw_string_ltrim s = [].
Proof.
  induction 1 as [| c s Hc _ IH]; [reflexivity |].
  cbn [uw_string_ltrim]. now rewrite Hc.
Qed.

Lemma rtrim_spaces (s : ustring) :
  Forall (fun c => uw_isspace c = true) s -> uw_string_rtrim s = [].
Proof.
  intros H. unfold uw_string_rtrim. rewrite ltrim_spaces; [reflexivity |].
  now apply Forall_rev.
Qed.

Lemma leading_spaces_app (sp rest : ustring) :
  Forall (fun c => uw_isspace c = true) sp ->
  leading_spaces (sp ++ rest) = length sp + leading_spaces rest.
Proof.
  induction 1 as [| c s Hc _ IH]; [reflexivity |].
  cbn [app leading_spaces length]. rewrite Hc, IH. reflexivity.
Qed.

(** Skipping spaces from the end of [a] passes over [sp] and stops at the
    end of the line or at a character that is no space. *)
Lemma skip_spaces_over (a sp rest : ustring) :
  Forall (fun c => uw_isspace c = true) sp ->
  match rest with
  | [] => True
  | c :: _ => uw_isspace c = false
  end ->
  uw_string_skip_spaces (a ++ sp ++ rest) (length a) = length a + length sp.
Proof.
  intros Hsp Hrest. unfold uw_string_skip_spaces.
  rewrite skipn_app, skipn_all, Nat.sub_diag. cbn [skipn app].
  rewrite leading_spaces_app by exact Hsp.
  destruct rest as [| c r]; cbn [leading_spaces]; [lia |].
  rewrite Hrest. lia.
Qed.

(** The first read of a document whose first line has content. *)
Lemma first_read_content (text raw : ustring) (more : list ustring) :
  lines_of text = raw :: more -> no_content raw = false ->
  _amw_read_block_line (amw_create_parser text)
  = (UwOK,
     mkParser (mkMarkup more 1) (uw_string_rtrim raw) (indent_of raw) 1 0 1
       AMW_MAX_RESURSION_DEPTH false false builtin_parsers).
Proof.
  intros Hlines Hc.
  change (_amw_read_block_line (amw_create_parser text))
    with (read_block_line_loop (lines_of text) (amw_create_parser text)).
  rewrite Hlines, content_step by (try reflexivity; exact Hc).
  unfold amw_create_parser. rewrite line_read_mk. unfold lines_of in Hlines.
  unfold uw_start_read_lines. cbn [lineno]. reflexivity.
Qed.

(** The text of a document of one line, with or without terminator, is
    that line for the reader. *)
Lemma lines_of_one_line (line eol : ustring) :
  one_line line -> line <> [] -> eol = [] \/ eol = [LF] ->
  lines_of (line ++ eol) = [line ++ eol].
Proof.
  intros Hone Hne [-> | ->]; unfold lines_of.
  - rewrite app_nil_r. now apply (@split_lines_single line []); [| right].
  - rewrite (split_lines_line [] [] Hone). reflexivity.
Qed.

(** The end of a parse whose value ends the input. *)
Lemma amw_parse_at_end (f : ustring -> nat) (fuel : nat) (text : ustring)
    (p p' : AmwParser) (v : UwValue) :
  _amw_read_block_line (amw_create_parser text) = (UwOK, p) ->
  parse_value f fuel p None = Some (v, None, p') ->
  uw_error v = true \/ (eof p' = true /\ 0 < blocklevel p') ->
  amw_parse f fuel text = Some v.
Proof.
  intros Hread Hval Hend. unfold amw_parse, value_parser_func.
  rewrite Hread. cbn [_amw_end_of_block UwOK uw_error andb].
  rewrite Hval. destruct (uw_error v) eqn:Hv; [reflexivity |].
  destruct Hend as [Hend | [He Hl]]; [discriminate Hend |].
  unfold _amw_read_block_line. rewrite He.
  apply Nat.ltb_lt in Hl. rewrite Hl. now rewrite He.
Qed.

(** What stays of a trailer when the line is stripped: the spaces and the
    comment, or nothing. *)
Lemma trailer_stripped (a : ustring) (c : char32_t) (t : ustring) :
  uw_isspace c = false -> trailer t ->
  exists sp cm,
    uw_string_rtrim (a ++ c :: t) = a ++ c :: sp ++ cm
    /\ Forall (fun x => uw_isspace x = true) sp
    /\ (cm = [] \/ exists c', cm = AMW_COMMENT :: c').
Proof.
  intros Hc (spaces & comment & eol & -> & Hsp & Hcm & _ & Heol).
  assert (Hsp' : Forall (fun x => uw_isspace x = true) spaces)
    by (eapply Forall_impl; [| exact Hsp]; intros x Hx; apply Hx).
  assert (Heol' : Forall (fun x => uw_isspace x = true) eol)
    by (destruct Heol as [-> | ->]; repeat constructor).
  rewrite rtrim_app by exact Hc.
  destruct Hcm as [-> | [c' ->]].
  - exists [], []. rewrite rtrim_spaces.
    + repeat split; [constructor | now left].
    + cbn [app]. apply Forall_app. now split.
  - exists spaces, (AMW_COMMENT :: uw_string_rtrim (c' ++ eol)).
    cbn [app]. rewrite rtrim_app by reflexivity.
    repeat split; [exact Hsp' | right; eauto].
Qed.

Lemma trailer_lines (tok t : ustring) :
  one_line tok -> tok <> [] -> trailer t ->
  lines_of (tok ++ t) = [tok ++ t].
Proof.
  intros Htok Hne (spaces & comment & eol & -> & Hsp & _ & Hcm & Heol).
  rewrite !app_assoc. apply lines_of_one_line; [| | exact Heol].
  - unfold one_line in *. repeat (apply Forall_app; split); try assumption.
    eapply Forall_impl; [| exact Hsp]. intros x Hx. apply Hx.
  - destruct tok; [congruence | discriminate].
Qed.

Lemma read_block_line_at_end (p : AmwParser) :
  eof p = false -> pending (markup p) = [] ->
  _amw_read_block_line p
  = (UwStatus AMW_END_OF_BLOCK, set_current_line [] (set_eof true p)).
Proof.
  intros He Hp. unfold _amw_read_block_line. now rewrite He, Hp.
Qed.

(** [check_value_end] on the last line of the document when only spaces
    and a comment follow the value. *)
Lemma check_value_end_trailer (f : ustring -> nat) (fuel : nat)
    (p : AmwParser) (v : UwValue) (a sp cm : ustring) :
  uw_error v = false ->
  current_line p = a ++ sp ++ cm ->
  Forall (fun x => uw_isspace x = true) sp ->
  cm = [] \/ (exists c', cm = AMW_COMMENT :: c') ->
  eof p = false -> pending (markup p) = [] ->
  check_value_end f (S fuel) p v (length a) None
  = Some (v, None, set_current_line [] (set_eof true p)).
Proof.
  intros Hv Hline Hsp Hcm He Hp. cbn [check_value_end]. rewrite Hv, Hline.
  rewrite skip_spaces_over;
    [| exact Hsp | destruct Hcm as [-> | [c' ->]]; [exact I | reflexivity]].
  rewrite <- Hline, (read_block_line_at_end p He Hp).
  cbn [_amw_end_of_block negb andb].
  unfold end_of_line, uw_string_index_valid. rewrite Hline.
  destruct Hcm as [-> | [c' ->]].
  - rewrite app_nil_r, length_app, Nat.ltb_irrefl. reflexivity.
  - assert (Hlt : (length a + length sp
                   <? length (a ++ sp ++ AMW_COMMENT :: c')) = true)
      by (apply Nat.ltb_lt; rewrite !length_app; simpl; lia).
    rewrite Hlt. cbn [negb].
    assert (Hc : uw_char_at (a ++ sp ++ AMW_COMMENT :: c')
                   (length a + length sp) = AMW_COMMENT).
    { rewrite app_assoc, <- length_app. apply char_at_app. }
    rewrite Hc. reflexivity.
Qed.

Lemma keyword_needs_letter (s : ustring) (n : nat) (kw : string) :
  ((uw_char_at s 0 =? chr "n") || (uw_char_at s 0 =? chr "t")
   || (uw_char_at s 0 =? chr "f"))%Z = false ->
  In kw reserved_keywords ->
  uw_substring_eq_cstr s 0 (0 + S n) kw = false.
Proof.
  intros Hn Hkw. unfold uw_substring_eq_cstr. rewrite uw_substr_add.
  destruct s as [| c t].
  - destruct Hkw as [<- | [<- | [<- | []]]]; reflexivity.
  - change (uw_char_at (c :: t) 0) with c in Hn. cbn [skipn firstn].
    apply orb_false_elim in Hn. destruct Hn as [Hn Hf].
    apply orb_false_elim in Hn. destruct Hn as [Hn Ht].
    destruct Hkw as [<- | [<- | [<- | []]]];
      cbn [ustr list_ascii_of_string map ustring_eqb];
      [rewrite Hn | rewrite Ht | rewrite Hf]; reflexivity.
Qed.

(** The dispatcher on a number without sign, with a plus and with a
    minus. *)
Lemma parse_value_unsigned_number (f : ustring -> nat) (fuel : nat)
    (p : AmwParser) (v : UwValue) (e : nat) :
  get_start_position p = 0 ->
  is_digit (uw_char_at (current_line p) 0) = true ->
  _amw_parse_number p 0 1 = Some (v, e) ->
  parse_value f (S fuel) p None = check_value_end f fuel p v e None.
Proof.
  intros Hsp Hd Hnum. cbn [parse_value]. rewrite Hsp.
  destruct (digit_tests _ Hd) as (H1 & H2 & H3 & H4).
  rewrite H1, H2, H3, H4. cbn [orb andb].
  rewrite !(digit_is_no_keyword _ _ Hd) by (simpl; auto).
  now rewrite Hd, Hnum.
Qed.

Lemma parse_value_plus_number (f : ustring -> nat) (fuel : nat)
    (p : AmwParser) (v : UwValue) (e : nat) :
  get_start_position p = 0 ->
  uw_char_at (current_line p) 0 = chr "+" ->
  is_digit (uw_char_at (current_line p) 1) = true ->
  _amw_parse_number p 1 1 = Some (v, e) ->
  parse_value f (S fuel) p None = check_value_end f fuel p v e None.
Proof.
  intros Hsp Hc Hd Hnum. cbn [parse_value]. rewrite Hsp.
  rewrite !keyword_needs_letter by (try (rewrite Hc; reflexivity); simpl; auto).
  rewrite Hc. cbn [Nat.add]. rewrite Hd.
  change ((chr "+" =? chr ":")%Z) with false.
  change ((chr "+" =? chr "-")%Z) with false.
  change ((chr "+" =? DQUOTE)%Z) with false.
  change ((chr "+" =? chr "+")%Z) with true.
  cbn [orb andb]. now rewrite Hd, Hnum.
Qed.

Lemma parse_value_minus_number (f : ustring -> nat) (fuel : nat)
    (p : AmwParser) (v : UwValue) (e : nat) :
  get_start_position p = 0 ->
  uw_char_at (current_line p) 0 = chr "-" ->
  is_digit (uw_char_at (current_line p) 1) = true ->
  _amw_parse_number p 1 (-1) = Some (v, e) ->
  parse_value f (S fuel) p None = check_value_end f fuel p v e None.
Proof.
  intros Hsp Hc Hd Hnum. cbn [parse_value]. rewrite Hsp, Hc.
  change ((chr "-" =? chr ":")%Z) with false.
  change ((chr "-" =? chr "-")%Z) with true.
  cbn [Nat.add]. now rewrite Hd, Hnum.
Qed.

Lemma last_split (s : ustring) :
  s <> [] -> exists a c, s = a ++ [c] /\ last s 0%Z = c.
Proof.
  intros Hne. exists (removelast s), (last s 0%Z). split; [| reflexivity].
  now apply app_removelast_last.
Qed.

(** A document of one line: a value that starts the line, then spaces and
    a comment at most.  When the dispatcher hands [v] to [check_value_end]
    at the end of the value, the document parses to [v]. *)
Lemma scalar_document (f : ustring -> nat) (fuel : nat) (h : char32_t)
    (tl t : ustring) (v : UwValue) :
  one_line (h :: tl) -> uw_isspace h = false -> h <> AMW_COMMENT ->
  uw_isspace (last (h :: tl) 0%Z) = false ->
  trailer t ->
  (forall line sp cm,
      line = (h :: tl) ++ sp ++ cm ->
      Forall (fun x => uw_isspace x = true) sp ->
      cm = [] \/ (exists c', cm = AMW_COMMENT :: c') ->
      parse_value f (S (S fuel)) (first_line_parser line) None
      = check_value_end f (S fuel) (first_line_parser line) v
          (length (h :: tl)) None) ->
  amw_parse f (S (S fuel)) ((h :: tl) ++ t) = Some v.
Proof.
  intros Hone Hh Hnc Hlast Ht Hdisp.
  destruct (@last_split (h :: tl)) as (a & c & Htok & Hc); [discriminate |].
  rewrite Hc in Hlast.
  destruct (@trailer_stripped a c t Hlast Ht) as (sp & cm & Hstrip & Hsp & Hcm).
  assert (Hline : uw_string_rtrim ((h :: tl) ++ t) = (h :: tl) ++ sp ++ cm).
  { rewrite Htok, <- !app_assoc. exact Hstrip. }
  assert (Hind : indent_of ((h :: tl) ++ t) = 0).
  { unfold indent_of, uw_string_skip_spaces. rewrite Hline.
    cbn [app skipn leading_spaces]. now rewrite Hh. }
  assert (Hcontent : no_content ((h :: tl) ++ t) = false).
  { unfold no_content, comment_text. rewrite Hind, Hline.
    cbn [app uw_strlen length Nat.eqb orb].
    change (uw_char_at (h :: tl ++ sp ++ cm) 0) with h.
    apply Z.eqb_neq. exact Hnc. }
  assert (Hread : _amw_read_block_line (amw_create_parser ((h :: tl) ++ t))
                  = (UwOK, first_line_parser ((h :: tl) ++ sp ++ cm))).
  { rewrite (@first_read_content _ ((h :: tl) ++ t) []);
      [| apply trailer_lines; [exact Hone | discriminate | exact Ht]
       | exact Hcontent].
    rewrite Hline, Hind. reflexivity. }
  specialize (Hdisp _ sp cm eq_refl Hsp Hcm).
  destruct (uw_error v) eqn:Hv.
  - eapply amw_parse_at_end; [exact Hread | | left; exact Hv].
    rewrite Hdisp. cbn [check_value_end]. now rewrite Hv.
  - eapply amw_parse_at_end; [exact Hread | | right].
    + rewrite Hdisp.
      apply check_value_end_trailer with (sp := sp) (cm := cm);
        try assumption; reflexivity.
    + split; [reflexivity | cbn; lia].
Qed.

(** A document of one line in general: when the dispatcher returns [v] on
    the stripped line and [v] is an error or the input is at its end, the
    document parses to [v]. *)
Lemma one_line_document (f : ustring -> nat) (fuel : nat)
    (text : ustring) (h : char32_t) (l : ustring) (v : UwValue)
    (p' : AmwParser) :
  lines_of text = [text] ->
  uw_string_rtrim text = h :: l ->
  uw_isspace h = false -> h <> AMW_COMMENT ->
  parse_value f fuel (first_line_parser (h :: l)) None = Some (v, None, p') ->
  uw_error v = true \/ (eof p' = true /\ 0 < blocklevel p') ->
  amw_parse f fuel text = Some v.
Proof.
  intros Hlines Hline Hh Hnc Hval Hend.
  assert (Hind : indent_of text = 0).
  { unfold indent_of, uw_string_skip_spaces. rewrite Hline.
    cbn [skipn leading_spaces]. now rewrite Hh. }
  assert (Hcontent : no_content text = false).
  { unfold no_content, comment_text. rewrite Hind, Hline.
    cbn [uw_strlen length Nat.eqb orb].
    change (uw_char_at (h :: l) 0) with h. apply Z.eqb_neq. exact Hnc. }
  eapply amw_parse_at_end; [| exact Hval | exact Hend].
  rewrite (@first_read_content _ text []) by assumption.
  rewrite Hline, Hind. reflexivity.
Qed.

(** ** Scalars followed by a comment *)

Lemma start_position_first_line (h : char32_t) (l : ustring) :
  uw_isspace h = false -> get_start_position (first_line_parser (h :: l)) = 0.
Proof.
  intros Hh. unfold get_start_position, first_line_parser.
  cbn [block_indent current_indent current_line Nat.ltb Nat.leb].
  unfold uw_string_skip_spaces. cbn [skipn leading_spaces]. now rewrite Hh.
Qed.

Lemma parse_value_keyword (f : ustring -> nat) (fuel : nat) (p : AmwParser)
    (kw : string) (v : UwValue) (rest : ustring) :
  In (kw, v) keyword_values ->
  get_start_position p = 0 ->
  current_line p = ustr kw ++ rest ->
  parse_value f (S fuel) p None
  = check_value_end f fuel p v (String.length kw) None.
Proof.
  intros Hkw Hsp Hline. cbn [parse_value]. rewrite Hsp, Hline.
  destruct Hkw as [E | [E | [E | []]]]; inversion E; subst kw v;
    reflexivity.
Qed.

(** X8. The reserved keywords.  A document of one line that holds null,
    true or false, followed at most by spaces and a comment, parses to the
    null value or to the boolean. *)
Theorem keyword_documents (f : ustring -> nat) (fuel : nat) (kw : string)
    (v : UwValue) (t : ustring) :
  In (kw, v) keyword_values -> trailer t ->
  amw_parse f (S (S fuel)) (ustr kw ++ t) = Some v.
Proof.
  intros Hkw Ht.
  assert (Hshape : exists h tl,
             ustr kw = h :: tl /\ one_line (h :: tl)
             /\ uw_isspace h = false /\ h <> AMW_COMMENT
             /\ uw_isspace (last (h :: tl) 0%Z) = false
             /\ length (h :: tl) = String.length kw).
  { destruct Hkw as [E | [E | [E | []]]]; inversion E; subst kw v;
      eexists; eexists; (split; [reflexivity |]);
      repeat split; try discriminate; repeat constructor. }
  destruct Hshape as (h & tl & Hk & Hone & Hh & Hnc & Hlast & Hlen).
  rewrite Hk. apply scalar_document; try assumption.
  intros line sp cm -> Hsp Hcm. rewrite Hlen.
  apply parse_value_keyword with (rest := sp ++ cm); [exact Hkw | |].
  - now apply start_position_first_line.
  - rewrite Hk. reflexivity.
Qed.

Lemma keyword_documents_witness :
  (In ("false"%string, UwBool false) keyword_values
   /\ trailer (ustr "  # off" ++ [LF]))
  /\ amw_parse zero_view 2 (ustr "false" ++ ustr "  # off" ++ [LF])
     = Some (UwBool false).
Proof.
  assert (H1 : In ("false"%string, UwBool false) keyword_values)
    by (right; right; left; reflexivity).
  assert (H2 : trailer (ustr "  # off" ++ [LF])).
  { exists (ustr "  "), (ustr "# off"), [LF]. repeat split.
    - repeat constructor.
    - right. eexists. reflexivity.
    - repeat constructor.
    - now right. }
  split; [split; assumption |].
  exact (@keyword_documents zero_view 0 "false" (UwBool false) _ H1 H2).
Defined.

(** ** Integer literals as documents *)

Lemma token_char_facts (c : char32_t) :
  token_char c ->
  (c =? LF)%Z = false /\ uw_isspace c = false /\ c <> AMW_COMMENT.
Proof.
  unfold token_char, is_alnum, is_digit, is_separator, uw_isspace, LF,
    AMW_COMMENT, SQUOTE, chr. simpl.
  intros [H | [-> | [-> | H]]]; repeat split; try reflexivity; try lia.
Qed.

Lemma literal_token_chars (radix : Z) (items : list numeral_item) :
  (radix <= 16)%Z ->
  forall prev,
    separated prev items = true ->
    Forall (is_digit_of radix) (item_digits items) ->
    Forall token_char (literal_of items).
Proof.
  intros Hr. induction items as [| [d | c] items IH]; intros prev Hsep Hall;
    cbn [literal_of map item_char separated item_digits] in *.
  - constructor.
  - inversion Hall as [| d' ds Hd Hds]; subst. constructor.
    + left. apply digit_char_alnum. unfold is_digit_of in Hd. lia.
    + exact (IH true Hsep Hds).
  - apply andb_prop in Hsep. destruct Hsep as [Hsep Hrest].
    apply andb_prop in Hsep. destruct Hsep as [_ Hc]. constructor.
    + right. right. right. exact Hc.
    + exact (IH false Hrest Hall).
Qed.

Lemma radix_prefix_facts (pre : ustring) (radix : Z)
    (items : list numeral_item) :
  radix_prefix pre radix items ->
  separated false items = true ->
  Forall (is_digit_of radix) (item_digits items) ->
  supported_radix radix /\ Forall token_char pre
  /\ is_digit (hd 0%Z (pre ++ literal_of items)) = true.
Proof.
  intros Hpre Hsep Hall.
  destruct Hpre as [(-> & -> & d & rest & -> & Hnz)
                   | [(-> & ->) | (x & -> & Hx)]].
  - split; [unfold supported_radix; auto | split; [constructor |]].
    cbn [app literal_of map item_char hd]. apply decimal_digit_char.
    cbn [item_digits] in Hall. now inversion Hall.
  - split; [unfold supported_radix; auto | split; [| reflexivity]].
    constructor; [left; reflexivity | constructor].
  - split; [| split].
    + unfold supported_radix.
      destruct Hx as [[_ ->] | [[_ ->] | [_ ->]]]; auto.
    + constructor; [left; reflexivity |]. constructor; [| constructor].
      left.
      destruct Hx as [[[-> | ->] _] | [[[-> | ->] _] | [[-> | ->] _]]];
        reflexivity.
    + reflexivity.
Qed.

Lemma separated_last (items : list numeral_item) :
  forall prev, separated prev items = true -> items <> [] ->
    exists init d, items = init ++ [Digit d].
Proof.
  induction items as [| i items IH]; intros prev Hsep Hne; [congruence |].
  destruct items as [| j items'].
  - destruct i as [d | c].
    + now exists [], d.
    + cbn [separated] in Hsep. rewrite andb_false_r in Hsep.
      discriminate Hsep.
  - assert (Hrest : exists prev', separated prev' (j :: items') = true).
    { destruct i as [d | c]; cbn [separated] in Hsep.
      - now exists true.
      - apply andb_prop in Hsep. destruct Hsep as [_ Hsep]. now exists false. }
    destruct Hrest as [prev' Hrest].
    destruct (IH prev' Hrest) as (init & d & Heq); [discriminate |].
    exists (i :: init), d. now rewrite Heq.
Qed.

Lemma forall_last (P : char32_t -> Prop) (s : ustring) :
  Forall P s -> s <> [] -> P (last s 0%Z).
Proof.
  intros H Hne. destruct (last_split Hne) as (a & c & Hs & ->).
  rewrite Hs in H. apply Forall_app in H. destruct H as [_ H].
  now inversion H.
Qed.

(** X9. Integer literals.  A document of one line that holds an optional
    sign, an optional radix prefix (0b, 0o, 0x in either case, or a single
    leading 0) and digits with single separators between them, followed at
    most by spaces and a comment, parses to the number the digits stand
    for: a signed integer up to 2^63 - 1, an unsigned integer from there up
    to 2^64 - 1 when the sign is not a minus, and the error Integer
    overflow, located at the first digit, when it is. *)
Theorem integer_literal_documents (f : ustring -> nat) (fuel : nat)
    (sgn pre t : ustring) (sign radix : Z) (items : list numeral_item) :
  sign_prefix sgn sign ->
  radix_prefix pre radix items ->
  separated false items = true ->
  Forall (is_digit_of radix) (item_digits items) ->
  (value_of radix (item_digits items) < 2 ^ 64)%Z ->
  trailer t ->
  amw_parse f (S (S fuel)) (sgn ++ pre ++ literal_of items ++ t)
  = Some (integer_value sign (value_of radix (item_digits items)) 1
            (length sgn)).
Proof.
  intros Hsgn Hpre Hsep Hall Hmax Ht.
  destruct (radix_prefix_facts Hpre Hsep Hall) as (Hr & Hprec & Hdig).
  pose proof (supported_radix_bounds Hr) as Hrb.
  assert (Hlit : Forall token_char (literal_of items))
    by (apply (@literal_token_chars radix items) with (prev := false);
        [lia | assumption | assumption]).
  destruct (separated_nonempty _ Hsep) as (d0 & rest0 & Hitems).
  assert (Hsgnc : Forall token_char sgn).
  { destruct Hsgn as [[-> _] | [[-> _] | [-> _]]].
    - constructor.
    - constructor; [right; left; reflexivity | constructor].
    - constructor; [right; right; left; reflexivity | constructor]. }
  set (tok := sgn ++ pre ++ literal_of items).
  assert (Htokc : Forall token_char tok)
    by (unfold tok; repeat (apply Forall_app; split); assumption).
  assert (Htokne : tok <> []).
  { unfold tok, literal_of. rewrite Hitems. cbn [map].
    intros E. apply app_eq_nil in E. destruct E as [_ E].
    apply app_eq_nil in E. destruct E as [_ E]. discriminate E. }
  assert (Hlen : length tok = length sgn + length pre + length items)
    by (unfold tok, literal_of; rewrite !length_app, length_map; lia).
  replace (sgn ++ pre ++ literal_of items ++ t) with (tok ++ t)
    by (unfold tok; now rewrite <- !app_assoc).
  destruct tok as [| h tl] eqn:Htok; [congruence |].
  inversion Htokc as [| h' tl' Hh Htl]; subst h' tl'.
  destruct (token_char_facts Hh) as (_ & Hhs & Hhc).
  apply scalar_document; try assumption.
  - eapply Forall_impl; [| exact Htokc]. intros c Hc.
    now destruct (token_char_facts Hc).
  - assert (Hl : token_char (last (h :: tl) 0%Z))
      by (apply forall_last; [exact Htokc | discriminate]).
    now destruct (token_char_facts Hl) as (_ & Hls & _).
  - intros line sp cm Hline Hsp Hcm.
    assert (Hline' : current_line (first_line_parser line)
                     = sgn ++ pre ++ literal_of items ++ sp ++ cm).
    { cbn [first_line_parser current_line]. rewrite Hline, <- Htok.
      unfold tok. now rewrite <- !app_assoc. }
    assert (Hend : ends_number (sp ++ cm)).
    { destruct Hsp as [| x sp' Hx _]; cbn [app].
      - destruct Hcm as [-> | [c' ->]]; [exact I | reflexivity].
      - cbn [ends_number]. unfold number_end. rewrite Hx.
        apply orb_true_r. }
    pose proof (@parse_number_items (first_line_parser line) sgn pre
                  (sp ++ cm) radix sign items Hpre Hend Hline' Hsep Hall
                  Hmax) as Hnum.
    change (line_number (first_line_parser line)) with 1 in Hnum.
    rewrite <- Hlen in Hnum.
    assert (Hstart : get_start_position (first_line_parser line) = 0)
      by (rewrite Hline; now apply start_position_first_line).
    assert (Hfirst : is_digit (uw_char_at (current_line
                                 (first_line_parser line)) (length sgn))
                     = true).
    { rewrite Hline'.
      destruct (pre ++ literal_of items) as [| c0 r0] eqn:Hpl.
      - apply app_eq_nil in Hpl. destruct Hpl as [_ Hpl].
        unfold literal_of in Hpl. rewrite Hitems in Hpl. discriminate Hpl.
      - assert (E : pre ++ literal_of items ++ sp ++ cm
                    = c0 :: r0 ++ sp ++ cm)
          by (rewrite (app_assoc pre), Hpl; reflexivity).
        rewrite E, char_at_app. exact Hdig. }
    destruct Hsgn as [[-> ->] | [[-> ->] | [-> ->]]].
    + now apply parse_value_unsigned_number.
    + apply parse_value_plus_number; try assumption.
      now rewrite Hline'.
    + apply parse_value_minus_number; try assumption.
      now rewrite Hline'.
Qed.

Lemma integer_literal_documents_witness :
  (sign_prefix [chr "-"] (-1)
   /\ radix_prefix (ustr "0x") 16
        [Digit 7; Digit 15; Separator (chr "_"); Digit 15; Digit 15]
   /\ separated false
        [Digit 7; Digit 15; Separator (chr "_"); Digit 15; Digit 15] = true
   /\ Forall (is_digit_of 16)
        (item_digits
           [Digit 7; Digit 15; Separator (chr "_"); Digit 15; Digit 15])
   /\ (value_of 16
         (item_digits
            [Digit 7; Digit 15; Separator (chr "_"); Digit 15; Digit 15])
       < 2 ^ 64)%Z
   /\ trailer (ustr " # max"))
  /\ amw_parse zero_view 2
       ([chr "-"] ++ ustr "0x"
        ++ literal_of
             [Digit 7; Digit 15; Separator (chr "_"); Digit 15; Digit 15]
        ++ ustr " # max")
     = Some (integer_value (-1)
               (value_of 16
                  (item_digits
                     [Digit 7; Digit 15; Separator (chr "_"); Digit 15;
                      Digit 15])) 1 (length [chr "-"])).
Proof.
  assert (H1 : sign_prefix [chr "-"] (-1))
    by (right; right; split; reflexivity).
  assert (H2 : radix_prefix (ustr "0x") 16
                 [Digit 7; Digit 15; Separator (chr "_"); Digit 15;
                  Digit 15]).
  { right. right. exists (chr "x"). split; [reflexivity |].
    right. right. split; [left |]; reflexivity. }
  assert (H3 : separated false
                 [Digit 7; Digit 15; Separator (chr "_"); Digit 15;
                  Digit 15] = true) by reflexivity.
  assert (H4 : Forall (is_digit_of 16)
                 (item_digits
                    [Digit 7; Digit 15; Separator (chr "_"); Digit 15;
                     Digit 15]))
    by (repeat constructor; unfold is_digit_of; lia).
  assert (H5 : (value_of 16
                  (item_digits
                     [Digit 7; Digit 15; Separator (chr "_"); Digit 15;
                      Digit 15]) < 2 ^ 64)%Z) by reflexivity.
  assert (H6 : trailer (ustr " # max")).
  { exists (ustr " "), (ustr "# max"), []. repeat split.
    - repeat constructor.
    - right. eexists. reflexivity.
    - repeat constructor.
    - now left. }
  split; [repeat split; assumption |].
  exact (@integer_literal_documents zero_view 0 _ _ _ _ _ _
           H1 H2 H3 H4 H5 H6).
Defined.

(** ** The literal 0 *)

Lemma zero_token_shape (sgn : ustring) (sign : Z) :
  sign_prefix sgn sign ->
  exists h tl,
    sgn ++ [chr "0"] = h :: tl /\ uw_isspace h = false
    /\ h <> AMW_COMMENT /\ one_line (h :: tl)
    /\ is_digit (uw_char_at (h :: tl) (length sgn)) = true
    /\ get_start_position (first_line_parser (h :: tl)) = 0.
Proof.
  intros [[-> _] | [[-> _] | [-> _]]]; eexists; eexists;
    (split; [reflexivity |]); repeat split; try discriminate;
    repeat constructor.
Qed.

Lemma parse_value_signed_number (f : ustring -> nat) (fuel : nat)
    (p : AmwParser) (sgn : ustring) (sign : Z) (rest : ustring)
    (v : UwValue) (e : nat) :
  sign_prefix sgn sign ->
  get_start_position p = 0 ->
  current_line p = sgn ++ rest ->
  is_digit (hd 0%Z rest) = true ->
  _amw_parse_number p (length sgn) sign = Some (v, e) ->
  parse_value f (S fuel) p None = check_value_end f fuel p v e None.
Proof.
  intros Hsgn Hsp Hline Hd Hnum.
  destruct rest as [| c r]; [discriminate Hd |]. cbn [hd] in Hd.
  destruct Hsgn as [[-> ->] | [[-> ->] | [-> ->]]].
  - apply parse_value_unsigned_number; try assumption.
    now rewrite Hline.
  - apply parse_value_plus_number; try assumption; now rewrite Hline.
  - apply parse_value_minus_number; try assumption; now rewrite Hline.
Qed.

Lemma number_end_is_no_prefix (x : char32_t) (pos : nat) :
  number_end x = true ->
  (if (((x =? chr "b") || (x =? chr "B"))%Z : bool) then (2%Z, S pos)
   else if ((x =? chr "o") || (x =? chr "O"))%Z then (8%Z, S pos)
   else if ((x =? chr "x") || (x =? chr "X"))%Z then (16%Z, S pos)
   else (10%Z, pos)) = (10%Z, pos).
Proof.
  unfold number_end, uw_isspace, AMW_COMMENT, chr. simpl. intros H.
  repeat match goal with
         | |- context [if ?b then _ else _] => destruct b eqn:?
         end; try reflexivity; lia.
Qed.

(** [_amw_parse_number] on a 0 that is followed by a character that ends a
    number: the 0 is taken for a radix prefix and the numeral after it is
    missing. *)
Lemma parse_number_zero_then_end (p : AmwParser) (sgn : ustring)
    (x : char32_t) (rest : ustring) (sign : Z) :
  current_line p = sgn ++ chr "0" :: x :: rest ->
  number_end x = true ->
  exists e,
    _amw_parse_number p (length sgn) sign
    = Some (AmwStatus (line_number p) (S (length sgn)) "Bad number", e).
Proof.
  intros Hline Hx. unfold _amw_parse_number.
  assert (Hc : uw_char_at (current_line p) (length sgn) = chr "0")
    by (rewrite Hline; apply char_at_app).
  assert (He : end_of_line (current_line p) (S (length sgn)) = false)
    by (rewrite Hline; apply not_eol_app_S).
  assert (Hc1 : uw_char_at (current_line p) (S (length sgn)) = x)
    by (rewrite Hline; apply char_at_app_S).
  rewrite Hc, Z.eqb_refl, He, Hc1, (@number_end_is_no_prefix x _ Hx), He.
  unfold number_magnitude, parse_unsigned. cbn [parse_unsigned_loop].
  rewrite Hc1.
  destruct (@digit_value_number_end 10 x) as (Hdv & Hns & _);
    [unfold supported_radix; auto | exact Hx |].
  fold (is_separator x). rewrite Hns, Hdv. cbn [negb].
  eexists. reflexivity.
Qed.

(** X10. The literal 0.  A document of one line that holds an optional
    sign and the digit 0, followed at most by spaces, parses to the signed
    integer 0.  When a comment follows on the same line, the 0 is taken
    for a radix prefix without numeral and the parse fails with the error
    Bad number, located after the 0. *)
Theorem zero_literal_documents (f : ustring -> nat) (fuel : nat)
    (sgn spaces c eol : ustring) (sign : Z) :
  sign_prefix sgn sign ->
  Forall (fun x => uw_isspace x = true /\ (x =? LF)%Z = false) spaces ->
  one_line c -> eol = [] \/ eol = [LF] ->
  amw_parse f (S (S fuel)) (sgn ++ [chr "0"] ++ spaces ++ eol)
  = Some (UwSigned 0)
  /\ amw_parse f (S (S fuel))
       (sgn ++ [chr "0"] ++ spaces ++ AMW_COMMENT :: c ++ eol)
     = Some (AmwStatus 1 (length sgn + 1) "Bad number").
Proof.
  intros Hsgn Hsp Hc Heol.
  destruct (zero_token_shape Hsgn)
    as (h & tl & Htok & Hh & Hnc & Hone & Hdig & Hstart).
  assert (Hsp' : Forall (fun x => uw_isspace x = true) spaces)
    by (eapply Forall_impl; [| exact Hsp]; intros x Hx; apply Hx).
  assert (Heol' : Forall (fun x => uw_isspace x = true) eol)
    by (destruct Heol as [-> | ->]; repeat constructor).
  assert (Hlen : length (h :: tl) = length sgn + 1)
    by (rewrite <- Htok, length_app; reflexivity).
  split.
  - assert (Htext : sgn ++ [chr "0"] ++ spaces ++ eol
                    = (h :: tl) ++ spaces ++ eol)
      by (rewrite <- Htok, <- app_assoc; reflexivity).
    rewrite Htext.
    eapply one_line_document
      with (h := h) (l := tl)
           (p' := set_current_line []
                    (set_eof true (first_line_parser (h :: tl))));
      [| | exact Hh | exact Hnc | | right; split; [reflexivity | cbn; lia]].
    + apply trailer_lines; [exact Hone | discriminate |].
      exists spaces, [], eol. repeat split; try assumption;
        [now left | constructor].
    + rewrite <- Htok, <- app_assoc. cbn [app].
      rewrite rtrim_app by reflexivity.
      rewrite rtrim_spaces; [reflexivity |]. apply Forall_app. now split.
    + rewrite (@parse_value_signed_number f (S fuel)
                 (first_line_parser (h :: tl)) sgn sign [chr "0"]
                 (UwSigned 0) (length (h :: tl)) Hsgn Hstart
                 (eq_sym Htok) eq_refl).
      * now apply check_value_end_last_line.
      * unfold _amw_parse_number.
        cbn [first_line_parser current_line]. rewrite <- Htok.
        rewrite char_at_app, Z.eqb_refl.
        unfold end_of_line, uw_string_index_valid.
        rewrite length_app. cbn [length].
        replace (S (length sgn) <? length sgn + 1) with false
          by (symmetry; apply Nat.ltb_ge; lia).
        cbn [negb]. rewrite number_done_integer.
        replace (length sgn + 1) with (S (length sgn)) by lia.
        f_equal. f_equal. unfold integer_value.
        change (UW_SIGNED_MAX <? 0)%Z with false. cbv iota.
        now destruct (sign <? 0)%Z.
  - set (line := (h :: tl) ++ spaces
                 ++ AMW_COMMENT :: uw_string_rtrim (c ++ eol)).
    assert (Hline : line = sgn ++ chr "0"
                           :: spaces ++ AMW_COMMENT
                              :: uw_string_rtrim (c ++ eol))
      by (unfold line; rewrite <- Htok, <- app_assoc; reflexivity).
    assert (Hx : exists x rest,
               spaces ++ AMW_COMMENT :: uw_string_rtrim (c ++ eol)
               = x :: rest /\ number_end x = true).
    { destruct Hsp' as [| x sp' Hxs _]; cbn [app].
      - eexists. eexists. split; reflexivity.
      - eexists. eexists. split; [reflexivity |].
        unfold number_end. rewrite Hxs. apply orb_true_r. }
    destruct Hx as (x & rest & Hxr & Hx).
    destruct (@parse_number_zero_then_end
                (first_line_parser line) sgn x rest sign) as [e Hnum];
      [cbn [first_line_parser current_line]; rewrite Hline, Hxr; reflexivity
      | exact Hx |].
    change (line_number (first_line_parser line)) with 1 in Hnum.
    assert (Htext : sgn ++ [chr "0"] ++ spaces ++ AMW_COMMENT :: c ++ eol
                    = (h :: tl) ++ spaces ++ AMW_COMMENT :: c ++ eol)
      by (rewrite <- Htok, <- app_assoc; reflexivity).
    rewrite Htext.
    eapply one_line_document
      with (h := h) (l := tl ++ spaces
                          ++ AMW_COMMENT :: uw_string_rtrim (c ++ eol))
           (p' := first_line_parser line);
      [| | exact Hh | exact Hnc | | left; reflexivity].
    + apply trailer_lines; [exact Hone | discriminate |].
      exists spaces, (AMW_COMMENT :: c), eol.
      repeat split; try assumption.
      * right. eauto.
      * constructor; [reflexivity | exact Hc].
    + rewrite app_assoc, rtrim_app by reflexivity.
      rewrite <- app_assoc. reflexivity.
    + change (h :: tl ++ spaces
              ++ AMW_COMMENT :: uw_string_rtrim (c ++ eol)) with line.
      rewrite (@parse_value_signed_number f (S fuel)
                 (first_line_parser line) sgn sign
                 (chr "0" :: spaces ++ AMW_COMMENT
                  :: uw_string_rtrim (c ++ eol))
                 (AmwStatus 1 (S (length sgn)) "Bad number") e Hsgn).
      * cbn [check_value_end uw_error].
        replace (length sgn + 1) with (S (length sgn)) by lia.
        reflexivity.
      * unfold line. now apply start_position_first_line.
      * exact Hline.
      * reflexivity.
      * exact Hnum.
Qed.

Lemma zero_literal_documents_witness :
  (sign_prefix [chr "-"] (-1)
   /\ Forall (fun x => uw_isspace x = true /\ (x =? LF)%Z = false)
        (ustr "  ")
   /\ one_line (ustr " none") /\ ([LF] = [] \/ [LF] = [LF]))
  /\ amw_parse zero_view 2 ([chr "-"] ++ [chr "0"] ++ ustr "  " ++ [LF])
     = Some (UwSigned 0)
  /\ amw_parse zero_view 2
       ([chr "-"] ++ [chr "0"] ++ ustr "  "
        ++ AMW_COMMENT :: ustr " none" ++ [LF])
     = Some (AmwStatus 1 (length [chr "-"] + 1) "Bad number").
Proof.
  assert (H1 : sign_prefix [chr "-"] (-1))
    by (right; right; split; reflexivity).
  assert (H2 : Forall (fun x => uw_isspace x = true /\ (x =? LF)%Z = false)
                 (ustr "  ")) by (repeat constructor).
  assert (H3 : one_line (ustr " none")) by (repeat constructor).
  assert (H4 : [LF] = [] \/ [LF] = [LF]) by now right.
  split; [repeat split; assumption |].
  exact (@zero_literal_documents zero_view 0 _ _ _ _ _ H1 H2 H3 H4).
Defined.

(** ** Quoted strings as documents *)

Lemma escape_cons (quote c : char32_t) (s : ustring) :
  escape quote (c :: s) = escape_char quote c ++ escape quote s.
Proof. reflexivity. Qed.

Lemma escape_char_shape (quote c : char32_t) :
  is_quote quote ->
  (escape_char quote c = [c] /\ c <> quote /\ c <> BACKSLASH
   /\ (c =? LF)%Z = false)
  \/ exists x, escape_char quote c = [BACKSLASH; x]
               /\ (x =? LF)%Z = false
               /\ (x = BACKSLASH <-> c = BACKSLASH).
Proof.
  intros Hq. unfold escape_char.
  destruct (c =? BACKSLASH)%Z eqn:H0.
  { right. exists BACKSLASH. apply Z.eqb_eq in H0.
    repeat split; auto. }
  apply Z.eqb_neq in H0.
  destruct (c =? quote)%Z eqn:H1.
  { right. exists quote. apply Z.eqb_eq in H1. subst c.
    destruct Hq as [-> | ->]; repeat split; auto; discriminate. }
  apply Z.eqb_neq in H1.
  repeat match goal with
         | |- context [(c =? ?k)%Z] =>
             let H := fresh "H" in
             destruct (c =? k)%Z eqn:H;
             [ right; eexists; split; [reflexivity |];
               split; [reflexivity |]; split; [discriminate |];
               intros E; congruence |]
         end.
  left. repeat split; assumption.
Qed.

(** Every quote of escaped text has a backslash before it. *)
Lemma escape_quotes (quote : char32_t) (s : ustring) :
  is_quote quote ->
  forall j, j < length (escape quote s) ->
    nth j (escape quote s) 0%Z = quote ->
    0 < j /\ nth (j - 1) (escape quote s) 0%Z = BACKSLASH.
Proof.
  intros Hq. 
  assert (Hqb : quote <> BACKSLASH) by (destruct Hq as [-> | ->]; discriminate).
  induction s as [| c s IH]; intros j Hj Hc.
  - simpl in Hj. lia.
  - rewrite escape_cons in *.
    destruct (escape_char_shape c Hq)
      as [(E & Hcq & Hcb & _) | (x & E & _ & _)]; rewrite E in *.
    + destruct j as [| j]; [cbn [app nth] in Hc; congruence |].
      cbn [app nth length] in *.
      destruct (IH j) as [Hpos Hprev]; [lia | exact Hc |].
      split; [lia |]. replace (S j - 1) with (S (j - 1)) by lia.
      cbn [nth]. exact Hprev.
    + destruct j as [| [| j]].
      * cbn [app nth] in Hc. congruence.
      * split; [lia | reflexivity].
      * cbn [app nth length] in *.
        destruct (IH j) as [Hpos Hprev]; [lia | exact Hc |].
        split; [lia |]. replace (S (S j) - 1) with (S (S (j - 1))) by lia.
        cbn [nth]. exact Hprev.
Qed.

Lemma escape_one_line (quote : char32_t) (s : ustring) :
  is_quote quote -> one_line (escape quote s).
Proof.
  intros Hq. induction s as [| c s IH]; [constructor |].
  rewrite escape_cons. apply Forall_app. split; [| exact IH].
  destruct (escape_char_shape c Hq)
    as [(-> & _ & _ & Hlf) | (x & -> & Hlf & _)]; repeat constructor;
    assumption.
Qed.

Lemma escape_app (quote : char32_t) (a b : ustring) :
  escape quote (a ++ b) = escape quote a ++ escape quote b.
Proof.
  unfold escape. now rewrite map_app, concat_app.
Qed.

(** Escaped text ends in a backslash only when the text does. *)
Lemma escape_last (quote : char32_t) (s : ustring) (d : char32_t) :
  is_quote quote -> last s 0%Z <> BACKSLASH -> d <> BACKSLASH ->
  last (escape quote s) d <> BACKSLASH.
Proof.
  intros Hq Hs Hd. destruct s as [| c0 s0]; [exact Hd |].
  destruct (@last_split (c0 :: s0)) as (a & c & Heq & Hc); [discriminate |].
  rewrite Hc in Hs. rewrite Heq, escape_app.
  change (escape quote [c]) with (escape_char quote c ++ []).
  rewrite app_nil_r.
  destruct (escape_char_shape c Hq)
    as [(-> & _ & Hcb & _) | (x & -> & _ & Hx)].
  - rewrite last_last. exact Hcb.
  - replace (escape quote a ++ [BACKSLASH; x])
      with ((escape quote a ++ [BACKSLASH]) ++ [x])
      by (now rewrite <- app_assoc).
    rewrite last_last. intros E. apply Hs. now apply Hx.
Qed.

(** The closing quote of an escaped text that does not end in a backslash
    is found whatever follows it. *)
Lemma closing_quote_of_escaped (s rest : ustring) :
  last s 0%Z <> BACKSLASH ->
  find_closing_quote (DQUOTE :: escape DQUOTE s ++ DQUOTE :: rest) DQUOTE 1
  = Some (Some (length (escape DQUOTE s) + 2)).
Proof.
  intros Hs.
  assert (Hq : is_quote DQUOTE) by (left; reflexivity).
  set (esc := escape DQUOTE s).
  set (line := DQUOTE :: esc ++ DQUOTE :: rest).
  assert (Hlen : length line = length esc + 2 + length rest)
    by (unfold line; cbn [length]; rewrite length_app; cbn [length]; lia).
  assert (HA : uw_char_at line (S (length esc)) = DQUOTE)
    by (unfold line, uw_char_at; cbn [nth]; apply nth_middle).
  assert (HB : escaped_at line (S (length esc)) = false).
  { unfold escaped_at. cbn [Nat.eqb negb andb Nat.sub].
    rewrite Nat.sub_0_r. apply Z.eqb_neq.
    destruct (@last_split (DQUOTE :: esc)) as (a & z & Heq & Hz);
      [discriminate |].
    assert (Hzb : z <> BACKSLASH).
    { rewrite <- Hz. destruct esc as [| e0 es] eqn:He; [discriminate |].
      change (last (DQUOTE :: e0 :: es) 0%Z) with (last (e0 :: es) 0%Z).
      rewrite <- He. unfold esc. apply escape_last; [exact Hq | exact Hs |].
      discriminate. }
    assert (Hla : length a = length esc).
    { apply (f_equal (@length _)) in Heq. rewrite length_app in Heq.
      cbn [length] in Heq. lia. }
    unfold line. change (DQUOTE :: esc ++ DQUOTE :: rest)
      with ((DQUOTE :: esc) ++ DQUOTE :: rest).
    rewrite Heq, <- app_assoc, <- Hla. cbn [app].
    now rewrite char_at_app. }
  assert (HC : forall j, 1 <= j < S (length esc) ->
                 uw_char_at line j = DQUOTE -> escaped_at line j = true).
  { intros j Hj Hc. destruct j as [| j]; [lia |].
    unfold line, uw_char_at in Hc. cbn [nth] in Hc.
    rewrite app_nth1 in Hc by lia.
    destruct (@escape_quotes DQUOTE s Hq j) as [Hpos Hprev];
      [fold esc; lia | exact Hc |].
    unfold escaped_at. cbn [Nat.eqb negb andb Nat.sub].
    rewrite Nat.sub_0_r. apply Z.eqb_eq.
    unfold line, uw_char_at. destruct j as [| j]; [lia |].
    cbn [nth]. rewrite app_nth1 by lia.
    cbn [Nat.sub] in Hprev. rewrite Nat.sub_0_r in Hprev. exact Hprev. }
  pose proof (@find_closing_quote_loop_spec line DQUOTE 1
                (S (length line)) 1) as Hspec.
  unfold find_closing_quote. fold line.
  destruct (find_closing_quote_loop (S (length line)) line DQUOTE 1)
    as [[e |] |].
  - destruct Hspec as (i & -> & Hi & Hci & Hei & Hbefore); try lia;
      [intros j Hj; lia |].
    destruct (Nat.lt_trichotomy i (S (length esc))) as [Hlt | [-> | Hgt]].
    + rewrite HC in Hei by (try lia; exact Hci). discriminate Hei.
    + do 2 f_equal. lia.
    + rewrite (Hbefore (S (length esc))) in HB by (try lia; exact HA).
      discriminate HB.
  - exfalso.
    assert (Hall : quotes_escaped line DQUOTE 1 (length line))
      by (apply Hspec; try lia; intros j Hj; lia).
    rewrite (Hall (S (length esc))) in HB by (try lia; exact HA).
    discriminate HB.
  - exfalso. apply Hspec; try lia. intros j Hj. lia.
Qed.

(** X11. Round trip of quoted strings.  For every text [s] that does not
    end in a backslash, the document of one line that holds [s] written
    with [escape] between double quotes, followed at most by spaces and a
    comment, parses to the string [s]. *)
Theorem quoted_string_documents (f : ustring -> nat) (fuel : nat)
    (s t : ustring) :
  last s 0%Z <> BACKSLASH -> trailer t ->
  amw_parse f (S (S fuel)) (quoted (escape DQUOTE s) ++ t)
  = Some (UwString s).
Proof.
  intros Hs Ht. unfold quoted.
  assert (Hq : is_quote DQUOTE) by (left; reflexivity).
  apply scalar_document; try assumption; try reflexivity;
    try discriminate.
  - constructor; [reflexivity |]. apply Forall_app. split.
    + now apply escape_one_line.
    + repeat constructor.
  - change (DQUOTE :: escape DQUOTE s ++ [DQUOTE])
      with ((DQUOTE :: escape DQUOTE s) ++ [DQUOTE]).
    rewrite last_last. reflexivity.
  - intros line sp cm Hline Hsp Hcm.
    assert (Hline' : line = DQUOTE :: escape DQUOTE s
                            ++ DQUOTE :: (sp ++ cm))
      by (rewrite Hline; cbn [app]; rewrite <- app_assoc; reflexivity).
    assert (Hfind : find_closing_quote line DQUOTE 1
                    = Some (Some (length (escape DQUOTE s) + 2)))
      by (rewrite Hline'; now apply closing_quote_of_escaped).
    assert (Hun : _amw_unescape_line line 1 DQUOTE 1
                  = Some (UwString s,
                          Some (1 + length (escape DQUOTE s)))).
    { rewrite Hline'.
      apply (@unescape_line_escape DQUOTE [DQUOTE] s
               (DQUOTE :: sp ++ cm) 1 Hq).
      right. eexists. reflexivity. }
    assert (Hlen : length (DQUOTE :: escape DQUOTE s ++ [DQUOTE])
                   = length (escape DQUOTE s) + 2)
      by (cbn [length]; rewrite length_app; cbn [length]; lia).
    assert (Hstart : get_start_position (first_line_parser line) = 0)
      by (rewrite Hline'; now apply start_position_first_line).
    rewrite Hlen. cbn [parse_value]. rewrite Hstart.
    assert (Hc0 : uw_char_at (current_line (first_line_parser line)) 0
                  = DQUOTE) by (rewrite Hline'; reflexivity).
    rewrite Hc0.
    change ((DQUOTE =? chr ":")%Z) with false.
    change ((DQUOTE =? chr "-")%Z) with false.
    change ((DQUOTE =? DQUOTE)%Z) with true. cbn [orb].
    unfold parse_quoted_string.
    rewrite Hc0. cbn [Nat.add].
    change (current_line (first_line_parser line)) with line.
    change (line_number (first_line_parser line)) with 1.
    rewrite Hfind, Hun. cbn [uw_error].
    now rewrite Nat.eqb_refl.
Qed.

Lemma quoted_string_documents_witness :
  (last (ustr "a\b" ++ [DQUOTE; 10%Z] ++ ustr "c") 0%Z <> BACKSLASH
   /\ trailer (ustr " # note"))
  /\ amw_parse zero_view 2
       (quoted (escape DQUOTE (ustr "a\b" ++ [DQUOTE; 10%Z] ++ ustr "c"))
        ++ ustr " # note")
     = Some (UwString (ustr "a\b" ++ [DQUOTE; 10%Z] ++ ustr "c")).
Proof.
  assert (H1 : last (ustr "a\b" ++ [DQUOTE; 10%Z] ++ ustr "c") 0%Z
               <> BACKSLASH) by discriminate.
  assert (H2 : trailer (ustr " # note")).
  { exists (ustr " "), (ustr "# note"), []. repeat split.
    - repeat constructor.
    - right. eexists. reflexivity.
    - repeat constructor.
    - now left. }
  split; [split; assumption |].
  exact (@quoted_string_documents zero_view 0 _ _ H1 H2).
Defined.

(** ** Key-value separators *)

Lemma uw_strchr_here (s : ustring) (c : char32_t) (start : nat) :
  start < length s -> uw_char_at s start = c ->
  uw_strchr s c start = Some start.
Proof.
  intros Hlt Hc. pose proof (uw_strchr_spec s c start) as H.
  destruct (uw_strchr s c start) as [i |].
  - destruct H as (Hi & _ & Hfirst).
    destruct (Nat.eq_dec i start) as [-> | Hne]; [reflexivity |].
    exfalso. apply (Hfirst start); [lia | exact Hc].
  - exfalso. apply (H start); [lia | exact Hc].
Qed.

Lemma is_kv_separator_value (p : AmwParser) (colon_pos : nat) :
  is_kv_separator p colon_pos
  = UwBool (isspace_or_eol_at (current_line p) (colon_pos + 1)).
Proof.
  unfold is_kv_separator, isspace_or_eol_at.
  destruct (end_of_line (current_line p) (colon_pos + 1)) eqn:He;
    [reflexivity |].
  destruct (uw_isspace (uw_char_at (current_line p) (colon_pos + 1)));
    [reflexivity |].
  destruct (uw_char_at (current_line p) (colon_pos + 1) =? chr ":")%Z eqn:Hc;
    [| reflexivity].
  cbn [negb]. unfold parse_convspec.
  rewrite uw_strchr_here.
  - now rewrite Nat.eqb_refl.
  - unfold end_of_line, uw_string_index_valid in He.
    apply negb_false_iff, Nat.ltb_lt in He. exact He.
  - now apply Z.eqb_eq.
Qed.

(** X12. A colon is a key-value separator exactly when the end of the line
    or a space follows it.  A colon that is followed by a second colon is
    never one: the conversion specifier that [is_kv_separator] looks for
    after the first colon is searched from the second colon, which makes
    it empty. *)
Theorem kv_separator_needs_space_or_end (p : AmwParser) (colon_pos : nat) :
  is_kv_separator p colon_pos
  = UwBool (isspace_or_eol_at (current_line p) (colon_pos + 1)).
Proof. apply is_kv_separator_value. Qed.

(** ** Conversion specifiers that are not implemented *)

Lemma split_lines_prefix (pre : ustring) :
  forall text cur,
    one_line pre ->
    split_lines_from (pre ++ text) cur
    = split_lines_from text (rev pre ++ cur).
Proof.
  induction pre as [| c pre IH]; intros text cur Hone; [reflexivity |].
  inversion Hone as [| c' pre' Hc Hpre]; subst.
  cbn [app split_lines_from]. rewrite Hc, IH by exact Hpre.
  cbn [rev]. now rewrite <- app_assoc.
Qed.

(** The first line the reader takes from a text: the characters up to the
    first line feed. *)
Lemma split_lines_first (text : ustring) :
  forall cur,
    cur <> [] \/ text <> [] ->
    exists x more text',
      split_lines_from text cur = (rev cur ++ x) :: more
      /\ text = x ++ text'.
Proof.
  induction text as [| c text IH]; intros cur Hne.
  - destruct cur as [| a cur]; [destruct Hne; congruence |].
    exists [], [], []. cbn [split_lines_from]. now rewrite app_nil_r.
  - cbn [split_lines_from]. destruct (c =? LF)%Z.
    + exists [c], (split_lines_from text []), text. split; reflexivity.
    + destruct (IH (c :: cur)) as (x & more & text' & Hs & Ht);
        [left; discriminate |].
      exists (c :: x), more, text'. rewrite Hs. cbn [rev].
      rewrite <- app_assoc. split; [reflexivity |]. now rewrite Ht.
Qed.

Lemma ltrim_suffix (s : ustring) : exists u, s = u ++ uw_string_ltrim s.
Proof.
  induction s as [| c s [u IH]]; [now exists [] |].
  cbn [uw_string_ltrim]. destruct (uw_isspace c).
  - exists (c :: u). cbn [app]. now rewrite <- IH.
  - now exists [].
Qed.

Lemma rtrim_prefix (s : ustring) : exists w, s = uw_string_rtrim s ++ w.
Proof.
  unfold uw_string_rtrim. destruct (ltrim_suffix (rev s)) as [u Hu].
  exists (rev u). rewrite <- rev_app_distr, <- Hu. now rewrite rev_involutive.
Qed.

(** The first line of a text that starts with [pre]: when the end of the
    text or a space follows [pre], the same holds in the stripped line. *)
Lemma first_line_after (pre : ustring) (c : char32_t) (rest : ustring) :
  one_line (pre ++ [c]) -> uw_isspace c = false ->
  starts_with_space rest ->
  exists y more,
    lines_of ((pre ++ [c]) ++ rest) = (pre ++ c :: y) :: more
    /\ starts_with_space (uw_string_rtrim y)
    /\ uw_string_rtrim (pre ++ c :: y) = pre ++ c :: uw_string_rtrim y.
Proof.
  intros Hone Hc Hrest. unfold lines_of.
  rewrite split_lines_prefix by exact Hone. rewrite app_nil_r.
  destruct (@split_lines_first rest (rev (pre ++ [c])))
    as (x & more & text' & Hs & Ht).
  { left. rewrite rev_unit. discriminate. }
  rewrite rev_involutive, <- app_assoc in Hs. cbn [app] in Hs.
  exists x, more. split; [exact Hs |]. split.
  - destruct (rtrim_prefix x) as [w Hw].
    destruct (uw_string_rtrim x) as [| a r]; [exact I |].
    cbn [starts_with_space]. rewrite Hw in Ht. rewrite Ht in Hrest.
    exact Hrest.
  - now apply rtrim_app.
Qed.

Lemma name_chars_trim (name : ustring) :
  Forall name_char name -> uw_string_trim name = name.
Proof.
  intros H. unfold uw_string_trim, uw_string_rtrim.
  destruct name as [| c name]; [reflexivity |].
  inversion H as [| c' n' (_ & Hc & _) Hn]; subst.
  rewrite ltrim_nonspace by exact Hc.
  destruct (@last_split (c :: name)) as (a & z & Heq & Hz); [discriminate |].
  assert (Hzs : uw_isspace z = false).
  { rewrite Heq in H. apply Forall_app in H. destruct H as [_ H].
    inversion H as [| z' l' (_ & Hzs & _) _]; subst. exact Hzs. }
  rewrite Heq, rev_unit, ltrim_nonspace by exact Hzs. cbn [rev].
  now rewrite rev_involutive.
Qed.

(** The closing colon of a specifier is the first colon after the opening
    one. *)
Lemma strchr_closing_colon (name y : ustring) :
  Forall name_char name ->
  uw_strchr (chr ":" :: name ++ chr ":" :: y) (chr ":") 1
  = Some (S (length name)).
Proof.
  intros Hn. set (line := chr ":" :: name ++ chr ":" :: y).
  assert (Hc : uw_char_at line (S (length name)) = chr ":")
    by (unfold line, uw_char_at; cbn [nth]; apply nth_middle).
  assert (Hlen : length line = S (length name + S (length y)))
    by (unfold line; cbn [length]; rewrite length_app; reflexivity).
  assert (Hname : forall j, 1 <= j < S (length name) ->
                    uw_char_at line j <> chr ":").
  { intros [| j] Hj; [lia |]. unfold line, uw_char_at. cbn [nth].
    rewrite app_nth1 by lia.
    assert (Hin : In (nth j name 0%Z) name) by (apply nth_In; lia).
    rewrite Forall_forall in Hn. apply (Hn _ Hin). }
  pose proof (uw_strchr_spec line (chr ":") 1) as H.
  destruct (uw_strchr line (chr ":") 1) as [i |].
  - destruct H as (Hi & Hci & Hfirst). f_equal.
    destruct (Nat.lt_trichotomy i (S (length name))) as [Hlt | [-> | Hgt]].
    + exfalso. apply (Hname i); [lia | exact Hci].
    + reflexivity.
    + exfalso. apply (Hfirst (S (length name))); [lia | exact Hc].
  - exfalso. apply (H (S (length name))); [lia | exact Hc].
Qed.

(** The dispatcher on a line that starts with a registered specifier: the
    block of the value starts at the closing colon. *)
Lemma parse_value_specifier (f : ustring -> nat) (fuel : nat) (m : Markup)
    (name y : ustring) (fn : AmwBlockParserFunc) :
  Forall name_char name -> name <> [] ->
  lookup_parser builtin_parsers name = Some fn ->
  starts_with_space y ->
  parse_value f (S fuel)
    (mkParser m (chr ":" :: name ++ chr ":" :: y) 0 1 0 1
       AMW_MAX_RESURSION_DEPTH false false builtin_parsers) None
  = match
      parse_nested_block f fuel
        (mkParser m (chr ":" :: name ++ chr ":" :: y) 0 1 0 1
           AMW_MAX_RESURSION_DEPTH false false builtin_parsers)
        (S (length name)) fn
    with
    | Some (r, q) => Some (r, None, q)
    | None => None
    end.
Proof.
  intros Hn Hne Hl Hy.
  set (line := chr ":" :: name ++ chr ":" :: y).
  set (p := mkParser m line 0 1 0 1 AMW_MAX_RESURSION_DEPTH false false
              builtin_parsers).
  assert (Hlen : length line = S (length name + S (length y)))
    by (unfold line; cbn [length]; rewrite length_app; reflexivity).
  assert (Hstart : get_start_position p = 0) by reflexivity.
  assert (Hconv : parse_convspec p 0 0
                  = (UwString name, S (length name))).
  { unfold parse_convspec.
    change (current_line p) with line. cbn [Nat.add].
    unfold line at 1. rewrite strchr_closing_colon by exact Hn.
    assert (E1 : (S (length name) =? 1) = false)
      by (destruct name; [congruence | reflexivity]).
    rewrite E1.
    assert (E2 : isspace_or_eol_at line (S (length name) + 1) = true).
    { unfold isspace_or_eol_at, end_of_line, uw_string_index_valid.
      rewrite Hlen. destruct y as [| c y'].
      - cbn [length]. replace (S (length name) + 1 <? S (length name + 1))
          with false by (symmetry; apply Nat.ltb_ge; lia).
        reflexivity.
      - replace (S (length name) + 1 <? S (length name + S (length (c :: y'))))
          with true by (symmetry; apply Nat.ltb_lt; simpl; lia).
        cbn [negb]. unfold line.
        replace (chr ":" :: name ++ chr ":" :: c :: y')
          with ((chr ":" :: name ++ [chr ":"]) ++ c :: y')
          by (cbn [app]; now rewrite <- app_assoc).
        replace (S (length name) + 1)
          with (length (chr ":" :: name ++ [chr ":"]))
          by (cbn [length]; rewrite length_app; simpl; lia).
        rewrite char_at_app. exact Hy. }
    rewrite E2. cbn [negb].
    assert (E3 : uw_substr line 1 (S (length name)) = name).
    { unfold uw_substr, line. cbn [skipn Nat.sub].
      rewrite Nat.sub_0_r, firstn_app, Nat.sub_diag, firstn_all.
      cbn [firstn]. apply app_nil_r. }
    rewrite E3, name_chars_trim by exact Hn.
    unfold have_custom_parser. change (custom_parsers p) with builtin_parsers.
    now rewrite Hl. }
  assert (Heol : end_of_line line (S (length name)) = false).
  { unfold end_of_line, uw_string_index_valid. rewrite Hlen.
    apply negb_false_iff, Nat.ltb_lt. lia. }
  assert (Hget : get_custom_parser p name = fn)
    by (unfold get_custom_parser;
        change (custom_parsers p) with builtin_parsers; now rewrite Hl).
  cbn [parse_value]. rewrite Hstart.
  change (uw_char_at (current_line p) 0) with (chr ":").
  change ((chr ":" =? chr ":")%Z) with true. cbv iota.
  rewrite Hconv. cbn [uw_error].
  change (current_line p) with line. rewrite Heol, Hget. reflexivity.
Qed.

(** The dispatcher on a line that starts with the specifier of a parser
    that is not implemented. *)
Lemma parse_value_stub (f : ustring -> nat) (fuel : nat) (m : Markup)
    (name y : ustring) (fn : AmwBlockParserFunc) :
  Forall name_char name -> name <> [] ->
  lookup_parser builtin_parsers name = Some fn -> is_stub fn ->
  starts_with_space y ->
  exists p',
    parse_value f (S (S (S fuel)))
      (mkParser m (chr ":" :: name ++ chr ":" :: y) 0 1 0 1
         AMW_MAX_RESURSION_DEPTH false false builtin_parsers) None
    = Some (UwStatus UW_ERROR_NOT_IMPLEMENTED, None, p').
Proof.
  intros Hn Hne Hl Hfn Hy.
  rewrite (@parse_value_specifier f _ m name y fn Hn Hne Hl Hy).
  cbn [parse_nested_block max_blocklevel blocklevel].
  change (AMW_MAX_RESURSION_DEPTH <=? 1) with false. cbv iota.
  cbn [call_parser_func].
  destruct Hfn as [-> | [-> | ->]]; eexists; reflexivity.
Qed.

(** X15. A value that starts with the conversion specifier isodate,
    timestamp or json is not parsed: whatever follows the specifier on its
    line and on the lines after it, [amw_parse] returns the status
    UW_ERROR_NOT_IMPLEMENTED. *)
Theorem unimplemented_specifier_documents (f : ustring -> nat) (fuel : nat)
    (name : string) (rest : ustring) :
  In name unimplemented_specifiers ->
  starts_with_space rest ->
  amw_parse f (S (S (S fuel)))
    (chr ":" :: ustr name ++ chr ":" :: rest)
  = Some (UwStatus UW_ERROR_NOT_IMPLEMENTED).
Proof.
  intros Hname Hrest.
  assert (Hfacts : Forall name_char (ustr name) /\ ustr name <> []
                   /\ exists fn, lookup_parser builtin_parsers (ustr name)
                                 = Some fn /\ is_stub fn).
  { destruct Hname as [<- | [<- | [<- | []]]];
      (split; [repeat constructor; discriminate |]);
      (split; [discriminate |]); eexists; (split; [reflexivity |]);
      unfold is_stub; auto. }
  destruct Hfacts as (Hn & Hne & fn & Hl & Hfn).
  assert (Hone : one_line ((chr ":" :: ustr name) ++ [chr ":"])).
  { apply Forall_app. split; [constructor; [reflexivity |] |].
    - eapply Forall_impl; [| exact Hn]. intros c Hc. apply Hc.
    - repeat constructor. }
  destruct (@first_line_after (chr ":" :: ustr name) (chr ":") rest
              Hone eq_refl Hrest) as (y & more & Hlines & Hy & Hstrip).
  assert (Htext : chr ":" :: ustr name ++ chr ":" :: rest
                  = ((chr ":" :: ustr name) ++ [chr ":"]) ++ rest)
    by (cbn [app]; now rewrite <- app_assoc).
  rewrite Htext.
  set (raw := (chr ":" :: ustr name) ++ chr ":" :: y) in *.
  assert (Hind : indent_of raw = 0)
    by (unfold indent_of; rewrite Hstrip; reflexivity).
  assert (Hcontent : no_content raw = false).
  { unfold no_content, comment_text. rewrite Hind, Hstrip. reflexivity. }
  destruct (@parse_value_stub f fuel (mkMarkup more 1) (ustr name)
              (uw_string_rtrim y) fn Hn Hne Hl Hfn Hy) as [p' Hval].
  eapply amw_parse_at_end; [| exact Hval | left; reflexivity].
  rewrite (@first_read_content _ raw more Hlines Hcontent).
  rewrite Hstrip, Hind. reflexivity.
Qed.

Lemma unimplemented_specifier_documents_witness :
  (In "isodate"%string unimplemented_specifiers
   /\ starts_with_space (ustr " 2024-02-29" ++ LF :: ustr "next: 1"))
  /\ amw_parse zero_view 3
       (chr ":" :: ustr "isodate"
        ++ chr ":" :: ustr " 2024-02-29" ++ LF :: ustr "next: 1")
     = Some (UwStatus UW_ERROR_NOT_IMPLEMENTED).
Proof.
  assert (H1 : In "isodate"%string unimplemented_specifiers)
    by (left; reflexivity).
  assert (H2 : starts_with_space
                 (ustr " 2024-02-29" ++ LF :: ustr "next: 1"))
    by reflexivity.
  split; [split; assumption |].
  exact (@unimplemented_specifier_documents zero_view 0 "isodate" _ H1 H2).
Defined.

(** ** Lists of integers *)

Lemma digits_of_leading (radix : Z) (fuel : nat) :
  forall n, (2 <= radix)%Z -> (0 < n < 2 ^ Z.of_nat fuel)%Z ->
    exists d rest, digits_of fuel radix n = d :: rest /\ d <> 0%Z.
Proof.
  induction fuel as [| fuel IH]; intros n Hr Hn.
  - simpl in Hn. lia.
  - cbn [digits_of]. destruct (n <? radix)%Z eqn:Hlt.
    + exists n, []. split; [reflexivity | lia].
    + apply Z.ltb_ge in Hlt.
      destruct (IH (n / radix)%Z Hr) as (d & rest & Heq & Hd).
      * split.
        -- apply Z.div_str_pos. lia.
        -- apply Z.div_lt_upper_bound; [lia |].
           rewrite Nat2Z.inj_succ, Z.pow_succ_r in Hn by lia.
           assert (0 < 2 ^ Z.of_nat fuel)%Z by (apply Z.pow_pos_nonneg; lia).
           nia.
      * exists d, (rest ++ [(n mod radix)%Z]). now rewrite Heq.
Qed.

Lemma literal_of_digits (ds : list Z) :
  literal_of (map Digit ds) = map digit_char ds
  /\ item_digits (map Digit ds) = ds
  /\ (ds <> [] -> separated false (map Digit ds) = true).
Proof.
  split; [| split].
  - unfold literal_of. rewrite map_map. reflexivity.
  - induction ds as [| d ds IH]; [reflexivity |].
    cbn [map item_digits]. now rewrite IH.
  - intros Hne. destruct ds as [| d ds]; [congruence |].
    cbn [map separated]. clear Hne.
    induction ds as [| d' ds IH]; [reflexivity | exact IH].
Qed.

(** [_amw_parse_number] on a decimal numeral that ends the line. *)
Lemma parse_number_decimal_at (p : AmwParser) (pre : ustring) (n : Z) :
  current_line p = pre ++ decimal n ->
  (0 <= n <= UW_SIGNED_MAX)%Z ->
  _amw_parse_number p (length pre) 1
  = Some (UwSigned n, length (current_line p)).
Proof.
  intros Hline Hn. destruct (Z.eq_dec n 0) as [-> | Hnz].
  - change (decimal 0) with [chr "0"] in Hline. unfold _amw_parse_number.
    rewrite Hline, char_at_app, Z.eqb_refl.
    unfold end_of_line, uw_string_index_valid. rewrite length_app.
    cbn [length].
    replace (S (length pre) <? length pre + 1) with false
      by (symmetry; apply Nat.ltb_ge; lia).
    cbn [negb]. rewrite number_done_integer. do 2 f_equal. lia.
  - unfold decimal, numeral in Hline.
    set (ds := digits_of (S (Z.to_nat (Z.log2 n))) 10 n) in *.
    assert (Hall : Forall (is_digit_of 10) ds)
      by (apply digits_of_range; lia).
    assert (Hval : value_of 10 ds = n).
    { apply digits_of_value; [lia |]. split; [lia |].
      apply numeral_fuel. lia. }
    destruct (@digits_of_leading 10 (S (Z.to_nat (Z.log2 n))) n)
      as (d & rest & Hds & Hd); [lia | |].
    { split; [lia |]. apply numeral_fuel. lia. }
    fold ds in Hds.
    destruct (literal_of_digits ds) as (Hlit & Hdig & Hsep).
    pose proof (@parse_number_items p pre [] [] 10 1 (map Digit ds)) as H.
    rewrite Hlit, Hdig, Hval, app_nil_r in H. cbn [app length] in H.
    rewrite H; try assumption.
    + unfold integer_value.
      replace (UW_SIGNED_MAX <? n)%Z with false
        by (symmetry; apply Z.ltb_ge; lia).
      change (1 <? 0)%Z with false. cbv iota.
      rewrite Hline, length_app, !length_map. do 2 f_equal. lia.
    + left. split; [reflexivity |]. split; [reflexivity |].
      exists d, (map Digit rest). rewrite Hds. now split.
    + exact I.
    + apply Hsep. rewrite Hds. discriminate.
    + unfold UW_SIGNED_MAX in Hn. lia.
Qed.

Lemma decimal_plain (n : Z) :
  (0 <= n)%Z ->
  plain (decimal n) /\ decimal n <> []
  /\ is_digit (hd 0%Z (decimal n)) = true.
Proof.
  intros Hn. unfold decimal, numeral.
  set (ds := digits_of (S (Z.to_nat (Z.log2 n))) 10 n).
  assert (Hall : Forall (is_digit_of 10) ds)
    by (apply digits_of_range; lia).
  assert (Hne : ds <> []) by apply digits_of_nonempty.
  split; [apply (@plain_digits 10); [lia | exact Hall] |].
  destruct ds as [| d ds']; [congruence |].
  split; [discriminate |]. cbn [map hd].
  apply decimal_digit_char. now inversion Hall.
Qed.

Lemma solid_facts (L : ustring) :
  solid L ->
  L <> [] /\ uw_string_rtrim L = L /\ uw_string_rtrim (L ++ [LF]) = L
  /\ indent_of L = 0
  /\ (uw_strlen L =? 0) = false
  /\ (uw_char_at L 0 =? AMW_COMMENT)%Z = false.
Proof.
  intros (Hone & Hh & Hl & Hc).
  destruct L as [| h t]; [discriminate Hh |]. cbn [hd] in Hh, Hc.
  destruct (@last_split (h :: t)) as (a & z & Heq & Hz); [discriminate |].
  assert (Hzs : uw_isspace z = false).
  { rewrite <- Hz. rewrite Heq in Hl |- *. rewrite last_last in Hl |- *.
    exact Hl. }
  assert (Hr : uw_string_rtrim (h :: t) = h :: t).
  { rewrite Heq. replace (a ++ [z]) with (a ++ z :: []) by reflexivity.
    rewrite rtrim_app by exact Hzs. reflexivity. }
  split; [discriminate |]. split; [exact Hr |]. split.
  - rewrite rtrim_LF. exact Hr.
  - split; [| split; [reflexivity | apply Z.eqb_neq; exact Hc]].
    unfold indent_of, uw_string_skip_spaces. rewrite Hr.
    cbn [skipn leading_spaces]. now rewrite Hh.
Qed.

(** The reader on a pending line that is solid once stripped: the line is
    delivered to the root block and ends any other block. *)
Lemma read_solid (raw L : ustring) (rest : list ustring) (k : nat)
    (cl : ustring) (ci ln bi bl mbl : nat)
    (cp : list (ustring * AmwBlockParserFunc)) :
  uw_string_rtrim raw = L -> solid L ->
  _amw_read_block_line
    (mkParser (mkMarkup (raw :: rest) k) cl ci ln bi bl mbl false false cp)
  = if bi =? 0
    then (UwOK,
          mkParser (mkMarkup rest (S k)) L 0 (S k) bi bl mbl false false cp)
    else (UwStatus AMW_END_OF_BLOCK,
          mkParser (mkMarkup (L :: rest) k) [] 0 (S k) bi bl mbl false false
            cp).
Proof.
  intros Hraw HL.
  destruct (solid_facts HL) as (_ & Hr & _ & Hind & Hlen & Hcm).
  assert (Hind' : indent_of raw = 0)
    by (unfold indent_of in *; rewrite Hraw; rewrite Hr in Hind; exact Hind).
  unfold _amw_read_block_line. cbn [eof markup pending].
  rewrite read_block_line_loop_cons. cbv zeta. rewrite line_read_mk.
  cbn [skip_comments andb lineno]. unfold after_skip.
  cbn [current_line block_indent current_indent].
  rewrite Hraw, Hind', Hlen.
  unfold is_comment_line. cbn [current_line current_indent]. rewrite Hcm.
  destruct bi as [| bi]; cbn [Nat.leb Nat.eqb]; [reflexivity |].
  unfold set_current_line, set_markup, uw_unread_line.
  cbn [markup current_line current_indent line_number block_indent
       blocklevel max_blocklevel skip_comments eof custom_parsers pending
       lineno Nat.sub].
  now rewrite Nat.sub_0_r.
Qed.

Lemma keyword_needs_letter_at (s : ustring) (pos n : nat) (kw : string) :
  ((uw_char_at s pos =? chr "n") || (uw_char_at s pos =? chr "t")
   || (uw_char_at s pos =? chr "f"))%Z = false ->
  In kw reserved_keywords ->
  uw_substring_eq_cstr s pos (pos + S n) kw = false.
Proof.
  intros Hn Hkw. unfold uw_substring_eq_cstr. rewrite uw_substr_add.
  unfold uw_char_at in Hn. rewrite <- (Nat.add_0_r pos) in Hn.
  rewrite <- nth_skipn in Hn.
  destruct (skipn pos s) as [| c t].
  - destruct Hkw as [<- | [<- | [<- | []]]]; reflexivity.
  - cbn [nth] in Hn. cbn [firstn].
    apply orb_false_elim in Hn. destruct Hn as [Hn Hf].
    apply orb_false_elim in Hn. destruct Hn as [Hn Ht].
    destruct Hkw as [<- | [<- | [<- | []]]];
      cbn [ustr list_ascii_of_string map ustring_eqb];
      [rewrite Hn | rewrite Ht | rewrite Hf]; reflexivity.
Qed.

Lemma digit_is_no_letter (c : char32_t) :
  is_digit c = true ->
  ((c =? chr "n") || (c =? chr "t") || (c =? chr "f"))%Z = false.
Proof. unfold is_digit, chr. simpl. lia. Qed.

(** The dispatcher on a number without sign at any start position. *)
Lemma parse_value_number_at (f : ustring -> nat) (fuel : nat)
    (p : AmwParser) (start : nat) (nvp : option nat) (v : UwValue)
    (e : nat) :
  get_start_position p = start ->
  is_digit (uw_char_at (current_line p) start) = true ->
  _amw_parse_number p start 1 = Some (v, e) ->
  parse_value f (S fuel) p nvp = check_value_end f fuel p v e nvp.
Proof.
  intros Hsp Hd Hnum. cbn [parse_value]. rewrite Hsp.
  destruct (digit_tests _ Hd) as (H1 & H2 & H3 & H4).
  rewrite H1, H2, H3, H4. cbn [orb andb].
  rewrite !keyword_needs_letter_at
    by (try (apply digit_is_no_letter; exact Hd); simpl; auto).
  now rewrite Hd, Hnum.
Qed.

(** [check_value_end] at the end of a line: the next line is read. *)
Lemma check_value_end_eol (f : ustring -> nat) (fuel : nat)
    (p q : AmwParser) (v status : UwValue) :
  uw_error v = false ->
  _amw_read_block_line p = (status, q) ->
  negb (_amw_end_of_block status) && uw_error status = false ->
  check_value_end f (S fuel) p v (length (current_line p)) None
  = Some (v, None, q).
Proof.
  intros Hv Hread Hst. cbn [check_value_end]. rewrite Hv.
  rewrite skip_spaces_at_end. unfold end_of_line, uw_string_index_valid.
  rewrite Nat.ltb_irrefl. cbn [negb]. now rewrite Hread, Hst.
Qed.

(** The pending lines of a collection: the stripped line is solid. *)
Lemma after_block_read (pend : list ustring) (k : nat) (L : ustring)
    (bi : nat) :
  Forall (fun raw => solid (uw_string_rtrim raw)) pend ->
  0 < bi ->
  exists status,
    _amw_read_block_line
      (mkParser (mkMarkup pend k) L 0 k bi 2 AMW_MAX_RESURSION_DEPTH false
         false builtin_parsers)
    = (status,
       set_blocklevel 2 (set_block_indent bi (after_block pend k)))
    /\ _amw_end_of_block status = true.
Proof.
  intros Hpend Hbi. exists (UwStatus AMW_END_OF_BLOCK).
  split; [| reflexivity]. destruct pend as [| raw rest].
  - reflexivity.
  - inversion Hpend as [| raw' rest' Hraw _]; subst.
    rewrite (@read_solid raw (uw_string_rtrim raw)) by (try reflexivity;
      exact Hraw).
    destruct bi as [| bi]; [lia | reflexivity].
Qed.

(** A nested block that holds a decimal numeral at the end of its line,
    after spaces at most: the value is the number, and the block ends with
    the line. *)
Lemma nested_integer (f : ustring -> nat) (fuel : nat)
    (pend : list ustring) (k : nat) (pre sp : ustring) (n : Z) :
  Forall (fun raw => solid (uw_string_rtrim raw)) pend ->
  pre <> [] ->
  Forall (fun c => uw_isspace c = true) sp ->
  (0 <= n <= UW_SIGNED_MAX)%Z ->
  parse_nested_block f (S (S (S (S fuel))))
    (at_line pend k (pre ++ sp ++ decimal n)) (length pre)
    Fn_value_parser_func
  = Some (UwSigned n, after_block pend k).
Proof.
  intros Hpend Hpre Hsp Hn. set (L := pre ++ sp ++ decimal n).
  destruct (@decimal_plain n) as (Hplain & Hne & Hdig); [lia |].
  assert (Hcol : 0 < length pre) by (destruct pre; [congruence | simpl; lia]).
  set (p' := mkParser (mkMarkup pend k) L 0 k (length pre) 2
               AMW_MAX_RESURSION_DEPTH false false builtin_parsers).
  assert (HL : L = (pre ++ sp) ++ decimal n)
    by (unfold L; now rewrite app_assoc).
  assert (Hc : uw_char_at L (length (pre ++ sp)) = hd 0%Z (decimal n)).
  { rewrite HL. destruct (decimal n) as [| c r]; [congruence |].
    apply char_at_app. }
  assert (Hstart : get_start_position p' = length (pre ++ sp)).
  { unfold get_start_position, p'.
    cbn [block_indent current_indent current_line].
    replace (length pre <? 0) with false by (symmetry; apply Nat.ltb_ge; lia).
    unfold L. rewrite skip_spaces_over; [now rewrite length_app | exact Hsp |].
    destruct (decimal n) as [| c r]; [congruence |].
    inversion Hplain; subst. now apply alnum_not_space. }
  assert (Hnum : _amw_parse_number p' (length (pre ++ sp)) 1
                 = Some (UwSigned n, length (current_line p')))
    by (apply parse_number_decimal_at; [exact HL | exact Hn]).
  destruct (@after_block_read pend k L (length pre) Hpend Hcol)
    as (status & Hread & Hst).
  fold p' in Hread.
  unfold at_line. cbn [parse_nested_block].
  change (max_blocklevel (mkParser _ _ _ _ _ _ _ _ _ _)
          <=? blocklevel (mkParser _ _ _ _ _ _ _ _ _ _)) with false.
  cbv iota.
  change (set_block_indent (length pre)
            (set_blocklevel
               (blocklevel (mkParser (mkMarkup pend k) L 0 k 0 1
                              AMW_MAX_RESURSION_DEPTH false false
                              builtin_parsers) + 1)
               (mkParser (mkMarkup pend k) L 0 k 0 1
                  AMW_MAX_RESURSION_DEPTH false false builtin_parsers)))
    with p'.
  cbn [call_parser_func].
  rewrite (@parse_value_number_at f (S fuel) p' (length (pre ++ sp)) None
             (UwSigned n) (length (current_line p')) Hstart);
    [| change (current_line p') with L; rewrite Hc; exact Hdig | exact Hnum].
  rewrite (@check_value_end_eol f fuel p' _ (UwSigned n) status eq_refl
             Hread) by (rewrite Hst; reflexivity).
  destruct pend; reflexivity.
Qed.

Lemma plain_solid (pre t : ustring) :
  one_line pre -> uw_isspace (hd 32%Z (pre ++ t)) = false ->
  hd 0%Z (pre ++ t) <> AMW_COMMENT ->
  plain t -> t <> [] ->
  solid (pre ++ t).
Proof.
  intros Hpre Hh Hc Ht Hne. unfold solid. repeat split; try assumption.
  - unfold one_line in *. apply Forall_app. split; [exact Hpre |].
    eapply Forall_impl; [| exact Ht]. intros c Hc'. now apply alnum_not_LF.
  - destruct (last_split Hne) as (a & z & Heq & Hz).
    rewrite Heq, app_assoc, last_last.
    apply alnum_not_space. rewrite Heq in Ht.
    apply Forall_app in Ht. destruct Ht as [_ Ht]. now inversion Ht.
Qed.

Lemma integer_item_solid (n : Z) : (0 <= n)%Z -> solid (integer_item n).
Proof.
  intros Hn. destruct (@decimal_plain n Hn) as (Hp & Hne & _).
  apply plain_solid; try assumption; try reflexivity; try discriminate.
  repeat constructor.
Qed.

Lemma pending_solid (A : Type) (line : A -> ustring) (xs : list A) :
  Forall (fun x => solid (line x)) xs ->
  Forall (fun raw => solid (uw_string_rtrim raw))
    (map (fun x => line x ++ [LF]) xs).
Proof.
  intros H. apply Forall_map. eapply Forall_impl; [| exact H].
  intros x Hx. cbv beta.
  destruct (solid_facts Hx) as (_ & _ & Hr & _). now rewrite Hr.
Qed.

Lemma integer_item_value_start (pend : list ustring) (k : nat) (n : Z) :
  (0 <= n)%Z ->
  isspace_or_eol_at (current_line (at_line pend k (integer_item n))) (0 + 1)
  = true
  /\ comment_or_end_of_line (at_line pend k (integer_item n)) (0 + 1)
     = false.
Proof.
  intros Hn. destruct (@decimal_plain n Hn) as (Hp & Hne & Hd).
  split; [reflexivity |].
  unfold comment_or_end_of_line, at_line. cbn [current_line].
  unfold integer_item, uw_string_skip_spaces.
  cbn [ustr list_ascii_of_string map app Nat.add skipn leading_spaces].
  change (uw_isspace (chr " ")) with true. cbv iota.
  rewrite (plain_leading_spaces Hp).
  destruct (decimal n) as [| c r]; [congruence |].
  cbn [hd] in Hd. inversion Hp as [| c' r' Hc _]; subst.
  unfold end_of_line, uw_string_index_valid. cbn [length Nat.add].
  cbn [Nat.ltb Nat.leb negb orb].
  change (uw_char_at (chr "-" :: chr " " :: c :: r) 2) with c.
  now apply alnum_not_comment.
Qed.

(** One turn of the loop of [parse_list] on an item that holds an
    integer. *)
Lemma parse_list_turn (f : ustring -> nat) (F : nat) (pend : list ustring)
    (k : nat) (n : Z) (acc : list UwValue) :
  Forall (fun raw => solid (uw_string_rtrim raw)) pend ->
  (0 <= n <= UW_SIGNED_MAX)%Z ->
  parse_list_loop f (S (S (S (S (S F))))) (at_line pend k (integer_item n))
    0 acc
  = let '(status, p2) := _amw_read_block_line (after_block pend k) in
    if _amw_end_of_block status then Some (UwList (acc ++ [UwSigned n]), p2)
    else if uw_error status then Some (status, p2)
    else if negb (current_indent p2 =? 0)
    then Some (parser_error p2 (current_indent p2)
                 "Bad indentation of list item", p2)
    else parse_list_loop f (S (S (S (S F)))) p2 0 (acc ++ [UwSigned n]).
Proof.
  intros Hpend Hn.
  destruct (@integer_item_value_start pend k n) as [Hsp Hcm]; [lia |].
  pose proof (@nested_integer f F pend k (ustr "- ") [] n Hpend
                ltac:(discriminate) (Forall_nil _) Hn) as Hnest.
  change (ustr "- " ++ [] ++ decimal n) with (ustr "- " ++ decimal n)
    in Hnest.
  remember (S (S (S (S F)))) as G eqn:HG.
  cbn [parse_list_loop]. rewrite Hsp, Hcm. cbn [negb].
  change (0 + 1 + 1) with (length (ustr "- ")).
  unfold integer_item in *. rewrite Hnest. cbn [uw_error]. reflexivity.
Qed.

(** The loop of [parse_list] over the items of a list of integers. *)
Lemma parse_list_loop_integers (f : ustring -> nat) (extra : nat) :
  forall (ns : list Z) (n : Z) (k : nat) (acc : list UwValue),
    (0 <= n <= UW_SIGNED_MAX)%Z ->
    Forall (fun n => (0 <= n <= UW_SIGNED_MAX)%Z) ns ->
    exists q,
      parse_list_loop f (5 + (length ns + extra))
        (at_line (map (fun n => integer_item n ++ [LF]) ns) k
           (integer_item n)) 0 acc
      = Some (UwList (acc ++ map UwSigned (n :: ns)), q)
      /\ eof q = true /\ 0 < blocklevel q.
Proof.
  induction ns as [| n2 ns IH]; intros n k acc Hn Hns.
  - change (5 + (length (@nil Z) + extra)) with (S (S (S (S (S extra))))).
    rewrite parse_list_turn by (try exact Hn; apply Forall_nil).
    cbn [map after_block]. eexists. split; [reflexivity |].
    split; [reflexivity | cbn; lia].
  - inversion Hns as [| n2' ns' Hn2 Hns']; subst.
    assert (Hsolid : Forall (fun x => solid (integer_item x)) (n2 :: ns)).
    { apply Forall_forall. intros x Hx. apply integer_item_solid.
      rewrite Forall_forall in Hns. specialize (Hns _ Hx). lia. }
    change (5 + (length (n2 :: ns) + extra))
      with (S (S (S (S (S (S (length ns + extra))))))).
    rewrite parse_list_turn by (try exact Hn; now apply pending_solid).
    cbn [map after_block].
    destruct (@solid_facts (integer_item n2)) as (_ & Hr & Hr' & _);
      [apply integer_item_solid; lia |].
    rewrite Hr'.
    rewrite (@read_solid (integer_item n2) (integer_item n2))
      by (try exact Hr; apply integer_item_solid; lia).
    cbn [Nat.eqb _amw_end_of_block UwOK uw_error current_indent negb].
    fold (at_line (map (fun n => integer_item n ++ [LF]) ns) (S k)
            (integer_item n2)).
    destruct (IH n2 (S k) (acc ++ [UwSigned n]) Hn2 Hns')
      as (q & Hrun & Hq).
    exists q. split; [| exact Hq].
    change (S (S (S (S (S (length ns + extra))))))
      with (5 + (length ns + extra)).
    rewrite Hrun, <- app_assoc. reflexivity.
Qed.

Lemma lines_of_lines_text (lines : list ustring) :
  Forall one_line lines ->
  lines_of (lines_text lines) = map (fun l => l ++ [LF]) lines.
Proof.
  intros H. unfold lines_of, lines_text.
  rewrite <- (app_nil_r (comment_lines lines)).
  rewrite split_comment_lines by exact H. apply app_nil_r.
Qed.

(** The first read of a document whose first line is solid. *)
Lemma first_read_solid (L : ustring) (rest : list ustring) :
  solid L -> Forall one_line rest ->
  _amw_read_block_line (amw_create_parser (lines_text (L :: rest)))
  = (UwOK, at_line (map (fun l => l ++ [LF]) rest) 1 L).
Proof.
  intros HL Hrest.
  destruct (solid_facts HL) as (_ & Hr & Hr' & Hind & Hlen & Hcm).
  assert (Hone : one_line L) by apply HL.
  rewrite (@first_read_content _ (L ++ [LF])
             (map (fun l => l ++ [LF]) rest)).
  - unfold indent_of in *. rewrite Hr'. rewrite Hr in Hind.
    rewrite Hind. reflexivity.
  - rewrite lines_of_lines_text by (constructor; assumption). reflexivity.
  - unfold no_content, comment_text, indent_of in *. rewrite Hr'.
    rewrite Hr in Hind. rewrite Hind, Hlen, Hcm. reflexivity.
Qed.

(** X16. Lists of integers.  A document whose lines are list items, each
    a hyphen, a space and a decimal numeral up to 2^63 - 1, parses to the
    list of these integers in the order of the lines: every item is read
    as a nested block, and the line that ends the block of one item is
    read again as the next item. *)
Theorem list_of_integers (f : ustring -> nat) (fuel : nat) (ns : list Z) :
  ns <> [] ->
  Forall (fun n => (0 <= n <= UW_SIGNED_MAX)%Z) ns ->
  amw_parse f (length ns + 6 + fuel) (lines_text (map integer_item ns))
  = Some (UwList (map UwSigned ns)).
Proof.
  intros Hne Hall. destruct ns as [| n ns]; [congruence |]. clear Hne.
  inversion Hall as [| n' ns' Hn Hns]; subst.
  assert (Hsolid : Forall (fun x => solid (integer_item x)) (n :: ns)).
  { apply Forall_forall. intros x Hx. apply integer_item_solid.
    rewrite Forall_forall in Hall. specialize (Hall _ Hx). lia. }
  assert (Hone : Forall one_line (map integer_item ns)).
  { apply Forall_map. inversion Hsolid as [| x xs _ Hxs]; subst.
    eapply Forall_impl; [| exact Hxs]. intros x Hx. apply Hx. }
  destruct (@parse_list_loop_integers f fuel ns n 1 [] Hn Hns)
    as (q & Hrun & Heof & Hlevel).
  replace (length (n :: ns) + 6 + fuel)
    with (S (S (5 + (length ns + fuel)))) by (simpl; lia).
  eapply amw_parse_at_end with (p' := q);
    [| | right; split; assumption].
  - cbn [map]. apply first_read_solid; [| exact Hone].
    now inversion Hsolid.
  - rewrite map_map.
    remember (5 + (length ns + fuel)) as F eqn:HF.
    cbn [parse_value parse_list].
    change (get_start_position
              (at_line (map (fun x => integer_item x ++ [LF]) ns) 1
                 (integer_item n))) with 0.
    change (uw_char_at (current_line
              (at_line (map (fun x => integer_item x ++ [LF]) ns) 1
                 (integer_item n))) 0) with (chr "-").
    change (uw_char_at (current_line
              (at_line (map (fun x => integer_item x ++ [LF]) ns) 1
                 (integer_item n))) (0 + 1)) with (chr " ").
    change ((chr "-" =? chr ":")%Z) with false.
    change ((chr "-" =? chr "-")%Z) with true.
    change (is_digit (chr " ")) with false. cbv iota.
    change (isspace_or_eol_at
              (current_line
                 (at_line (map (fun x => integer_item x ++ [LF]) ns) 1
                    (integer_item n))) (0 + 1)) with true.
    cbv iota. rewrite Hrun. reflexivity.
Qed.

Lemma list_of_integers_witness :
  ([7; 0; 4096]%Z <> []
   /\ Forall (fun n => (0 <= n <= UW_SIGNED_MAX)%Z) [7; 0; 4096]%Z)
  /\ amw_parse zero_view (length [7; 0; 4096]%Z + 6 + 0)
       (lines_text (map integer_item [7; 0; 4096]%Z))
     = Some (UwList (map UwSigned [7; 0; 4096]%Z)).
Proof.
  assert (H1 : [7; 0; 4096]%Z <> []) by discriminate.
  assert (H2 : Forall (fun n => (0 <= n <= UW_SIGNED_MAX)%Z) [7; 0; 4096]%Z)
    by (repeat constructor; unfold UW_SIGNED_MAX; lia).
  split; [split; assumption |].
  exact (@list_of_integers zero_view 0 _ H1 H2).
Defined.

(** ** Maps of integers *)

(** [_amw_parse_number] on a decimal numeral other than 0 that is followed
    by a character that ends a number. *)
Lemma parse_number_decimal_tail (p : AmwParser) (pre tail : ustring)
    (n : Z) :
  current_line p = pre ++ decimal n ++ tail ->
  ends_number tail ->
  (0 < n <= UW_SIGNED_MAX)%Z ->
  _amw_parse_number p (length pre) 1
  = Some (UwSigned n, length pre + length (decimal n)).
Proof.
  intros Hline Htail Hn. unfold decimal, numeral in *.
  set (ds := digits_of (S (Z.to_nat (Z.log2 n))) 10 n) in *.
  assert (Hall : Forall (is_digit_of 10) ds)
    by (apply digits_of_range; lia).
  assert (Hval : value_of 10 ds = n).
  { apply digits_of_value; [lia |]. split; [lia |].
    apply numeral_fuel. lia. }
  destruct (@digits_of_leading 10 (S (Z.to_nat (Z.log2 n))) n)
    as (d & rest & Hds & Hd); [lia | |].
  { split; [lia |]. apply numeral_fuel. lia. }
  fold ds in Hds.
  destruct (literal_of_digits ds) as (Hlit & Hdig & Hsep).
  pose proof (@parse_number_items p pre [] tail 10 1 (map Digit ds)) as H.
  rewrite Hlit, Hdig, Hval in H. cbn [app length] in H.
  rewrite H; try assumption.
  - unfold integer_value.
    replace (UW_SIGNED_MAX <? n)%Z with false
      by (symmetry; apply Z.ltb_ge; lia).
    change (1 <? 0)%Z with false. cbv iota.
    rewrite !length_map. do 2 f_equal. lia.
  - left. split; [reflexivity |]. split; [reflexivity |].
    exists d, (map Digit rest). rewrite Hds. now split.
  - apply Hsep. rewrite Hds. discriminate.
  - unfold UW_SIGNED_MAX in Hn. lia.
Qed.

Lemma integer_entry_solid (kv : Z * Z) :
  (0 <= fst kv)%Z -> (0 <= snd kv)%Z -> solid (integer_entry kv).
Proof.
  intros Hk Hv. unfold integer_entry.
  destruct (@decimal_plain (fst kv) Hk) as (Hpk & Hnk & Hdk).
  destruct (@decimal_plain (snd kv) Hv) as (Hpv & Hnv & _).
  rewrite app_assoc. apply plain_solid; try assumption.
  - unfold one_line. apply Forall_app. split; [| repeat constructor].
    eapply Forall_impl; [| exact Hpk]. intros c Hc. now apply alnum_not_LF.
  - destruct (decimal (fst kv)) as [| c r]; [congruence |].
    inversion Hpk; subst. cbn [app hd]. now apply alnum_not_space.
  - destruct (decimal (fst kv)) as [| c r]; [congruence |].
    inversion Hpk as [| c' r' Hc _]; subst. cbn [app hd].
    apply Z.eqb_neq. now apply alnum_not_comment.
Qed.

(** The dispatcher on the key of an entry: the key is a number and the
    colon after it is a key-value separator. *)
Lemma parse_value_entry_key (f : ustring -> nat) (fuel : nat)
    (pend : list ustring) (k : nat) (kv : Z * Z) (nvp : option nat) :
  (0 < fst kv <= UW_SIGNED_MAX)%Z ->
  parse_value f (S (S fuel)) (at_line pend k (integer_entry kv)) nvp
  = match nvp with
    | Some _ =>
        Some (UwSigned (fst kv), Some (length (decimal (fst kv)) + 1),
              at_line pend k (integer_entry kv))
    | None =>
        match parse_map f fuel (at_line pend k (integer_entry kv))
                (UwSigned (fst kv)) (length (decimal (fst kv)) + 2) with
        | Some (r, p) => Some (r, None, p)
        | None => None
        end
    end.
Proof.
  intros Hk. set (p := at_line pend k (integer_entry kv)).
  destruct (@decimal_plain (fst kv)) as (Hpk & Hnk & Hdk); [lia |].
  set (e := length (decimal (fst kv))).
  assert (Hline : current_line p
                  = [] ++ decimal (fst kv) ++ ustr ": " ++ decimal (snd kv))
    by reflexivity.
  assert (Hnum : _amw_parse_number p 0 1 = Some (UwSigned (fst kv), e)).
  { apply (@parse_number_decimal_tail p [] _ (fst kv) Hline);
      [reflexivity | exact Hk]. }
  assert (Hstart : get_start_position p = 0).
  { unfold get_start_position, p, at_line.
    cbn [block_indent current_indent current_line Nat.ltb Nat.leb].
    unfold uw_string_skip_spaces, integer_entry. cbn [skipn Nat.add].
    destruct (decimal (fst kv)) as [| c r]; [congruence |].
    inversion Hpk; subst. cbn [app leading_spaces].
    now rewrite alnum_not_space. }
  assert (Hd : is_digit (uw_char_at (current_line p) 0) = true).
  { cbn [app] in Hline. rewrite Hline.
    destruct (decimal (fst kv)) as [| c r]; [congruence | exact Hdk]. }
  rewrite (@parse_value_number_at f (S fuel) p 0 nvp _ _ Hstart Hd Hnum).
  cbn [check_value_end uw_error].
  assert (Hskip : uw_string_skip_spaces (current_line p) e = e).
  { rewrite Hline. cbn [app].
    replace (decimal (fst kv) ++ ustr ": " ++ decimal (snd kv))
      with (decimal (fst kv) ++ [] ++ ustr ": " ++ decimal (snd kv))
      by reflexivity.
    unfold e. rewrite skip_spaces_over;
      [cbn [length]; lia | constructor | reflexivity]. }
  assert (Hc : uw_char_at (current_line p) e = chr ":")
    by (rewrite Hline; cbn [app]; apply char_at_app).
  assert (He : end_of_line (current_line p) e = false).
  { unfold end_of_line, uw_string_index_valid. rewrite Hline.
    apply negb_false_iff, Nat.ltb_lt. cbn [app].
    rewrite length_app. unfold e. simpl. lia. }
  assert (Hkv : is_kv_separator p e = UwBool true).
  { rewrite is_kv_separator_value.
    unfold isspace_or_eol_at, end_of_line, uw_string_index_valid.
    rewrite Hline. cbn [app].
    replace (e + 1 <? length (decimal (fst kv) ++ ustr ": "
                              ++ decimal (snd kv)))
      with true
      by (symmetry; apply Nat.ltb_lt; rewrite length_app; unfold e; simpl;
          lia).
    cbn [negb]. replace (e + 1) with (S e) by lia. unfold e.
    change (ustr ": " ++ decimal (snd kv))
      with (chr ":" :: chr " " :: decimal (snd kv)).
    now rewrite char_at_app_S. }
  rewrite Hskip, He, Hc, Hkv.
  change ((chr ":" =? chr ":")%Z) with true.
  cbn [uw_error bool_value]. destruct nvp; reflexivity.
Qed.

Lemma entry_value_start (pend : list ustring) (k : nat) (kv : Z * Z)
    (vp : nat) :
  (0 <= fst kv)%Z -> (0 <= snd kv)%Z ->
  vp = length (decimal (fst kv)) + 1 \/ vp = length (decimal (fst kv)) + 2 ->
  comment_or_end_of_line (at_line pend k (integer_entry kv)) vp = false
  /\ exists pre sp,
       integer_entry kv = pre ++ sp ++ decimal (snd kv)
       /\ vp = length pre /\ pre <> []
       /\ Forall (fun c => uw_isspace c = true) sp.
Proof.
  intros Hk Hv Hvp.
  destruct (@decimal_plain (fst kv) Hk) as (Hpk & Hnk & _).
  destruct (@decimal_plain (snd kv) Hv) as (Hpv & Hnv & _).
  assert (Hshape : exists pre sp,
             integer_entry kv = pre ++ sp ++ decimal (snd kv)
             /\ vp = length pre /\ pre <> []
             /\ Forall (fun c => uw_isspace c = true) sp).
  { destruct Hvp as [-> | ->].
    - exists (decimal (fst kv) ++ [chr ":"]), [chr " "].
      unfold integer_entry. rewrite <- app_assoc, length_app.
      repeat split; [| repeat constructor].
      intros E. apply app_eq_nil in E. destruct E as [_ E]. discriminate E.
    - exists (decimal (fst kv) ++ ustr ": "), [].
      unfold integer_entry. rewrite <- app_assoc, length_app.
      repeat split; [| constructor].
      intros E. apply app_eq_nil in E. destruct E as [_ E]. discriminate E. }
  split; [| exact Hshape].
  destruct Hshape as (pre & sp & HL & -> & _ & Hsp).
  unfold comment_or_end_of_line, at_line. cbn [current_line]. rewrite HL.
  destruct (decimal (snd kv)) as [| c r] eqn:Hdv; [congruence |].
  inversion Hpv as [| c' r' Hc _]; subst.
  rewrite skip_spaces_over by (try exact Hsp; now apply alnum_not_space).
  unfold end_of_line, uw_string_index_valid.
  replace (length pre + length sp <? length (pre ++ sp ++ c :: r)) with true
    by (symmetry; apply Nat.ltb_lt; rewrite !length_app; simpl; lia).
  cbn [negb orb]. rewrite app_assoc, <- length_app, char_at_app.
  now apply alnum_not_comment.
Qed.

(** One turn of the loop of [parse_map] on an entry whose value is an
    integer. *)
Lemma parse_map_turn (f : ustring -> nat) (F : nat) (pend : list ustring)
    (k : nat) (kv : Z * Z) (acc : list (UwValue * UwValue)) (vp : nat) :
  Forall (fun raw => solid (uw_string_rtrim raw)) pend ->
  (0 <= fst kv)%Z -> (0 <= snd kv <= UW_SIGNED_MAX)%Z ->
  vp = length (decimal (fst kv)) + 1 \/ vp = length (decimal (fst kv)) + 2 ->
  parse_map_loop f (S (S (S (S (S F))))) (at_line pend k (integer_entry kv))
    0 acc (UwSigned (fst kv)) vp
  = let result :=
      map_update acc (UwSigned (fst kv)) (UwSigned (snd kv)) in
    let '(status, p2) := _amw_read_block_line (after_block pend k) in
    if _amw_end_of_block status then Some (UwMap result, p2)
    else if uw_error status then Some (status, p2)
    else if negb (current_indent p2 =? 0)
    then Some (parser_error p2 (current_indent p2)
                 "Bad indentation of map key", p2)
    else
      match parse_value f (S (S (S (S F)))) p2 (Some vp) with
      | Some (key, nvp, p3) =>
          if uw_error key then Some (key, p3)
          else parse_map_loop f (S (S (S (S F)))) p3 0 result key
                 (match nvp with
                  | Some v => v
                  | None => vp
                  end)
      | None => None
      end.
Proof.
  intros Hpend Hk Hv Hvp.
  destruct (@entry_value_start pend k kv vp Hk ltac:(lia) Hvp)
    as (Hcm & pre & sp & HL & Hpos & Hpre & Hsp).
  pose proof (@nested_integer f F pend k pre sp (snd kv) Hpend Hpre Hsp Hv)
    as Hnest.
  rewrite <- HL, <- Hpos in Hnest.
  remember (S (S (S (S F)))) as G eqn:HG.
  cbn [parse_map_loop]. rewrite Hcm, Hnest. cbn [uw_error]. reflexivity.
Qed.

(** The loop of [parse_map] over the entries of a map of integers. *)
Lemma parse_map_loop_integers (f : ustring -> nat) (extra : nat) :
  forall (kvs : list (Z * Z)) (kv : Z * Z) (k : nat)
         (acc : list (UwValue * UwValue)) (vp : nat),
    (0 < fst kv <= UW_SIGNED_MAX)%Z -> (0 <= snd kv <= UW_SIGNED_MAX)%Z ->
    Forall (fun kv => (0 < fst kv <= UW_SIGNED_MAX)%Z
                      /\ (0 <= snd kv <= UW_SIGNED_MAX)%Z) kvs ->
    vp = length (decimal (fst kv)) + 1
    \/ vp = length (decimal (fst kv)) + 2 ->
    exists q,
      parse_map_loop f (5 + (length kvs + extra))
        (at_line (map (fun kv => integer_entry kv ++ [LF]) kvs) k
           (integer_entry kv)) 0 acc (UwSigned (fst kv)) vp
      = Some (UwMap
                (fold_left
                   (fun m kv =>
                      map_update m (UwSigned (fst kv)) (UwSigned (snd kv)))
                   (kv :: kvs) acc), q)
      /\ eof q = true /\ 0 < blocklevel q.
Proof.
  induction kvs as [| kv2 kvs IH]; intros kv k acc vp Hk Hv Hall Hvp.
  - change (5 + (length (@nil (Z * Z)) + extra))
      with (S (S (S (S (S extra))))).
    rewrite parse_map_turn by (try assumption; try lia; apply Forall_nil).
    cbn [map after_block]. eexists. split; [reflexivity |].
    split; [reflexivity | cbn; lia].
  - inversion Hall as [| kv2' kvs' [Hk2 Hv2] Hall']; subst.
    assert (Hsolid : Forall (fun x => solid (integer_entry x)) (kv2 :: kvs)).
    { apply Forall_forall. intros x Hx. rewrite Forall_forall in Hall.
      destruct (Hall _ Hx). apply integer_entry_solid; lia. }
    change (5 + (length (kv2 :: kvs) + extra))
      with (S (S (S (S (S (S (length kvs + extra))))))).
    rewrite parse_map_turn
      by (try assumption; try lia; now apply pending_solid).
    cbn [map after_block].
    destruct (@solid_facts (integer_entry kv2)) as (_ & Hr & Hr' & _);
      [apply integer_entry_solid; lia |].
    rewrite Hr'.
    rewrite (@read_solid (integer_entry kv2) (integer_entry kv2))
      by (try exact Hr; apply integer_entry_solid; lia).
    cbn [Nat.eqb _amw_end_of_block UwOK uw_error current_indent negb].
    fold (at_line (map (fun kv => integer_entry kv ++ [LF]) kvs) (S k)
            (integer_entry kv2)).
    rewrite parse_value_entry_key by exact Hk2. cbn [uw_error].
    destruct (IH kv2 (S k)
                (map_update acc (UwSigned (fst kv)) (UwSigned (snd kv)))
                (length (decimal (fst kv2)) + 1) Hk2 Hv2 Hall'
                ltac:(now left)) as (q & Hrun & Hq).
    exists q. split; [| exact Hq].
    change (S (S (S (S (S (length kvs + extra))))))
      with (5 + (length kvs + extra)).
    rewrite Hrun. reflexivity.
Qed.

(** Entries with distinct keys are kept as they come. *)
Lemma integer_map_distinct (kvs : list (Z * Z)) :
  forall acc,
    NoDup (map fst kvs) ->
    (forall k v kv, In (UwSigned k, v) acc -> In kv kvs -> fst kv <> k) ->
    (forall e, In e acc -> exists k v, e = (UwSigned k, v)) ->
    fold_left
      (fun m kv => map_update m (UwSigned (fst kv)) (UwSigned (snd kv)))
      kvs acc
    = acc ++ map (fun kv => (UwSigned (fst kv), UwSigned (snd kv))) kvs.
Proof.
  induction kvs as [| kv kvs IH]; intros acc Hnd Hfresh Hshape.
  - cbn [fold_left map]. now rewrite app_nil_r.
  - inversion Hnd as [| x xs Hnotin Hnd']; subst. cbn [fold_left map].
    assert (Hupd : map_update acc (UwSigned (fst kv)) (UwSigned (snd kv))
                   = acc ++ [(UwSigned (fst kv), UwSigned (snd kv))]).
    { clear IH. induction acc as [| [a b] acc IHa]; [reflexivity |].
      cbn [map_update app].
      destruct (Hshape (a, b) (or_introl eq_refl)) as (k0 & v0 & E).
      inversion E; subst a b. cbn [uw_equal].
      assert (Hne : (k0 =? fst kv)%Z = false).
      { apply Z.eqb_neq. intros ->.
        apply (Hfresh (fst kv) v0 kv); [now left | now left | reflexivity]. }
      rewrite Hne. f_equal. apply IHa.
      - intros k1 v1 kv1 Hin1 Hin2. apply (Hfresh k1 v1 kv1); [now right |].
        exact Hin2.
      - intros e He. apply Hshape. now right. }
    rewrite Hupd, IH; [now rewrite <- app_assoc | exact Hnd' | |].
    + intros k0 v0 kv0 Hin Hin2. apply in_app_or in Hin.
      destruct Hin as [Hin | [E | []]].
      * apply (Hfresh k0 v0 kv0 Hin). now right.
      * inversion E; subst. intros Heq. apply Hnotin. rewrite <- Heq.
        now apply in_map.
    + intros e He. apply in_app_or in He. destruct He as [He | [<- | []]].
      * now apply Hshape.
      * eauto.
Qed.

(** X17. Maps of integers.  A document whose lines are entries, each a
    decimal numeral other than 0 as the key, a colon, a space and a decimal
    numeral as the value, parses to the map of these entries: every value
    is read as a nested block, and the keys after the first are read with
    the key-value separator expected.  A key that occurs again takes the
    later value; entries with distinct keys are kept as they come. *)
Theorem map_of_integers (f : ustring -> nat) (fuel : nat)
    (kvs : list (Z * Z)) :
  kvs <> [] ->
  Forall (fun kv => (0 < fst kv <= UW_SIGNED_MAX)%Z
                    /\ (0 <= snd kv <= UW_SIGNED_MAX)%Z) kvs ->
  amw_parse f (length kvs + 7 + fuel) (lines_text (map integer_entry kvs))
  = Some (UwMap (integer_map kvs))
  /\ (NoDup (map fst kvs) ->
      integer_map kvs
      = map (fun kv => (UwSigned (fst kv), UwSigned (snd kv))) kvs).
Proof.
  intros Hne Hall. split.
  - destruct kvs as [| kv kvs]; [congruence |]. clear Hne.
    inversion Hall as [| kv' kvs' [Hk Hv] Hall']; subst.
    assert (Hsolid : Forall (fun x => solid (integer_entry x)) (kv :: kvs)).
    { apply Forall_forall. intros x Hx. rewrite Forall_forall in Hall.
      destruct (Hall _ Hx). apply integer_entry_solid; lia. }
    assert (Hone : Forall one_line (map integer_entry kvs)).
    { apply Forall_map. inversion Hsolid as [| x xs _ Hxs]; subst.
      eapply Forall_impl; [| exact Hxs]. intros x Hx. apply Hx. }
    destruct (@parse_map_loop_integers f fuel kvs kv 1 []
                (length (decimal (fst kv)) + 2) Hk Hv Hall' ltac:(now right))
      as (q & Hrun & Heof & Hlevel).
    replace (length (kv :: kvs) + 7 + fuel)
      with (S (S (S (5 + (length kvs + fuel))))) by (simpl; lia).
    eapply amw_parse_at_end with (p' := q);
      [| | right; split; assumption].
    + cbn [map]. apply first_read_solid; [| exact Hone].
      now inversion Hsolid.
    + rewrite map_map, parse_value_entry_key by exact Hk.
      remember (5 + (length kvs + fuel)) as F eqn:HF.
      cbn [parse_map].
      assert (Hstart : get_start_position
                         (at_line (map (fun x => integer_entry x ++ [LF]) kvs)
                            1 (integer_entry kv)) = 0).
      { destruct (@decimal_plain (fst kv)) as (Hpk & Hnk & _); [lia |].
        unfold get_start_position, at_line.
        cbn [block_indent current_indent current_line Nat.ltb Nat.leb].
        unfold uw_string_skip_spaces, integer_entry. cbn [skipn Nat.add].
        destruct (decimal (fst kv)) as [| c r]; [congruence |].
        inversion Hpk; subst. cbn [app leading_spaces].
        now rewrite alnum_not_space. }
      rewrite Hstart, Hrun. reflexivity.
  - intros Hnd. unfold integer_map.
    rewrite integer_map_distinct; [reflexivity | exact Hnd | |];
      intros; contradiction.
Qed.

Lemma map_of_integers_witness :
  ([(1, 10); (2, 0); (1, 30)]%Z <> []
   /\ Forall (fun kv => (0 < fst kv <= UW_SIGNED_MAX)%Z
                        /\ (0 <= snd kv <= UW_SIGNED_MAX)%Z)
        [(1, 10); (2, 0); (1, 30)]%Z)
  /\ amw_parse zero_view (length [(1, 10); (2, 0); (1, 30)]%Z + 7 + 0)
       (lines_text (map integer_entry [(1, 10); (2, 0); (1, 30)]%Z))
     = Some (UwMap (integer_map [(1, 10); (2, 0); (1, 30)]%Z)).
Proof.
  assert (H1 : [(1, 10); (2, 0); (1, 30)]%Z <> []) by discriminate.
  assert (H2 : Forall (fun kv => (0 < fst kv <= UW_SIGNED_MAX)%Z
                                 /\ (0 <= snd kv <= UW_SIGNED_MAX)%Z)
                 [(1, 10); (2, 0); (1, 30)]%Z)
    by (repeat constructor; unfold UW_SIGNED_MAX; simpl; lia).
  split; [split; assumption |].
  exact (proj1 (@map_of_integers zero_view 0 _ H1 H2)).
Defined.

(** ** What follows the top-level value *)

(** At the root block, once a line with content was seen, the reader
    delivers every line: blank lines, comment lines and all others. *)
Lemma read_root_line (raw : ustring) (rest : list ustring) (k : nat)
    (cl : ustring) (ci ln bl mbl : nat)
    (cp : list (ustring * AmwBlockParserFunc)) :
  _amw_read_block_line
    (mkParser (mkMarkup (raw :: rest) k) cl ci ln 0 bl mbl false false cp)
  = (UwOK,
     mkParser (mkMarkup rest (S k)) (uw_string_rtrim raw) (indent_of raw)
       (S k) 0 bl mbl false false cp).
Proof.
  unfold _amw_read_block_line. cbn [eof markup pending].
  rewrite read_block_line_loop_cons. cbv zeta. rewrite line_read_mk.
  cbn [skip_comments andb lineno]. unfold after_skip.
  cbn [current_line block_indent current_indent Nat.leb].
  now destruct (uw_strlen (uw_string_rtrim raw) =? 0).
Qed.

Lemma decimal_solid (n : Z) : (0 <= n)%Z -> solid (decimal n).
Proof.
  intros Hn. destruct (@decimal_plain n Hn) as (Hp & Hne & _).
  destruct (decimal n) as [| c r] eqn:Hd; [congruence |].
  inversion Hp as [| c' r' Hc _]; subst.
  change (c :: r) with ([] ++ c :: r). apply plain_solid; try assumption.
  - constructor.
  - cbn [app hd]. now apply alnum_not_space.
  - cbn [app hd]. apply Z.eqb_neq. now apply alnum_not_comment.
Qed.

(** The dispatcher on a line that is a decimal numeral, at the root block:
    the value is the number and the next line is read, whatever it
    holds. *)
Lemma parse_value_decimal_line (f : ustring -> nat) (fuel : nat)
    (pend : list ustring) (k : nat) (n : Z) :
  (0 <= n <= UW_SIGNED_MAX)%Z ->
  parse_value f (S (S fuel)) (at_line pend k (decimal n)) None
  = Some (UwSigned n, None,
          snd (_amw_read_block_line (at_line pend k (decimal n)))).
Proof.
  intros Hn. set (p := at_line pend k (decimal n)).
  destruct (@decimal_plain n) as (Hp & Hne & Hd); [lia |].
  assert (Hstart : get_start_position p = 0).
  { unfold get_start_position, p, at_line.
    cbn [block_indent current_indent current_line Nat.ltb Nat.leb].
    now apply skip_spaces_plain. }
  assert (Hdig : is_digit (uw_char_at (current_line p) 0) = true).
  { unfold p, at_line. cbn [current_line].
    destruct (decimal n) as [| c r]; [congruence | exact Hd]. }
  assert (Hnum : _amw_parse_number p 0 1
                 = Some (UwSigned n, length (current_line p)))
    by (apply (@parse_number_decimal_at p [] n); [reflexivity | exact Hn]).
  rewrite (@parse_value_number_at f (S fuel) p 0 None _ _ Hstart Hdig Hnum).
  destruct (_amw_read_block_line p) as [status q] eqn:Hread.
  apply check_value_end_eol with (status := status);
    [reflexivity | exact Hread |].
  unfold p, at_line in Hread. destruct pend as [| raw rest].
  - cbv in Hread. inversion Hread. reflexivity.
  - rewrite read_root_line in Hread. inversion Hread. reflexivity.
Qed.

(** X18. What follows the top-level value.  After a top-level integer the
    parser reads one line to look for the end of the value and a second
    line to look for the end of the input.  A document of three lines or
    more is rejected with the error Extra data after parsed value, located
    at the third line, whatever that line holds (a blank line and a
    comment line included); the second line is never looked at, so a
    document of two lines parses to the integer of the first line. *)
Theorem data_after_top_level_value (f : ustring -> nat) (fuel : nat)
    (n : Z) (line2 line3 : ustring) (rest : list ustring) :
  (0 <= n <= UW_SIGNED_MAX)%Z ->
  one_line line2 -> one_line line3 -> Forall one_line rest ->
  amw_parse f (S (S fuel)) (lines_text [decimal n; line2])
  = Some (UwSigned n)
  /\ amw_parse f (S (S fuel))
       (lines_text (decimal n :: line2 :: line3 :: rest))
     = Some (AmwStatus 3 (indent_of line3) "Extra data after parsed value").
Proof.
  intros Hn H2 H3 Hrest.
  assert (Hsolid : solid (decimal n)) by (apply decimal_solid; lia).
  assert (Hrun : forall more, Forall one_line more ->
            amw_parse f (S (S fuel)) (lines_text (decimal n :: line2 :: more))
            = match more with
              | [] => Some (UwSigned n)
              | l3 :: _ =>
                  Some (AmwStatus 3 (indent_of l3)
                          "Extra data after parsed value")
              end).
  { intros more Hmore. unfold amw_parse, value_parser_func.
    rewrite first_read_solid
      by (try exact Hsolid; constructor; assumption).
    cbn [_amw_end_of_block UwOK uw_error andb].
    rewrite parse_value_decimal_line by exact Hn.
    cbn [uw_error map]. unfold at_line at 1. rewrite read_root_line.
    cbn [snd]. destruct more as [| l3 more']; cbn [map].
    - reflexivity.
    - rewrite read_root_line. cbn [eof UwOK uw_error].
      unfold parser_error. cbn [line_number current_indent].
      unfold indent_of. rewrite rtrim_LF. reflexivity. }
  split.
  - apply (Hrun []). constructor.
  - apply (Hrun (line3 :: rest)). now constructor.
Qed.

Lemma data_after_top_level_value_witness :
  amw_parse (fun _ => 0) 2 (lines_text [decimal 7; ustr "- 1"])
  = Some (UwSigned 7)
  /\ amw_parse (fun _ => 0) 2
       (lines_text [decimal 7; ustr "- 1"; ustr "  # end"])
     = Some (AmwStatus 3 2 "Extra data after parsed value").
Proof.
  assert (Hn : (0 <= 7 <= UW_SIGNED_MAX)%Z) by (vm_compute; split; congruence).
  assert (H2 : one_line (ustr "- 1")) by (repeat constructor; discriminate).
  assert (H3 : one_line (ustr "  # end"))
    by (repeat constructor; discriminate).
  exact (@data_after_top_level_value (fun _ => 0) 0 7 (ustr "- 1")
           (ustr "  # end") [] Hn H2 H3 (Forall_nil _)).
Defined.

(** ** Literal text *)

Lemma uw_substr_whole (s : ustring) : uw_substr s 0 (length s) = s.
Proof.
  unfold uw_substr. cbn [skipn]. rewrite Nat.sub_0_r. apply firstn_all.
Qed.

(** The block collector at the root block: every line up to the end of the
    input is taken, stripped at its right end. *)
Lemma read_block_loop_root (ls : list ustring) :
  forall (fuel k ci : nat) (L : ustring) (acc : list ustring),
  exists q,
    read_block_loop (length ls + 1 + fuel)
      (mkParser (mkMarkup (map (fun l => l ++ [LF]) ls) k) L ci k 0 1
         AMW_MAX_RESURSION_DEPTH false false builtin_parsers) acc
    = Some (inr (acc ++ L :: map uw_string_rtrim ls), q)
    /\ eof q = true /\ blocklevel q = 1.
Proof.
  induction ls as [| a ls IH]; intros fuel k ci L acc.
  - cbn [length Nat.add map read_block_loop current_line block_indent].
    rewrite uw_substr_whole. rewrite read_block_line_at_end by reflexivity.
    cbn [_amw_end_of_block]. eexists. split; [reflexivity |].
    split; reflexivity.
  - cbn [length Nat.add map read_block_loop current_line block_indent].
    rewrite uw_substr_whole, read_root_line.
    cbn [_amw_end_of_block UwOK uw_error].
    destruct (IH fuel (S k) (indent_of (a ++ [LF]))
                (uw_string_rtrim (a ++ [LF])) (acc ++ [L]))
      as (q & Hq & He & Hb).
    exists q. rewrite Hq, <- app_assoc, rtrim_LF. cbn [app].
    repeat split; assumption.
Qed.

Lemma min_indent_first (l : ustring) (rest : list ustring) :
  l <> [] -> leading_spaces l = 0 -> min_indent (l :: rest) = Some 0.
Proof.
  intros Hne Hl. cbn [min_indent]. destruct l as [| c t]; [congruence |].
  rewrite Hl. now destruct (min_indent rest).
Qed.

Lemma dedent_first (l : ustring) (rest : list ustring) :
  l <> [] -> leading_spaces l = 0 ->
  uw_list_dedent (l :: rest) = l :: rest.
Proof.
  intros Hne Hl. unfold uw_list_dedent. rewrite min_indent_first by assumption.
  cbn [skipn]. apply map_id.
Qed.

Lemma drop_trailing_empty_last (lines : list ustring) (d : ustring) :
  last lines d <> [] -> drop_trailing_empty lines = lines.
Proof.
  intros Hl. unfold drop_trailing_empty.
  destruct (rev lines) as [| x r] eqn:Hr.
  - apply (f_equal (@rev _)) in Hr. rewrite rev_involutive in Hr.
    now rewrite Hr.
  - apply (f_equal (@rev _)) in Hr. rewrite rev_involutive in Hr.
    cbn [rev] in Hr. rewrite Hr in Hl. rewrite last_last in Hl.
    cbn [drop_trailing_empty_rev]. destruct x as [| c t]; [congruence |].
    cbn [uw_strlen length Nat.eqb negb rev]. now rewrite Hr.
Qed.

Lemma join_closed_lines (l : ustring) (rest : list ustring) :
  uw_list_join LF ((l :: rest) ++ [[]]) = lines_text (l :: rest).
Proof.
  revert l. induction rest as [| a rest IH]; intros l.
  - cbn. now rewrite app_nil_r.
  - change (uw_list_join LF ((l :: a :: rest) ++ [[]]))
      with (l ++ LF :: uw_list_join LF ((a :: rest) ++ [[]])).
    rewrite IH. unfold lines_text, comment_lines. cbn [map concat].
    rewrite <- (app_assoc l). reflexivity.
Qed.

Lemma opens_text_tests (c : char32_t) :
  opens_text c = true ->
  (c =? chr ":")%Z = false /\ (c =? chr "-")%Z = false
  /\ (c =? DQUOTE)%Z = false /\ (c =? chr "+")%Z = false
  /\ is_digit c = false
  /\ ((c =? chr "n") || (c =? chr "t") || (c =? chr "f"))%Z = false
  /\ uw_isspace c = false /\ c <> AMW_COMMENT.
Proof.
  unfold opens_text, is_digit, uw_isspace, AMW_COMMENT, DQUOTE, chr.
  simpl. intros H. repeat split; lia.
Qed.

(** The dispatcher on a line of text without colon. *)
Lemma parse_value_text (f : ustring -> nat) (fuel : nat) (p : AmwParser)
    (c : char32_t) (t : ustring) :
  current_line p = c :: t -> get_start_position p = 0 ->
  opens_text c = true ->
  Forall (fun x => (x =? chr ":")%Z = false) (c :: t) ->
  parse_value f (S (S fuel)) p None
  = match parse_literal_string fuel p with
    | Some (r, q) => Some (r, None, q)
    | None => None
    end.
Proof.
  intros Hline Hsp Hc Hcolon.
  destruct (opens_text_tests _ Hc) as (H1 & H2 & H3 & H4 & H5 & H6 & _).
  remember (S fuel) as F eqn:HF. cbn [parse_value]. rewrite Hsp, Hline.
  change (uw_char_at (c :: t) 0) with c. rewrite H1, H2, H3. cbn [orb].
  rewrite !keyword_needs_letter_at by (try exact H6; simpl; auto).
  rewrite H4. cbn [andb]. rewrite H5.
  subst F. cbn [parse_literal_string_or_map]. rewrite Hsp, Hline.
  pose proof (uw_strchr_spec (c :: t) (chr ":") 0) as Hs.
  destruct (uw_strchr (c :: t) (chr ":") 0) as [i |]; [| reflexivity].
  destruct Hs as ((_ & Hi) & Hch & _). exfalso.
  rewrite Forall_forall in Hcolon.
  assert (Hin : In (uw_char_at (c :: t) i) (c :: t))
    by (apply nth_In; exact Hi).
  apply Hcolon in Hin. rewrite Hch in Hin. discriminate Hin.
Qed.

(** X19. Literal text.  A document whose first line starts with a letter
    other than n, t and f and holds no colon is a block of literal text
    that takes every line up to the end of the input, comment lines
    included.  When the last line is not blank, the value of a document of
    one line is that line, and the value of a longer document is its
    lines, stripped of the spaces at their right ends and each closed by
    LF. *)
Theorem literal_text_documents (f : ustring -> nat) (fuel : nat)
    (first : ustring) (more : list ustring) :
  solid first -> opens_text (hd 0%Z first) = true ->
  Forall (fun x => (x =? chr ":")%Z = false) first ->
  Forall one_line more ->
  uw_string_rtrim (last more first) <> [] ->
  amw_parse f (length more + 3 + fuel) (lines_text (first :: more))
  = Some (UwString (literal_text (first :: map uw_string_rtrim more))).
Proof.
  intros Hsolid Hopen Hcolon Hmore Hlast.
  destruct (solid_facts Hsolid) as (Hne & _ & _ & _ & _ & _).
  destruct first as [| c t]; [congruence |]. cbn [hd] in Hopen.
  destruct (opens_text_tests _ Hopen) as (_ & _ & _ & _ & _ & _ & Hsp & _).
  destruct (read_block_loop_root more fuel 1 0 (c :: t) [])
    as (q & Hq & He & Hb).
  eapply amw_parse_at_end with (p' := q);
    [apply first_read_solid; assumption | | right; split; [exact He | lia]].
  replace (length more + 3 + fuel) with (S (S (length more + 1 + fuel)))
    by lia.
  rewrite (@parse_value_text f _ _ c t);
    [| reflexivity
     | unfold get_start_position, at_line;
       cbn [block_indent current_indent current_line Nat.ltb Nat.leb];
       unfold uw_string_skip_spaces; cbn [skipn leading_spaces];
       now rewrite Hsp
     | exact Hopen | exact Hcolon].
  unfold parse_literal_string, _amw_read_block, at_line. rewrite Hq.
  cbn [app]. rewrite dedent_first
    by (try discriminate; cbn [leading_spaces]; now rewrite Hsp).
  rewrite (@drop_trailing_empty_last _ []).
  - destruct more as [| a more']; [reflexivity |].
    cbn [map length Nat.ltb Nat.leb]. rewrite join_closed_lines.
    reflexivity.
  - destruct more as [| a more'] using rev_ind.
    + cbn. discriminate.
    + rewrite last_last in Hlast. rewrite map_app. cbn [map].
      rewrite app_comm_cons, last_last. exact Hlast.
Qed.

Lemma literal_text_documents_witness :
  amw_parse (fun _ => 0) 5
    (lines_text [ustr "Hello,"; ustr "  # world  "; ustr "bye"])
  = Some (UwString
            (lines_text [ustr "Hello,"; ustr "  # world"; ustr "bye"])).
Proof.
  assert (H1 : solid (ustr "Hello,")).
  { unfold solid, one_line. repeat split; try discriminate.
    repeat constructor. }
  assert (H2 : opens_text (hd 0%Z (ustr "Hello,")) = true) by reflexivity.
  assert (H3 : Forall (fun x => (x =? chr ":")%Z = false) (ustr "Hello,"))
    by (repeat constructor).
  assert (H4 : Forall one_line [ustr "  # world  "; ustr "bye"])
    by (unfold one_line; repeat constructor).
  assert (H5 : uw_string_rtrim
                 (last [ustr "  # world  "; ustr "bye"] (ustr "Hello,"))
               <> []) by (vm_compute; discriminate).
  exact (@literal_text_documents (fun _ => 0) 0 (ustr "Hello,")
           [ustr "  # world  "; ustr "bye"] H1 H2 H3 H4 H5).
Defined.

(** ** The limit of nesting *)

Lemma nested_list_no_error (d : nat) (n : Z) :
  uw_error (nested_list d (UwSigned n)) = false.
Proof. now destruct d. Qed.

Lemma dashes_solid (d : nat) (n : Z) :
  (0 <= n)%Z -> solid (dashes d ++ decimal n).
Proof.
  intros Hn. destruct (@decimal_plain n Hn) as (Hp & Hne & Hd).
  assert (Hone : one_line (dashes d)).
  { unfold dashes. induction d as [| d IH]; [constructor |].
    cbn [repeat concat]. apply Forall_app. split; [| exact IH].
    repeat constructor. }
  assert (Hfirst : uw_isspace (hd 32%Z (dashes d ++ decimal n)) = false
                   /\ hd 0%Z (dashes d ++ decimal n) <> AMW_COMMENT).
  { destruct d as [| d]; [| split; [reflexivity | discriminate]].
    cbn [dashes repeat concat app].
    destruct (decimal n) as [| c r]; [congruence |].
    inversion Hp as [| c' r' Hc _]; subst. cbn [hd]. split.
    - now apply alnum_not_space.
    - apply Z.eqb_neq. now apply alnum_not_comment. }
  apply plain_solid; try assumption; apply Hfirst.
Qed.

(** The dispatcher inside nested lists: [r] markers are ahead on the line
    and the block is at level [bl]. *)
Lemma nested_dashes (f : ustring -> nat) (n : Z) :
  (0 <= n <= UW_SIGNED_MAX)%Z ->
  forall (r : nat) (pre : ustring) (bl fuel : nat),
    1 <= bl <= AMW_MAX_RESURSION_DEPTH ->
    parse_value f (5 * r + 2 + fuel)
      (in_block (pre ++ dashes r ++ decimal n) (length pre) bl) None
    = Some (if bl + r <=? AMW_MAX_RESURSION_DEPTH
            then (nested_list r (UwSigned n), None,
                  at_end_in_block (length pre) bl)
            else (AmwStatus 1 0 "Too many nested blocks", None,
                  in_block (pre ++ dashes r ++ decimal n) (length pre) bl)).
Proof.
  intros Hn. destruct (@decimal_plain n) as (Hplain & Hne & Hdig); [lia |].
  assert (Hnosp : uw_isspace (hd 0%Z (decimal n)) = false).
  { destruct (decimal n) as [| c t]; [congruence |].
    inversion Hplain; subst. now apply alnum_not_space. }
  induction r as [| r IH]; intros pre bl fuel Hbl.
  - cbn [Nat.mul Nat.add dashes repeat concat app nested_list].
    rewrite Nat.add_0_r.
    replace (bl <=? AMW_MAX_RESURSION_DEPTH) with true
      by (symmetry; apply Nat.leb_le; lia).
    set (p := in_block (pre ++ decimal n) (length pre) bl).
    assert (Hstart : get_start_position p = length pre).
    { unfold get_start_position, p, in_block.
      cbn [block_indent current_indent current_line].
      replace (length pre <? 0) with false
        by (symmetry; apply Nat.ltb_ge; lia).
      change (pre ++ decimal n) with (pre ++ [] ++ decimal n).
      rewrite skip_spaces_over; [cbn [length]; lia | constructor |].
      destruct (decimal n) as [| c t]; [exact I | exact Hnosp]. }
    assert (Hd : is_digit (uw_char_at (current_line p) (length pre)) = true).
    { unfold p, in_block. cbn [current_line].
      destruct (decimal n) as [| c t]; [congruence |].
      rewrite char_at_app. exact Hdig. }
    assert (Hnum : _amw_parse_number p (length pre) 1
                   = Some (UwSigned n, length (current_line p)))
      by (apply parse_number_decimal_at; [reflexivity | exact Hn]).
    rewrite (@parse_value_number_at f (S fuel) p _ None _ _ Hstart Hd Hnum).
    apply check_value_end_eol with (status := UwStatus AMW_END_OF_BLOCK);
      [reflexivity | | reflexivity].
    now rewrite read_block_line_at_end.
  - replace (5 * S r + 2 + fuel)
      with (S (S (S (S (S (5 * r + 2 + fuel)))))) by lia.
    remember (5 * r + 2 + fuel) as F eqn:HF.
    change (dashes (S r)) with (chr "-" :: chr " " :: dashes r).
    cbn [app]. set (rest := dashes r ++ decimal n).
    set (L := pre ++ chr "-" :: chr " " :: rest).
    set (p := in_block L (length pre) bl).
    assert (Hrest : uw_isspace (hd 0%Z rest) = false
                    /\ rest <> [] /\ hd 0%Z rest <> AMW_COMMENT).
    { destruct (@dashes_solid r n) as (_ & H1 & _ & H2); [lia |].
      fold rest in H1, H2. destruct rest as [| c t] eqn:Hr.
      - unfold rest in Hr. apply app_eq_nil in Hr. tauto.
      - repeat split; [exact H1 | discriminate | exact H2]. }
    destruct Hrest as (Hrsp & Hrne & Hrcm).
    destruct rest as [| c t] eqn:Hr; [congruence |]. cbn [hd] in Hrsp, Hrcm.
    assert (Hstart : get_start_position p = length pre).
    { unfold get_start_position, p, in_block.
      cbn [block_indent current_indent current_line].
      replace (length pre <? 0) with false
        by (symmetry; apply Nat.ltb_ge; lia).
      change L with (pre ++ [] ++ chr "-" :: chr " " :: c :: t).
      rewrite skip_spaces_over; [cbn [length]; lia | constructor |].
      reflexivity. }
    assert (Hc0 : uw_char_at L (length pre) = chr "-")
      by apply char_at_app.
    assert (Hc1 : uw_char_at L (length pre + 1) = chr " ")
      by (rewrite Nat.add_1_r; apply char_at_app_S).
    assert (He1 : end_of_line L (length pre + 1) = false)
      by (rewrite Nat.add_1_r; apply not_eol_app_S).
    assert (HL2 : L = (pre ++ ustr "- ") ++ c :: t)
      by (unfold L; now rewrite <- app_assoc).
    assert (Hlen2 : length (pre ++ ustr "- ") = length pre + 1 + 1)
      by (rewrite length_app; cbn [ustr length map list_ascii_of_string];
          lia).
    assert (Hskip : uw_string_skip_spaces L (length pre + 1)
                    = length pre + 1 + 1).
    { change L with (pre ++ [chr "-"] ++ [chr " "] ++ c :: t).
      rewrite app_assoc.
      replace (length pre + 1) with (length (pre ++ [chr "-"]))
        by (rewrite length_app; reflexivity).
      rewrite skip_spaces_over; [reflexivity | repeat constructor |].
      exact Hrsp. }
    assert (Hcm : comment_or_end_of_line p (length pre + 1) = false).
    { unfold comment_or_end_of_line, p, in_block. cbn [current_line].
      rewrite Hskip, <- Hlen2, HL2, char_at_app.
      unfold end_of_line, uw_string_index_valid. rewrite ltb_app.
      cbn [negb orb]. now apply Z.eqb_neq. }
    remember (S (S (S (S F)))) as G eqn:HG.
    cbn [parse_value]. rewrite Hstart.
    change (current_line p) with L. rewrite Hc0, Hc1.
    change (chr "-" =? chr ":")%Z with false.
    change (chr "-" =? chr "-")%Z with true.
    change (is_digit (chr " ")) with false. cbv iota.
    unfold isspace_or_eol_at at 1. rewrite He1, Hc1.
    change (uw_isspace (chr " ")) with true. cbv iota.
    subst G. remember (S (S (S F))) as G eqn:HG.
    cbn [parse_list]. rewrite Hstart.
    subst G. remember (S (S F)) as G eqn:HG.
    cbn [parse_list_loop]. change (current_line p) with L.
    unfold isspace_or_eol_at at 1. rewrite He1, Hc1.
    change (uw_isspace (chr " ")) with true. cbn [negb]. cbv iota.
    rewrite Hcm. subst G. remember (S F) as G eqn:HG.
    cbn [parse_nested_block].
    change (max_blocklevel p <=? blocklevel p)
      with (AMW_MAX_RESURSION_DEPTH <=? bl).
    destruct (AMW_MAX_RESURSION_DEPTH <=? bl) eqn:Hmax.
    + apply Nat.leb_le in Hmax.
      replace (bl + S r <=? AMW_MAX_RESURSION_DEPTH) with false
        by (symmetry; apply Nat.leb_gt; lia).
      reflexivity.
    + apply Nat.leb_gt in Hmax.
      change (set_block_indent (length pre + 1 + 1)
                (set_blocklevel (blocklevel p + 1) p))
        with (in_block L (length pre + 1 + 1) (bl + 1)).
      subst G. cbn [call_parser_func].
      assert (HL3 : L = (pre ++ ustr "- ") ++ dashes r ++ decimal n)
        by (rewrite HL2, <- Hr; reflexivity).
      rewrite <- Hlen2, HL3. rewrite HF at 1. rewrite IH by lia.
      rewrite <- HL3.
      destruct (bl + 1 + r <=? AMW_MAX_RESURSION_DEPTH) eqn:Hdeep.
      * replace (bl + S r <=? AMW_MAX_RESURSION_DEPTH) with true
          by (rewrite <- Hdeep; f_equal; lia).
        rewrite nested_list_no_error.
        set (q := set_blocklevel _ _).
        assert (Hq : q = at_end_in_block (length pre) bl).
        { unfold q, p, in_block, at_end_in_block, set_blocklevel,
            set_block_indent.
          cbn [markup current_line current_indent line_number block_indent
               blocklevel max_blocklevel skip_comments eof custom_parsers].
          now rewrite Nat.add_sub. }
        rewrite Hq. unfold _amw_read_block_line, at_end_in_block at 1 2.
        cbn [eof blocklevel].
        replace (0 <? bl) with true by (symmetry; apply Nat.ltb_lt; lia).
        reflexivity.
      * replace (bl + S r <=? AMW_MAX_RESURSION_DEPTH) with false
          by (rewrite <- Hdeep; f_equal; lia).
        cbn [uw_error].
        set (q := set_blocklevel _ _).
        assert (Hq : q = p).
        { unfold q, p, in_block, set_blocklevel, set_block_indent.
          cbn [markup current_line current_indent line_number block_indent
               blocklevel max_blocklevel skip_comments eof custom_parsers].
          now rewrite Nat.add_sub. }
        now rewrite Hq.
Qed.

(** X20. The limit of nesting.  A line of [d] list markers followed by an
    integer parses to the integer inside [d] lists of one item as long as
    [d] is below 100, the depth AMW_MAX_RESURSION_DEPTH: the document is
    block 1 and every marker opens one more block.  From 100 markers on
    the result is the error Too many nested blocks, located at line 1,
    position 0. *)
Theorem nesting_limit (f : ustring -> nat) (fuel d : nat) (n : Z) :
  (0 <= n <= UW_SIGNED_MAX)%Z ->
  amw_parse f (5 * d + 2 + fuel) (lines_text [dashes d ++ decimal n])
  = Some (if d <? AMW_MAX_RESURSION_DEPTH
          then nested_list d (UwSigned n)
          else AmwStatus 1 0 "Too many nested blocks").
Proof.
  intros Hn.
  pose proof (@nested_dashes f n Hn d [] 1 fuel) as Hrun.
  cbn [app length] in Hrun.
  assert (Hlim : (1 + d <=? AMW_MAX_RESURSION_DEPTH)
                 = (d <? AMW_MAX_RESURSION_DEPTH)) by reflexivity.
  rewrite Hlim in Hrun.
  assert (Hread : _amw_read_block_line
                    (amw_create_parser (lines_text [dashes d ++ decimal n]))
                  = (UwOK, in_block (dashes d ++ decimal n) 0 1))
    by (apply first_read_solid; [apply dashes_solid; lia | constructor]).
  destruct (d <? AMW_MAX_RESURSION_DEPTH).
  - eapply amw_parse_at_end;
      [exact Hread | apply Hrun; unfold AMW_MAX_RESURSION_DEPTH; lia |].
    right. split; [reflexivity | cbn; lia].
  - eapply amw_parse_at_end;
      [exact Hread | apply Hrun; unfold AMW_MAX_RESURSION_DEPTH; lia |].
    left. reflexivity.
Qed.

Lemma nesting_limit_witness :
  amw_parse (fun _ => 0) 12 (lines_text [dashes 2 ++ decimal 5])
  = Some (UwList [UwList [UwSigned 5]])
  /\ amw_parse (fun _ => 0) 502 (lines_text [dashes 100 ++ decimal 5])
     = Some (AmwStatus 1 0 "Too many nested blocks").
Proof.
  assert (Hn : (0 <= 5 <= UW_SIGNED_MAX)%Z) by (vm_compute; split; congruence).
  split.
  - exact (@nesting_limit (fun _ => 0) 0 2 5 Hn).
  - exact (@nesting_limit (fun _ => 0) 0 100 5 Hn).
Defined.

(** ** Blocks of the string specifiers *)

Lemma spaces_are_spaces (b : nat) :
  Forall (fun c => uw_isspace c = true) (repeat (chr " ") b).
Proof. induction b; constructor; [reflexivity | assumption]. Qed.

(** Stripping an indented line: nothing stays of a blank line, and the
    indent stays in front of any other. *)
Lemma rtrim_indented (b : nat) (l : ustring) :
  uw_string_rtrim (indented b l)
  = match uw_string_rtrim l with
    | [] => []
    | _ => indented b (uw_string_rtrim l)
    end.
Proof.
  unfold uw_string_rtrim, indented. rewrite rev_app_distr, ltrim_app.
  destruct (uw_string_ltrim (rev l)) as [| c x] eqn:Hl.
  - rewrite ltrim_spaces by (apply Forall_rev, spaces_are_spaces).
    reflexivity.
  - rewrite rev_app_distr, rev_involutive.
    destruct (rev (c :: x)) as [| d r] eqn:Hr; [| reflexivity].
    apply (f_equal (@length _)) in Hr. rewrite length_rev in Hr.
    discriminate Hr.
Qed.

Lemma indented_line_fits (b : nat) (l : ustring) :
  (uw_strlen (uw_string_rtrim (indented b l)) =? 0)
  || (b <=? indent_of (indented b l)) = true.
Proof.
  unfold indent_of. rewrite rtrim_indented.
  destruct (uw_string_rtrim l) as [| c r]; [reflexivity |].
  apply orb_true_iff. right. apply Nat.leb_le.
  unfold uw_string_skip_spaces, indented. cbn [skipn Nat.add].
  rewrite leading_spaces_app by apply spaces_are_spaces.
  rewrite repeat_length. lia.
Qed.

Lemma indented_line_text (b : nat) (l : ustring) :
  uw_substr (uw_string_rtrim (indented b l)) b
    (length (uw_string_rtrim (indented b l)))
  = uw_string_rtrim l.
Proof.
  rewrite rtrim_indented. unfold uw_substr.
  destruct (uw_string_rtrim l) as [| c r].
  - now rewrite skipn_nil, firstn_nil.
  - unfold indented. rewrite skipn_app, repeat_length, Nat.sub_diag.
    rewrite skipn_all2 by (rewrite repeat_length; lia).
    cbn [skipn app]. rewrite length_app, repeat_length.
    replace (b + length (c :: r) - b) with (length (c :: r)) by lia.
    apply firstn_all.
Qed.

(** The block reader inside a block of indent [b] on a line that is
    indented by [b] spaces at least, or blank. *)
Lemma read_indented_line (a : ustring) (rest : list ustring) (k : nat)
    (cl : ustring) (ci ln b bl mbl : nat)
    (cp : list (ustring * AmwBlockParserFunc)) :
  _amw_read_block_line
    (mkParser (mkMarkup ((indented b a ++ [LF]) :: rest) k) cl ci ln b bl
       mbl false false cp)
  = (UwOK,
     mkParser (mkMarkup rest (S k)) (uw_string_rtrim (indented b a))
       (indent_of (indented b a)) (S k) b bl mbl false false cp).
Proof.
  unfold _amw_read_block_line. cbn [eof markup pending].
  rewrite read_block_line_loop_cons. cbv zeta. rewrite line_read_mk.
  cbn [skip_comments andb lineno]. unfold after_skip.
  cbn [current_line block_indent current_indent].
  assert (Hind : indent_of (indented b a ++ [LF])
                 = indent_of (indented b a))
    by (unfold indent_of; now rewrite rtrim_LF).
  rewrite rtrim_LF, ?Hind.
  pose proof (indented_line_fits b a) as Hfit.
  destruct (uw_strlen (uw_string_rtrim (indented b a)) =? 0);
    [reflexivity |].
  cbn [orb] in Hfit. now rewrite Hfit.
Qed.

(** The block collector inside a block of indent [b]: it takes every line
    up to the end of the input, without the indent of the block. *)
Lemma read_block_loop_indented (b bl : nat) (ls : list ustring) :
  forall (fuel k ci : nat) (L : ustring) (acc : list ustring),
  exists q,
    read_block_loop (length ls + 1 + fuel)
      (mkParser (mkMarkup (map (fun l => l ++ [LF]) (map (indented b) ls)) k)
         L ci k b bl AMW_MAX_RESURSION_DEPTH false false builtin_parsers)
      acc
    = Some (inr (acc ++ uw_substr L b (length L)
                        :: map uw_string_rtrim ls), q)
    /\ eof q = true /\ blocklevel q = bl.
Proof.
  induction ls as [| a ls IH]; intros fuel k ci L acc.
  - cbn [length Nat.add map read_block_loop current_line block_indent].
    rewrite read_block_line_at_end by reflexivity.
    cbn [_amw_end_of_block]. eexists. split; [reflexivity |].
    split; reflexivity.
  - cbn [length Nat.add map read_block_loop current_line block_indent].
    rewrite read_indented_line.
    cbn [_amw_end_of_block UwOK uw_error].
    destruct (IH fuel (S k) (indent_of (indented b a))
                (uw_string_rtrim (indented b a))
                (acc ++ [uw_substr L b (length L)]))
      as (q & Hq & He & Hb).
    exists q. rewrite Hq, <- app_assoc, indented_line_text. cbn [app].
    repeat split; assumption.
Qed.

(** X21. Blocks of the string specifiers.  A document whose first line is
    the conversion specifier raw, literal or folded between colons,
    followed by the end of the line or by a space and text, is a block that
    starts at the closing colon of the specifier: the first line of the
    value is that colon with what follows it, and the block takes the lines
    that are blank or indented up to the position of the closing colon at
    least, without that indent and stripped at their right ends.  When the
    last line is not blank, raw and literal give the line itself for a
    block of one line and otherwise the lines, each closed by LF; folded
    joins the lines that are not empty with single spaces. *)
Theorem string_specifier_documents (f : ustring -> nat) (fuel : nat)
    (name : string) (y : ustring) (ls : list ustring) :
  In name string_specifiers ->
  one_line y -> starts_with_space y ->
  uw_isspace (last y (chr ":")) = false ->
  Forall one_line ls ->
  uw_string_rtrim (last ls (chr ":" :: y)) <> [] ->
  amw_parse f (length ls + 4 + fuel)
    (lines_text
       ((chr ":" :: ustr name ++ chr ":" :: y)
        :: map (indented (S (length (ustr name)))) ls))
  = Some (UwString
            (specifier_value name
               ((chr ":" :: y) :: map uw_string_rtrim ls))).
Proof.
  intros Hname Hy Hsp Hlast Hls Hend.
  set (b := S (length (ustr name))).
  set (L := chr ":" :: ustr name ++ chr ":" :: y).
  assert (Hfacts : Forall name_char (ustr name) /\ ustr name <> []
                   /\ exists fn, lookup_parser builtin_parsers (ustr name)
                                 = Some fn
                                 /\ (name = "raw"%string
                                     /\ fn = Fn_parse_raw_value
                                     \/ name = "literal"%string
                                        /\ fn = Fn_parse_literal_string
                                     \/ name = "folded"%string
                                        /\ fn = Fn_parse_folded_string)).
  { destruct Hname as [<- | [<- | [<- | []]]];
      (split; [repeat constructor; discriminate |]);
      (split; [discriminate |]); eexists; (split; [reflexivity |]); tauto. }
  destruct Hfacts as (Hn & Hne & fn & Hl & Hfn).
  assert (Hsolid : solid L).
  { unfold solid, L. split; [| split; [reflexivity | split]].
    - constructor; [reflexivity |]. apply Forall_app. split.
      + eapply Forall_impl; [| exact Hn]. intros c Hc. apply Hc.
      + constructor; [reflexivity | exact Hy].
    - replace (chr ":" :: ustr name ++ chr ":" :: y)
        with ((chr ":" :: ustr name) ++ chr ":" :: y) by reflexivity.
      destruct y as [| c y'] using rev_ind.
      + rewrite last_last. reflexivity.
      + rewrite last_last in Hlast.
        replace ((chr ":" :: ustr name) ++ chr ":" :: y' ++ [c])
          with (((chr ":" :: ustr name) ++ chr ":" :: y') ++ [c])
          by (now rewrite <- app_assoc).
        rewrite last_last. exact Hlast.
    - discriminate. }
  assert (Hlines : Forall one_line (map (indented b) ls)).
  { apply Forall_map. eapply Forall_impl; [| exact Hls].
    intros l Hl'. apply Forall_app. split; [| exact Hl'].
    apply Forall_forall. intros c Hc. apply repeat_spec in Hc.
    now subst c. }
  assert (Hfirst : uw_substr L b (length L) = chr ":" :: y).
  { unfold uw_substr, L, b. cbn [skipn length].
    rewrite skipn_app, Nat.sub_diag, skipn_all. cbn [skipn app].
    rewrite length_app. cbn [length].
    replace (S (length (ustr name) + S (length y)) - S (length (ustr name)))
      with (length (chr ":" :: y)) by (cbn [length]; lia).
    apply firstn_all. }
  destruct (@read_block_loop_indented b 2 ls fuel 1 0 L [])
    as (q & Hq & He & Hb).
  rewrite Hfirst in Hq. cbn [app] in Hq.
  set (q' := set_blocklevel (blocklevel (set_block_indent 0 q) - 1)
               (set_block_indent 0 q)).
  assert (Hq' : eof q' = true /\ 0 < blocklevel q').
  { unfold q'. destruct q. cbn in *. subst. split; [reflexivity | lia]. }
  eapply amw_parse_at_end with (p' := q');
    [apply first_read_solid; assumption | | right; exact Hq'].
  replace (length ls + 4 + fuel) with (S (S (S (length ls + 1 + fuel))))
    by lia.
  unfold at_line.
  rewrite (@parse_value_specifier f _ _ (ustr name) y fn Hn Hne Hl Hsp).
  remember (length ls + 1 + fuel) as F eqn:HF.
  cbn [parse_nested_block max_blocklevel blocklevel].
  change (AMW_MAX_RESURSION_DEPTH <=? 1) with false. cbv iota.
  match goal with
  | |- context [call_parser_func f (S F) fn ?x] =>
      change x
        with (mkParser
                (mkMarkup (map (fun l => l ++ [LF]) (map (indented b) ls)) 1)
                L 0 1 b 2 AMW_MAX_RESURSION_DEPTH false false
                builtin_parsers)
  end.
  cbn [block_indent set_blocklevel]. fold q'.
  assert (Hlast' : last ((chr ":" :: y) :: map uw_string_rtrim ls) []
                   <> []).
  { clear - Hend. destruct ls as [| a ls' _] using rev_ind; [discriminate |].
    rewrite last_last in Hend. rewrite map_app. cbn [map].
    rewrite app_comm_cons, last_last. exact Hend. }
  assert (Hkeep : uw_list_join LF
                    (if 1 <? length ((chr ":" :: y)
                                     :: map uw_string_rtrim ls)
                     then ((chr ":" :: y) :: map uw_string_rtrim ls) ++ [[]]
                     else (chr ":" :: y) :: map uw_string_rtrim ls)
                  = literal_text
                      ((chr ":" :: y) :: map uw_string_rtrim ls)).
  { destruct ls as [| a ls']; [reflexivity |].
    cbn [map length Nat.ltb Nat.leb]. rewrite join_closed_lines.
    reflexivity. }
  cbn [call_parser_func].
  destruct Hfn as [[-> ->] | [[-> ->] | [-> ->]]].
  - unfold parse_raw_value, _amw_read_block. rewrite Hq.
    cbv beta iota zeta.
    exact (f_equal (fun v => Some (UwString v, @None nat, q')) Hkeep).
  - unfold parse_literal_string, _amw_read_block. rewrite Hq.
    cbv beta iota zeta.
    rewrite dedent_first by (try discriminate; reflexivity).
    rewrite (@drop_trailing_empty_last _ []).
    + exact (f_equal (fun v => Some (UwString v, @None nat, q')) Hkeep).
    + exact Hlast'.
  - unfold parse_folded_string, _amw_read_block. rewrite Hq.
    cbv beta iota zeta.
    rewrite dedent_first by (try discriminate; reflexivity).
    reflexivity.
Qed.

Lemma string_specifier_documents_witness :
  amw_parse (fun _ => 0) 7
    (lines_text [ustr ":folded: one"; ustr "       two  "; ustr "       ";
                 ustr "        three"])
  = Some (UwString (ustr ": one two  three")).
Proof.
  assert (H1 : In "folded"%string string_specifiers)
    by (right; right; left; reflexivity).
  assert (H2 : one_line (ustr " one")) by (repeat constructor).
  assert (H3 : starts_with_space (ustr " one")) by reflexivity.
  assert (H4 : uw_isspace (last (ustr " one") (chr ":")) = false)
    by reflexivity.
  assert (H5 : Forall one_line [ustr "two  "; ustr ""; ustr " three"])
    by (unfold one_line; repeat constructor).
  assert (H6 : uw_string_rtrim
                 (last [ustr "two  "; ustr ""; ustr " three"]
                    (chr ":" :: ustr " one")) <> [])
    by (vm_compute; discriminate).
  exact (@string_specifier_documents (fun _ => 0) 0 "folded" (ustr " one")
           [ustr "two  "; ustr ""; ustr " three"] H1 H2 H3 H4 H5 H6).
Defined.

(** ** The value of a list item on the next line *)

(** A solid line behind [k] spaces: stripping changes nothing, the indent
    is [k], and the first character of the line stands at [k]. *)
Lemma indented_solid (k : nat) (l : ustring) :
  solid l ->
  one_line (indented k l)
  /\ uw_string_rtrim (indented k l) = indented k l
  /\ indent_of (indented k l) = k
  /\ uw_char_at (indented k l) k = hd 0%Z l.
Proof.
  intros Hl. destruct (solid_facts Hl) as (Hne & Hr & _ & _ & _ & _).
  destruct Hl as (Hone & Hh & _ & _).
  destruct l as [| c r]; [congruence |]. cbn [hd] in Hh.
  assert (Hstrip : uw_string_rtrim (indented k (c :: r))
                   = indented k (c :: r))
    by (rewrite rtrim_indented, Hr; reflexivity).
  split; [| split; [exact Hstrip | split]].
  - apply Forall_app. split; [| exact Hone].
    apply Forall_forall. intros x Hx. apply repeat_spec in Hx. now subst x.
  - unfold indent_of. rewrite Hstrip.
    unfold uw_string_skip_spaces, indented. cbn [skipn Nat.add].
    rewrite leading_spaces_app by apply spaces_are_spaces.
    rewrite repeat_length. cbn [leading_spaces]. rewrite Hh. lia.
  - unfold indented. rewrite <- (repeat_length (chr " ") k) at 2.
    apply char_at_app.
Qed.

Lemma indented_decimal (k : nat) (n : Z) :
  (0 <= n)%Z ->
  one_line (indented k (decimal n))
  /\ uw_string_rtrim (indented k (decimal n)) = indented k (decimal n)
  /\ indent_of (indented k (decimal n)) = k.
Proof.
  intros Hn.
  destruct (@indented_solid k (decimal n) (@decimal_solid n Hn))
    as (H1 & H2 & H3 & _).
  repeat split; assumption.
Qed.

(** The dispatcher inside the block of a list item whose value, a decimal
    numeral, stands on the line after the marker. *)
Lemma parse_value_next_line (f : ustring -> nat) (fuel k : nat) (n : Z) :
  (0 <= n <= UW_SIGNED_MAX)%Z ->
  parse_value f (S (S fuel))
    (mkParser (mkMarkup [] 2) (indented (S k) (decimal n)) (S k) 2 1 2
       AMW_MAX_RESURSION_DEPTH false false builtin_parsers) None
  = Some (UwSigned n, None,
          mkParser (mkMarkup [] 2) [] (S k) 2 1 2 AMW_MAX_RESURSION_DEPTH
            false true builtin_parsers).
Proof.
  intros Hn. destruct (@decimal_plain n) as (Hplain & Hne & Hdig); [lia |].
  set (L := indented (S k) (decimal n)).
  set (p := mkParser (mkMarkup [] 2) L (S k) 2 1 2 AMW_MAX_RESURSION_DEPTH
              false false builtin_parsers).
  assert (Hlen : length (repeat (chr " ") (S k)) = S k)
    by apply repeat_length.
  assert (Hnosp : uw_isspace (hd 0%Z (decimal n)) = false).
  { destruct (decimal n) as [| c t]; [congruence |].
    inversion Hplain; subst. now apply alnum_not_space. }
  assert (Hstart : get_start_position p = S k).
  { unfold get_start_position, p.
    cbn [block_indent current_indent current_line].
    destruct k as [| k']; [| reflexivity].
    change (1 <? 1) with false. cbv iota.
    refine (@skip_spaces_over [chr " "] [] (decimal n) (Forall_nil _) _).
    destruct (decimal n) as [| c t]; [exact I | exact Hnosp]. }
  assert (Hd : is_digit (uw_char_at (current_line p) (S k)) = true).
  { unfold p, L, indented. cbn [current_line]. rewrite <- Hlen at 2.
    destruct (decimal n) as [| c t]; [congruence |].
    rewrite char_at_app. exact Hdig. }
  assert (Hnum : _amw_parse_number p (S k) 1
                 = Some (UwSigned n, length (current_line p))).
  { rewrite <- Hlen.
    apply parse_number_decimal_at; [reflexivity | exact Hn]. }
  rewrite (@parse_value_number_at f (S fuel) p _ None _ _ Hstart Hd Hnum).
  apply check_value_end_eol with (status := UwStatus AMW_END_OF_BLOCK);
    [reflexivity | | reflexivity].
  now rewrite read_block_line_at_end.
Qed.

(** X22. The value of a list item on the next line.  In a document of two
    lines, a list marker alone on the first line and a decimal numeral on
    the second, the numeral is the value of the item when it is indented
    by one space at least, and the document parses to the list of that
    integer.  When the numeral is not indented, the block of the item ends
    before it and the result is the error Empty block, located at line 2,
    position 0. *)
Theorem list_item_on_next_line (f : ustring -> nat) (fuel k : nat) (n : Z) :
  (0 <= n <= UW_SIGNED_MAX)%Z ->
  amw_parse f (8 + fuel) (lines_text [ustr "-"; indented k (decimal n)])
  = Some (if k =? 0 then AmwStatus 2 0 "Empty block"
          else UwList [UwSigned n]).
Proof.
  intros Hn.
  destruct (@indented_decimal k n) as (Hone & Hstrip & Hind); [lia |].
  assert (Hdash : solid (ustr "-")).
  { unfold solid, one_line. repeat split; try discriminate.
    repeat constructor. }
  set (raw := indented k (decimal n) ++ [LF]).
  set (p0 := at_line [raw] 1 (ustr "-")).
  assert (Hread : _amw_read_block_line
                    (amw_create_parser
                       (lines_text [ustr "-"; indented k (decimal n)]))
                  = (UwOK, p0))
    by (apply first_read_solid; [exact Hdash | now constructor]).
  assert (Hval : exists q,
            parse_value f (8 + fuel) p0 None
            = Some (if k =? 0 then AmwStatus 2 0 "Empty block"
                    else UwList [UwSigned n], None, q)
            /\ (k <> 0 -> eof q = true /\ 0 < blocklevel q)).
  { change (8 + fuel) with (S (S (S (S (S (S (S (S fuel)))))))).
    remember (S (S (S (S (S (S (S fuel))))))) as G eqn:HG.
    cbn [parse_value].
    change (get_start_position p0) with 0.
    change (uw_char_at (current_line p0) 0) with (chr "-").
    change (uw_char_at (current_line p0) (0 + 1)) with 0%Z.
    change (chr "-" =? chr ":")%Z with false.
    change (chr "-" =? chr "-")%Z with true.
    change (is_digit 0%Z) with false.
    change (isspace_or_eol_at (current_line p0) (0 + 1)) with true.
    cbv iota.
    subst G. remember (S (S (S (S (S (S fuel)))))) as G eqn:HG.
    cbn [parse_list]. change (get_start_position p0) with 0.
    subst G. remember (S (S (S (S (S fuel))))) as G eqn:HG.
    cbn [parse_list_loop].
    change (isspace_or_eol_at (current_line p0) (0 + 1)) with true.
    change (comment_or_end_of_line p0 (0 + 1)) with true.
    cbn [negb]. cbv iota.
    subst G. remember (S (S (S (S fuel)))) as G eqn:HG.
    cbn [parse_nested_block_from_next_line].
    change (set_block_indent (block_indent p0 + 1) p0)
      with (mkParser (mkMarkup [raw] 1) (ustr "-") 0 1 1 1
              AMW_MAX_RESURSION_DEPTH false false builtin_parsers).
    destruct k as [| k'].
    - rewrite (@read_solid raw (decimal n))
        by (try (apply decimal_solid; lia); unfold raw;
            now rewrite rtrim_LF).
      cbn [Nat.eqb _amw_end_of_block]. eexists.
      split; [reflexivity | congruence].
    - change raw with (indented 1 (indented k' (decimal n)) ++ [LF]).
      rewrite read_indented_line.
      change (indented 1 (indented k' (decimal n)))
        with (indented (S k') (decimal n)).
      rewrite Hstrip, Hind. cbn [_amw_end_of_block UwOK uw_error].
      subst G. remember (S (S (S fuel))) as G eqn:HG.
      cbn [parse_nested_block set_block_indent block_indent blocklevel
           max_blocklevel markup current_line current_indent line_number
           skip_comments eof custom_parsers set_blocklevel Nat.sub Nat.add].
      change (AMW_MAX_RESURSION_DEPTH <=? 1) with false. cbv iota.
      subst G. cbn [call_parser_func].
      match goal with
      | |- context [parse_value f (S (S fuel)) ?x None] =>
          change x
            with (mkParser (mkMarkup [] 2) (indented (S k') (decimal n))
                    (S k') 2 1 2 AMW_MAX_RESURSION_DEPTH false false
                    builtin_parsers)
      end.
      rewrite parse_value_next_line by exact Hn.
      cbn [uw_error set_block_indent block_indent blocklevel
           max_blocklevel markup current_line current_indent line_number
           skip_comments eof custom_parsers set_blocklevel Nat.sub].
      unfold _amw_read_block_line. cbn [eof blocklevel Nat.ltb Nat.leb].
      cbn [_amw_end_of_block app Nat.eqb]. eexists.
      split; [reflexivity |]. intros _. split; [reflexivity | cbn; lia]. }
  destruct Hval as (q & Hval & Hq).
  eapply amw_parse_at_end; [exact Hread | exact Hval |].
  destruct k as [| k']; [left; reflexivity | right; now apply Hq].
Qed.

Lemma list_item_on_next_line_witness :
  amw_parse (fun _ => 0) 8 (lines_text [ustr "-"; ustr "   42"])
  = Some (UwList [UwSigned 42])
  /\ amw_parse (fun _ => 0) 8 (lines_text [ustr "-"; ustr "42"])
     = Some (AmwStatus 2 0 "Empty block").
Proof.
  assert (Hn : (0 <= 42 <= UW_SIGNED_MAX)%Z)
    by (vm_compute; split; congruence).
  split.
  - exact (@list_item_on_next_line (fun _ => 0) 0 3 42 Hn).
  - exact (@list_item_on_next_line (fun _ => 0) 0 0 42 Hn).
Defined.

(** ** The indent of the second item of a list *)

(** The reader on a line that holds a solid line behind [k] spaces: the
    line belongs to a block of indent up to [k] and ends any other. *)
Lemma read_indented_solid (raw l : ustring) (k : nat) (rest : list ustring)
    (j : nat) (cl : ustring) (ci ln bi bl mbl : nat)
    (cp : list (ustring * AmwBlockParserFunc)) :
  uw_string_rtrim raw = indented k l -> solid l ->
  _amw_read_block_line
    (mkParser (mkMarkup (raw :: rest) j) cl ci ln bi bl mbl false false cp)
  = if bi <=? k
    then (UwOK,
          mkParser (mkMarkup rest (S j)) (indented k l) k (S j) bi bl mbl
            false false cp)
    else (UwStatus AMW_END_OF_BLOCK,
          mkParser (mkMarkup (indented k l :: rest) j) [] k (S j) bi bl mbl
            false false cp).
Proof.
  intros Hraw Hl.
  destruct (indented_solid k Hl) as (_ & Hstrip & Hind & Hc).
  destruct (solid_facts Hl) as (Hne & _ & _ & _ & _ & Hcm).
  assert (Hind' : indent_of raw = k)
    by (unfold indent_of in *; rewrite Hraw; rewrite Hstrip in Hind;
        exact Hind).
  assert (Hlen : (uw_strlen (indented k l) =? 0) = false).
  { apply Nat.eqb_neq. unfold uw_strlen, indented. rewrite length_app.
    destruct l; [congruence | cbn [length]; lia]. }
  unfold _amw_read_block_line. cbn [eof markup pending].
  rewrite read_block_line_loop_cons. cbv zeta. rewrite line_read_mk.
  cbn [skip_comments andb lineno]. unfold after_skip.
  cbn [current_line block_indent current_indent].
  fold (indent_of raw). rewrite Hraw, Hind', Hlen.
  unfold is_comment_line. cbn [current_line current_indent]. rewrite Hc.
  destruct l as [| c r]; [congruence |]. cbn [hd].
  change (uw_char_at (c :: r) 0) with c in Hcm. rewrite Hcm.
  destruct (bi <=? k); [reflexivity |].
  unfold set_current_line, set_markup, uw_unread_line.
  cbn [markup current_line current_indent line_number block_indent
       blocklevel max_blocklevel skip_comments eof custom_parsers pending
       lineno Nat.sub].
  now rewrite Nat.sub_0_r.
Qed.

(** The nested block of a decimal numeral that ends its line: the value is
    the number, and the parser is where the read of the next line left
    it, back in the root block. *)
Lemma nested_integer_read (f : ustring -> nat) (fuel : nat)
    (pend : list ustring) (k : nat) (pre : ustring) (n : Z)
    (status : UwValue) (q : AmwParser) :
  pre <> [] ->
  (0 <= n <= UW_SIGNED_MAX)%Z ->
  _amw_read_block_line
    (mkParser (mkMarkup pend k) (pre ++ decimal n) 0 k (length pre) 2
       AMW_MAX_RESURSION_DEPTH false false builtin_parsers)
  = (status, q) ->
  negb (_amw_end_of_block status) && uw_error status = false ->
  parse_nested_block f (S (S (S (S fuel))))
    (at_line pend k (pre ++ decimal n)) (length pre) Fn_value_parser_func
  = Some (UwSigned n, set_blocklevel (blocklevel q - 1) (set_block_indent 0 q)).
Proof.
  intros Hpre Hn Hread Hst. set (L := pre ++ decimal n).
  destruct (@decimal_plain n) as (Hplain & Hne & Hdig); [lia |].
  set (p' := mkParser (mkMarkup pend k) L 0 k (length pre) 2
               AMW_MAX_RESURSION_DEPTH false false builtin_parsers).
  assert (Hc : uw_char_at L (length pre) = hd 0%Z (decimal n)).
  { unfold L. destruct (decimal n) as [| c r]; [congruence |].
    apply char_at_app. }
  assert (Hstart : get_start_position p' = length pre).
  { unfold get_start_position, p'.
    cbn [block_indent current_indent current_line].
    replace (length pre <? 0) with false by (symmetry; apply Nat.ltb_ge; lia).
    change L with (pre ++ [] ++ decimal n).
    rewrite skip_spaces_over; [cbn [length]; lia | constructor |].
    destruct (decimal n) as [| c r]; [congruence |].
    inversion Hplain; subst. now apply alnum_not_space. }
  assert (Hnum : _amw_parse_number p' (length pre) 1
                 = Some (UwSigned n, length (current_line p')))
    by (apply parse_number_decimal_at; [reflexivity | exact Hn]).
  unfold at_line. cbn [parse_nested_block].
  change (max_blocklevel (mkParser _ _ _ _ _ _ _ _ _ _)
          <=? blocklevel (mkParser _ _ _ _ _ _ _ _ _ _)) with false.
  cbv iota.
  change (set_block_indent (length pre)
            (set_blocklevel
               (blocklevel (mkParser (mkMarkup pend k) L 0 k 0 1
                              AMW_MAX_RESURSION_DEPTH false false
                              builtin_parsers) + 1)
               (mkParser (mkMarkup pend k) L 0 k 0 1
                  AMW_MAX_RESURSION_DEPTH false false builtin_parsers)))
    with p'.
  cbn [call_parser_func].
  rewrite (@parse_value_number_at f (S fuel) p' (length pre) None
             (UwSigned n) (length (current_line p')) Hstart);
    [| change (current_line p') with L; rewrite Hc; exact Hdig | exact Hnum].
  rewrite (@check_value_end_eol f fuel p' _ (UwSigned n) status eq_refl
             Hread) by exact Hst.
  reflexivity.
Qed.

(** X23. The indent of the second item of a list.  In a document of two
    lines that are list items with decimal numerals, the second item has
    to start in the column of the first.  Indented by one space it is
    rejected with the error Bad indentation of list item, located at line
    2, position 1.  Indented by two spaces or more, its line is taken for
    a line of the block of the first item, read when the end of the first
    value is looked for and never examined: the document parses to the
    list of the first integer alone. *)
Theorem second_item_indent (f : ustring -> nat) (fuel k : nat) (a b : Z) :
  (0 <= a <= UW_SIGNED_MAX)%Z -> (0 <= b <= UW_SIGNED_MAX)%Z ->
  amw_parse f (8 + fuel)
    (lines_text [integer_item a; indented k (integer_item b)])
  = Some (match k with
          | 0 => UwList [UwSigned a; UwSigned b]
          | 1 => AmwStatus 2 1 "Bad indentation of list item"
          | _ => UwList [UwSigned a]
          end).
Proof.
  intros Ha Hb.
  assert (Hsa : solid (integer_item a)) by (apply integer_item_solid; lia).
  assert (Hsb : solid (integer_item b)) by (apply integer_item_solid; lia).
  destruct (indented_solid k Hsb) as (Hone & Hstrip & _ & _).
  set (L2 := indented k (integer_item b)) in *.
  set (p0 := at_line [L2 ++ [LF]] 1 (integer_item a)).
  assert (Hread : _amw_read_block_line
                    (amw_create_parser
                       (lines_text [integer_item a; L2]))
                  = (UwOK, p0))
    by (apply first_read_solid; [exact Hsa | now constructor]).
  destruct (@integer_item_value_start [L2 ++ [LF]] 1 a) as [Hsp Hcm];
    [lia |].
  fold p0 in Hsp, Hcm.
  assert (Hval : exists q,
            parse_value f (8 + fuel) p0 None
            = Some (match k with
                    | 0 => UwList [UwSigned a; UwSigned b]
                    | 1 => AmwStatus 2 1 "Bad indentation of list item"
                    | _ => UwList [UwSigned a]
                    end, None, q)
            /\ (k <> 1 -> eof q = true /\ 0 < blocklevel q)).
  { change (8 + fuel) with (S (S (S (S (S (S (S (S fuel)))))))).
    remember (S (S (S (S (S fuel))))) as F eqn:HF.
    cbn [parse_value parse_list].
    change (get_start_position p0) with 0.
    change (uw_char_at (current_line p0) 0) with (chr "-").
    change (uw_char_at (current_line p0) (0 + 1)) with (chr " ").
    change ((chr "-" =? chr ":")%Z) with false.
    change ((chr "-" =? chr "-")%Z) with true.
    change (is_digit (chr " ")) with false. cbv iota.
    rewrite Hsp. cbv iota.
    cbn [parse_list_loop]. rewrite Hsp, Hcm. cbn [negb].
    change (0 + 1 + 1) with (length (ustr "- ")).
    pose proof (@read_indented_solid (L2 ++ [LF]) (integer_item b) k [] 1
                  (integer_item a) 0 1 (length (ustr "- ")) 2
                  AMW_MAX_RESURSION_DEPTH builtin_parsers) as Hrd.
    rewrite rtrim_LF in Hrd. specialize (Hrd Hstrip Hsb). fold L2 in Hrd.
    pose proof (fun status q =>
                  @nested_integer_read f (S fuel) [L2 ++ [LF]] 1 (ustr "- ")
                    a status q ltac:(discriminate) Ha) as Hnest.
    change (at_line [L2 ++ [LF]] 1 (ustr "- " ++ decimal a)) with p0
      in Hnest.
    change (ustr "- " ++ decimal a) with (integer_item a) in Hnest.
    subst F.
    destruct k as [| [| k']].
    - rewrite (Hnest _ _ Hrd eq_refl).
      cbn [uw_error].
      match goal with
      | |- context [_amw_read_block_line ?x] =>
          change x
            with (mkParser (mkMarkup [L2] 1) [] 0 2 0 1 AMW_MAX_RESURSION_DEPTH
                    false false builtin_parsers)
      end.
      rewrite (@read_indented_solid L2 (integer_item b) 0) by assumption.
      cbn [Nat.leb _amw_end_of_block UwOK uw_error current_indent Nat.eqb
           negb].
      destruct (@parse_list_loop_integers f fuel [] b 2 [UwSigned a] Hb
                  (Forall_nil _)) as (q & Hrun & Hq).
      exists q. split; [| intros _; exact Hq].
      assert (Hrun' : parse_list_loop f (S (S (S (S (S fuel)))))
                        (mkParser (mkMarkup [] 2)
                           (indented 0 (integer_item b)) 0 2 0 1
                           AMW_MAX_RESURSION_DEPTH false false
                           builtin_parsers) 0 ([] ++ [UwSigned a])
                      = Some (UwList [UwSigned a; UwSigned b], q))
        by exact Hrun.
      rewrite Hrun'. reflexivity.
    - rewrite (Hnest _ _ Hrd eq_refl).
      cbn [uw_error].
      match goal with
      | |- context [_amw_read_block_line ?x] =>
          change x
            with (mkParser (mkMarkup [L2] 1) [] 1 2 0 1 AMW_MAX_RESURSION_DEPTH
                    false false builtin_parsers)
      end.
      rewrite (@read_indented_solid L2 (integer_item b) 1) by assumption.
      cbn [Nat.leb _amw_end_of_block UwOK uw_error current_indent Nat.eqb
           negb].
      eexists. split; [reflexivity | congruence].
    - rewrite (Hnest _ _ Hrd eq_refl).
      cbn [uw_error].
      match goal with
      | |- context [_amw_read_block_line ?x] =>
          change x
            with (mkParser (mkMarkup [] 2) L2 (S (S k')) 2 0 1
                    AMW_MAX_RESURSION_DEPTH false false builtin_parsers)
      end.
      rewrite read_block_line_at_end by reflexivity.
      cbn [_amw_end_of_block]. eexists.
      split; [reflexivity |]. intros _. split; [reflexivity | cbn; lia]. }
  destruct Hval as (q & Hval & Hq).
  eapply amw_parse_at_end; [exact Hread | exact Hval |].
  destruct k as [| [| k']];
    [right; apply Hq; congruence | left; reflexivity
    | right; apply Hq; congruence].
Qed.

Lemma second_item_indent_witness :
  amw_parse (fun _ => 0) 8 (lines_text [ustr "- 1"; ustr "- 2"])
  = Some (UwList [UwSigned 1; UwSigned 2])
  /\ amw_parse (fun _ => 0) 8 (lines_text [ustr "- 1"; ustr " - 2"])
     = Some (AmwStatus 2 1 "Bad indentation of list item")
  /\ amw_parse (fun _ => 0) 8 (lines_text [ustr "- 1"; ustr "  - 2"])
     = Some (UwList [UwSigned 1]).
Proof.
  assert (H1 : (0 <= 1 <= UW_SIGNED_MAX)%Z)
    by (vm_compute; split; congruence).
  assert (H2 : (0 <= 2 <= UW_SIGNED_MAX)%Z)
    by (vm_compute; split; congruence).
  split; [| split].
  - exact (@second_item_indent (fun _ => 0) 0 0 1 2 H1 H2).
  - exact (@second_item_indent (fun _ => 0) 0 1 1 2 H1 H2).
  - exact (@second_item_indent (fun _ => 0) 0 2 1 2 H1 H2).
Defined.
